(** * mdToHtml: a shallow embedding of the Markdown -> HTML renderers

    The development follows [src/mdToHtml.js] (the renderer with the
    markdown-it delegation and the built-in fallback parser) and the small
    stand-alone renderer of [src/unnamed/part_000].

    JavaScript strings are modelled by [string]: a sequence of code units
    restricted to the range 0..255 (Latin-1).  Whitespace, case mapping
    and the dot of the patterns are the restrictions of the JavaScript
    ones to that range; every statement below is about texts of that
    range.  The characters outside it that the renderers treat specially
    are the further whitespace characters and the two line terminators
    U+2028 and U+2029, which the dot rejects like a line feed.  Regular
    expressions are modelled by a backtracking matcher that follows the
    ECMAScript matching order (leftmost alternative first, greedy and lazy
    quantifiers, captures, lookahead). *)

From Stdlib Require Import String Ascii List Bool Arith NArith Lia.
From Stdlib Require Import DecimalString.
Import ListNotations.
Open Scope string_scope.
Open Scope bool_scope.

(* ================================================================== *)
(** ** Characters and character classes *)
(* ================================================================== *)

Module Chars.

Definition code (c : ascii) : N := N_of_ascii c.

Definition LF : ascii := "010"%char.
Definition CR : ascii := "013"%char.
Definition TAB : ascii := "009"%char.
Definition DQ : ascii := "034"%char.
Definition SQ : ascii := "039"%char.
Definition BT : ascii := "096"%char.

Definition in_range (lo hi : N) (c : ascii) : bool :=
  (lo <=? code c)%N && (code c <=? hi)%N.

(** [\s], and the characters removed by [String.prototype.trim]:
    TAB, LF, VT, FF, CR, SPACE, NBSP. *)
Definition isWs (c : ascii) : bool :=
  in_range 9 13 c || (code c =? 32)%N || (code c =? 160)%N.

Definition isDigit (c : ascii) : bool := in_range 48 57 c.
Definition isUpper (c : ascii) : bool := in_range 65 90 c.
Definition isLower (c : ascii) : bool := in_range 97 122 c.
Definition isAlnum (c : ascii) : bool := isDigit c || isUpper c || isLower c.

(** [.] without the [s] flag: anything but a line terminator.  The line
    terminators of the range are LF and CR; U+2028 and U+2029, which the
    dot rejects as well, are outside it. *)
Definition isDot (c : ascii) : bool :=
  negb (Ascii.eqb c LF || Ascii.eqb c CR).

Definition any (_ : ascii) : bool := true.

Definition chr (a : ascii) (c : ascii) : bool := Ascii.eqb c a.

(** A bracket class [[abc]] listing its members. *)
Fixpoint oneof (set : string) (c : ascii) : bool :=
  match set with
  | EmptyString => false
  | String a set' => Ascii.eqb c a || oneof set' c
  end.

(** Simple case mapping of [toLowerCase] on the range 0..255. *)
Definition lower (c : ascii) : ascii :=
  if isUpper c
     || (in_range 192 222 c && negb (code c =? 215)%N)
  then ascii_of_N (code c + 32) else c.

(** Case-insensitive literal, for the [i] flag on an ASCII letter. *)
Definition is_ci (a : ascii) (c : ascii) : bool :=
  Ascii.eqb c a
  || (isLower a && Ascii.eqb c (ascii_of_N (code a - 32)))
  || (isUpper a && Ascii.eqb c (ascii_of_N (code a + 32))).

End Chars.
Import Chars.

(* ================================================================== *)
(** ** String primitives of the JavaScript runtime *)
(* ================================================================== *)

Module JsString.

Definition str1 (c : ascii) : string := String c EmptyString.

Definition dq : string := str1 DQ.
Definition lf : string := str1 LF.

Fixpoint take (n : nat) (s : string) : string :=
  match n, s with
  | S n', String c s' => String c (take n' s')
  | _, _ => EmptyString
  end.

Fixpoint drop (n : nat) (s : string) : string :=
  match n, s with
  | S n', String _ s' => drop n' s'
  | _, _ => s
  end.

Fixpoint smap (f : ascii -> ascii) (s : string) : string :=
  match s with
  | EmptyString => EmptyString
  | String c s' => String (f c) (smap f s')
  end.

Fixpoint sall (p : ascii -> bool) (s : string) : bool :=
  match s with
  | EmptyString => true
  | String c s' => p c && sall p s'
  end.

Definition toLowerCase (s : string) : string := smap lower s.

Fixpoint trimStart (s : string) : string :=
  match s with
  | EmptyString => EmptyString
  | String c s' => if isWs c then trimStart s' else s
  end.

Fixpoint trimEnd (s : string) : string :=
  match s with
  | EmptyString => EmptyString
  | String c s' =>
      match trimEnd s' with
      | EmptyString => if isWs c then EmptyString else str1 c
      | t => String c t
      end
  end.

Definition trim (s : string) : string := trimEnd (trimStart s).

Fixpoint startsWith (s p : string) : bool :=
  match p, s with
  | EmptyString, _ => true
  | String a p', String c s' => Ascii.eqb c a && startsWith s' p'
  | String _ _, EmptyString => false
  end.

Definition endsWith (s p : string) : bool :=
  Nat.leb (String.length p) (String.length s)
  && String.eqb (drop (String.length s - String.length p) s) p.

Fixpoint includes (s : string) (c : ascii) : bool :=
  match s with
  | EmptyString => false
  | String x s' => Ascii.eqb x c || includes s' c
  end.

(** Truthiness of a string: non-empty. *)
Definition truthy (s : string) : bool :=
  match s with EmptyString => false | _ => true end.

(** [s.split(sep)] for a one-character separator. *)
Fixpoint split (sep : ascii) (s : string) : list string :=
  match s with
  | EmptyString => [EmptyString]
  | String c s' =>
      if Ascii.eqb c sep then EmptyString :: split sep s'
      else match split sep s' with
           | h :: t => String c h :: t
           | [] => [str1 c]
           end
  end.

(** [arr.join(sep)]. *)
Definition join (sep : string) (l : list string) : string :=
  String.concat sep l.

End JsString.
Import JsString.

(* ================================================================== *)
(** ** Regular expressions: a backtracking matcher *)
(* ================================================================== *)

Module Regex.

(** The fragment of ECMAScript patterns the renderers use.  [Star g r] is
    [r*] for [g = true] and the lazy [r*?] for [g = false]; [Group n r]
    is the [n]-th capturing parenthesis; [Bol] and [Eol] are [^] and [$]
    without the [m] flag; [Ahead] and [NotAhead] are [(?=r)] and [(?!r)].
    A capture inside a repeated group keeps the text of its last
    iteration; the renderers read no such capture. *)
Inductive regex : Type :=
| Eps
| Chr (p : ascii -> bool)
| Seq (r1 r2 : regex)
| Alt (r1 r2 : regex)
| Star (greedy : bool) (r : regex)
| Group (n : nat) (r : regex)
| Bol
| Eol
| Ahead (r : regex)
| NotAhead (r : regex).

(** Matcher state: the index of the next character, the text from there
    on, and the captures recorded so far (latest first). *)
Record mstate : Type := MState {
  pos : nat;
  rest : string;
  caps : list (nat * string)
}.

Definition advance (st : mstate) (s' : string) : mstate :=
  MState (S (pos st)) s' (caps st).

Definition set_cap (n : nat) (st0 st1 : mstate) : mstate :=
  MState (pos st1) (rest st1)
         ((n, take (pos st1 - pos st0) (rest st0)) :: caps st1).

Definition orElse (a : option mstate) (b : unit -> option mstate)
  : option mstate :=
  match a with Some x => Some x | None => b tt end.

(** The RepeatMatcher of the language definition for [r*] and [r*?]:
    [m1] matches one iteration, and an iteration that consumes nothing
    is rejected.  [n] bounds the iterations by the length of the text
    left, which no run of non-empty iterations exceeds. *)
Fixpoint star_loop (g : bool)
         (m1 : mstate -> (mstate -> option mstate) -> option mstate)
         (k : mstate -> option mstate) (n : nat) (st : mstate)
  {struct n} : option mstate :=
  match n with
  | O => k st
  | S n' =>
      let again := fun _ : unit =>
        m1 st (fun st1 =>
          if Nat.leb (pos st1) (pos st) then None
          else star_loop g m1 k n' st1) in
      if g then orElse (again tt) (fun _ => k st)
      else orElse (k st) again
  end.

(** Continuation-passing backtracking: [k] is the rest of the pattern,
    and [None] makes the matcher try its next choice. *)
Fixpoint rmatch (r : regex) (st : mstate) (k : mstate -> option mstate)
  {struct r} : option mstate :=
  match r with
  | Eps => k st
  | Chr p =>
      match rest st with
      | String c s' => if p c then k (advance st s') else None
      | EmptyString => None
      end
  | Seq r1 r2 => rmatch r1 st (fun st1 => rmatch r2 st1 k)
  | Alt r1 r2 => orElse (rmatch r1 st k) (fun _ => rmatch r2 st k)
  | Star g r1 => star_loop g (rmatch r1) k (String.length (rest st)) st
  | Group n r1 => rmatch r1 st (fun st1 => k (set_cap n st st1))
  | Bol => if Nat.eqb (pos st) 0 then k st else None
  | Eol => match rest st with EmptyString => k st | _ => None end
  | Ahead r1 =>
      match rmatch r1 st (fun x => Some x) with
      | Some st1 => k (MState (pos st) (rest st) (caps st1))
      | None => None
      end
  | NotAhead r1 =>
      match rmatch r1 st (fun x => Some x) with
      | Some _ => None
      | None => k st
      end
  end.

(** Derived forms. *)
Definition Plus (g : bool) (r : regex) : regex := Seq r (Star g r).
Definition Opt (r : regex) : regex := Alt r Eps.

Fixpoint lit (s : string) : regex :=
  match s with
  | EmptyString => Eps
  | String c EmptyString => Chr (chr c)
  | String c s' => Seq (Chr (chr c)) (lit s')
  end.

Fixpoint lit_ci (s : string) : regex :=
  match s with
  | EmptyString => Eps
  | String c EmptyString => Chr (is_ci c)
  | String c s' => Seq (Chr (is_ci c)) (lit_ci s')
  end.

(** [r{n,}] *)
Fixpoint AtLeast (n : nat) (r : regex) : regex :=
  match n with
  | O => Star true r
  | S n' => Seq r (AtLeast n' r)
  end.

(** [r{0,n}] *)
Fixpoint UpTo (n : nat) (r : regex) : regex :=
  match n with
  | O => Eps
  | S n' => Opt (Seq r (UpTo n' r))
  end.

Fixpoint seqs (rs : list regex) : regex :=
  match rs with
  | [] => Eps
  | [r] => r
  | r :: rs' => Seq r (seqs rs')
  end.

Definition cap (n : nat) (cs : list (nat * string)) : option string :=
  match find (fun e => Nat.eqb (fst e) n) cs with
  | Some e => Some (snd e)
  | None => None
  end.

(** The result array of a successful match: the matched text, the
    captures and the index of the match. *)
Record mresult : Type := MResult {
  whole : string;
  groups : list (nat * string);
  index : nat
}.

(** [m[n] || ""]: an unset capture reads as the empty string wherever the
    renderers use one. *)
Definition grp (n : nat) (m : mresult) : string :=
  match cap n (groups m) with Some s => s | None => EmptyString end.

Definition matchAt (r : regex) (p : nat) (s : string) : option mresult :=
  match rmatch r (MState p s []) (fun x => Some x) with
  | Some e => Some (MResult (take (pos e - p) s) (caps e) p)
  | None => None
  end.

(** RegExpBuiltinExec without the sticky flag: the first index, from [p]
    on, at which the pattern matches. *)
Fixpoint search (r : regex) (p : nat) (s : string) : option mresult :=
  match matchAt r p s with
  | Some m => Some m
  | None =>
      match s with
      | EmptyString => None
      | String _ s' => search r (S p) s'
      end
  end.

Definition exec (r : regex) (s : string) : option mresult := search r 0 s.

Definition test (r : regex) (s : string) : bool :=
  match exec r s with Some _ => true | None => false end.

(** [s.replace(r, f)] for a pattern with the [g] flag.  [skip] counts the
    characters of the previous match that are still to be passed over;
    after an empty match the scan resumes one character further. *)
Fixpoint replace_walk (r : regex) (f : mresult -> string)
         (p : nat) (skip : nat) (s : string) : string :=
  match skip with
  | S skip' =>
      match s with
      | EmptyString => EmptyString
      | String _ s' => replace_walk r f (S p) skip' s'
      end
  | O =>
      match matchAt r p s with
      | Some m =>
          match s with
          | EmptyString => f m
          | String c s' =>
              match String.length (whole m) with
              | O => f m ++ String c (replace_walk r f (S p) 0 s')
              | S len => f m ++ replace_walk r f (S p) len s'
              end
          end
      | None =>
          match s with
          | EmptyString => EmptyString
          | String c s' => String c (replace_walk r f (S p) 0 s')
          end
      end
  end.

Definition replaceAll (r : regex) (f : mresult -> string) (s : string)
  : string :=
  replace_walk r f 0 0 s.

(** [s.replace(r, f)] for a pattern without the [g] flag. *)
Definition replaceFirst (r : regex) (f : mresult -> string) (s : string)
  : string :=
  match exec r s with
  | Some m =>
      take (index m) s ++ f m
      ++ drop (index m + String.length (whole m)) s
  | None => s
  end.

End Regex.
Import Regex.

(* ================================================================== *)
(** ** Utilities of mdToHtml.js *)
(* ================================================================== *)

(** A source value handed to the renderer: [null], [undefined] or a
    string. *)
Inductive jsval : Type :=
| JNull
| JUndefined
| JStr (s : string).

(** The options object; an absent [linkTargetBlank] is [None]. *)
Record options : Type := Options {
  allowHtml : bool;
  allowUnsafeLinks : bool;
  linkTargetBlank : option bool
}.

Definition defaultOptions : options := Options false false None.

Definition const (s : string) : mresult -> string := fun _ => s.

Definition escapeHtml (str : string) : string :=
  replaceAll (Chr (chr SQ)) (const "&#39;")
    (replaceAll (Chr (chr DQ)) (const "&quot;")
      (replaceAll (Chr (chr ">")) (const "&gt;")
        (replaceAll (Chr (chr "<")) (const "&lt;")
          (replaceAll (Chr (chr "&")) (const "&amp;") str)))).

Definition unescapeHtml (str : string) : string :=
  replaceAll (lit "&amp;") (const "&")
    (replaceAll (lit "&#39;") (const (str1 SQ))
      (replaceAll (lit "&quot;") (const dq)
        (replaceAll (lit "&gt;") (const ">")
          (replaceAll (lit "&lt;") (const "<") str)))).

Definition normalizeNewlines (md : jsval) : string :=
  let s := match md with
           | JNull | JUndefined => EmptyString
           | JStr s => s
           end in
  replaceAll (Chr (chr CR)) (const lf)
    (replaceAll (lit (String CR lf)) (const lf) s).

Definition escapeAttr (str : string) : string :=
  replaceAll (Chr (chr BT)) (const "&#96;") (escapeHtml str).

Definition safeLinkHref (href : string) (allowUnsafeLinks : bool) : string :=
  let h := trim href in
  if negb (truthy h) then EmptyString
  else if allowUnsafeLinks then h
  else
    let lower := toLowerCase h in
    if startsWith lower "javascript:" || startsWith lower "vbscript:"
    then EmptyString
    else if startsWith lower "data:" then EmptyString
    else h.

(* ================================================================== *)
(** ** Fallback renderer: line classifiers *)
(* ================================================================== *)

Definition splitLines (md : jsval) : list string :=
  split LF (normalizeNewlines md).

Definition ws : regex := Chr isWs.
Definition ws0 : regex := Star true ws.
Definition ws1 : regex := Plus true ws.

Record fence : Type := Fence {
  indent : nat;
  marker : string;
  lang : string
}.

Definition isLangChar (c : ascii) : bool := isAlnum c || oneof "_-" c.

(** The pattern of [parseFence] (line 201): start, captured indentation,
    captured marker of three backticks or three tildes, optional captured
    language tag, optional whitespace, end. *)
Definition re_fence : regex :=
  seqs [Bol; Group 1 ws0; Group 2 (Alt (lit "```") (lit "~~~")); ws0;
        Opt (Group 3 (Plus true (Chr isLangChar))); ws0; Eol].

Definition parseFence (line : string) : option fence :=
  match exec re_fence line with
  | None => None
  | Some m => Some (Fence (String.length (grp 1 m)) (grp 2 m) (grp 3 m))
  end.

(** The patterns of [isThematicBreak] (line 209): three or more times the
    character [c], each followed by optional whitespace. *)
Definition re_break (c : ascii) : regex :=
  seqs [Bol; AtLeast 3 (Group 1 (Seq (Chr (chr c)) ws0)); Eol].

Definition isThematicBreak (line : string) : bool :=
  let t := trim line in
  test (re_break "*") t || test (re_break "-") t || test (re_break "_") t.

(** The pattern of [parseAtxHeading] (line 214): one to six hashes,
    whitespace, a lazily matched text, optional closing hashes. *)
Definition re_atx : regex :=
  seqs [Bol; Group 1 (Seq (Chr (chr "#")) (UpTo 5 (Chr (chr "#")))); ws1;
        Group 2 (Plus false (Chr isDot)); ws0; Star true (Chr (chr "#"));
        ws0; Eol].

Definition parseAtxHeading (line : string) : option (nat * string) :=
  match exec re_atx line with
  | None => None
  | Some m => Some (String.length (grp 1 m), grp 2 m)
  end.

(** [/^=+$/] and [/^-+$/] *)
Definition re_underline (c : ascii) : regex :=
  seqs [Bol; Plus true (Chr (chr c)); Eol].

(** The blocks of the segmenter. *)
Inductive block : Type :=
| Heading (level : nat) (text : string)
| Hr
| Code (lang : string) (content : string)
| Blockquote (lines : list string)
| ListBlock (ordered : bool) (items : list string)
| Table (headers : list string) (aligns : list string)
        (rows : list (list string))
| Paragraph (lines : list string).

(** The result of the setext recogniser: level, text and [nextIndex]. *)
Definition parseSetextHeading (lines : list string) (i : nat)
  : option (nat * string * nat) :=
  if Nat.leb (List.length lines) (i + 1) then None
  else
    let l1 := nth i lines EmptyString in
    let l2 := nth (i + 1) lines EmptyString in
    if negb (truthy (trim l1)) then None
    else
      let t := trim l2 in
      if negb (test (re_underline "=") t) && negb (test (re_underline "-") t)
      then None
      else Some (if test (re_underline "=") t then 1 else 2, trim l1, i + 2).

(** The patterns of [parseBlockquote] (lines 231 and 237). *)
Definition re_quote : regex := seqs [Bol; ws0; Chr (chr ">")].
Definition re_quote_strip : regex := seqs [Bol; ws0; Chr (chr ">"); Opt ws].

Fixpoint blockquote_loop (ls : list string) (j : nat) (buf : list string)
  : list string * nat :=
  match ls with
  | [] => (buf, j)
  | line :: ls' =>
      if negb (test re_quote line) then (buf, j)
      else blockquote_loop ls' (S j)
             (buf ++ [replaceFirst re_quote_strip (const EmptyString) line])
  end.

Definition parseBlockquote (lines : list string) (i : nat)
  : option (block * nat) :=
  if negb (test re_quote (nth i lines EmptyString)) then None
  else
    let '(buf, j) := blockquote_loop (skipn i lines) i [] in
    Some (Blockquote buf, j).

(** The patterns of [parseList] (lines 246 and 247): captured indentation,
    captured bullet or number, whitespace, captured non-empty item text. *)
Definition re_ul : regex :=
  seqs [Bol; Group 1 ws0; Group 2 (Chr (oneof "-+*")); ws1;
        Group 3 (Plus true (Chr isDot)); Eol].
Definition re_ol : regex :=
  seqs [Bol; Group 1 ws0; Group 2 (Plus true (Chr isDigit));
        Chr (oneof ".)"); ws1; Group 3 (Plus true (Chr isDot)); Eol].

Fixpoint list_loop (isOrdered : bool) (indent0 : nat) (ls : list string)
         (j : nat) (items : list string) : list string * nat :=
  match ls with
  | [] => (items, j)
  | line :: ls' =>
      if negb (truthy (trim line)) then (items, j)
      else
        let mu := exec re_ul line in
        let mo := exec re_ol line in
        match (if isOrdered then mo else mu) with
        | None => (items, j)
        | Some m =>
            if negb (Nat.eqb (String.length (grp 1 m)) indent0)
            then (items, j)
            else list_loop isOrdered indent0 ls' (S j) (items ++ [grp 3 m])
        end
  end.

(** [parseList lines i] for the index [i] of a line, which is what the
    main loop, its only caller, passes.  Past the array the source reads
    [undefined] and throws on [start.match], where this definition
    returns [None]: it stands for the source on the indices of lines
    only. *)
Definition parseList (lines : list string) (i : nat)
  : option (block * nat) :=
  let start := nth i lines EmptyString in
  let u := exec re_ul start in
  let o := exec re_ol start in
  match u, o with
  | None, None => None
  | _, _ =>
      let isOrdered := match o with Some _ => true | None => false end in
      let indent0 :=
        match u, o with
        | Some m, _ => String.length (grp 1 m)
        | None, Some m => String.length (grp 1 m)
        | None, None => 0
        end in
      let '(items, j) := list_loop isOrdered indent0 (skipn i lines) i [] in
      Some (ListBlock isOrdered items, j)
  end.

(** The separator line of a pipe table (line 288): cells of three or more
    dashes with optional colons, separated by bars. *)
Definition re_sep_cell : regex :=
  seqs [ws0; Opt (Chr (chr ":")); AtLeast 3 (Chr (chr "-"));
        Opt (Chr (chr ":")); ws0].
Definition re_table_sep : regex :=
  seqs [Bol; Opt (Chr (chr "|"));
        Plus true (Group 1 (Seq re_sep_cell (Chr (chr "|"))));
        re_sep_cell; Opt (Chr (chr "|")); ws0; Eol].

Definition parseRow (row : string) : list string :=
  let r := trim row in
  let r := if startsWith r "|" then drop 1 r else r in
  let r := if endsWith r "|" then take (String.length r - 1) r else r in
  map trim (split "|" r).

Definition alignOf (c : string) : string :=
  let t := trim c in
  let left := startsWith t ":" in
  let right := endsWith t ":" in
  if left && right then "center"
  else if right then "right"
  else if left then "left"
  else EmptyString.

Fixpoint table_loop (ls : list string) (j : nat) (rows : list (list string))
  : list (list string) * nat :=
  match ls with
  | [] => (rows, j)
  | line :: ls' =>
      if includes line "|" && truthy (trim line)
      then table_loop ls' (S j) (rows ++ [parseRow line])
      else (rows, j)
  end.

(** [parseTable lines i] for the index [i] of a line, which is what its
    callers (the main loop and [parseParagraph]) pass.  Past the array the
    source reads [undefined] and throws on [headerLine.includes], where
    this definition returns [None]: it stands for the source on the
    indices of lines only. *)
Definition parseTable (lines : list string) (i : nat)
  : option (block * nat) :=
  let headerLine := nth i lines EmptyString in
  let sepLine :=
    if Nat.ltb (i + 1) (List.length lines)
    then nth (i + 1) lines EmptyString else EmptyString in
  if negb (includes headerLine "|") then None
  else
    let sep := trim sepLine in
    if negb (test re_table_sep sep) then None
    else
      let headers := parseRow headerLine in
      let aligns := map alignOf (parseRow sepLine) in
      let '(rows, j) := table_loop (skipn (i + 2) lines) (i + 2) [] in
      Some (Table headers aligns rows, j).

(** The patterns of [parseIndentedCode] (lines 320 and 327): four or more
    spaces or a tab at the start; exactly four spaces or a tab. *)
Definition re_indented : regex :=
  seqs [Bol; Group 1 (Alt (AtLeast 4 (Chr (chr " "))) (Chr (chr TAB)))].
Definition re_indent_strip : regex :=
  seqs [Bol; Group 1 (Alt (lit "    ") (Chr (chr TAB)))].

Fixpoint indented_loop (ls : list string) (j : nat) (buf : list string)
  : list string * nat :=
  match ls with
  | [] => (buf, j)
  | line :: ls' =>
      if negb (test re_indented line) && truthy (trim line) then (buf, j)
      else if negb (truthy (trim line)) && Nat.eqb (List.length buf) 0
      then indented_loop ls' (S j) buf
      else indented_loop ls' (S j)
             (buf ++ [replaceFirst re_indent_strip (const EmptyString) line])
  end.

Definition parseIndentedCode (lines : list string) (i : nat)
  : option (block * nat) :=
  if negb (test re_indented (nth i lines EmptyString)) then None
  else
    let '(buf, j) := indented_loop (skipn i lines) i [] in
    Some (Code EmptyString (join lf buf), j).

(** The list-marker tests of [parseParagraph] (lines 343 and 344): the
    patterns of [parseList] without the item text. *)
Definition re_ul_start : regex :=
  seqs [Bol; Group 1 ws0; Group 2 (Chr (oneof "-+*")); ws1].
Definition re_ol_start : regex :=
  seqs [Bol; Group 1 ws0; Group 2 (Plus true (Chr isDigit));
        Chr (oneof ".)"); ws1].

Definition isSome {A : Type} (o : option A) : bool :=
  match o with Some _ => true | None => false end.

Fixpoint paragraph_loop (lines : list string) (ls : list string) (j : nat)
         (buf : list string) : list string * nat :=
  match ls with
  | [] => (buf, j)
  | line :: ls' =>
      if negb (truthy (trim line)) then (buf, j)
      else if isSome (parseFence line) || isSome (parseAtxHeading line)
              || isThematicBreak line then (buf, j)
      else if test re_quote line then (buf, j)
      else if test re_ul_start line then (buf, j)
      else if test re_ol_start line then (buf, j)
      else if isSome (parseTable lines j) then (buf, j)
      else if test re_indented line then (buf, j)
      else paragraph_loop lines ls' (S j) (buf ++ [line])
  end.

(** [parseParagraph] always returns an object; the option type is kept so
    that the caller's test of the result can be written as in the source. *)
Definition parseParagraph (lines : list string) (i : nat)
  : option (block * nat) :=
  let '(buf, j) := paragraph_loop lines (skipn i lines) i [] in
  Some (Paragraph buf, j).

(* ================================================================== *)
(** ** Fallback renderer: inline substitutions *)
(* ================================================================== *)

Definition notc (a : ascii) (c : ascii) : bool := negb (Ascii.eqb c a).

(** Inline code (line 362): start or a non-backtick, a backtick, one or
    more non-backticks, a backtick that no backtick follows. *)
Definition re_code : regex :=
  seqs [Group 1 (Alt Bol (Chr (notc BT))); Chr (chr BT);
        Group 2 (Plus true (Chr (notc BT))); Chr (chr BT);
        NotAhead (Chr (chr BT))].

Definition isUrlChar (c : ascii) : bool := negb (Ascii.eqb c ")" || isWs c).

(** The url and the optional quoted title shared by images and links. *)
Definition re_target : regex :=
  seqs [Group 2 (Seq ws0 (Plus true (Chr isUrlChar)));
        Opt (seqs [ws1; Chr (chr DQ); Group 3 (Star true (Chr (notc DQ)));
                   Chr (chr DQ)]);
        ws0; Chr (chr ")")].

(** Images (line 367) and links (line 375). *)
Definition re_image : regex :=
  seqs [lit "!["; Group 1 (Star true (Chr (notc "]"))); lit "](";
        re_target].
Definition re_link : regex :=
  seqs [Chr (chr "["); Group 1 (Plus true (Chr (notc "]"))); lit "](";
        re_target].

(** Autolinks (line 384), with the [i] flag. *)
Definition re_autolink : regex :=
  seqs [lit_ci "&lt;";
        Group 1 (Seq (Group 2 (Alt (seqs [lit_ci "http"; Opt (Chr (is_ci "s"));
                                          lit_ci "://"])
                                   (lit_ci "mailto:")))
                     (Plus true (Chr (fun c =>
                        negb (Ascii.eqb c "&" || isWs c)))));
        lit_ci "&gt;"].

(** Bare URLs (line 391). *)
Definition re_bare : regex :=
  seqs [Group 1 (Alt Bol (Chr (fun c => isWs c || Ascii.eqb c "(")));
        Group 2 (Seq (Group 3 (seqs [lit "http"; Opt (Chr (chr "s"));
                                     lit "://"]))
                     (Plus true (Chr (fun c =>
                        negb (isWs c || Ascii.eqb c "<")))))].

(** Strikethrough, bold and italic (lines 399 to 407). *)
Definition re_strike : regex :=
  seqs [lit "~~";
        Group 1 (Plus true (Chr (fun c =>
                   negb (Ascii.eqb c "~" || Ascii.eqb c LF))));
        lit "~~"].
Definition re_bold (d : ascii) : regex :=
  seqs [Chr (chr d); Chr (chr d); Group 1 (Plus false (Chr any));
        Chr (chr d); Chr (chr d)].
Definition re_em (d : ascii) : regex :=
  seqs [Group 1 (Alt Bol (Chr (notc d))); Chr (chr d);
        Group 2 (Plus true (Chr (fun c =>
                   negb (Ascii.eqb c d || Ascii.eqb c LF))));
        Chr (chr d); NotAhead (Chr (chr d))].

Definition linkTargetBlankOn (o : options) : bool :=
  match linkTargetBlank o with
  | Some false => false
  | _ => true
  end.

Definition targetAttr (o : options) : string :=
  if linkTargetBlankOn o
  then " target=" ++ dq ++ "_blank" ++ dq
       ++ " rel=" ++ dq ++ "noopener noreferrer" ++ dq
  else EmptyString.

Definition titleAttr (title : string) : string :=
  if truthy title then " title=" ++ dq ++ escapeAttr title ++ dq
  else EmptyString.

Definition orHash (href : string) : string :=
  if truthy href then href else "#".


(** The replacement functions of the substitution stages. *)
Definition codeReplacer (p1 code : string) : string :=
  p1 ++ "<code>" ++ code ++ "</code>".

Definition imageReplacer (o : options) (alt url title : string) : string :=
  let href := safeLinkHref (unescapeHtml url) (allowUnsafeLinks o) in
  if negb (truthy href) then EmptyString
  else "<img src=" ++ dq ++ escapeAttr href ++ dq
       ++ " alt=" ++ dq ++ escapeAttr alt ++ dq ++ titleAttr title ++ "/>".

Definition linkReplacer (o : options) (label url title : string) : string :=
  let href := safeLinkHref (unescapeHtml url) (allowUnsafeLinks o) in
  let safe := orHash href in
  "<a href=" ++ dq ++ escapeAttr safe ++ dq ++ titleAttr title
  ++ targetAttr o ++ ">" ++ label ++ "</a>".

Definition autolinkReplacer (o : options) (url : string) : string :=
  let href :=
    orHash (safeLinkHref (unescapeHtml url) (allowUnsafeLinks o)) in
  "<a href=" ++ dq ++ escapeAttr href ++ dq ++ targetAttr o ++ ">"
  ++ url ++ "</a>".

Definition bareUrlReplacer (o : options) (p1 url : string) : string :=
  let href := safeLinkHref (unescapeHtml url) (allowUnsafeLinks o) in
  if negb (truthy href) then p1 ++ url
  else p1 ++ "<a href=" ++ dq ++ escapeAttr href ++ dq ++ targetAttr o
       ++ ">" ++ url ++ "</a>".

Definition wrap1 (open close : string) (m : mresult) : string :=
  open ++ grp 1 m ++ close.
Definition wrap2 (open close : string) (m : mresult) : string :=
  grp 1 m ++ open ++ grp 2 m ++ close.

(** The stages, in the order of the source. *)
Definition stageCode (s : string) : string :=
  replaceAll re_code (fun m => codeReplacer (grp 1 m) (grp 2 m)) s.
Definition stageImage (o : options) (s : string) : string :=
  replaceAll re_image
    (fun m => imageReplacer o (grp 1 m) (grp 2 m) (grp 3 m)) s.
Definition stageLink (o : options) (s : string) : string :=
  replaceAll re_link
    (fun m => linkReplacer o (grp 1 m) (grp 2 m) (grp 3 m)) s.
Definition stageAutolink (o : options) (s : string) : string :=
  replaceAll re_autolink (fun m => autolinkReplacer o (grp 1 m)) s.
Definition stageBare (o : options) (s : string) : string :=
  replaceAll re_bare (fun m => bareUrlReplacer o (grp 1 m) (grp 2 m)) s.
Definition stageStrike (s : string) : string :=
  replaceAll re_strike (wrap1 "<del>" "</del>") s.
Definition stageBold (s : string) : string :=
  replaceAll (re_bold "_") (wrap1 "<strong>" "</strong>")
    (replaceAll (re_bold "*") (wrap1 "<strong>" "</strong>") s).
Definition stageItalic (s : string) : string :=
  replaceAll (re_em "_") (wrap2 "<em>" "</em>")
    (replaceAll (re_em "*") (wrap2 "<em>" "</em>") s).

(** The stages that follow the link stage, and those that follow the
    inline-code stage. *)
Definition afterLinks (o : options) (s : string) : string :=
  stageItalic (stageBold (stageStrike (stageBare o (stageAutolink o s)))).

Definition laterStages (o : options) (s : string) : string :=
  afterLinks o (stageLink o (stageImage o s)).

Definition renderInline (text : string) (o : options) : string :=
  laterStages o (stageCode (escapeHtml text)).

(* ================================================================== *)
(** ** Fallback renderer: blocks and the segmenter loop *)
(* ================================================================== *)

Definition numToString (n : nat) : string :=
  NilZero.string_of_uint (Nat.to_uint n).

(** The task-list marker of a list item (line 432). *)
Definition re_task : regex :=
  seqs [Bol; Chr (chr "["); Group 1 (Chr (oneof " xX")); Chr (chr "]"); ws1;
        Group 2 (Star true (Chr isDot)); Eol].

Definition renderItem (o : options) (it : string) : string :=
  match exec re_task it with
  | Some m =>
      let checked := String.eqb (toLowerCase (grp 1 m)) "x" in
      let cb := "<input type=" ++ dq ++ "checkbox" ++ dq ++ " disabled"
                ++ (if checked then " checked" else EmptyString) ++ "/> " in
      "<li class=" ++ dq ++ "task-list-item" ++ dq ++ ">" ++ cb
      ++ renderInline (grp 2 m) o ++ "</li>"
  | None => "<li>" ++ renderInline it o ++ "</li>"
  end.

Definition alignAttr (aligns : list string) (idx : nat) : string :=
  let a := nth idx aligns EmptyString in
  if truthy a then " style=" ++ dq ++ "text-align:" ++ a ++ ";" ++ dq
  else EmptyString.

(** [arr.map((x, idx) => f x idx)] *)
Fixpoint mapi_from {A B : Type} (f : A -> nat -> B) (idx : nat) (l : list A)
  : list B :=
  match l with
  | [] => []
  | x :: l' => f x idx :: mapi_from f (S idx) l'
  end.
Definition mapi {A B : Type} (f : A -> nat -> B) (l : list A) : list B :=
  mapi_from f 0 l.

(** [renderBlock]; [recur] is the call back into [fallbackMdToHtml] made
    for the content of a blockquote, [None] when it does not return. *)
Definition renderBlock (recur : string -> options -> option string)
           (b : block) (o : options) : option string :=
  match b with
  | Heading level text =>
      Some ("<h" ++ numToString level ++ ">" ++ renderInline text o
            ++ "</h" ++ numToString level ++ ">")
  | Hr => Some "<hr/>"
  | Code lang content =>
      let cls := if truthy lang
                 then " class=" ++ dq ++ "language-" ++ escapeAttr lang ++ dq
                 else EmptyString in
      Some ("<pre><code" ++ cls ++ ">" ++ escapeHtml content
            ++ "</code></pre>")
  | Blockquote lines =>
      match recur (join lf lines) o with
      | Some inner => Some ("<blockquote>" ++ inner ++ "</blockquote>")
      | None => None
      end
  | ListBlock ordered items =>
      let tag := if ordered then "ol" else "ul" in
      Some ("<" ++ tag ++ ">" ++ join EmptyString (map (renderItem o) items)
            ++ "</" ++ tag ++ ">")
  | Table headers aligns rows =>
      let ths := join EmptyString
        (mapi (fun h idx =>
           "<th" ++ alignAttr aligns idx ++ ">" ++ renderInline h o
           ++ "</th>") headers) in
      let trs := join EmptyString
        (map (fun r =>
           "<tr>" ++ join EmptyString
             (mapi (fun c idx =>
                "<td" ++ alignAttr aligns idx ++ ">" ++ renderInline c o
                ++ "</td>") r) ++ "</tr>") rows) in
      Some ("<table><thead><tr>" ++ ths ++ "</tr></thead><tbody>" ++ trs
            ++ "</tbody></table>")
  | Paragraph lines =>
      Some ("<p>"
            ++ replaceAll (Chr (chr LF)) (const "<br/>")
                 (renderInline (join lf lines) o)
            ++ "</p>")
  end.

(** The closing-fence pattern built at line 483 from the opening marker:
    the marker alone on its line, whitespace allowed around it.  The marker
    is three backticks or three tildes, so the escaped text denotes the
    marker itself. *)
Definition re_fence_end (marker : string) : regex :=
  seqs [Bol; ws0; lit marker; ws0; Eol].

Fixpoint fence_loop (marker : string) (ls : list string) (j : nat)
         (buf : list string) : list string * nat :=
  match ls with
  | [] => (buf, j)
  | l :: ls' =>
      if test (re_fence_end marker) l then (buf, j)
      else fence_loop marker ls' (S j) (buf ++ [l])
  end.

(** One iteration of the main loop of [fallbackMdToHtml] at cursor [i]:
    the block pushed, if any, and the next value of the cursor. *)
Definition segment_step (lines : list string) (i : nat)
  : option block * nat :=
  let line := nth i lines EmptyString in
  if negb (truthy (trim line)) then (None, S i)
  else
    match parseFence line with
    | Some fence =>
        let '(buf, j) :=
          fence_loop (marker fence) (skipn (S i) lines) (S i) [] in
        (Some (Code (lang fence) (join lf buf)),
         if Nat.ltb j (List.length lines) then S j else j)
    | None =>
    match parseIndentedCode lines i with
    | Some (b, next) => (Some b, next)
    | None =>
    match parseSetextHeading lines i with
    | Some (level, text, next) => (Some (Heading level text), next)
    | None =>
    match parseAtxHeading line with
    | Some (level, text) => (Some (Heading level text), S i)
    | None =>
    if isThematicBreak line then (Some Hr, S i)
    else
    match parseBlockquote lines i with
    | Some (b, next) => (Some b, next)
    | None =>
    match parseTable lines i with
    | Some (b, next) => (Some b, next)
    | None =>
    match parseList lines i with
    | Some (b, next) => (Some b, next)
    | None =>
    match parseParagraph lines i with
    | Some (b, next) => (Some b, next)
    | None => (Some (Paragraph [line]), S i)
    end end end end end end end
    end.

Definition push (blocks : list block) (ob : option block) : list block :=
  match ob with
  | Some b => blocks ++ [b]
  | None => blocks
  end.

(** The main loop; [fuel] bounds the number of iterations, and [None] is
    a loop that has not ended within it. *)
Fixpoint segment (fuel : nat) (lines : list string) (i : nat)
         (blocks : list block) : option (list block) :=
  if Nat.leb (List.length lines) i then Some blocks
  else
    match fuel with
    | O => None
    | S fuel' =>
        let '(ob, i') := segment_step lines i in
        segment fuel' lines i' (push blocks ob)
    end.

Fixpoint mapM {A B : Type} (f : A -> option B) (l : list A)
  : option (list B) :=
  match l with
  | [] => Some []
  | x :: l' =>
      match f x, mapM f l' with
      | Some y, Some ys => Some (y :: ys)
      | _, _ => None
      end
  end.

(** [fallbackMdToHtml]; the fuel bounds both the iterations of the main
    loop and the depth of the recursion through blockquotes. *)
Fixpoint fallbackMdToHtml (fuel : nat) (md : jsval) (o : options)
  : option string :=
  match fuel with
  | O => None
  | S fuel' =>
      match segment fuel' (splitLines md) 0 [] with
      | None => None
      | Some blocks =>
          match mapM (fun b =>
                   renderBlock (fun s => fallbackMdToHtml fuel' (JStr s)) b o)
                 blocks with
          | Some htmls => Some (join lf htmls)
          | None => None
          end
      end
  end.

(** The public entry point.  [engine] is the delegated rendering of
    [renderWithMarkdownIt]: [None] when no markdown-it factory is present
    (the function then returns [null]), otherwise the HTML it produces. *)
Definition mdToHtml (engine : option (jsval -> options -> string))
           (fuel : nat) (md : jsval) (o : options) : option string :=
  match engine with
  | Some render => Some (render md o)
  | None => fallbackMdToHtml fuel md o
  end.

(* ================================================================== *)
(** ** The stand-alone renderer of part_000 *)
(* ================================================================== *)

Module Simple.

(** [s.split(r)] for a pattern without capturing groups. *)
Fixpoint split_walk (r : regex) (p : nat) (skip : nat) (cur : string)
         (s : string) : list string :=
  match s with
  | EmptyString => [cur]
  | String c s' =>
      match skip with
      | S skip' => split_walk r (S p) skip' cur s'
      | O =>
          match matchAt r p s with
          | None => split_walk r (S p) 0 (cur ++ str1 c) s'
          | Some m =>
              match String.length (whole m) with
              | O =>
                  if truthy cur
                  then cur :: split_walk r (S p) 0 (str1 c) s'
                  else split_walk r (S p) 0 (str1 c) s'
              | S len => cur :: split_walk r (S p) len EmptyString s'
              end
          end
      end
  end.

Definition splitRe (r : regex) (s : string) : list string :=
  match s with
  | EmptyString =>
      match matchAt r 0 s with Some _ => [] | None => [s] end
  | _ => split_walk r 0 0 EmptyString s
  end.

Definition lfs : regex := Plus true (Chr (chr LF)).
Definition bolOrLf : regex := Alt Bol (Chr (chr LF)).
Definition dots : regex := Plus true (Chr isDot).
Definition beforeLfOrEnd : regex := Ahead (Alt (Chr (chr LF)) Eol).

(** Fenced code (line 20) and the trimming of its content (line 21). *)
Definition re_codeblock : regex :=
  seqs [lit "```"; Group 1 (Star false (Chr any)); lit "```"].
Definition re_edge_lfs : regex := Alt (Seq Bol lfs) (Seq lfs Eol).

(** Headings (lines 27 to 29) and the horizontal rule (line 34). *)
Definition re_heading (hashes : string) : regex :=
  seqs [Group 1 bolOrLf; lit hashes; ws1; Group 2 dots; beforeLfOrEnd].
Definition re_hr : regex := seqs [Group 1 bolOrLf; lit "---"; beforeLfOrEnd].

(** Blockquotes (lines 39 and 41). *)
Definition re_quote_run : regex :=
  Plus true (Group 1 (seqs [Group 2 bolOrLf; lit "&gt;"; dots])).
Definition re_quote_mark : regex :=
  seqs [Group 1 bolOrLf; lit "&gt;"; Opt ws].

(** Lists (lines 50, 54, 60 and 64). *)
Definition re_ul_run : regex :=
  Plus true (Group 1 (seqs [Group 2 bolOrLf; Chr (oneof "*-"); ws1; dots])).
Definition re_ul_mark : regex := seqs [Bol; Chr (oneof "*-"); ws1].
Definition re_ol_run : regex :=
  Plus true (Group 1 (seqs [Group 2 bolOrLf; Plus true (Chr isDigit);
                            Chr (chr "."); ws1; dots])).
Definition re_ol_mark : regex :=
  seqs [Bol; Plus true (Chr isDigit); Chr (chr "."); ws1].

(** Inline code, bold and italic (lines 72, 77 and 78). *)
Definition re_code : regex :=
  seqs [Chr (chr BT); Group 1 (Plus true (Chr (notc BT))); Chr (chr BT)].
Definition re_bold : regex :=
  seqs [lit "**"; Group 1 (Plus true (Chr (notc "*"))); lit "**"].

(** Images (line 83) and links (line 90). *)
Definition re_image : regex :=
  seqs [lit "!["; Group 1 (Star true (Chr (notc "]"))); lit "](";
        Group 2 (Plus true (Chr (notc ")"))); Chr (chr ")")].
Definition re_link : regex :=
  seqs [Chr (chr "["); Group 1 (Plus true (Chr (notc "]"))); lit "](";
        Group 2 (Plus true (Chr (notc ")"))); Chr (chr ")")].

(** Paragraph splitting and the test for block-level output (lines 97
    and 99). *)
Definition re_blank_run : regex := AtLeast 2 (Chr (chr LF)).
Definition re_block_tag : regex :=
  seqs [Bol; Chr (chr "<");
        Group 1 (Alt (Seq (Chr (chr "h")) (Chr isDigit))
                (Alt (lit "pre")
                (Alt (lit "ul")
                (Alt (lit "ol")
                (Alt (lit "blockquote")
                (Alt (lit "hr") (lit "img")))))))].

Definition listItems (mark : regex) (block : string) : string :=
  join EmptyString
    (map (fun i => "<li>" ++ replaceFirst mark (const EmptyString) i
                   ++ "</li>")
         (split LF (trim block))).

Definition imageTemplate (m : mresult) : string :=
  "<img src=" ++ dq ++ grp 2 m ++ dq ++ " alt=" ++ dq ++ grp 1 m ++ dq
  ++ "/>".

Definition linkTemplate (m : mresult) : string :=
  "<a href=" ++ dq ++ grp 2 m ++ dq ++ " target=" ++ dq ++ "_blank" ++ dq
  ++ " rel=" ++ dq ++ "noopener noreferrer" ++ dq ++ ">" ++ grp 1 m
  ++ "</a>".

Definition renderPiece (b : string) : string :=
  if test re_block_tag b then b
  else "<p>" ++ replaceAll (Chr (chr LF)) (const "<br/>") b ++ "</p>".

Definition mdToHtml (md : string) : string :=
  let md := replaceAll (lit (String CR lf)) (const lf) md in
  let s := escapeHtml md in
  let s := replaceAll re_codeblock (fun m =>
             "<pre><code>"
             ++ replaceAll re_edge_lfs (const EmptyString) (grp 1 m)
             ++ "</code></pre>") s in
  let s := replaceAll (re_heading "###") (wrap2 "<h3>" "</h3>") s in
  let s := replaceAll (re_heading "##") (wrap2 "<h2>" "</h2>") s in
  let s := replaceAll (re_heading "#") (wrap2 "<h1>" "</h1>") s in
  let s := replaceAll re_hr (fun m => grp 1 m ++ "<hr/>") s in
  let s := replaceAll re_quote_run (fun m =>
             "<blockquote>"
             ++ trim (replaceAll re_quote_mark (fun m' => grp 1 m')
                        (whole m))
             ++ "</blockquote>") s in
  let s := replaceAll re_ul_run (fun m =>
             "<ul>" ++ listItems re_ul_mark (whole m) ++ "</ul>") s in
  let s := replaceAll re_ol_run (fun m =>
             "<ol>" ++ listItems re_ol_mark (whole m) ++ "</ol>") s in
  let s := replaceAll re_code (wrap1 "<code>" "</code>") s in
  let s := replaceAll re_bold (wrap1 "<strong>" "</strong>") s in
  let s := replaceAll (re_em "*") (wrap2 "<em>" "</em>") s in
  let s := replaceAll re_image imageTemplate s in
  let s := replaceAll re_link linkTemplate s in
  let blocks := filter truthy (map trim (splitRe re_blank_run s)) in
  join lf (map renderPiece blocks).

End Simple.

(* ================================================================== *)
(** ** Specification-side definitions *)
(* ================================================================== *)

Module Spec.

(** Every character replaced by [rep] where [p] holds: what a global
    replace of a one-character class by a constant computes. *)
Fixpoint substc (p : ascii -> bool) (rep : string) (s : string) : string :=
  match s with
  | EmptyString => EmptyString
  | String c s' =>
      if p c then rep ++ substc p rep s' else String c (substc p rep s')
  end.

(** No character of [s] is of the class [P]. *)
Definition free (P : ascii -> bool) (s : string) : bool :=
  sall (fun c => negb (P c)) s.

(** The 256 code units of the model. *)
Definition all_ascii : list ascii := map ascii_of_nat (seq 0 256).

Definition subclass (p q : ascii -> bool) : bool :=
  forallb (fun c => implb (p c) (q c)) all_ascii.

(** [needs P r]: every match of [r] consumes a character of the class
    [P] (a sufficient syntactic condition). *)
Fixpoint needs (P : ascii -> bool) (r : regex) : bool :=
  match r with
  | Chr p => subclass p P
  | Seq r1 r2 => needs P r1 || needs P r2
  | Alt r1 r2 => needs P r1 && needs P r2
  | Group _ r1 => needs P r1
  | _ => false
  end.

(** The first character of [s], if any, is outside the class [p]. *)
Definition stops (p : ascii -> bool) (s : string) : bool :=
  match s with
  | EmptyString => true
  | String c _ => negb (p c)
  end.

(** The number of characters of the class [P] in a text, and a lower
    bound on the number of them that a match of [r] takes. *)
Fixpoint count (P : ascii -> bool) (s : string) : nat :=
  match s with
  | EmptyString => 0
  | String c s' => (if P c then 1 else 0) + count P s'
  end.

Fixpoint minCount (P : ascii -> bool) (r : regex) : nat :=
  match r with
  | Chr p => if subclass p P then 1 else 0
  | Seq r1 r2 => minCount P r1 + minCount P r2
  | Alt r1 r2 => Nat.min (minCount P r1) (minCount P r2)
  | Group _ r1 => minCount P r1
  | _ => 0
  end.

(** The declarative reading of the patterns: [Matches r st st'] when [r]
    can take the matcher from [st] to [st'].  The lookaheads are read
    through the matcher itself. *)
Inductive Matches : regex -> mstate -> mstate -> Prop :=
| M_Eps st : Matches Eps st st
| M_Chr p c s' st :
    rest st = String c s' -> p c = true ->
    Matches (Chr p) st (advance st s')
| M_Seq r1 r2 st st1 st2 :
    Matches r1 st st1 -> Matches r2 st1 st2 -> Matches (Seq r1 r2) st st2
| M_AltL r1 r2 st st1 : Matches r1 st st1 -> Matches (Alt r1 r2) st st1
| M_AltR r1 r2 st st1 : Matches r2 st st1 -> Matches (Alt r1 r2) st st1
| M_Star0 g r st : Matches (Star g r) st st
| M_StarS g r st st1 st2 :
    Matches r st st1 -> pos st < pos st1 -> Matches (Star g r) st1 st2 ->
    Matches (Star g r) st st2
| M_Group n r st st1 :
    Matches r st st1 -> Matches (Group n r) st (set_cap n st st1)
| M_Bol st : pos st = 0 -> Matches Bol st st
| M_Eol st : rest st = EmptyString -> Matches Eol st st
| M_Ahead r st st1 :
    rmatch r st (fun x => Some x) = Some st1 ->
    Matches (Ahead r) st (MState (pos st) (rest st) (caps st1))
| M_NotAhead r st :
    rmatch r st (fun x => Some x) = None -> Matches (NotAhead r) st st.

(** [h] begins, up to case, with the lower-case text [scheme]. *)
Definition beginsWithCI (h scheme : string) : Prop :=
  exists x r, h = x ++ r /\ toLowerCase x = scheme.

(** The schemes the link policy rejects. *)
Definition dangerous (h : string) : Prop :=
  beginsWithCI h "javascript:" \/ beginsWithCI h "vbscript:"
  \/ beginsWithCI h "data:".

(** The scheme test of [safeLinkHref] on a trimmed candidate. *)
Definition dangerousb (h : string) : bool :=
  startsWith (toLowerCase h) "javascript:"
  || startsWith (toLowerCase h) "vbscript:"
  || startsWith (toLowerCase h) "data:".

(** The characters on which a substitution stage of the inline renderer
    can start or continue a match: backtick, bracket, tilde, asterisk,
    underscore and colon. *)
Definition isMarkup (c : ascii) : bool := oneof "`[~*_:" c.

Definition plain (s : string) : bool := sall (fun c => negb (isMarkup c)) s.

(** What escaping makes of one character, and of a text character by
    character. *)
Definition entity (c : ascii) : string :=
  if Ascii.eqb c "&" then "&amp;"
  else if Ascii.eqb c "<" then "&lt;"
  else if Ascii.eqb c ">" then "&gt;"
  else if Ascii.eqb c DQ then "&quot;"
  else if Ascii.eqb c SQ then "&#39;"
  else str1 c.

Fixpoint escapeChars (s : string) : string :=
  match s with
  | EmptyString => EmptyString
  | String c s' => entity c ++ escapeChars s'
  end.


Definition whitespace (s : string) : bool := sall isWs s.

(** The text of a label or of an alternative text that the image and
    link patterns take whole and the inline-code stage leaves alone: no
    closing bracket, backtick or exclamation mark.  Likewise for a url:
    no closing parenthesis, whitespace, backtick or exclamation mark. *)
Definition labelText (s : string) : bool :=
  sall (fun c => negb (oneof "]`!" c)) s.
Definition urlText (s : string) : bool :=
  sall (fun c => isUrlChar c && negb (oneof "`!" c)) s.

(** The block kinds in the priority order of the specification, each
    with its recogniser at a cursor position: the block it yields and
    the next cursor, or nothing. *)
Inductive kind : Type :=
| FencedCode | IndentedCode | SetextHeading | AtxHeading | ThematicBreak
| Quote | PipeTable | ListKind | ParagraphKind.

Definition recogniser : Type := list string -> nat -> option (block * nat).

Definition fenceAt : recogniser := fun lines i =>
  match parseFence (nth i lines EmptyString) with
  | Some f =>
      let '(buf, j) :=
        fence_loop (marker f) (skipn (S i) lines) (S i) [] in
      Some (Code (lang f) (join lf buf),
            if Nat.ltb j (List.length lines) then S j else j)
  | None => None
  end.

Definition setextAt : recogniser := fun lines i =>
  match parseSetextHeading lines i with
  | Some (level, text, next) => Some (Heading level text, next)
  | None => None
  end.

Definition atxAt : recogniser := fun lines i =>
  match parseAtxHeading (nth i lines EmptyString) with
  | Some (level, text) => Some (Heading level text, S i)
  | None => None
  end.

Definition breakAt : recogniser := fun lines i =>
  if isThematicBreak (nth i lines EmptyString) then Some (Hr, S i)
  else None.

Definition priority : list (kind * recogniser) :=
  [(FencedCode, fenceAt); (IndentedCode, parseIndentedCode);
   (SetextHeading, setextAt); (AtxHeading, atxAt);
   (ThematicBreak, breakAt); (Quote, parseBlockquote);
   (PipeTable, parseTable); (ListKind, parseList);
   (ParagraphKind, parseParagraph)].

(** First match wins. *)
Fixpoint firstMatch (rs : list (kind * recogniser)) (lines : list string)
         (i : nat) : option (kind * block * nat) :=
  match rs with
  | [] => None
  | (kd, r) :: rs' =>
      match r lines i with
      | Some (b, next) => Some (kd, b, next)
      | None => firstMatch rs' lines i
      end
  end.

End Spec.
Import Spec.

(* ================================================================== *)
(** ** Further functions of mdToHtml.js *)
(* ================================================================== *)

(** The pattern of [isAbsoluteUrl] (line 56), with the [i] flag. *)
Definition re_absolute : regex :=
  seqs [Bol;
        Group 1 (Alt (seqs [lit_ci "http"; Opt (Chr (is_ci "s"));
                            lit_ci "://"])
                (Alt (lit_ci "mailto:") (lit_ci "tel:")))].

Definition isAbsoluteUrl (url : string) : bool := test re_absolute url.

Module Props.

(** The characters [escapeHtml] replaces, and those of them that must not
  reach the output. *)
Definition isEscaped (c : ascii) : bool := oneof "&<>" c || chr DQ c || chr SQ c.
Definition isHtmlSpecial (c : ascii) : bool :=
oneof "<>" c || chr DQ c || chr SQ c.

(** [h] begins, up to case, with one of the schemes of [isAbsoluteUrl]. *)
Definition absoluteScheme (h : string) : Prop :=
beginsWithCI h "http://" \/ beginsWithCI h "https://"
\/ beginsWithCI h "mailto:" \/ beginsWithCI h "tel:".

(** A literal of ASCII characters that are their own lower case. *)
Definition asciiLower (m : string) : bool :=
sall (fun a => (code a <? 128)%N && Ascii.eqb (lower a) a) m.

(** A non-empty text made of the character [c] alone. *)
Definition runOf (c : ascii) (t : string) : Prop :=
t <> "" /\ sall (chr c) t = true.

(** The longest prefix of a list whose elements satisfy [f]. *)
Fixpoint takeWhile {A : Type} (f : A -> bool) (l : list A) : list A :=
match l with
| [] => []
| x :: l' => if f x then x :: takeWhile f l' else []
end.

(** The total number of characters of a list of lines. *)
Fixpoint totalLength (l : list string) : nat :=
match l with
| [] => 0
| x :: l' => String.length x + totalLength l'
end.

(** The loop test of [parseTable] on a data row, and the stripping of
  [parseBlockquote] on a quoted line. *)
Definition tableRow (l : string) : bool :=
includes l "|" && truthy (trim l).
Definition stripQuote (l : string) : string :=
replaceFirst re_quote_strip (const EmptyString) l.

(** [n] times the character [c]. *)
Fixpoint repeatChar (c : ascii) (n : nat) : string :=
match n with
| O => EmptyString
| S n' => String c (repeatChar c n')
end.

(** A line is blank when trimming leaves nothing of it. *)
Definition blank (line : string) : bool := negb (truthy (trim line)).

(** The shape of a bullet item and of a numbered item: indentation of
  [indent] whitespace characters, a bullet (or digits and a delimiter),
  whitespace, and the non-empty item text up to the end of the line. *)
Definition bulletItem (indent : nat) (line item : string) : Prop :=
exists w b sp,
  line = w ++ String b (sp ++ item)
  /\ whitespace w = true /\ String.length w = indent
  /\ oneof "-+*" b = true
  /\ whitespace sp = true /\ sp <> "" /\ item <> "".
Definition numberedItem (indent : nat) (line item : string) : Prop :=
exists w ds d sp,
  line = w ++ ds ++ String d (sp ++ item)
  /\ whitespace w = true /\ String.length w = indent
  /\ sall isDigit ds = true /\ ds <> "" /\ oneof ".)" d = true
  /\ whitespace sp = true /\ sp <> "" /\ item <> "".
Definition listItem (ordered : bool) : nat -> string -> string -> Prop :=
if ordered then numberedItem else bulletItem.

(** The shape of an ATX heading line: [level] hashes, whitespace, the
  text, and a closing sequence of whitespace, hashes and whitespace. *)
Definition atxLine (line : string) (level : nat) (text : string) : Prop :=
exists sp w1 hs w2,
  line = repeatChar "#" level ++ sp ++ text ++ w1 ++ hs ++ w2
  /\ sp <> "" /\ whitespace sp = true
  /\ text <> "" /\ sall isDot text = true
  /\ whitespace w1 = true /\ sall (chr "#") hs = true
  /\ whitespace w2 = true.

(** The last character of a line is whitespace. *)
Fixpoint lastIsWs (s : string) : bool :=
match s with
| EmptyString => false
| String c s' =>
    match s' with
    | EmptyString => isWs c
    | String _ _ => lastIsWs s'
    end
end.

(** A list marker without an item: the line stops [parseParagraph] (lines
  343 and 344) and is no item for [parseList] (lines 246 and 247). *)
Definition bareMarker (line : string) : bool :=
(test re_ul_start line || test re_ol_start line)
&& negb (isSome (exec re_ul line)) && negb (isSome (exec re_ol line)).

(** A block the main loop can only have got from [parseBlockquote]. *)
Definition quoteOf (lines : list string) (b : block) : Prop :=
match b with
| Blockquote ls =>
    exists i next, parseBlockquote lines i = Some (Blockquote ls, next)
| _ => True
end.

(** A trimmed line of the character [c] and whitespace alone, with at
  least three times [c]. *)
Definition breakLine (c : ascii) (t : string) : bool :=
sall (fun x => chr c x || isWs x) t && Nat.leb 3 (count (chr c) t).

(** First-character analysis of a pattern.  [nonempty r]: every match of
  [r] takes at least one character.  [starts P r]: every match of [r]
  that takes a character begins with one of the class [P].  Both are
  sufficient syntactic conditions. *)
Fixpoint nonempty (r : regex) : bool :=
match r with
| Chr _ => true
| Seq r1 r2 => nonempty r1 || nonempty r2
| Alt r1 r2 => nonempty r1 && nonempty r2
| Group _ r1 => nonempty r1
| _ => false
end.

Fixpoint starts (P : ascii -> bool) (r : regex) : bool :=
match r with
| Chr p => subclass p P
| Seq r1 r2 => starts P r1 && (nonempty r1 || starts P r2)
| Alt r1 r2 => starts P r1 && starts P r2
| Star _ r1 => starts P r1
| Group _ r1 => starts P r1
| _ => true
end.

(** The characters a block other than a paragraph can begin with:
  whitespace, the fence, heading, quote, list, break and table
  markers, the setext underline and the digits. *)
Definition isOpener (c : ascii) : bool :=
isWs c || oneof "`~#>-+*_|:=" c || isDigit c.

(** A line that begins with a character that opens no block. *)
Definition proseLine (l : string) : bool :=
match l with
| EmptyString => false
| String c _ => negb (isOpener c)
end.

(** The last character of a text is of the class [P]. *)
Fixpoint lastIs (P : ascii -> bool) (s : string) : bool :=
match s with
| EmptyString => false
| String c s' =>
    match s' with
    | EmptyString => P c
    | String _ _ => lastIs P s'
    end
end.

(** A heading text that the ATX pattern takes whole: not empty, without
  line terminator, not beginning with whitespace and not ending in
  whitespace or in a hash. *)
Definition headingText (t : string) : bool :=
truthy t && sall isDot t && stops isWs t
&& negb (lastIs (fun c => isWs c || chr "#" c) t).

(** An item text of a simple bullet list: it begins with a character that
  opens no block and holds no line terminator and no bar. *)
Definition bulletText (t : string) : bool :=
proseLine t && sall isDot t && negb (includes t "|").

(** The line of a bullet item: the bullet, one space and the text. *)
Definition bulletLine (b : ascii) (t : string) : string :=
String b (String " " t).

(** The line of a quoted text: the quote marker, one space and the
  text. *)
Definition quoteLine (t : string) : string := String ">" (String " " t).

(** A text to emphasise: not empty, without markup character and
  without line feed. *)
Definition emphText (x : string) : bool :=
truthy x && plain x && free (chr LF) x.

(** A line that begins a block other than a paragraph or a table, and a
  line at which a paragraph ends. *)
Definition startsBlock (line : string) : bool :=
isSome (parseFence line) || isSome (parseAtxHeading line)
|| isThematicBreak line || test re_quote line || test re_ul_start line
|| test re_ol_start line || test re_indented line.
Definition paragraphStop (lines : list string) (j : nat) : bool :=
blank (nth j lines EmptyString) || startsBlock (nth j lines EmptyString)
|| isSome (parseTable lines j).

(** The characters on which some stage of the stand-alone renderer can
  act: the characters it escapes, the markers of its blocks and inline
  elements, and the line terminators. *)
Definition isSimpleMarkup (c : ascii) : bool :=
oneof "`#-*.[&<>" c || chr DQ c || chr SQ c || chr CR c || chr LF c.

(** A line of indented code: four spaces and the text. *)
Definition indentLine (t : string) : string := "    " ++ t.

(** The line of a numbered item: the digits, the delimiter, one space and
  the text; and what makes such an entry well formed: digits, a full
  stop or a closing parenthesis, and an item text that is not empty,
  does not begin with whitespace and holds no line terminator. *)
Definition numberLine (e : string * ascii * string) : string :=
let '(ds, d, t) := e in ds ++ String d (String " " t).
Definition numberText (e : string * ascii * string) : string :=
let '(_, _, t) := e in t.
Definition itemText (t : string) : bool :=
truthy t && stops isWs t && sall isDot t.
Definition numberEntry (e : string * ascii * string) : bool :=
let '(ds, d, t) := e in
truthy ds && sall isDigit ds && oneof ".)" d && itemText t.

(** A text in which backticks delimit code spans: each entry gives the
  content of a span and the text between it and the next span (or the
  end).  The spans are well formed when no content and no text holds a
  backtick, no content is empty, and only the last text may be empty. *)
Fixpoint spanned (wrap : string -> string) (cs : list (string * string))
: string :=
match cs with
| [] => EmptyString
| (c, t) :: cs' => wrap c ++ t ++ spanned wrap cs'
end.
Definition backticked (c : string) : string := str1 BT ++ c ++ str1 BT.
Definition codeElement (c : string) : string := "<code>" ++ c ++ "</code>".
Definition escapeSpan (e : string * string) : string * string :=
(escapeHtml (fst e), escapeHtml (snd e)).
Fixpoint codeSpans (cs : list (string * string)) : bool :=
match cs with
| [] => true
| (c, t) :: cs' =>
    truthy c && sall (notc BT) c && sall (notc BT) t
    && (truthy t || match cs' with [] => true | _ :: _ => false end)
    && codeSpans cs'
end.
Definition plainSpans (cs : list (string * string)) : bool :=
forallb (fun e => plain (fst e) && plain (snd e)) cs.


End Props.
Import Props.

(* ================================================================== *)
(** ** Strings *)
(* ================================================================== *)

Module StringFacts.

Lemma app_nil_r (s : string) : s ++ "" = s.
Proof. induction s as [|c s IH]; simpl; [reflexivity | now rewrite IH]. Qed.

Lemma app_assoc (a b c : string) : (a ++ b) ++ c = a ++ (b ++ c).
Proof. induction a as [|x a IH]; simpl; [reflexivity | now rewrite IH]. Qed.

Lemma length_app (a b : string) :
  String.length (a ++ b) = String.length a + String.length b.
Proof. induction a as [|x a IH]; simpl; [reflexivity | now rewrite IH]. Qed.

Lemma app_inv_head (a b c : string) : a ++ b = a ++ c -> b = c.
Proof.
  induction a as [|x a IH]; simpl; intros H; [exact H|].
  injection H as H. now apply IH.
Qed.

Lemma app_inv_tail (c : string) :
  forall a b, a ++ c = b ++ c -> a = b.
Proof.
  induction a as [|x a IH]; intros b H.
  - destruct b as [|y b]; [reflexivity|].
    apply (f_equal String.length) in H. simpl in H.
    rewrite length_app in H. lia.
  - destruct b as [|y b].
    + apply (f_equal String.length) in H. simpl in H.
      rewrite length_app in H. lia.
    + simpl in H. injection H as -> H. f_equal. now apply IH.
Qed.

Lemma take_app (a b : string) : take (String.length a) (a ++ b) = a.
Proof. induction a as [|x a IH]; simpl; [now destruct b | now rewrite IH]. Qed.

Lemma take_len_app (n : nat) (a b : string) :
  n = String.length a -> take n (a ++ b) = a.
Proof. intros ->. apply take_app. Qed.

Lemma take_len_all (n : nat) (a : string) :
  n = String.length a -> take n a = a.
Proof. intros ->. induction a as [|x a IH]; simpl; [reflexivity | now rewrite IH]. Qed.

Lemma take_all (a : string) : take (String.length a) a = a.
Proof. induction a as [|x a IH]; simpl; [reflexivity | now rewrite IH]. Qed.

Lemma take_0 (a : string) : take 0 a = "".
Proof. now destruct a. Qed.

Lemma drop_app (a b : string) : drop (String.length a) (a ++ b) = b.
Proof. induction a as [|x a IH]; simpl; [now destruct b | exact IH]. Qed.

Lemma sall_app (p : ascii -> bool) (a b : string) :
  sall p (a ++ b) = sall p a && sall p b.
Proof.
  induction a as [|x a IH]; simpl; [reflexivity|].
  rewrite IH. now rewrite andb_assoc.
Qed.

Lemma sall_impl (p q : ascii -> bool) (s : string) :
  (forall c, p c = true -> q c = true) -> sall p s = true -> sall q s = true.
Proof.
  intros Hpq. induction s as [|c s IH]; simpl; [reflexivity|].
  intros H. apply andb_true_iff in H as [Hc Hs].
  now rewrite (Hpq _ Hc), IH.
Qed.

Lemma smap_app (f : ascii -> ascii) (a b : string) :
  smap f (a ++ b) = smap f a ++ smap f b.
Proof. induction a as [|x a IH]; simpl; [reflexivity | now rewrite IH]. Qed.

Lemma startsWith_app (p r : string) : startsWith (p ++ r) p = true.
Proof.
  induction p as [|a p IH]; simpl; [now destruct r|].
  now rewrite Ascii.eqb_refl, IH.
Qed.

Lemma startsWith_inv (p s : string) :
  startsWith s p = true -> exists r, s = p ++ r.
Proof.
  revert s. induction p as [|a p IH]; intros s; simpl.
  - intros _. now exists s.
  - destruct s as [|c s]; simpl; [discriminate|].
    intros H. apply andb_true_iff in H as [Hc Hs].
    apply Ascii.eqb_eq in Hc. subst c.
    destruct (IH _ Hs) as [r ->]. now exists r.
Qed.

(** Every code unit is one of the 256 listed ones. *)
Lemma all_ascii_complete (c : ascii) : In c all_ascii.
Proof.
  unfold all_ascii. rewrite <- (ascii_nat_embedding c).
  apply in_map, in_seq. pose proof (nat_ascii_bounded c). lia.
Qed.

Lemma subclass_sound (p q : ascii -> bool) :
  subclass p q = true -> forall c, p c = true -> q c = true.
Proof.
  unfold subclass. rewrite forallb_forall. intros H c Hp.
  specialize (H c (all_ascii_complete c)). now rewrite Hp in H.
Qed.

(** A property of all code units checked by enumeration. *)
Lemma forall_ascii (f : ascii -> bool) :
  forallb f all_ascii = true -> forall c, f c = true.
Proof.
  rewrite forallb_forall. intros H c. apply H, all_ascii_complete.
Qed.

End StringFacts.
Import StringFacts.

(* ================================================================== *)
(** ** The matcher *)
(* ================================================================== *)

Module RegexFacts.

Lemma orElse_some (x : mstate) b : orElse (Some x) b = Some x.
Proof. reflexivity. Qed.

Lemma orElse_none b : orElse None b = b tt.
Proof. reflexivity. Qed.

(** *** Failure: a pattern cannot match where its continuation fails *)

Section Fail.
Variable Q : mstate -> Prop.
(** [Q] is a property of the text left that consuming a character
    keeps. *)
Hypothesis Q_advance :
  forall st c s', Q st -> rest st = String c s' -> Q (advance st s').
Hypothesis Q_caps :
  forall st cs, Q st -> Q (MState (pos st) (rest st) cs).

Lemma Q_set_cap n st0 st1 : Q st1 -> Q (set_cap n st0 st1).
Proof. intros H. unfold set_cap. now apply Q_caps. Qed.

Lemma star_loop_fail g m1 k n :
  (forall st k', Q st -> (forall st1, Q st1 -> k' st1 = None) ->
                 m1 st k' = None) ->
  (forall st1, Q st1 -> k st1 = None) ->
  forall st, Q st -> star_loop g m1 k n st = None.
Proof.
  intros Hm Hk. induction n as [|n IH]; intros st HQ; simpl.
  - now apply Hk.
  - assert (Hagain : m1 st (fun st1 =>
              if Nat.leb (pos st1) (pos st) then None
              else star_loop g m1 k n st1) = None).
    { apply Hm; [exact HQ|]. intros st1 H1.
      destruct (Nat.leb (pos st1) (pos st)); [reflexivity | now apply IH]. }
    destruct g; rewrite Hagain, ?(Hk _ HQ); simpl;
      rewrite ?Hagain, ?(Hk _ HQ); reflexivity.
Qed.

Lemma rmatch_fail (r : regex) :
  forall st k, Q st -> (forall st1, Q st1 -> k st1 = None) ->
               rmatch r st k = None.
Proof.
  induction r as [|p|r1 IH1 r2 IH2|r1 IH1 r2 IH2|g r1 IH1|n r1 IH1| |
                  |r1 IH1|r1 IH1]; intros st k HQ Hk; simpl.
  - now apply Hk.
  - destruct (rest st) as [|c s'] eqn:E; [reflexivity|].
    destruct (p c); [|reflexivity].
    apply Hk. now apply Q_advance with c.
  - apply IH1; [exact HQ|]. intros st1 H1. now apply IH2.
  - rewrite (IH1 _ _ HQ Hk). simpl. now apply IH2.
  - apply star_loop_fail; assumption.
  - apply IH1; [exact HQ|]. intros st1 H1. apply Hk. now apply Q_set_cap.
  - destruct (Nat.eqb (pos st) 0); [now apply Hk | reflexivity].
  - destruct (rest st); [now apply Hk | reflexivity].
  - destruct (rmatch r1 st (fun x => Some x)); [|reflexivity].
    apply Hk. now apply Q_caps.
  - destruct (rmatch r1 st (fun x => Some x)); [reflexivity|].
    now apply Hk.
Qed.
End Fail.

(** *** Trigger characters *)

Lemma rmatch_needs (P : ascii -> bool) (r : regex) :
  needs P r = true ->
  forall st k, free P (rest st) = true -> rmatch r st k = None.
Proof.
  set (Q := fun st => free P (rest st) = true).
  assert (Qadv : forall st c s', Q st -> rest st = String c s' ->
                                 Q (advance st s')).
  { unfold Q, free. intros st c s' H E. rewrite E in H. simpl in *.
    now apply andb_true_iff in H as [_ H]. }
  assert (Qcaps : forall st cs, Q st -> Q (MState (pos st) (rest st) cs)).
  { unfold Q. intros st cs H. exact H. }
  induction r as [|p|r1 IH1 r2 IH2|r1 IH1 r2 IH2|g r1 IH1|n r1 IH1| |
                  |r1 IH1|r1 IH1]; simpl; try discriminate; intros Hn st k HQ.
  - destruct (rest st) as [|c s'] eqn:E; [reflexivity|].
    destruct (p c) eqn:Hp; [|reflexivity].
    unfold free in HQ. simpl in HQ.
    rewrite (subclass_sound _ _ Hn _ Hp) in HQ. discriminate.
  - apply orb_true_iff in Hn as [Hn|Hn].
    + now apply IH1.
    + apply (rmatch_fail Q Qadv Qcaps); [exact HQ|].
      intros st1 H1. now apply IH2.
  - apply andb_true_iff in Hn as [Hn1 Hn2].
    rewrite (IH1 Hn1 _ _ HQ). simpl. now apply IH2.
  - now apply IH1.
Qed.

Lemma matchAt_needs P r p s :
  needs P r = true -> free P s = true -> matchAt r p s = None.
Proof.
  intros Hn Hs. unfold matchAt. now rewrite (rmatch_needs P r Hn).
Qed.

Lemma search_needs P r s :
  needs P r = true -> free P s = true -> forall p, search r p s = None.
Proof.
  intros Hn. induction s as [|c s IH]; intros Hs p; simpl.
  - now rewrite (matchAt_needs P r p "" Hn).
  - rewrite (matchAt_needs P r p _ Hn Hs).
    apply IH. unfold free in *. simpl in Hs.
    now apply andb_true_iff in Hs as [_ Hs].
Qed.

Lemma replace_walk_needs P r f s :
  needs P r = true -> free P s = true ->
  forall p, replace_walk r f p 0 s = s.
Proof.
  intros Hn. induction s as [|c s IH]; intros Hs p; simpl.
  - now rewrite (matchAt_needs P r p "" Hn).
  - rewrite (matchAt_needs P r p _ Hn Hs). f_equal.
    apply IH. unfold free in *. simpl in Hs.
    now apply andb_true_iff in Hs as [_ Hs].
Qed.

(** A stage whose pattern needs a character the text does not have
    leaves the text as it is. *)
Lemma replaceAll_needs P r f s :
  needs P r = true -> free P s = true -> replaceAll r f s = s.
Proof. intros Hn Hs. now apply replace_walk_needs with P. Qed.

Lemma test_needs P r s :
  needs P r = true -> free P s = true -> test r s = false.
Proof.
  intros Hn Hs. unfold test, exec. now rewrite (search_needs P r s Hn Hs).
Qed.

(** *** One-character patterns *)

Lemma matchAt_Chr (q : ascii -> bool) (p : nat) (c : ascii) (s : string) :
  matchAt (Chr q) p (String c s)
  = if q c then Some (MResult (str1 c) [] p) else None.
Proof.
  unfold matchAt. cbn [rmatch rest advance pos caps].
  destruct (q c); [|reflexivity]. unfold advance. cbn [pos caps].
  replace (S p - p) with 1 by lia. reflexivity.
Qed.

Lemma matchAt_Chr_end (q : ascii -> bool) (p : nat) :
  matchAt (Chr q) p "" = None.
Proof. reflexivity. Qed.

Lemma replace_walk_Chr (q : ascii -> bool) (rep : string) (s : string) :
  forall p, replace_walk (Chr q) (const rep) p 0 s = substc q rep s.
Proof.
  induction s as [|c s IH]; intros p; [reflexivity|].
  cbn [replace_walk substc]. rewrite matchAt_Chr.
  destruct (q c) eqn:Hq.
  - cbn [whole str1 String.length]. unfold const at 1. now rewrite IH.
  - now rewrite IH.
Qed.

Lemma replaceAll_Chr q rep s : replaceAll (Chr q) (const rep) s = substc q rep s.
Proof. apply replace_walk_Chr. Qed.

Lemma substc_app q rep a b :
  substc q rep (a ++ b) = substc q rep a ++ substc q rep b.
Proof.
  induction a as [|c a IH]; simpl; [reflexivity|].
  destruct (q c); simpl; rewrite IH; [now rewrite app_assoc | reflexivity].
Qed.

Lemma substc_id q rep s : free q s = true -> substc q rep s = s.
Proof.
  unfold free. induction s as [|c s IH]; simpl; [reflexivity|].
  intros H. apply andb_true_iff in H as [Hc Hs].
  apply negb_true_iff in Hc. now rewrite Hc, IH.
Qed.

(** The replacement text and the characters kept both satisfy [Q]. *)
Lemma sall_substc (Q q : ascii -> bool) rep s :
  sall Q rep = true ->
  sall (fun c => q c || Q c) s = true ->
  sall Q (substc q rep s) = true.
Proof.
  intros Hrep. induction s as [|c s IH]; simpl; [reflexivity|].
  intros H. apply andb_true_iff in H as [Hc Hs].
  destruct (q c) eqn:Hq; simpl.
  - rewrite sall_app, Hrep. now apply IH.
  - simpl in Hc. rewrite Hc. now apply IH.
Qed.

End RegexFacts.
Import RegexFacts.

(* ================================================================== *)
(** ** The matcher and the declarative reading agree *)
(* ================================================================== *)

Module MatchFacts.

(** A match moves the index by the number of characters it takes off the
    text. *)
Lemma Matches_consumes r st st1 :
  Matches r st st1 ->
  exists u, rest st = u ++ rest st1 /\ pos st1 = pos st + String.length u.
Proof.
  induction 1 as [st|p c s' st E Hp|r1 r2 st st1 st2 _ IH1 _ IH2
                  |r1 r2 st st1 _ IH|r1 r2 st st1 _ IH|g r st
                  |g r st st1 st2 _ IH1 Hlt _ IH2|n r st st1 _ IH
                  |st E|st E|r st st1 E|r st E];
    try (exists ""; simpl; split; [reflexivity | lia]).
  - exists (str1 c). simpl. split; [exact E | lia].
  - destruct IH1 as [u [E1 P1]], IH2 as [v [E2 P2]].
    exists (u ++ v). rewrite app_assoc, <- E2, length_app. split; [exact E1 | lia].
  - exact IH.
  - exact IH.
  - destruct IH1 as [u [E1 P1]], IH2 as [v [E2 P2]].
    exists (u ++ v). rewrite app_assoc, <- E2, length_app. split; [exact E1 | lia].
  - exact IH.
Qed.

Lemma Matches_length r st st1 :
  Matches r st st1 ->
  pos st1 + String.length (rest st1) = pos st + String.length (rest st).
Proof.
  intros H. destruct (Matches_consumes _ _ _ H) as [u [E P]].
  rewrite E, length_app. lia.
Qed.

(** *** Soundness *)

Lemma star_loop_sound g r m1 k :
  (forall st k' x, m1 st k' = Some x ->
                   exists st1, Matches r st st1 /\ k' st1 = Some x) ->
  forall n st x, star_loop g m1 k n st = Some x ->
                 exists st1, Matches (Star g r) st st1 /\ k st1 = Some x.
Proof.
  intros Hm. induction n as [|n IH]; intros st x; simpl.
  - intros H. exists st. split; [constructor | exact H].
  - set (k' := fun st1 => if Nat.leb (pos st1) (pos st) then None
                          else star_loop g m1 k n st1).
    assert (Hagain : forall y, m1 st k' = Some y ->
              exists st2, Matches (Star g r) st st2 /\ k st2 = Some y).
    { intros y Hy. destruct (Hm _ _ _ Hy) as [st1 [M1 K1]].
      unfold k' in K1. destruct (Nat.leb (pos st1) (pos st)) eqn:L;
        [discriminate|]. apply Nat.leb_gt in L.
      destruct (IH _ _ K1) as [st2 [M2 K2]].
      exists st2. split; [|exact K2]. now apply M_StarS with st1. }
    destruct g.
    + destruct (m1 st k') as [y|] eqn:E; simpl; intros H.
      * injection H as <-. now apply Hagain.
      * exists st. split; [constructor | exact H].
    + destruct (k st) as [y|] eqn:E; simpl; intros H.
      * injection H as <-. exists st. split; [constructor | exact E].
      * now apply Hagain.
Qed.

Theorem rmatch_sound (r : regex) :
  forall st k x, rmatch r st k = Some x ->
                 exists st1, Matches r st st1 /\ k st1 = Some x.
Proof.
  induction r as [|p|r1 IH1 r2 IH2|r1 IH1 r2 IH2|g r1 IH1|n r1 IH1| |
                  |r1 IH1|r1 IH1]; intros st k x; simpl.
  - intros H. exists st. split; [constructor | exact H].
  - destruct (rest st) as [|c s'] eqn:E; [discriminate|].
    destruct (p c) eqn:Hp; [|discriminate].
    intros H. exists (advance st s'). split; [now apply M_Chr with c | exact H].
  - intros H. destruct (IH1 _ _ _ H) as [st1 [M1 K1]].
    destruct (IH2 _ _ _ K1) as [st2 [M2 K2]].
    exists st2. split; [now apply M_Seq with st1 | exact K2].
  - destruct (rmatch r1 st k) as [y|] eqn:E; simpl; intros H.
    + injection H as <-. destruct (IH1 _ _ _ E) as [st1 [M1 K1]].
      exists st1. split; [now apply M_AltL | exact K1].
    + destruct (IH2 _ _ _ H) as [st1 [M1 K1]].
      exists st1. split; [now apply M_AltR | exact K1].
  - apply star_loop_sound. exact IH1.
  - intros H. destruct (IH1 _ _ _ H) as [st1 [M1 K1]].
    exists (set_cap n st st1). split; [now constructor | exact K1].
  - destruct (Nat.eqb (pos st) 0) eqn:E; [|discriminate].
    apply Nat.eqb_eq in E. intros H. exists st. split; [now constructor | exact H].
  - destruct (rest st) eqn:E; [|discriminate].
    intros H. exists st. split; [now constructor | exact H].
  - destruct (rmatch r1 st (fun x => Some x)) as [st1|] eqn:E; [|discriminate].
    intros H. eexists. split; [apply M_Ahead; exact E | exact H].
  - destruct (rmatch r1 st (fun x => Some x)) as [st1|] eqn:E; [discriminate|].
    intros H. exists st. split; [now constructor | exact H].
Qed.

(** *** Completeness: a match that the continuation accepts is found, or
    an earlier choice is *)

Lemma star_loop_complete g r :
  (forall st st1, Matches r st st1 -> forall k x, k st1 = Some x ->
                  exists y, rmatch r st k = Some y) ->
  forall st st2, Matches (Star g r) st st2 ->
  forall k x n, k st2 = Some x -> String.length (rest st) <= n ->
                exists y, star_loop g (rmatch r) k n st = Some y.
Proof.
  intros Hr st st2 H. remember (Star g r) as sr eqn:Esr.
  induction H as [ | | | | |g' r' st|g' r' st st1 st2 M1 _ Hlt M2 IH2| | | | | ];
    try discriminate; injection Esr as -> ->; intros k x n Hk Hn.
  - destruct n as [|n]; simpl; [now exists x|].
    destruct g.
    + destruct (rmatch r st _) as [y|]; simpl; [now exists y | now exists x].
    + rewrite Hk. simpl. now exists x.
  - pose proof (Matches_length _ _ _ M1) as L1.
    destruct n as [|n]; [lia|]. simpl.
    destruct (IH2 eq_refl k x n Hk ltac:(lia)) as [y Hy].
    set (k' := fun st1 => if Nat.leb (pos st1) (pos st) then None
                          else star_loop g (rmatch r) k n st1).
    assert (K' : k' st1 = Some y).
    { unfold k'. destruct (Nat.leb (pos st1) (pos st)) eqn:L; [|exact Hy].
      apply Nat.leb_le in L. lia. }
    destruct (Hr _ _ M1 _ _ K') as [y' Hy'].
    destruct g.
    + rewrite Hy'. simpl. now exists y'.
    + destruct (k st) as [z|]; simpl; [now exists z | now exists y'].
Qed.

Theorem rmatch_complete (r : regex) :
  forall st st1, Matches r st st1 -> forall k x, k st1 = Some x ->
                 exists y, rmatch r st k = Some y.
Proof.
  induction r as [|p|r1 IH1 r2 IH2|r1 IH1 r2 IH2|g r1 IH1|n r1 IH1| |
                  |r1 IH1|r1 IH1]; intros st st1 M k x Hk.
  - inversion M; subst. simpl. now exists x.
  - inversion M as [|p' c s' st' E Hp| | | | | | | | | |]; subst. simpl.
    rewrite E, Hp. now exists x.
  - inversion M as [| |r1' r2' st' sta stb Ma Mb| | | | | | | | |]; subst.
    simpl. destruct (IH2 _ _ Mb _ _ Hk) as [y Hy].
    exact (IH1 _ _ Ma _ _ Hy).
  - simpl. inversion M as [| | |r1' r2' st' sta Ma|r1' r2' st' sta Ma| | | | | | |]; subst.
    + destruct (IH1 _ _ Ma _ _ Hk) as [y Hy]. rewrite Hy. simpl. now exists y.
    + destruct (rmatch r1 st k) as [z|]; simpl; [now exists z|].
      exact (IH2 _ _ Ma _ _ Hk).
  - simpl. apply (star_loop_complete g r1 IH1 st st1 M k x _ Hk). lia.
  - inversion M as [| | | | | | |n' r' st' sta Ma| | | |]; subst. simpl.
    exact (IH1 _ _ Ma _ _ Hk).
  - inversion M as [| | | | | | | |st' E| | |]; subst. simpl.
    rewrite E. simpl. now exists x.
  - inversion M as [| | | | | | | | |st' E| |]; subst. simpl.
    rewrite E. now exists x.
  - inversion M as [| | | | | | | | | |r' st' sta E|]; subst. simpl.
    rewrite E. now exists x.
  - inversion M as [| | | | | | | | | | |r' st' E]; subst. simpl.
    rewrite E. now exists x.
Qed.

(** [matchAt] succeeds exactly when the pattern has a match there. *)
Lemma matchAt_iff r p s :
  (exists m, matchAt r p s = Some m)
  <-> exists st1, Matches r (MState p s []) st1.
Proof.
  unfold matchAt. split.
  - intros [m H]. destruct (rmatch r _ _) as [e|] eqn:E; [|discriminate].
    destruct (rmatch_sound _ _ _ _ E) as [st1 [M _]]. now exists st1.
  - intros [st1 M].
    destruct (rmatch_complete _ _ _ M (fun x => Some x) _ eq_refl) as [y Hy].
    rewrite Hy. eexists. reflexivity.
Qed.

Lemma matchAt_none r p s :
  matchAt r p s = None <-> forall st1, ~ Matches r (MState p s []) st1.
Proof.
  split.
  - intros H st1 M.
    destruct (proj2 (matchAt_iff r p s) (ex_intro _ st1 M)) as [m Hm].
    congruence.
  - intros H. destruct (matchAt r p s) as [m|] eqn:E; [|reflexivity].
    destruct (proj1 (matchAt_iff r p s) (ex_intro _ m E)) as [st1 M].
    now destruct (H st1).
Qed.

(** *** Anchored patterns *)

Lemma matchAt_anchored r p s : 0 < p -> matchAt (Seq Bol r) p s = None.
Proof.
  intros Hp. unfold matchAt. simpl.
  destruct (Nat.eqb p 0) eqn:E; [apply Nat.eqb_eq in E; lia | reflexivity].
Qed.

Lemma search_anchored r s : forall p, 0 < p -> search (Seq Bol r) p s = None.
Proof.
  induction s as [|c s IH]; intros p Hp; simpl;
    rewrite (matchAt_anchored r _ _ Hp); [reflexivity|].
  apply IH. lia.
Qed.

Lemma exec_anchored r s : exec (Seq Bol r) s = matchAt (Seq Bol r) 0 s.
Proof.
  unfold exec. destruct s as [|c s]; simpl;
    destruct (matchAt (Seq Bol r) 0 _); try reflexivity.
  apply search_anchored. lia.
Qed.

Lemma test_anchored_iff r s :
  test (Seq Bol r) s = true
  <-> exists st1, Matches r (MState 0 s []) st1.
Proof.
  unfold test. rewrite exec_anchored. split.
  - intros H. destruct (matchAt _ 0 s) as [m|] eqn:E; [|discriminate].
    destruct (proj1 (matchAt_iff _ 0 s) (ex_intro _ m E)) as [st1 M].
    inversion M as [| |r1 r2 st sta stb Ma Mb| | | | | | | | |]; subst.
    inversion Ma; subst. now exists st1.
  - intros [st1 M].
    assert (M' : Matches (Seq Bol r) (MState 0 s []) st1).
    { apply M_Seq with (MState 0 s []); [now constructor | exact M]. }
    destruct (proj2 (matchAt_iff _ 0 s) (ex_intro _ st1 M')) as [m Hm].
    now rewrite Hm.
Qed.

(** *** Counting the characters a match needs *)

Lemma count_app P (a b : string) : count P (a ++ b) = count P a + count P b.
Proof.
  induction a as [|c a IH]; simpl; [reflexivity|]. rewrite IH. lia.
Qed.

Lemma Matches_count P r st st1 :
  Matches r st st1 ->
  exists u, rest st = u ++ rest st1 /\ minCount P r <= count P u.
Proof.
  induction 1 as [st|p c s' st E Hp|r1 r2 st st1 st2 _ IH1 _ IH2
                  |r1 r2 st st1 _ IH|r1 r2 st st1 _ IH|g r st
                  |g r st st1 st2 M1 IH1 Hlt M2 IH2|n r st st1 _ IH
                  |st E|st E|r st st1 E|r st E];
    try (exists ""; simpl; split; [reflexivity | lia]).
  - exists (str1 c). simpl. split; [exact E|].
    destruct (subclass p P) eqn:S; [|lia].
    rewrite (subclass_sound _ _ S _ Hp). lia.
  - destruct IH1 as [u [E1 C1]], IH2 as [v [E2 C2]].
    exists (u ++ v). rewrite app_assoc, <- E2, count_app.
    split; [exact E1 | simpl; lia].
  - destruct IH as [u [E C]]. exists u. split; [exact E | simpl; lia].
  - destruct IH as [u [E C]]. exists u. split; [exact E | simpl; lia].
  - destruct (Matches_consumes _ _ _ M1) as [u [E1 _]].
    destruct IH2 as [v [E2 _]].
    exists (u ++ v). rewrite app_assoc, <- E2. split; [exact E1 | simpl; lia].
  - destruct IH as [u [E C]]. exists u. split; [exact E | exact C].
Qed.

Lemma matchAt_count P r p s :
  count P s < minCount P r -> matchAt r p s = None.
Proof.
  intros H. apply matchAt_none. intros st1 M.
  destruct (Matches_count P _ _ _ M) as [u [E C]].
  cbn [rest] in E. rewrite E, count_app in H. lia.
Qed.

(** A stage whose pattern needs more characters of a class than the text
    has leaves the text as it is. *)
Lemma replace_walk_count P r f s :
  count P s < minCount P r -> forall p, replace_walk r f p 0 s = s.
Proof.
  induction s as [|c s IH]; intros H p; cbn [replace_walk];
    rewrite (matchAt_count P r p _ H); [reflexivity|].
  f_equal. apply IH. simpl in H. lia.
Qed.

Lemma replaceAll_count P r f s :
  count P s < minCount P r -> replaceAll r f s = s.
Proof. intros H. now apply replace_walk_count with P. Qed.

End MatchFacts.
Import MatchFacts.

(* ================================================================== *)
(** ** Greedy classes and whole-text matches *)
(* ================================================================== *)

Module WalkFacts.

(** A greedy class takes the whole run [u] when the rest of the pattern
    accepts what follows it. *)
Lemma star_class_greedy (p : ascii -> bool) (tail : string)
      (k : mstate -> option mstate) (cs : list (nat * string)) (x : mstate)
      (m1 : mstate -> (mstate -> option mstate) -> option mstate) :
  (forall st k', m1 st k' = rmatch (Chr p) st k') ->
  stops p tail = true ->
  forall u i n,
    sall p u = true ->
    String.length (u ++ tail) <= n ->
    k (MState (i + String.length u) tail cs) = Some x ->
    star_loop true m1 k n (MState i (u ++ tail) cs) = Some x.
Proof.
  intros Hm1 Hstop. induction u as [|c u IH]; intros i n Hu Hn Hk.
  - simpl in *. rewrite Nat.add_0_r in Hk.
    destruct n as [|n]; simpl; [exact Hk|]. rewrite Hm1. simpl.
    destruct tail as [|d tail]; simpl; [exact Hk|].
    simpl in Hstop. apply negb_true_iff in Hstop. rewrite Hstop. exact Hk.
  - simpl in Hu. apply andb_true_iff in Hu as [Hc Hu].
    destruct n as [|n]; [simpl in Hn; lia|].
    cbn [star_loop append]. rewrite Hm1. cbn [rmatch rest]. rewrite Hc.
    unfold advance. cbn [pos caps].
    replace (Nat.leb (S i) i) with false
      by (symmetry; apply Nat.leb_gt; lia).
    rewrite (IH (S i) n Hu); [reflexivity | simpl in Hn; lia |].
    simpl in Hk. now rewrite Nat.add_succ_r in Hk.
Qed.

Lemma rmatch_Star g r st k :
  rmatch (Star g r) st k
  = star_loop g (rmatch r) k (String.length (rest st)) st.
Proof. reflexivity. Qed.

Lemma rmatch_star_class (p : ascii -> bool) (u tail : string)
      (k : mstate -> option mstate) (i : nat) (cs : list (nat * string))
      (x : mstate) :
  stops p tail = true -> sall p u = true ->
  k (MState (i + String.length u) tail cs) = Some x ->
  rmatch (Star true (Chr p)) (MState i (u ++ tail) cs) k = Some x.
Proof.
  intros Hs Hu Hk. rewrite rmatch_Star. cbn [rest].
  apply star_class_greedy with p; try assumption; [reflexivity | lia].
Qed.

Lemma rmatch_star_stop (p : ascii -> bool) (s : string)
      (k : mstate -> option mstate) (i : nat) (cs : list (nat * string))
      (x : mstate) :
  stops p s = true -> k (MState i s cs) = Some x ->
  rmatch (Star true (Chr p)) (MState i s cs) k = Some x.
Proof.
  intros Hs Hk. apply (rmatch_star_class p "" s k i cs x Hs eq_refl).
  simpl. now rewrite Nat.add_0_r.
Qed.

(** Passing over the characters of a match. *)
Lemma replace_walk_skip r f (s : string) :
  forall p, replace_walk r f p (String.length s) s
            = replace_walk r f (p + String.length s) 0 "".
Proof.
  induction s as [|c s IH]; intros p; simpl.
  - now rewrite Nat.add_0_r.
  - rewrite IH. now rewrite Nat.add_succ_r.
Qed.

(** A pattern that cannot match the empty text, and that matches the
    whole of [s] at its start, replaces [s] by the replacement alone. *)
Lemma replaceAll_whole r f (s : string) (m : mresult) :
  needs any r = true ->
  matchAt r 0 s = Some m -> whole m = s -> s <> "" ->
  replaceAll r f s = f m.
Proof.
  intros Hn Hm Hw Hs. unfold replaceAll.
  destruct s as [|c s]; [contradiction|].
  cbn [replace_walk]. rewrite Hm, Hw. cbn [String.length].
  rewrite replace_walk_skip. cbn [replace_walk].
  rewrite (matchAt_needs any r _ "" Hn eq_refl). apply app_nil_r.
Qed.

(** *** Rules for running the matcher on a text given in parts *)

Lemma run_Seq r1 r2 st k x :
  rmatch r1 st (fun st1 => rmatch r2 st1 k) = x ->
  rmatch (Seq r1 r2) st k = x.
Proof. intros H. exact H. Qed.

Lemma run_Chr p i c s cs k x :
  p c = true -> k (MState (S i) s cs) = x ->
  rmatch (Chr p) (MState i (String c s) cs) k = x.
Proof. intros Hp H. cbn [rmatch rest]. rewrite Hp. exact H. Qed.

Lemma run_Chr_fail p i c s cs k :
  p c = false -> rmatch (Chr p) (MState i (String c s) cs) k = None.
Proof. intros Hp. cbn [rmatch rest]. now rewrite Hp. Qed.

Lemma run_Chr_end p i cs k : rmatch (Chr p) (MState i "" cs) k = None.
Proof. reflexivity. Qed.

Lemma run_Seq_fail r1 r2 st k :
  (forall k', rmatch r1 st k' = None) -> rmatch (Seq r1 r2) st k = None.
Proof. intros H. apply H. Qed.

Lemma run_AltL r1 r2 st k x :
  rmatch r1 st k = Some x -> rmatch (Alt r1 r2) st k = Some x.
Proof. intros H. cbn [rmatch]. now rewrite H. Qed.

Lemma run_AltR r1 r2 st k x :
  rmatch r1 st k = None -> rmatch r2 st k = x ->
  rmatch (Alt r1 r2) st k = x.
Proof. intros H1 H2. cbn [rmatch]. now rewrite H1. Qed.

Lemma run_Eps st k x : k st = x -> rmatch Eps st k = x.
Proof. intros H. exact H. Qed.

Lemma run_Group n r st k x :
  rmatch r st (fun st1 => k (set_cap n st st1)) = x ->
  rmatch (Group n r) st k = x.
Proof. intros H. exact H. Qed.

Lemma run_Bol s cs k x :
  k (MState 0 s cs) = x -> rmatch Bol (MState 0 s cs) k = x.
Proof. intros H. exact H. Qed.

Lemma run_Bol_fail i s cs k : rmatch Bol (MState (S i) s cs) k = None.
Proof. reflexivity. Qed.

Lemma run_Eol i cs k x :
  k (MState i "" cs) = x -> rmatch Eol (MState i "" cs) k = x.
Proof. intros H. exact H. Qed.

Lemma run_NotAhead r st k x :
  rmatch r st (fun y => Some y) = None -> k st = x ->
  rmatch (NotAhead r) st k = x.
Proof. intros H1 H2. cbn [rmatch]. now rewrite H1. Qed.

Lemma mstate_eq i j s t cs ds :
  i = j -> s = t -> cs = ds -> MState i s cs = MState j t ds.
Proof. now intros -> -> ->. Qed.

Lemma run_lit1 (c : ascii) : lit (str1 c) = Chr (chr c).
Proof. reflexivity. Qed.

Lemma chr_refl (c : ascii) : chr c c = true.
Proof. apply Ascii.eqb_refl. Qed.

End WalkFacts.
Import WalkFacts.

(* ================================================================== *)
(** ** Reading matches of the line patterns *)
(* ================================================================== *)

Module MatchInv.

Lemma Matches_Seq_inv r1 r2 st st2 :
  Matches (Seq r1 r2) st st2 ->
  exists st1, Matches r1 st st1 /\ Matches r2 st1 st2.
Proof. intros M. inversion M; subst. eauto. Qed.

Lemma Matches_Group_inv n r st st' :
  Matches (Group n r) st st' ->
  exists st1, Matches r st st1 /\ st' = set_cap n st st1.
Proof. intros M. inversion M; subst. eauto. Qed.

Lemma Matches_Alt_inv r1 r2 st st1 :
  Matches (Alt r1 r2) st st1 -> Matches r1 st st1 \/ Matches r2 st st1.
Proof. intros M. inversion M; subst; auto. Qed.

Lemma Matches_Eps_inv st st1 : Matches Eps st st1 -> st1 = st.
Proof. intros M. now inversion M. Qed.

Lemma Matches_Eol_inv st st1 :
  Matches Eol st st1 -> st1 = st /\ rest st = "".
Proof. intros M. inversion M; subst. auto. Qed.

Lemma Matches_Chr_inv p st st1 :
  Matches (Chr p) st st1 ->
  exists c, p c = true /\ rest st = String c (rest st1)
            /\ pos st1 = S (pos st) /\ caps st1 = caps st.
Proof. intros M. inversion M; subst. exists c. simpl. auto. Qed.

(** The text a match takes is what its capture records. *)
Lemma captured r st st1 :
  Matches r st st1 ->
  exists u, rest st = u ++ rest st1
            /\ pos st1 = pos st + String.length u
            /\ take (pos st1 - pos st) (rest st) = u.
Proof.
  intros M. destruct (Matches_consumes _ _ _ M) as [u [E P]].
  exists u. repeat split; try assumption.
  rewrite E. apply take_len_app. lia.
Qed.

(** A starred class takes a run of characters of the class and records
    nothing. *)
Lemma Matches_star_class_inv g p st st1 :
  Matches (Star g (Chr p)) st st1 ->
  exists u, sall p u = true /\ rest st = u ++ rest st1
            /\ pos st1 = pos st + String.length u /\ caps st1 = caps st.
Proof.
  intros M. remember (Star g (Chr p)) as r eqn:Er.
  induction M as [ | | | | |g' r' st|g' r' st st1 st2 M1 _ Hlt M2 IH2| | | | | ];
    try discriminate; injection Er as -> ->.
  - exists "". simpl. repeat split. lia.
  - destruct (IH2 eq_refl) as [u [Hu [E [P C]]]].
    destruct (Matches_Chr_inv _ _ _ M1) as [c [Hc [E1 [P1 C1]]]].
    exists (String c u). simpl. rewrite Hc, Hu, E1, E, P, P1, C, C1.
    repeat split. lia.
Qed.

Lemma Matches_star_class_intro g p u :
  sall p u = true ->
  forall i t cs,
    Matches (Star g (Chr p)) (MState i (u ++ t) cs)
            (MState (i + String.length u) t cs).
Proof.
  induction u as [|c u IH]; intros Hu i t cs; simpl.
  - rewrite Nat.add_0_r. constructor.
  - simpl in Hu. apply andb_true_iff in Hu as [Hc Hu].
    apply M_StarS with (MState (S i) (u ++ t) cs).
    + exact (M_Chr p c (u ++ t) (MState i (String c (u ++ t)) cs)
                   eq_refl Hc).
    + simpl. lia.
    + rewrite Nat.add_succ_r. exact (IH Hu (S i) t cs).
Qed.

Lemma Matches_lit_inv m :
  forall st st1, Matches (lit m) st st1 ->
    rest st = m ++ rest st1 /\ pos st1 = pos st + String.length m
    /\ caps st1 = caps st.
Proof.
  induction m as [|c m IH]; intros st st1 M.
  - apply Matches_Eps_inv in M. subst. simpl. repeat split. lia.
  - destruct m as [|d m].
    + destruct (Matches_Chr_inv _ _ _ M) as [c' [Hc [E [P C]]]].
      apply Ascii.eqb_eq in Hc. subst c'. simpl. rewrite E, P, C.
      repeat split. lia.
    + change (lit (String c (String d m)))
        with (Seq (Chr (chr c)) (lit (String d m))) in M.
      destruct (Matches_Seq_inv _ _ _ _ M) as [sta [Ma Mb]].
      destruct (Matches_Chr_inv _ _ _ Ma) as [c' [Hc [E [P C]]]].
      apply Ascii.eqb_eq in Hc. subst c'.
      destruct (IH _ _ Mb) as [E2 [P2 C2]].
      rewrite E, E2, P2, P, C2, C. repeat split.
      cbn [String.length]. lia.
Qed.

Lemma Matches_lit_intro m :
  forall i t cs,
    Matches (lit m) (MState i (m ++ t) cs)
            (MState (i + String.length m) t cs).
Proof.
  induction m as [|c m IH]; intros i t cs.
  - simpl. rewrite Nat.add_0_r. constructor.
  - assert (Mc : Matches (Chr (chr c)) (MState i (String c (m ++ t)) cs)
                         (MState (S i) (m ++ t) cs)).
    { exact (M_Chr (chr c) c (m ++ t) (MState i (String c (m ++ t)) cs)
                   eq_refl (Ascii.eqb_refl c)). }
    destruct m as [|d m].
    + simpl. replace (i + 1) with (S i) by lia. exact Mc.
    + change (lit (String c (String d m)))
        with (Seq (Chr (chr c)) (lit (String d m))).
      apply M_Seq with (MState (S i) (String d m ++ t) cs); [exact Mc|].
      replace (i + String.length (String c (String d m)))
        with (S i + String.length (String d m))
        by (cbn [String.length]; lia).
      apply IH.
Qed.

End MatchInv.
Import MatchInv.

(* ================================================================== *)
(** ** The link policy: [safeLinkHref] *)
(* ================================================================== *)

Module LinkPolicy.

Lemma smap_app_inv (f : ascii -> ascii) (a b : string) :
  forall h, smap f h = a ++ b ->
            exists x y, h = x ++ y /\ smap f x = a /\ smap f y = b.
Proof.
  induction a as [|c a IH]; intros h H; simpl in H.
  - exists "", h. now repeat split.
  - destruct h as [|d h]; simpl in H; [discriminate|].
    injection H as Hd Hh. destruct (IH _ Hh) as [x [y [-> [Hx Hy]]]].
    exists (String d x), y. simpl. now rewrite Hd, Hx.
Qed.

(** The test of the source, [lower.startsWith(scheme)], decides
    [beginsWithCI]. *)
Lemma startsWith_lower_iff (h scheme : string) :
  startsWith (toLowerCase h) scheme = true <-> beginsWithCI h scheme.
Proof.
  unfold beginsWithCI, toLowerCase. split.
  - intros H. apply startsWith_inv in H as [r Hr].
    destruct (smap_app_inv lower scheme r h Hr) as [x [y [-> [Hx _]]]].
    now exists x, y.
  - intros [x [r [-> Hx]]]. rewrite smap_app, Hx. apply startsWith_app.
Qed.

Lemma dangerous_iff (h : string) : dangerous h <-> dangerousb h = true.
Proof.
  unfold dangerous, dangerousb.
  rewrite !orb_true_iff, !startsWith_lower_iff. tauto.
Qed.

Lemma safeLinkHref_default (href : string) :
  safeLinkHref href false
  = if dangerousb (trim href) then "" else trim href.
Proof.
  unfold safeLinkHref, dangerousb.
  destruct (trim href) as [|c h] eqn:E; [reflexivity|].
  cbn [truthy negb].
  destruct (startsWith _ "javascript:"), (startsWith _ "vbscript:"),
    (startsWith _ "data:"); reflexivity.
Qed.

Lemma safeLinkHref_unsafe (href : string) :
  safeLinkHref href true = trim href.
Proof. unfold safeLinkHref. now destruct (trim href). Qed.

(** The text [trim] keeps, and what it removes. *)
Lemma trimStart_spec (s : string) :
  exists a, s = a ++ trimStart s /\ whitespace a = true.
Proof.
  induction s as [|c s [a [E W]]]; [now exists ""|].
  simpl. destruct (isWs c) eqn:Hc.
  - exists (String c a). simpl. unfold whitespace in *. simpl.
    now rewrite Hc, W, <- E.
  - now exists "".
Qed.

Lemma trimEnd_spec (s : string) :
  exists b, s = trimEnd s ++ b /\ whitespace b = true.
Proof.
  induction s as [|c s [b [E W]]]; [now exists ""|].
  simpl. destruct (trimEnd s) as [|d t] eqn:T.
  - simpl in E. subst b. destruct (isWs c) eqn:Hc.
    + exists (String c s). unfold whitespace in *. simpl. now rewrite Hc, W.
    + exists s. now split.
  - exists b. simpl. split; [now rewrite E at 1 | exact W].
Qed.

Lemma trim_spec (s : string) :
  exists a b, s = a ++ trim s ++ b
              /\ whitespace a = true /\ whitespace b = true.
Proof.
  unfold trim. destruct (trimStart_spec s) as [a [Ea Wa]].
  destruct (trimEnd_spec (trimStart s)) as [b [Eb Wb]].
  exists a, b. now rewrite <- Eb.
Qed.

Lemma trimStart_stops (s : string) : stops isWs (trimStart s) = true.
Proof.
  induction s as [|c s IH]; [reflexivity|].
  simpl. destruct (isWs c) eqn:Hc; [exact IH|]. simpl. now rewrite Hc.
Qed.

Lemma trimStart_fixed (s : string) :
  stops isWs s = true -> trimStart s = s.
Proof.
  destruct s as [|c s]; [reflexivity|]. simpl. intros H.
  apply negb_true_iff in H. now rewrite H.
Qed.

Lemma trimEnd_stops (s : string) :
  stops isWs s = true -> stops isWs (trimEnd s) = true.
Proof.
  destruct s as [|c s]; [reflexivity|]. simpl. intros H.
  apply negb_true_iff in H. rewrite H.
  destruct (trimEnd s); simpl; now rewrite H.
Qed.

Lemma trimEnd_idempotent (s : string) : trimEnd (trimEnd s) = trimEnd s.
Proof.
  induction s as [|c s IH]; [reflexivity|]. simpl.
  destruct (trimEnd s) as [|d t] eqn:T.
  - destruct (isWs c) eqn:Hc; [reflexivity|]. simpl. now rewrite Hc.
  - cbn [trimEnd]. cbn [trimEnd] in IH. now rewrite IH.
Qed.

(** [trim] leaves no whitespace at either end. *)
Lemma trim_fixed (s : string) : trim (trim s) = trim s.
Proof.
  unfold trim at 1.
  rewrite (trimStart_fixed (trim s)).
  - unfold trim. apply trimEnd_idempotent.
  - unfold trim. apply trimEnd_stops, trimStart_stops.
Qed.

End LinkPolicy.
Import LinkPolicy.

(* ================================================================== *)
(** ** The inline renderer *)
(* ================================================================== *)

Module InlineFacts.

Lemma escapeHtml_substc (s : string) :
  escapeHtml s
  = substc (chr SQ) "&#39;"
      (substc (chr DQ) "&quot;"
        (substc (chr ">") "&gt;"
          (substc (chr "<") "&lt;"
            (substc (chr "&") "&amp;" s)))).
Proof. unfold escapeHtml. now rewrite !replaceAll_Chr. Qed.


Lemma escapeHtml_app (a b : string) :
  escapeHtml (a ++ b) = escapeHtml a ++ escapeHtml b.
Proof. rewrite !escapeHtml_substc. now rewrite !substc_app. Qed.

(** Escaping introduces no markup character. *)
Lemma plain_escapeHtml (s : string) :
  plain s = true -> plain (escapeHtml s) = true.
Proof.
  unfold plain. intros H. rewrite escapeHtml_substc.
  repeat (apply sall_substc; [reflexivity|]).
  revert H. apply sall_impl. intros c Hc. cbv beta. rewrite Hc.
  now rewrite !orb_true_r.
Qed.

Lemma needs_markup :
  needs isMarkup re_code = true
  /\ needs isMarkup re_image = true
  /\ needs isMarkup re_link = true
  /\ needs isMarkup re_autolink = true
  /\ needs isMarkup re_bare = true
  /\ needs isMarkup re_strike = true
  /\ needs isMarkup (re_bold "*") = true
  /\ needs isMarkup (re_bold "_") = true
  /\ needs isMarkup (re_em "*") = true
  /\ needs isMarkup (re_em "_") = true.
Proof. vm_compute. repeat split. Qed.

(** The stages after the inline-code stage leave a text without markup
    characters as it is. *)
Lemma laterStages_plain (o : options) (s : string) :
  plain s = true -> laterStages o s = s.
Proof.
  intros H.
  destruct needs_markup as (_ & Hi & Hl & Ha & Hb & Hs & Hb1 & Hb2 & He1 & He2).
  unfold laterStages, afterLinks, stageItalic, stageBold, stageStrike,
    stageBare, stageAutolink, stageLink, stageImage.
  rewrite (replaceAll_needs isMarkup re_image _ s Hi H).
  rewrite (replaceAll_needs isMarkup re_link _ s Hl H).
  rewrite (replaceAll_needs isMarkup re_autolink _ s Ha H).
  rewrite (replaceAll_needs isMarkup re_bare _ s Hb H).
  rewrite (replaceAll_needs isMarkup re_strike _ s Hs H).
  rewrite (replaceAll_needs isMarkup (re_bold "*") _ s Hb1 H).
  rewrite (replaceAll_needs isMarkup (re_bold "_") _ s Hb2 H).
  rewrite (replaceAll_needs isMarkup (re_em "*") _ s He1 H).
  now rewrite (replaceAll_needs isMarkup (re_em "_") _ s He2 H).
Qed.

Lemma stageCode_plain (s : string) : plain s = true -> stageCode s = s.
Proof.
  intros H. destruct needs_markup as (Hc & _).
  apply (replaceAll_needs isMarkup re_code _ s Hc H).
Qed.

(** A text without markup characters is escaped once and otherwise left
    alone. *)
Lemma renderInline_plain (text : string) (o : options) :
  plain text = true -> renderInline text o = escapeHtml text.
Proof.
  intros H. unfold renderInline.
  rewrite stageCode_plain by now apply plain_escapeHtml.
  apply laterStages_plain. now apply plain_escapeHtml.
Qed.

Lemma plain_no_backtick (s : string) :
  plain s = true -> sall (notc BT) s = true.
Proof.
  apply sall_impl. intros c Hc.
  assert (A : forallb (fun c => implb (negb (isMarkup c)) (notc BT c))
                      all_ascii = true) by (vm_compute; reflexivity).
  pose proof (forall_ascii _ A c) as Hi. cbv beta in Hi.
  now rewrite Hc in Hi.
Qed.

(** The inline-code pattern on a backtick-delimited span. *)
Lemma matchAt_code_span (c : ascii) (e : string) :
  sall (notc BT) (String c e) = true ->
  matchAt re_code 0 (String BT (String c e ++ str1 BT))
  = Some (MResult (String BT (String c e ++ str1 BT))
                  [(2, String c e); (1, "")] 0).
Proof.
  intros H. simpl in H. apply andb_true_iff in H as [Hc He].
  unfold matchAt.
  assert (R : rmatch re_code
                (MState 0 (String BT (String c e ++ str1 BT)) [])
                (fun x => Some x)
              = Some (MState (2 + String.length e + 1) ""
                             [(2, String c e); (1, "")])).
  { unfold re_code. cbn [seqs Plus].
    apply run_Seq, run_Group, run_AltL, run_Bol. cbv beta.
    unfold set_cap. cbn [pos rest caps Nat.sub take].
    apply run_Seq, run_Chr; [apply chr_refl|].
    apply run_Seq, run_Group, run_Seq. cbn [append].
    apply run_Chr; [exact Hc|].
    apply rmatch_star_class; [reflexivity | exact He |].
    unfold set_cap. cbn [pos rest caps].
    apply run_Seq, run_Chr; [apply chr_refl|].
    apply run_NotAhead; [reflexivity|].
    apply f_equal, mstate_eq; [lia | reflexivity |].
    do 2 f_equal.
    change (String c (e ++ str1 BT)) with (String c e ++ str1 BT).
    apply take_len_app. simpl. lia. }
  rewrite R. cbn [pos caps]. do 2 f_equal.
  apply take_len_all. simpl. rewrite length_app. simpl. lia.
Qed.

Lemma needs_any_code : needs any re_code = true.
Proof. vm_compute. reflexivity. Qed.

(** The inline-code stage on a single span. *)
Lemma stageCode_span (e : string) :
  e <> "" -> sall (notc BT) e = true ->
  stageCode (str1 BT ++ e ++ str1 BT) = "<code>" ++ e ++ "</code>".
Proof.
  intros Hne He. destruct e as [|c e]; [contradiction|].
  unfold stageCode.
  rewrite (replaceAll_whole re_code _ _ _ needs_any_code
             (matchAt_code_span c e He)); [reflexivity.. | discriminate].
Qed.

End InlineFacts.
Import InlineFacts.

Module EscapeFacts.

Lemma escapeHtml_one (c : ascii) : escapeHtml (str1 c) = entity c.
Proof.
  rewrite escapeHtml_substc. unfold entity, str1, chr. simpl.
  destruct (Ascii.eqb c "&") eqn:E1;
    [apply Ascii.eqb_eq in E1; subst c; reflexivity|].
  simpl. destruct (Ascii.eqb c "<") eqn:E2;
    [apply Ascii.eqb_eq in E2; subst c; reflexivity|].
  simpl. destruct (Ascii.eqb c ">") eqn:E3;
    [apply Ascii.eqb_eq in E3; subst c; reflexivity|].
  simpl. destruct (Ascii.eqb c DQ) eqn:E4;
    [apply Ascii.eqb_eq in E4; subst c; reflexivity|].
  simpl. destruct (Ascii.eqb c SQ) eqn:E5;
    [apply Ascii.eqb_eq in E5; subst c; reflexivity|].
  reflexivity.
Qed.

(** The five passes of [escapeHtml] escape each character of the text
    once: the ampersands of the entities they write are not escaped
    again. *)
Lemma escapeHtml_chars (s : string) : escapeHtml s = escapeChars s.
Proof.
  induction s as [|c s IH]; [reflexivity|].
  change (String c s) with (str1 c ++ s).
  rewrite escapeHtml_app, escapeHtml_one, IH. reflexivity.
Qed.

Lemma entity_nonempty (c : ascii) : entity c <> "".
Proof.
  unfold entity.
  repeat match goal with |- context [if ?b then _ else _] => destruct b end;
    discriminate.
Qed.

Lemma escapeHtml_nonempty (s : string) : s <> "" -> escapeHtml s <> "".
Proof.
  rewrite escapeHtml_chars. destruct s as [|c s]; [contradiction|].
  intros _. simpl. pose proof (entity_nonempty c) as H.
  destruct (entity c); [contradiction | discriminate].
Qed.

Lemma no_backtick_escapeHtml (s : string) :
  sall (notc BT) s = true -> sall (notc BT) (escapeHtml s) = true.
Proof.
  intros H. rewrite escapeHtml_substc.
  repeat (apply sall_substc; [reflexivity|]).
  revert H. apply sall_impl. intros c Hc. cbv beta. rewrite Hc.
  now rewrite !orb_true_r.
Qed.

Lemma escapeHtml_span (c : string) :
  escapeHtml (str1 BT ++ c ++ str1 BT) = str1 BT ++ escapeHtml c ++ str1 BT.
Proof. now rewrite !escapeHtml_app. Qed.

Lemma plain_code_element (e : string) :
  plain e = true -> plain ("<code>" ++ e ++ "</code>") = true.
Proof.
  intros H. unfold plain in *. rewrite !sall_app, H. reflexivity.
Qed.

(** Escaping keeps a text within a class that holds the characters of
    the five entities. *)
Lemma sall_escapeHtml (Q : ascii -> bool) (s : string) :
  sall Q "&amp;&lt;&gt;&quot;&#39;" = true ->
  sall Q s = true -> sall Q (escapeHtml s) = true.
Proof.
  intros HE H. rewrite escapeHtml_chars.
  change "&amp;&lt;&gt;&quot;&#39;"
    with ("&amp;" ++ "&lt;" ++ "&gt;" ++ "&quot;" ++ "&#39;") in HE.
  rewrite !sall_app, !andb_true_iff in HE.
  destruct HE as (H1 & H2 & H3 & H4 & H5).
  induction s as [|c s IH]; [reflexivity|].
  simpl in H. apply andb_true_iff in H as [Hc Hs].
  cbn [escapeChars]. rewrite sall_app, (IH Hs), andb_true_r.
  unfold entity.
  repeat match goal with |- context [if ?b then _ else _] => destruct b end;
    try assumption.
  simpl. now rewrite Hc.
Qed.

Lemma free_count (P : ascii -> bool) (s : string) :
  free P s = true -> count P s = 0.
Proof.
  unfold free. induction s as [|c s IH]; simpl; [reflexivity|].
  intros H. apply andb_true_iff in H as [Hc Hs].
  apply negb_true_iff in Hc. now rewrite Hc, IH.
Qed.

End EscapeFacts.
Import EscapeFacts.

(* ================================================================== *)
(** ** Unescaping undoes escaping *)
(* ================================================================== *)

Module UnescapeFacts.

Lemma rmatch_Seq_eq r1 r2 st k :
  rmatch (Seq r1 r2) st k = rmatch r1 st (fun st1 => rmatch r2 st1 k).
Proof. reflexivity. Qed.

(** A literal pattern matches where the text begins with it. *)
Lemma rmatch_lit (pat : string) :
  forall p s cs k,
    rmatch (lit pat) (MState p s cs) k
    = if startsWith s pat
      then k (MState (p + String.length pat)
                     (drop (String.length pat) s) cs)
      else None.
Proof.
  assert (One : forall c p s cs k,
             rmatch (Chr (chr c)) (MState p s cs) k
             = if startsWith s (str1 c)
               then k (MState (p + 1) (drop 1 s) cs) else None).
  { intros c p s cs k. cbn [rmatch rest].
    destruct s as [|d s]; [reflexivity|]. unfold chr, advance. simpl.
    destruct (Ascii.eqb d c); [|reflexivity].
    destruct s; simpl; now rewrite Nat.add_1_r. }
  induction pat as [|c pat IH]; intros p s cs k.
  - simpl. rewrite Nat.add_0_r. now destruct s.
  - destruct pat as [|d pat]; [apply One|].
    change (lit (String c (String d pat)))
      with (Seq (Chr (chr c)) (lit (String d pat))).
    rewrite rmatch_Seq_eq, One.
    destruct s as [|x s]; [reflexivity|].
    cbn [startsWith str1 drop]. 
    destruct (Ascii.eqb x c) eqn:Ex; cbn [andb].
    + replace (startsWith s "") with true by now destruct s.
      rewrite IH. cbn [String.length].
      destruct (startsWith s (String d pat)); [|reflexivity].
      f_equal. apply mstate_eq; [lia | reflexivity | reflexivity].
    + reflexivity.
Qed.

Lemma matchAt_lit (pat s : string) (p : nat) :
  matchAt (lit pat) p s
  = if startsWith s pat then Some (MResult pat [] p) else None.
Proof.
  unfold matchAt. rewrite rmatch_lit.
  destruct (startsWith s pat) eqn:E; [|reflexivity].
  cbn [pos caps]. do 2 f_equal.
  destruct (startsWith_inv _ _ E) as [r ->].
  apply take_len_app. lia.
Qed.

(** One step of a global replace of a literal by a constant. *)
Lemma walk_lit (pat rep : string) (p : nat) (c : ascii) (t : string) :
  replace_walk (lit pat) (const rep) p 0 (String c t)
  = if startsWith (String c t) pat
    then match String.length pat with
         | O => rep ++ String c (replace_walk (lit pat) (const rep) (S p) 0 t)
         | S len => rep ++ replace_walk (lit pat) (const rep) (S p) len t
         end
    else String c (replace_walk (lit pat) (const rep) (S p) 0 t).
Proof.
  cbn [replace_walk]. rewrite matchAt_lit.
  now destruct (startsWith (String c t) pat).
Qed.

Lemma walk_skip r f (p k : nat) (c : ascii) (t : string) :
  replace_walk r f p (S k) (String c t) = replace_walk r f (S p) k t.
Proof. reflexivity. Qed.

Lemma startsWith_nil (s : string) : startsWith s "" = true.
Proof. now destruct s. Qed.

Ltac walk :=
  repeat (first [rewrite walk_skip | rewrite walk_lit];
          cbn [startsWith Ascii.eqb Bool.eqb andb String.length append];
          rewrite ?startsWith_nil).

Lemma eqb_false_of (c a : ascii) : c <> a -> Ascii.eqb c a = false.
Proof. apply Ascii.eqb_neq. Qed.

Lemma unescape_entity (c : ascii) (t : string) :
  forall p1 p2 p3 p4 p5,
  exists q1 q2 q3 q4 q5,
    replace_walk (lit "&amp;") (const "&") p5 0
      (replace_walk (lit "&#39;") (const (str1 SQ)) p4 0
        (replace_walk (lit "&quot;") (const dq) p3 0
          (replace_walk (lit "&gt;") (const ">") p2 0
            (replace_walk (lit "&lt;") (const "<") p1 0
               (entity c ++ t)))))
    = String c
        (replace_walk (lit "&amp;") (const "&") q5 0
          (replace_walk (lit "&#39;") (const (str1 SQ)) q4 0
            (replace_walk (lit "&quot;") (const dq) q3 0
              (replace_walk (lit "&gt;") (const ">") q2 0
                (replace_walk (lit "&lt;") (const "<") q1 0 t))))).
Proof.
  intros p1 p2 p3 p4 p5. unfold entity.
  destruct (Ascii.eqb c "&") eqn:E1.
  { apply Ascii.eqb_eq in E1. subst c. do 5 eexists.
    cbn [append]. walk. reflexivity. }
  destruct (Ascii.eqb c "<") eqn:E2.
  { apply Ascii.eqb_eq in E2. subst c. do 5 eexists.
    cbn [append]. walk. reflexivity. }
  destruct (Ascii.eqb c ">") eqn:E3.
  { apply Ascii.eqb_eq in E3. subst c. do 5 eexists.
    cbn [append]. walk. reflexivity. }
  destruct (Ascii.eqb c DQ) eqn:E4.
  { apply Ascii.eqb_eq in E4. subst c. do 5 eexists.
    cbn [append]. unfold dq, str1, DQ. walk. reflexivity. }
  destruct (Ascii.eqb c SQ) eqn:E5.
  { apply Ascii.eqb_eq in E5. subst c. do 5 eexists.
    cbn [append]. unfold str1, SQ. walk. reflexivity. }
  do 5 eexists. unfold str1. cbn [append].
  repeat (rewrite walk_lit; cbn [startsWith]; rewrite E1; cbn [andb]).
  reflexivity.
Qed.

Lemma unescape_walk (s : string) :
  forall p1 p2 p3 p4 p5,
    replace_walk (lit "&amp;") (const "&") p5 0
      (replace_walk (lit "&#39;") (const (str1 SQ)) p4 0
        (replace_walk (lit "&quot;") (const dq) p3 0
          (replace_walk (lit "&gt;") (const ">") p2 0
            (replace_walk (lit "&lt;") (const "<") p1 0
               (escapeChars s)))))
    = s.
Proof.
  induction s as [|c s IH]; intros p1 p2 p3 p4 p5; [reflexivity|].
  cbn [escapeChars].
  destruct (unescape_entity c (escapeChars s) p1 p2 p3 p4 p5)
    as (q1 & q2 & q3 & q4 & q5 & E).
  rewrite E. f_equal. apply IH.
Qed.

(** [unescapeHtml] gives back the text that [escapeHtml] was given. *)
Theorem unescape_escape (s : string) : unescapeHtml (escapeHtml s) = s.
Proof.
  rewrite escapeHtml_chars. unfold unescapeHtml, replaceAll.
  apply unescape_walk.
Qed.

End UnescapeFacts.
Import UnescapeFacts.

(* ================================================================== *)
(** ** The image and link stages on one image or link *)
(* ================================================================== *)

Module LinkFacts.

Lemma urlChar_not_ws (c : ascii) : isUrlChar c = true -> isWs c = false.
Proof.
  unfold isUrlChar. intros H. apply negb_true_iff, orb_false_iff in H.
  apply H.
Qed.

(** The tail of the image and link patterns on a url without title. *)
Lemma rmatch_target (b : ascii) (u : string) (i : nat)
      (cs : list (nat * string)) :
  sall isUrlChar (String b u) = true ->
  rmatch re_target (MState i (String b u ++ ")") cs) (fun x => Some x)
  = Some (MState (i + String.length (String b u) + 1) ""
                 ((2, String b u) :: cs)).
Proof.
  intros H. simpl in H. apply andb_true_iff in H as [Hb Hu].
  unfold re_target. cbn [seqs Plus append].
  apply run_Seq, run_Group, run_Seq.
  apply rmatch_star_stop;
    [simpl; now rewrite (urlChar_not_ws b Hb)|].
  apply run_Seq, run_Chr; [exact Hb|].
  apply rmatch_star_class; [reflexivity | exact Hu |].
  unfold set_cap. cbn [pos rest caps].
  apply run_Seq, run_AltR.
  { cbn [seqs]. apply run_Seq, run_Seq. now apply run_Chr_fail. }
  apply run_Eps, run_Seq, rmatch_star_stop; [reflexivity|].
  apply run_Chr; [reflexivity|].
  apply f_equal, mstate_eq; [cbn [String.length]; lia | reflexivity |].
  do 2 f_equal.
  change (String b (u ++ ")")) with (String b u ++ ")").
  apply take_len_app. cbn [String.length]. lia.
Qed.

Lemma matchAt_link (a : ascii) (l : string) (b : ascii) (u : string) :
  sall (notc "]") (String a l) = true ->
  sall isUrlChar (String b u) = true ->
  matchAt re_link 0 ("[" ++ String a l ++ "](" ++ String b u ++ ")")
  = Some (MResult ("[" ++ String a l ++ "](" ++ String b u ++ ")")
                  [(2, String b u); (1, String a l)] 0).
Proof.
  intros Hl Hu. pose proof Hl as Hl'. simpl in Hl'.
  apply andb_true_iff in Hl' as [Ha Hl'].
  unfold matchAt.
  assert (R : rmatch re_link
                (MState 0 ("[" ++ String a l ++ "](" ++ String b u ++ ")") [])
                (fun x => Some x)
              = Some (MState (String.length
                        ("[" ++ String a l ++ "](" ++ String b u ++ ")")) ""
                        [(2, String b u); (1, String a l)])).
  { unfold re_link. cbn [seqs Plus append lit].
    apply run_Seq, run_Chr; [reflexivity|].
    apply run_Seq, run_Group, run_Seq, run_Chr; [exact Ha|].
    apply rmatch_star_class; [reflexivity | exact Hl' |].
    unfold set_cap. cbn [pos rest caps].
    apply run_Seq, run_Seq, run_Chr; [reflexivity|].
    apply run_Chr; [reflexivity|].
    change (String b (u ++ ")")) with (String b u ++ ")").
    rewrite (rmatch_target b u _ _ Hu).
    apply f_equal, mstate_eq;
      [repeat (rewrite ?length_app; cbn [String.length append]); lia
      | reflexivity |].
    do 3 f_equal.
    change (String a (l ++ String "]" (String "(" (String b u ++ ")"))))
      with (String a l ++ String "]" (String "(" (String b u ++ ")"))).
    apply take_len_app. cbn [String.length]. lia. }
  rewrite R. cbn [pos caps]. do 2 f_equal.
  apply take_len_all. lia.
Qed.

Lemma matchAt_image (alt : string) (b : ascii) (u : string) :
  sall (notc "]") alt = true ->
  sall isUrlChar (String b u) = true ->
  matchAt re_image 0 ("![" ++ alt ++ "](" ++ String b u ++ ")")
  = Some (MResult ("![" ++ alt ++ "](" ++ String b u ++ ")")
                  [(2, String b u); (1, alt)] 0).
Proof.
  intros Hl Hu. unfold matchAt.
  assert (R : rmatch re_image
                (MState 0 ("![" ++ alt ++ "](" ++ String b u ++ ")") [])
                (fun x => Some x)
              = Some (MState (String.length
                        ("![" ++ alt ++ "](" ++ String b u ++ ")")) ""
                        [(2, String b u); (1, alt)])).
  { unfold re_image. cbn [seqs Plus append lit].
    apply run_Seq, run_Seq, run_Chr; [reflexivity|].
    apply run_Chr; [reflexivity|].
    apply run_Seq, run_Group.
    apply rmatch_star_class; [reflexivity | exact Hl |].
    unfold set_cap. cbn [pos rest caps].
    apply run_Seq, run_Seq, run_Chr; [reflexivity|].
    apply run_Chr; [reflexivity|].
    change (String b (u ++ ")")) with (String b u ++ ")").
    rewrite (rmatch_target b u _ _ Hu).
    apply f_equal, mstate_eq;
      [repeat (rewrite ?length_app; cbn [String.length append]); lia
      | reflexivity |].
    do 3 f_equal.
    apply take_len_app. lia. }
  rewrite R. cbn [pos caps]. do 2 f_equal.
  apply take_len_all. lia.
Qed.

Lemma needs_any_link : needs any re_link = true /\ needs any re_image = true.
Proof. vm_compute. split; reflexivity. Qed.

(** The link stage on a single link without title. *)
Lemma stageLink_one (o : options) (label url : string) :
  label <> "" -> sall (notc "]") label = true ->
  url <> "" -> sall isUrlChar url = true ->
  stageLink o ("[" ++ label ++ "](" ++ url ++ ")")
  = linkReplacer o label url "".
Proof.
  intros Hl1 Hl2 Hu1 Hu2.
  destruct label as [|a l]; [contradiction|].
  destruct url as [|b u]; [contradiction|].
  unfold stageLink.
  rewrite (replaceAll_whole re_link _ _ _ (proj1 needs_any_link)
             (matchAt_link a l b u Hl2 Hu2));
    [reflexivity.. | discriminate].
Qed.

(** The image stage on a single image without title. *)
Lemma stageImage_one (o : options) (alt url : string) :
  sall (notc "]") alt = true ->
  url <> "" -> sall isUrlChar url = true ->
  stageImage o ("![" ++ alt ++ "](" ++ url ++ ")")
  = imageReplacer o alt url "".
Proof.
  intros Hl2 Hu1 Hu2.
  destruct url as [|b u]; [contradiction|].
  unfold stageImage.
  rewrite (replaceAll_whole re_image _ _ _ (proj2 needs_any_link)
             (matchAt_image alt b u Hl2 Hu2));
    [reflexivity.. | discriminate].
Qed.

(** *** From the text as written *)

Lemma escapeHtml_link (label url : string) :
  escapeHtml ("[" ++ label ++ "](" ++ url ++ ")")
  = "[" ++ escapeHtml label ++ "](" ++ escapeHtml url ++ ")".
Proof. now rewrite !escapeHtml_app. Qed.

Lemma escapeHtml_image (alt url : string) :
  escapeHtml ("![" ++ alt ++ "](" ++ url ++ ")")
  = "![" ++ escapeHtml alt ++ "](" ++ escapeHtml url ++ ")".
Proof. now rewrite !escapeHtml_app. Qed.

Lemma labelText_parts (s : string) :
  labelText s = true ->
  sall (notc "]") s = true /\ free (chr BT) s = true
  /\ free (chr "!") s = true.
Proof.
  unfold labelText, free. intros H.
  assert (A : forallb (fun c => implb (negb (oneof "]`!" c))
                (notc "]" c && negb (chr BT c) && negb (chr "!" c)))
                all_ascii = true) by (vm_compute; reflexivity).
  repeat split; revert H; apply sall_impl; intros c Hc;
    pose proof (forall_ascii _ A c) as Hi; cbv beta in Hi;
    rewrite Hc in Hi; simpl in Hi;
    apply andb_true_iff in Hi as [Hi H3];
    apply andb_true_iff in Hi as [H1 H2]; assumption.
Qed.

Lemma urlText_parts (s : string) :
  urlText s = true ->
  sall isUrlChar s = true /\ free (chr BT) s = true
  /\ free (chr "!") s = true.
Proof.
  unfold urlText, free. intros H.
  assert (A : forallb (fun c => implb (isUrlChar c && negb (oneof "`!" c))
                (isUrlChar c && negb (chr BT c) && negb (chr "!" c)))
                all_ascii = true) by (vm_compute; reflexivity).
  repeat split; revert H; apply sall_impl; intros c Hc;
    pose proof (forall_ascii _ A c) as Hi; cbv beta in Hi;
    rewrite Hc in Hi; simpl in Hi;
    apply andb_true_iff in Hi as [Hi H3];
    apply andb_true_iff in Hi as [H1 H2]; assumption.
Qed.

Lemma needs_code_image :
  needs (chr BT) re_code = true /\ needs (chr "!") re_image = true.
Proof. vm_compute. split; reflexivity. Qed.

(** The renderer up to the link stage, on a link as written. *)
Lemma renderInline_link (o : options) (label url : string) :
  label <> "" -> labelText label = true ->
  url <> "" -> urlText url = true ->
  renderInline ("[" ++ label ++ "](" ++ url ++ ")") o
  = afterLinks o
      ("<a href=" ++ dq
       ++ escapeAttr (orHash (safeLinkHref url (allowUnsafeLinks o)))
       ++ dq ++ targetAttr o ++ ">" ++ escapeHtml label ++ "</a>").
Proof.
  intros Hl1 Hl2 Hu1 Hu2.
  destruct (labelText_parts _ Hl2) as (La & Lb & Lc).
  destruct (urlText_parts _ Hu2) as (Ua & Ub & Uc).
  unfold renderInline, laterStages. rewrite escapeHtml_link.
  unfold stageCode, stageImage.
  rewrite (replaceAll_needs (chr BT) re_code _ _ (proj1 needs_code_image)).
  2:{ unfold free in *. rewrite !sall_app.
      rewrite (sall_escapeHtml (fun c => negb (chr BT c)) label eq_refl Lb).
      now rewrite (sall_escapeHtml (fun c => negb (chr BT c)) url eq_refl Ub). }
  rewrite (replaceAll_needs (chr "!") re_image _ _ (proj2 needs_code_image)).
  2:{ unfold free in *. rewrite !sall_app.
      rewrite (sall_escapeHtml (fun c => negb (chr "!" c)) label eq_refl Lc).
      now rewrite (sall_escapeHtml (fun c => negb (chr "!" c)) url eq_refl Uc). }
  rewrite stageLink_one;
    [| now apply escapeHtml_nonempty
     | exact (sall_escapeHtml (notc "]") label eq_refl La)
     | now apply escapeHtml_nonempty
     | exact (sall_escapeHtml isUrlChar url eq_refl Ua)].
  unfold linkReplacer. now rewrite unescape_escape.
Qed.

(** The renderer up to the image stage, on an image as written. *)
Lemma renderInline_image (o : options) (alt url : string) :
  labelText alt = true -> url <> "" -> urlText url = true ->
  renderInline ("![" ++ alt ++ "](" ++ url ++ ")") o
  = afterLinks o (stageLink o
      (if truthy (safeLinkHref url (allowUnsafeLinks o))
       then "<img src=" ++ dq
            ++ escapeAttr (safeLinkHref url (allowUnsafeLinks o)) ++ dq
            ++ " alt=" ++ dq ++ escapeAttr (escapeHtml alt) ++ dq ++ "/>"
       else "")).
Proof.
  intros Hl2 Hu1 Hu2.
  destruct (labelText_parts _ Hl2) as (La & Lb & Lc).
  destruct (urlText_parts _ Hu2) as (Ua & Ub & Uc).
  unfold renderInline, laterStages. rewrite escapeHtml_image.
  unfold stageCode.
  rewrite (replaceAll_needs (chr BT) re_code _ _ (proj1 needs_code_image)).
  2:{ unfold free in *. rewrite !sall_app.
      rewrite (sall_escapeHtml (fun c => negb (chr BT c)) alt eq_refl Lb).
      now rewrite (sall_escapeHtml (fun c => negb (chr BT c)) url eq_refl Ub). }
  rewrite stageImage_one;
    [| exact (sall_escapeHtml (notc "]") alt eq_refl La)
     | now apply escapeHtml_nonempty
     | exact (sall_escapeHtml isUrlChar url eq_refl Ua)].
  unfold imageReplacer. rewrite unescape_escape.
  now destruct (truthy (safeLinkHref url (allowUnsafeLinks o))).
Qed.

(** The anchor of a rejected link under the default options. *)
Lemma hashAnchor_stable (e : string) :
  plain e = true ->
  afterLinks defaultOptions
    ("<a href=" ++ dq ++ "#" ++ dq ++ " target=" ++ dq ++ "_blank" ++ dq
     ++ " rel=" ++ dq ++ "noopener noreferrer" ++ dq ++ ">" ++ e ++ "</a>")
  = "<a href=" ++ dq ++ "#" ++ dq ++ " target=" ++ dq ++ "_blank" ++ dq
    ++ " rel=" ++ dq ++ "noopener noreferrer" ++ dq ++ ">" ++ e ++ "</a>".
Proof.
  intros He.
  assert (C : forall P, subclass P isMarkup = true ->
                        count P e = 0).
  { intros P HP. apply free_count. unfold free. revert He. unfold plain.
    apply sall_impl. intros c Hc. apply negb_true_iff.
    destruct (P c) eqn:E; [|reflexivity].
    rewrite (subclass_sound _ _ HP _ E) in Hc. discriminate. }
  set (a := "<a href=" ++ dq ++ "#" ++ dq ++ " target=" ++ dq ++ "_blank"
            ++ dq ++ " rel=" ++ dq ++ "noopener noreferrer" ++ dq ++ ">").
  change ("<a href=" ++ dq ++ "#" ++ dq ++ " target=" ++ dq ++ "_blank"
          ++ dq ++ " rel=" ++ dq ++ "noopener noreferrer" ++ dq ++ ">"
          ++ e ++ "</a>") with (a ++ e ++ "</a>").
  assert (K : forall P n, subclass P isMarkup = true ->
              count P a + count P "</a>" < n ->
              count P (a ++ e ++ "</a>") < n).
  { intros P n HP Hn. rewrite !count_app, (C P HP). lia. }
  unfold afterLinks, stageItalic, stageBold, stageStrike, stageBare,
    stageAutolink.
  rewrite (replaceAll_count (chr ":") re_autolink);
    [|apply K; [vm_compute; reflexivity | vm_compute; lia]].
  rewrite (replaceAll_count (chr ":") re_bare);
    [|apply K; [vm_compute; reflexivity | vm_compute; lia]].
  rewrite (replaceAll_count (chr "~") re_strike);
    [|apply K; [vm_compute; reflexivity | vm_compute; lia]].
  rewrite (replaceAll_count (chr "*") (re_bold "*"));
    [|apply K; [vm_compute; reflexivity | vm_compute; lia]].
  rewrite (replaceAll_count (chr "_") (re_bold "_"));
    [|apply K; [vm_compute; reflexivity | vm_compute; lia]].
  rewrite (replaceAll_count (chr "*") (re_em "*"));
    [|apply K; [vm_compute; reflexivity | vm_compute; lia]].
  rewrite (replaceAll_count (chr "_") (re_em "_"));
    [|apply K; [vm_compute; reflexivity | vm_compute; lia]].
  reflexivity.
Qed.

End LinkFacts.
Import LinkFacts.

Module AttrFacts.

Lemma sall_true (p : ascii -> bool) (s : string) :
  (forall c, p c = true) -> sall p s = true.
Proof.
  intros H. induction s as [|c s IH]; simpl; [reflexivity|].
  now rewrite H, IH.
Qed.



End AttrFacts.
Import AttrFacts.

(* ================================================================== *)
(** ** Fenced code blocks *)
(* ================================================================== *)

Module FenceFacts.

Lemma Matches_Group_text n r st st' :
  Matches (Group n r) st st' ->
  exists st1 u, Matches r st st1 /\ rest st = u ++ rest st1
                /\ pos st1 = pos st + String.length u
                /\ st' = MState (pos st1) (rest st1) ((n, u) :: caps st1).
Proof.
  intros M. destruct (Matches_Group_inv _ _ _ _ M) as [st1 [M1 ->]].
  destruct (captured _ _ _ M1) as [u [E [P T]]].
  exists st1, u. unfold set_cap. rewrite T. auto.
Qed.

Lemma Matches_Bol_inv st st1 : Matches Bol st st1 -> st1 = st.
Proof. intros M. now inversion M. Qed.

Lemma Matches_plus_class_inv g p st st1 :
  Matches (Plus g (Chr p)) st st1 ->
  exists u, sall p u = true /\ rest st = u ++ rest st1
            /\ pos st1 = pos st + String.length u /\ caps st1 = caps st.
Proof.
  intros M. destruct (Matches_Seq_inv _ _ _ _ M) as [sta [Ma Mb]].
  destruct (Matches_Chr_inv _ _ _ Ma) as [c [Hc [E [P C]]]].
  destruct (Matches_star_class_inv _ _ _ _ Mb) as [u [Hu [E2 [P2 C2]]]].
  exists (String c u). simpl. rewrite Hc, Hu, E, E2, P2, P, C2, C.
  repeat split. lia.
Qed.

(** What a line that [parseFence] accepts looks like, and what the result
    records of it. *)
Lemma parseFence_shape (line : string) (f : fence) :
  parseFence line = Some f ->
  exists ind w1 w2,
    line = ind ++ marker f ++ w1 ++ lang f ++ w2
    /\ (marker f = "```" \/ marker f = "~~~")
    /\ whitespace ind = true /\ whitespace w1 = true
    /\ whitespace w2 = true /\ sall isLangChar (lang f) = true
    /\ indent f = String.length ind.
Proof.
  unfold parseFence.
  change re_fence with
    (Seq Bol (seqs [Group 1 ws0; Group 2 (Alt (lit "```") (lit "~~~")); ws0;
                    Opt (Group 3 (Plus true (Chr isLangChar))); ws0; Eol])).
  rewrite exec_anchored. unfold matchAt.
  destruct (rmatch _ _ _) as [e|] eqn:E; [|discriminate].
  intros H. injection H as <-.
  destruct (rmatch_sound _ _ _ _ E) as [e' [M He]]. injection He as ->.
  clear E. cbn [seqs] in M.
  destruct (Matches_Seq_inv _ _ _ _ M) as [s0 [M0 M']]. clear M.
  apply Matches_Bol_inv in M0. subst s0.
  destruct (Matches_Seq_inv _ _ _ _ M') as [s1 [M1 M2]]. clear M'.
  destruct (Matches_Group_text _ _ _ _ M1) as [s1' [ind [Mi [Ei [_ ->]]]]].
  destruct (Matches_star_class_inv _ _ _ _ Mi) as [ind' [Wi [Ei' [_ Ci]]]].
  rewrite Ei in Ei'. apply app_inv_tail in Ei'. subst ind'.
  cbn [rest caps] in Ei, Ci. clear M1 Mi.
  destruct (Matches_Seq_inv _ _ _ _ M2) as [s2 [Mm M3]]. clear M2.
  destruct (Matches_Group_text _ _ _ _ Mm) as [s2' [mk [Mk [Em [_ ->]]]]].
  cbn [rest caps] in Em.
  assert (Hmk : (mk = "```" \/ mk = "~~~") /\ caps s2' = [(1, ind)]).
  { rewrite <- Ci.
    destruct (Matches_Alt_inv _ _ _ _ Mk) as [Ml|Ml];
      destruct (Matches_lit_inv _ _ _ Ml) as [El [_ Cl]];
      cbn [rest caps] in El, Cl; rewrite Em in El;
      apply app_inv_tail in El; auto. }
  destruct Hmk as [Hmk Cm]. clear Mm Mk.
  destruct (Matches_Seq_inv _ _ _ _ M3) as [s3 [Mw M4]]. clear M3.
  destruct (Matches_star_class_inv _ _ _ _ Mw) as [w1 [Ww1 [Ew1 [_ Cw1]]]].
  cbn [rest caps] in Ew1, Cw1. clear Mw.
  destruct (Matches_Seq_inv _ _ _ _ M4) as [s4 [Mo M5]]. clear M4.
  destruct (Matches_Seq_inv _ _ _ _ M5) as [s5 [Mw2 M6]]. clear M5.
  destruct (Matches_star_class_inv _ _ _ _ Mw2) as [w2 [Ww2 [Ew2 [_ Cw2]]]].
  apply Matches_Eol_inv in M6 as [-> Ee]. clear Mw2.
  rewrite Ee, app_nil_r in Ew2.
  destruct (Matches_Alt_inv _ _ _ _ Mo) as [Mg|Mg].
  - destruct (Matches_Group_text _ _ _ _ Mg) as [s4' [lg [Ml [El [_ ->]]]]].
    destruct (Matches_plus_class_inv _ _ _ _ Ml) as [lg' [Hl [El' [_ Cl]]]].
    rewrite El in El'. apply app_inv_tail in El'. subst lg'.
    cbn [rest caps] in *.
    exists ind, w1, w2. rewrite Cw2, Cl, Cw1, Cm.
    cbv [grp cap find groups fst snd Nat.eqb indent marker lang].
    repeat split; auto.
    now rewrite Ei, Em, Ew1, El, Ew2.
  - apply Matches_Eps_inv in Mg. subst s4.
    exists ind, w1, w2. rewrite Cw2, Cw1. cbn [caps]. rewrite Cm.
    cbv [grp cap find groups fst snd Nat.eqb indent marker lang].
    cbn [append]. repeat split; auto.
    now rewrite Ei, Em, Ew1, Ew2.
Qed.

Lemma whitespace_of_trim_empty (s : string) :
  trim s = "" -> whitespace s = true.
Proof.
  intros H. destruct (trim_spec s) as [a [b [E [Wa Wb]]]].
  rewrite H in E. simpl in E. rewrite E. unfold whitespace in *.
  now rewrite sall_app, Wa, Wb.
Qed.

(** A fence line is not blank. *)
Lemma parseFence_nonblank (line : string) (f : fence) :
  parseFence line = Some f -> truthy (trim line) = true.
Proof.
  intros H.
  destruct (parseFence_shape line f H)
    as [ind [w1 [w2 [E [Hm _]]]]].
  destruct (trim line) eqn:T; [|reflexivity].
  apply whitespace_of_trim_empty in T. rewrite E in T.
  unfold whitespace in T. rewrite sall_app in T.
  apply andb_true_iff in T as [_ T].
  destruct Hm as [Hm|Hm]; rewrite Hm in T; discriminate.
Qed.

(** The closing test: the marker alone on its line, whitespace allowed on
    both sides. *)
Lemma closes_iff (m l : string) :
  test (re_fence_end m) l = true
  <-> exists w1 w2, l = w1 ++ m ++ w2
                    /\ whitespace w1 = true /\ whitespace w2 = true.
Proof.
  change (re_fence_end m) with (Seq Bol (seqs [ws0; lit m; ws0; Eol])).
  rewrite test_anchored_iff. cbn [seqs]. split.
  - intros [e M].
    destruct (Matches_Seq_inv _ _ _ _ M) as [s1 [M1 M2]].
    destruct (Matches_Seq_inv _ _ _ _ M2) as [s2 [Mm M3]].
    destruct (Matches_Seq_inv _ _ _ _ M3) as [s3 [Mw Me]].
    destruct (Matches_star_class_inv _ _ _ _ M1) as [w1 [W1 [E1 _]]].
    destruct (Matches_lit_inv _ _ _ Mm) as [Em _].
    destruct (Matches_star_class_inv _ _ _ _ Mw) as [w2 [W2 [E2 _]]].
    apply Matches_Eol_inv in Me as [-> Ee].
    rewrite Ee, app_nil_r in E2. cbn [rest] in E1.
    exists w1, w2. rewrite E1, Em, E2. auto.
  - intros [w1 [w2 [-> [W1 W2]]]].
    exists (MState (0 + String.length w1 + String.length m
                    + String.length w2) "" []).
    apply M_Seq with (MState (0 + String.length w1) (m ++ w2) []);
      [now apply Matches_star_class_intro|].
    apply M_Seq with (MState (0 + String.length w1 + String.length m) w2 []);
      [apply Matches_lit_intro|].
    apply M_Seq with (MState (0 + String.length w1 + String.length m
                              + String.length w2) "" []);
      [|now constructor].
    rewrite <- (app_nil_r w2) at 1. now apply Matches_star_class_intro.
Qed.

(** The scan for the closing line. *)
Lemma fence_loop_open (m : string) (ls : list string) :
  (forall l, In l ls -> test (re_fence_end m) l = false) ->
  forall j buf, fence_loop m ls j buf = ((buf ++ ls)%list, j + List.length ls).
Proof.
  induction ls as [|l ls IH]; intros H j buf; simpl.
  - now rewrite List.app_nil_r, Nat.add_0_r.
  - rewrite (H l (or_introl eq_refl)).
    rewrite IH by (intros l' Hl'; apply H; now right).
    rewrite <- List.app_assoc. simpl. f_equal. lia.
Qed.

Lemma fence_loop_closed (m : string) (body : list string) (l : string)
      (after : list string) :
  (forall b, In b body -> test (re_fence_end m) b = false) ->
  test (re_fence_end m) l = true ->
  forall j buf,
    fence_loop m (body ++ l :: after)%list j buf
    = ((buf ++ body)%list, j + List.length body).
Proof.
  intros Hb Hl. induction body as [|b body IH]; intros j buf; simpl.
  - now rewrite Hl, List.app_nil_r, Nat.add_0_r.
  - rewrite (Hb b (or_introl eq_refl)).
    rewrite IH by (intros b' Hb'; apply Hb; now right).
    rewrite <- List.app_assoc. simpl. f_equal. lia.
Qed.

Lemma nth_nonempty_lt (lines : list string) (i : nat) :
  nth i lines "" <> "" -> i < List.length lines.
Proof.
  intros H. destruct (Nat.lt_ge_cases i (List.length lines)) as [L|L];
    [exact L|]. now rewrite nth_overflow in H.
Qed.

Lemma parseFence_in_range (lines : list string) (i : nat) (f : fence) :
  parseFence (nth i lines "") = Some f -> i < List.length lines.
Proof.
  intros H. apply nth_nonempty_lt. intros E. now rewrite E in H.
Qed.

(** The step of the main loop on an opening fence line. *)
Lemma segment_step_fence (lines : list string) (i : nat) (f : fence) :
  parseFence (nth i lines "") = Some f ->
  segment_step lines i
  = (let '(buf, j) := fence_loop (marker f) (skipn (S i) lines) (S i) [] in
     (Some (Code (lang f) (join lf buf)),
      if Nat.ltb j (List.length lines) then S j else j)).
Proof.
  intros H. unfold segment_step.
  rewrite (parseFence_nonblank _ _ H). cbn [negb]. now rewrite H.
Qed.

End FenceFacts.
Import FenceFacts.

(* ================================================================== *)
(** ** Progress of the main loop *)
(* ================================================================== *)

Module Progress.

Lemma skipn_nth (l : list string) (i : nat) :
  i < List.length l -> skipn i l = nth i l "" :: skipn (S i) l.
Proof.
  revert i. induction l as [|x l IH]; intros i H; simpl in H; [lia|].
  destruct i as [|i]; [reflexivity|]. simpl. apply IH. lia.
Qed.

(** The scanning loops never move the index back. *)
Lemma fence_loop_ge m ls : forall j buf, j <= snd (fence_loop m ls j buf).
Proof.
  induction ls as [|l ls IH]; intros j buf; simpl; [lia|].
  destruct (test _ l); simpl; [lia|].
  specialize (IH (S j) (buf ++ [l])%list). lia.
Qed.

Lemma indented_loop_ge ls : forall j buf, j <= snd (indented_loop ls j buf).
Proof.
  induction ls as [|l ls IH]; intros j buf; simpl; [lia|].
  destruct (_ && _); simpl; [lia|].
  destruct (_ && _).
  - specialize (IH (S j) buf). lia.
  - specialize (IH (S j) (buf ++ [replaceFirst re_indent_strip
                                     (const "") l])%list). lia.
Qed.

Lemma blockquote_loop_ge ls :
  forall j buf, j <= snd (blockquote_loop ls j buf).
Proof.
  induction ls as [|l ls IH]; intros j buf; simpl; [lia|].
  destruct (negb _); simpl; [lia|].
  specialize (IH (S j) (buf ++ [replaceFirst re_quote_strip
                                   (const "") l])%list). lia.
Qed.

Lemma table_loop_ge ls : forall j rows, j <= snd (table_loop ls j rows).
Proof.
  induction ls as [|l ls IH]; intros j rows; simpl; [lia|].
  destruct (_ && _); simpl; [|lia].
  specialize (IH (S j) (rows ++ [parseRow l])%list). lia.
Qed.

Lemma list_loop_ge isOrdered indent0 ls :
  forall j items, j <= snd (list_loop isOrdered indent0 ls j items).
Proof.
  induction ls as [|l ls IH]; intros j items; simpl; [lia|].
  destruct (negb (truthy (trim l))); simpl; [lia|].
  destruct (if isOrdered then exec re_ol l else exec re_ul l) as [m|];
    simpl; [|lia].
  destruct (negb _); simpl; [lia|].
  specialize (IH (S j) (items ++ [grp 3 m])%list). lia.
Qed.

(** The paragraph scan either takes no line at all or moves on. *)
Lemma paragraph_loop_cases lines ls :
  forall j buf,
    paragraph_loop lines ls j buf = (buf, j)
    \/ j < snd (paragraph_loop lines ls j buf).
Proof.
  induction ls as [|l ls IH]; intros j buf; simpl; [now left|].
  repeat match goal with
         | |- context [if ?b then (buf, j) else _] =>
             destruct b; [now left|]
         end.
  right. destruct (IH (S j) (buf ++ [l])%list) as [E|L].
  - rewrite E. simpl. lia.
  - lia.
Qed.

(** *** A line is a bullet item or a numbered item, not both *)

Lemma ws_prefix_unique (w1 w2 : string) (b d : ascii) (r1 r2 : string) :
  w1 ++ String b r1 = w2 ++ String d r2 ->
  whitespace w1 = true -> whitespace w2 = true ->
  isWs b = false -> isWs d = false -> b = d.
Proof.
  revert w2. induction w1 as [|x w1 IH]; intros w2 E W1 W2 Hb Hd.
  - destruct w2 as [|y w2]; simpl in E.
    + now injection E.
    + injection E as -> _. unfold whitespace in W2. simpl in W2.
      rewrite Hb in W2. discriminate.
  - destruct w2 as [|y w2]; simpl in E.
    + injection E as -> _. unfold whitespace in W1. simpl in W1.
      rewrite Hd in W1. discriminate.
    + injection E as _ E. unfold whitespace in *. simpl in W1, W2.
      apply andb_true_iff in W1 as [_ W1], W2 as [_ W2].
      now apply (IH w2).
Qed.

(** A line accepted by a pattern that begins with captured whitespace
    and a captured run or character of the class [p]: the first
    character after the whitespace is of the class. *)
Lemma indented_marker_inv (p : ascii -> bool) (rm rt : regex)
      (line : string) (m : mresult) :
  (forall st st1, Matches rm st st1 ->
                  exists c t, p c = true /\ rest st = String c t) ->
  exec (Seq Bol (Seq (Group 1 ws0) (Seq (Group 2 rm) rt))) line = Some m ->
  exists w c t, line = w ++ String c t /\ whitespace w = true
                /\ p c = true.
Proof.
  intros Hrm. rewrite exec_anchored. unfold matchAt.
  destruct (rmatch _ _ _) as [e|] eqn:E; [|discriminate]. intros _.
  destruct (rmatch_sound _ _ _ _ E) as [e' [M _]]. clear E.
  destruct (Matches_Seq_inv _ _ _ _ M) as [s0 [M0 M1]].
  apply Matches_Bol_inv in M0. subst s0.
  destruct (Matches_Seq_inv _ _ _ _ M1) as [s1 [Mg M2]].
  destruct (Matches_Group_inv _ _ _ _ Mg) as [s1' [Mw ->]].
  destruct (Matches_star_class_inv _ _ _ _ Mw) as [w [Hw [Ew _]]].
  destruct (Matches_Seq_inv _ _ _ _ M2) as [s2 [Mg2 _]].
  destruct (Matches_Group_inv _ _ _ _ Mg2) as [s2' [Mm _]].
  destruct (Hrm _ _ Mm) as [c [t [Hc Et]]].
  cbn [rest set_cap] in Ew, Et. exists w, c, t.
  rewrite Ew, Et. auto.
Qed.

Lemma ul_ol_exclusive (line : string) (mu mo : mresult) :
  exec re_ul line = Some mu -> exec re_ol line = Some mo -> False.
Proof.
  intros Hu Ho.
  apply (indented_marker_inv (oneof "-+*")) in Hu.
  2:{ intros st st1 M. destruct (Matches_Chr_inv _ _ _ M) as [c [Hc [E _]]].
      eauto. }
  apply (indented_marker_inv isDigit) in Ho.
  2:{ intros st st1 M. destruct (Matches_Seq_inv _ _ _ _ M) as [sa [Ma _]].
      destruct (Matches_Chr_inv _ _ _ Ma) as [c [Hc [E _]]]. eauto. }
  destruct Hu as [w1 [b [r1 [E1 [W1 Hb]]]]].
  destruct Ho as [w2 [d [r2 [E2 [W2 Hd]]]]].
  assert (A : forallb (fun c => implb (oneof "-+*" c)
                                  (negb (isWs c) && negb (isDigit c)))
                      all_ascii = true) by (vm_compute; reflexivity).
  assert (B : forallb (fun c => implb (isDigit c) (negb (isWs c)))
                      all_ascii = true) by (vm_compute; reflexivity).
  pose proof (forall_ascii _ A b) as Ab. cbv beta in Ab.
  rewrite Hb in Ab. simpl in Ab. apply andb_true_iff in Ab as [Ab1 Ab2].
  pose proof (forall_ascii _ B d) as Bd. cbv beta in Bd.
  rewrite Hd in Bd. simpl in Bd.
  apply negb_true_iff in Ab1, Ab2, Bd.
  rewrite E1 in E2.
  pose proof (ws_prefix_unique w1 w2 b d r1 r2 E2 W1 W2 Ab1 Bd) as ->.
  congruence.
Qed.

(** *** Each recogniser but the paragraph moves the cursor on *)

Lemma parseIndentedCode_progress lines i b next :
  i < List.length lines ->
  parseIndentedCode lines i = Some (b, next) -> i < next.
Proof.
  intros Hi. unfold parseIndentedCode.
  destruct (test re_indented (nth i lines "")) eqn:T; [|discriminate].
  cbn [negb]. rewrite (skipn_nth lines i Hi). cbn [indented_loop].
  rewrite T. cbn [negb andb].
  destruct (_ && _).
  - pose proof (indented_loop_ge (skipn (S i) lines) (S i) []) as G.
    destruct (indented_loop _ _ _) as [buf j]. intros H.
    injection H as _ <-. simpl in G. lia.
  - pose proof (indented_loop_ge (skipn (S i) lines) (S i)
                  ([] ++ [replaceFirst re_indent_strip (const "")
                            (nth i lines "")])%list) as G.
    destruct (indented_loop _ _ _) as [buf j]. intros H.
    injection H as _ <-. simpl in G. lia.
Qed.

Lemma parseSetextHeading_progress lines i level text next :
  parseSetextHeading lines i = Some (level, text, next) -> i < next.
Proof.
  unfold parseSetextHeading.
  repeat match goal with
         | |- context [if ?b then None else _] => destruct b; [discriminate|]
         end.
  intros H. injection H as _ _ <-. lia.
Qed.

Lemma parseBlockquote_progress lines i b next :
  i < List.length lines ->
  parseBlockquote lines i = Some (b, next) -> i < next.
Proof.
  intros Hi. unfold parseBlockquote.
  destruct (test re_quote (nth i lines "")) eqn:T; [|discriminate].
  cbn [negb]. rewrite (skipn_nth lines i Hi). cbn [blockquote_loop].
  rewrite T. cbn [negb].
  pose proof (blockquote_loop_ge (skipn (S i) lines) (S i)
                ([] ++ [replaceFirst re_quote_strip (const "")
                          (nth i lines "")])%list) as G.
  destruct (blockquote_loop _ _ _) as [buf j]. intros H.
  injection H as _ <-. simpl in G. lia.
Qed.

Lemma parseTable_progress lines i b next :
  parseTable lines i = Some (b, next) -> i < next.
Proof.
  unfold parseTable.
  repeat match goal with
         | |- context [if negb ?b then None else _] =>
             destruct b; cbn [negb]; [|discriminate]
         end.
  pose proof (table_loop_ge (skipn (i + 2) lines) (i + 2) []) as G.
  destruct (table_loop _ _ _) as [rows j]. intros H.
  injection H as _ <-. simpl in G. lia.
Qed.

Lemma parseList_progress lines i b next :
  i < List.length lines ->
  truthy (trim (nth i lines "")) = true ->
  parseList lines i = Some (b, next) -> i < next.
Proof.
  intros Hi Hnb. unfold parseList.
  rewrite (skipn_nth lines i Hi).
  destruct (exec re_ul (nth i lines "")) as [mu|] eqn:Eu;
    destruct (exec re_ol (nth i lines "")) as [mo|] eqn:Eo;
    try discriminate.
  - destruct (ul_ol_exclusive _ _ _ Eu Eo).
  - cbn [list_loop]. rewrite Hnb, Eu. cbn [negb].
    rewrite Nat.eqb_refl. cbn [negb].
    pose proof (list_loop_ge false (String.length (grp 1 mu))
                  (skipn (S i) lines) (S i) ([] ++ [grp 3 mu])%list) as G.
    destruct (list_loop _ _ _ _ _) as [items j]. intros H.
    injection H as _ <-. simpl in G. lia.
  - cbn [list_loop]. rewrite Hnb, Eo. cbn [negb].
    rewrite Nat.eqb_refl. cbn [negb].
    pose proof (list_loop_ge true (String.length (grp 1 mo))
                  (skipn (S i) lines) (S i) ([] ++ [grp 3 mo])%list) as G.
    destruct (list_loop _ _ _ _ _) as [items j]. intros H.
    injection H as _ <-. simpl in G. lia.
Qed.

Lemma parseParagraph_cases lines i :
  parseParagraph lines i = Some (Paragraph [], i)
  \/ exists b next, parseParagraph lines i = Some (b, next) /\ i < next.
Proof.
  unfold parseParagraph.
  destruct (paragraph_loop_cases lines (skipn i lines) i []) as [E|L].
  - left. now rewrite E.
  - right. destruct (paragraph_loop _ _ _ _) as [buf j]. simpl in L. eauto.
Qed.

(** Every iteration of the main loop moves the cursor on, except when
    the paragraph recogniser is reached and takes no line. *)
Theorem segment_step_progress (lines : list string) (i : nat) :
  i < List.length lines ->
  i < snd (segment_step lines i)
  \/ (segment_step lines i = (Some (Paragraph []), i)
      /\ parseParagraph lines i = Some (Paragraph [], i)).
Proof.
  intros Hi. unfold segment_step.
  destruct (truthy (trim (nth i lines ""))) eqn:Hnb; cbn [negb];
    [|left; simpl; lia].
  destruct (parseFence (nth i lines "")) as [f|] eqn:E1.
  { left. pose proof (fence_loop_ge (marker f) (skipn (S i) lines)
                        (S i) []) as G.
    destruct (fence_loop _ _ _ _) as [buf j]. simpl in *.
    destruct (Nat.ltb j (List.length lines)); lia. }
  destruct (parseIndentedCode lines i) as [[b next]|] eqn:E2.
  { left. simpl. eapply parseIndentedCode_progress; eassumption. }
  destruct (parseSetextHeading lines i) as [[[level text] next]|] eqn:E3.
  { left. simpl. eapply parseSetextHeading_progress; eassumption. }
  destruct (parseAtxHeading (nth i lines "")) as [[level text]|];
    [left; simpl; lia|].
  destruct (isThematicBreak (nth i lines "")); [left; simpl; lia|].
  destruct (parseBlockquote lines i) as [[b next]|] eqn:E6.
  { left. simpl. eapply parseBlockquote_progress; eassumption. }
  destruct (parseTable lines i) as [[b next]|] eqn:E7.
  { left. simpl. eapply parseTable_progress; eassumption. }
  destruct (parseList lines i) as [[b next]|] eqn:E8.
  { left. simpl. eapply parseList_progress; eassumption. }
  destruct (parseParagraph_cases lines i) as [E|[b [next [E L]]]];
    rewrite E; [right; split; reflexivity | left; exact L].
Qed.

(** Where every step moves the cursor on, the main loop ends within as
    many iterations as there are lines left. *)
Lemma segment_terminates (lines : list string) :
  (forall i, i < List.length lines -> i < snd (segment_step lines i)) ->
  forall fuel i blocks,
    List.length lines - i <= fuel ->
    exists bs, segment fuel lines i blocks = Some bs.
Proof.
  intros Hp. induction fuel as [|fuel IH]; intros i blocks Hf; simpl.
  - replace (Nat.leb (List.length lines) i) with true
      by (symmetry; apply Nat.leb_le; lia). eauto.
  - destruct (Nat.leb (List.length lines) i) eqn:L; [eauto|].
    apply Nat.leb_gt in L. specialize (Hp i L).
    destruct (segment_step lines i) as [ob i']. simpl in Hp.
    apply IH. lia.
Qed.

(** A step that leaves the cursor in place keeps the loop from ending. *)
Lemma segment_stalls (lines : list string) (i : nat) (ob : option block) :
  i < List.length lines ->
  segment_step lines i = (ob, i) ->
  forall fuel blocks, segment fuel lines i blocks = None.
Proof.
  intros Hi Hs. induction fuel as [|fuel IH]; intros blocks; simpl;
    (replace (Nat.leb (List.length lines) i) with false
      by (symmetry; apply Nat.leb_gt; exact Hi)); [reflexivity|].
  rewrite Hs. apply IH.
Qed.

End Progress.

(* ================================================================== *)
(** ** Further properties: newlines and lines *)
(* ================================================================== *)

Module LineFacts.

Lemma free_substc (q : ascii -> bool) (rep s : string) :
  free q rep = true -> free q (substc q rep s) = true.
Proof.
  intros H. unfold free. apply sall_substc; [exact H|].
  apply sall_true. intros c. now destruct (q c).
Qed.

Lemma free_app (P : ascii -> bool) (a b : string) :
  free P (a ++ b) = free P a && free P b.
Proof. apply sall_app. Qed.

Lemma normalize_no_CR (md : jsval) :
  free (chr CR) (normalizeNewlines md) = true.
Proof.
  unfold normalizeNewlines. rewrite replaceAll_Chr.
  now apply free_substc.
Qed.

Lemma normalize_id (s : string) :
  free (chr CR) s = true -> normalizeNewlines (JStr s) = s.
Proof.
  intros H. unfold normalizeNewlines.
  rewrite (replaceAll_needs (chr CR) (lit (String CR lf)) _ s);
    [|vm_compute; reflexivity | exact H].
  rewrite replaceAll_Chr. now apply substc_id.
Qed.

Lemma split_nonempty (c : ascii) (s : string) : split c s <> [].
Proof.
  induction s as [|x s IH]; simpl; [discriminate|].
  destruct (Ascii.eqb x c); [discriminate|].
  destruct (split c s); discriminate.
Qed.

Lemma join_cons (sep x : string) (l : list string) :
  l <> [] -> join sep (x :: l) = x ++ sep ++ join sep l.
Proof. destruct l; [contradiction | reflexivity]. Qed.

(** Joining the pieces with the separator gives the text back. *)
Lemma join_split (c : ascii) (s : string) :
  join (str1 c) (split c s) = s.
Proof.
  induction s as [|x s IH]; [reflexivity|]. simpl.
  destruct (Ascii.eqb x c) eqn:E.
  - apply Ascii.eqb_eq in E. subst x.
    rewrite join_cons by apply split_nonempty. simpl. now rewrite IH.
  - pose proof (split_nonempty c s) as N.
    destruct (split c s) as [|h t]; [contradiction|].
    destruct t as [|h2 t].
    + simpl in *. now rewrite IH.
    + change (join (str1 c) (String x h :: h2 :: t))
        with (String x (join (str1 c) (h :: h2 :: t))).
      now rewrite IH.
Qed.

Lemma split_free (P : ascii -> bool) (c : ascii) (s : string) :
  free P s = true -> Forall (fun l => free P l = true) (split c s).
Proof.
  unfold free. induction s as [|x s IH]; simpl; intros H.
  - constructor; [reflexivity | constructor].
  - apply andb_true_iff in H as [Hx Hs]. specialize (IH Hs).
    destruct (Ascii.eqb x c).
    + constructor; [reflexivity | exact IH].
    + destruct (split c s) as [|h t]; [repeat constructor; simpl;
                                       now rewrite Hx|].
      inversion IH; subst. constructor; [simpl; now rewrite Hx|assumption].
Qed.

Lemma split_no_sep (c : ascii) (s : string) :
  Forall (fun l => free (chr c) l = true) (split c s).
Proof.
  induction s as [|x s IH]; simpl.
  - constructor; [reflexivity | constructor].
  - destruct (Ascii.eqb x c) eqn:E.
    + constructor; [reflexivity | exact IH].
    + destruct (split c s) as [|h t];
        [repeat constructor; unfold free, chr; simpl; now rewrite E|].
      inversion IH; subst.
      constructor; [|assumption].
      unfold free, chr in *. simpl. now rewrite E.
Qed.

Lemma split_length (c : ascii) (s : string) :
  List.length (split c s) = S (count (chr c) s).
Proof.
  induction s as [|x s IH]; [reflexivity|]. simpl. unfold chr at 1.
  destruct (Ascii.eqb x c); simpl.
  - now rewrite IH.
  - destruct (split c s); simpl in *; lia.
Qed.

End LineFacts.
Import LineFacts.

(** X1: [normalizeNewlines] leaves no carriage return in its result, does
    not change a text that has none, and so gives the same result when
    applied a second time. *)
Theorem X1_normalizeNewlines (md : jsval) :
  free (chr CR) (normalizeNewlines md) = true
  /\ normalizeNewlines (JStr (normalizeNewlines md)) = normalizeNewlines md
  /\ (forall s, free (chr CR) s = true -> normalizeNewlines (JStr s) = s).
Proof.
  split; [apply normalize_no_CR | split].
  - apply normalize_id, normalize_no_CR.
  - exact normalize_id.
Qed.

Lemma X1_witness :
  normalizeNewlines (JStr "no carriage return") = "no carriage return".
Proof.
  apply (proj2 (proj2 (X1_normalizeNewlines JNull))). reflexivity.
Defined.

(** X2: [splitLines] never returns an empty array: it returns one line
    more than the normalized text has line feeds, no line holds a line
    feed or a carriage return, and joining the lines with a line feed
    gives back the normalized text. *)
Theorem X2_splitLines (md : jsval) :
  List.length (splitLines md) = S (count (chr LF) (normalizeNewlines md))
  /\ join lf (splitLines md) = normalizeNewlines md
  /\ Forall (fun l => free (chr LF) l = true /\ free (chr CR) l = true)
            (splitLines md).
Proof.
  unfold splitLines. split; [apply split_length | split].
  - apply (join_split LF).
  - pose proof (split_no_sep LF (normalizeNewlines md)) as A.
    pose proof (split_free (chr CR) LF _ (normalize_no_CR md)) as B.
    rewrite Forall_forall in *. intros l Hl. split; [now apply A | now apply B].
Qed.

(* ================================================================== *)
(** ** Further properties: escaping and the link policy *)
(* ================================================================== *)

Module PolicyFacts.

Lemma entity_facts (c : ascii) :
  free isHtmlSpecial (entity c) = true
  /\ count (chr "&") (entity c) = (if isEscaped c then 1 else 0)
  /\ 1 <= String.length (entity c).
Proof.
  unfold entity, isEscaped, isHtmlSpecial, free, chr. cbn [oneof].
  destruct (Ascii.eqb c "&") eqn:E1;
    [apply Ascii.eqb_eq in E1; subst c; repeat split; simpl; lia|].
  destruct (Ascii.eqb c "<") eqn:E2;
    [apply Ascii.eqb_eq in E2; subst c; repeat split; simpl; lia|].
  destruct (Ascii.eqb c ">") eqn:E3;
    [apply Ascii.eqb_eq in E3; subst c; repeat split; simpl; lia|].
  destruct (Ascii.eqb c DQ) eqn:E4;
    [apply Ascii.eqb_eq in E4; subst c; repeat split; simpl; lia|].
  destruct (Ascii.eqb c SQ) eqn:E5;
    [apply Ascii.eqb_eq in E5; subst c; repeat split; simpl; lia|].
  unfold str1. cbn [sall count oneof String.length].
  rewrite E1, E2, E3, E4, E5. repeat split; simpl; lia.
Qed.

Lemma escapeHtml_clean (s : string) :
  free isHtmlSpecial (escapeHtml s) = true.
Proof.
  rewrite escapeHtml_chars. induction s as [|c s IH]; [reflexivity|].
  cbn [escapeChars]. rewrite free_app, IH.
  now rewrite (proj1 (entity_facts c)).
Qed.

Lemma escapeHtml_ampersands (s : string) :
  count (chr "&") (escapeHtml s) = count isEscaped s.
Proof.
  rewrite escapeHtml_chars. induction s as [|c s IH]; [reflexivity|].
  cbn [escapeChars count]. rewrite count_app, IH.
  now rewrite (proj1 (proj2 (entity_facts c))).
Qed.

Lemma escapeHtml_length (s : string) :
  String.length s <= String.length (escapeHtml s).
Proof.
  rewrite escapeHtml_chars. induction s as [|c s IH]; [simpl; lia|].
  cbn [escapeChars String.length]. rewrite length_app.
  pose proof (proj2 (proj2 (entity_facts c))). lia.
Qed.

Lemma escapeHtml_injective (a b : string) :
  escapeHtml a = escapeHtml b -> a = b.
Proof.
  intros H. rewrite <- (unescape_escape a), <- (unescape_escape b).
  now rewrite H.
Qed.

(** The policy on a text that begins with a character that is no
    whitespace and no first letter of a rejected scheme. *)
Lemma trim_head (c : ascii) (t : string) :
  isWs c = false -> exists t', trim (String c t) = String c t'.
Proof.
  intros H. unfold trim. cbn [trimStart]. rewrite H. cbn [trimEnd].
  destruct (trimEnd t) as [|d t'].
  - rewrite H. now exists "".
  - now exists (String d t').
Qed.

Lemma safeLinkHref_head (c : ascii) (t : string) (a : bool) :
  isWs c = false -> oneof "jvd" (lower c) = false ->
  safeLinkHref (String c t) a = trim (String c t)
  /\ truthy (safeLinkHref (String c t) a) = true.
Proof.
  intros Hw Hc. destruct (trim_head c t Hw) as [t' E].
  destruct a; [rewrite safeLinkHref_unsafe, E; now split|].
  rewrite safeLinkHref_default, E.
  assert (D : dangerousb (String c t') = false).
  { unfold dangerousb, toLowerCase. cbn [smap startsWith].
    cbn [oneof] in Hc. apply orb_false_iff in Hc as [Hj Hc].
    apply orb_false_iff in Hc as [Hv Hc].
    apply orb_false_iff in Hc as [Hd _].
    now rewrite Hj, Hv, Hd. }
  rewrite D. now split.
Qed.

End PolicyFacts.
Import PolicyFacts.

(** X3: [safeLinkHref] is idempotent in both modes, its result has no
    whitespace left to trim, and what the safe mode accepts is what the
    unsafe mode returns. *)
Theorem X3_safeLinkHref_algebra (href : string) :
  (forall a, safeLinkHref (safeLinkHref href a) a = safeLinkHref href a)
  /\ (forall a, trim (safeLinkHref href a) = safeLinkHref href a)
  /\ (safeLinkHref href false = ""
      \/ safeLinkHref href false = safeLinkHref href true).
Proof.
  assert (T : forall a, trim (safeLinkHref href a) = safeLinkHref href a).
  { intros [|]; [rewrite safeLinkHref_unsafe; apply trim_fixed|].
    rewrite safeLinkHref_default.
    destruct (dangerousb (trim href)); [reflexivity | apply trim_fixed]. }
  split; [|split; [exact T|]].
  - intros [|].
    + rewrite !safeLinkHref_unsafe. apply trim_fixed.
    + rewrite (safeLinkHref_default (safeLinkHref href false)), T.
      rewrite safeLinkHref_default.
      destruct (dangerousb (trim href)) eqn:D; [reflexivity | now rewrite D].
  - rewrite safeLinkHref_default, safeLinkHref_unsafe.
    destruct (dangerousb (trim href)); auto.
Qed.

(** X4: the result of [escapeHtml] has no angle bracket and no quote; it
    has as many ampersands as the input has characters to escape, each
    the start of an entity; it is never shorter than the input; and two
    different texts never escape to the same text. *)
Theorem X4_escapeHtml_output :
  (forall s, free isHtmlSpecial (escapeHtml s) = true)
  /\ (forall s, count (chr "&") (escapeHtml s) = count isEscaped s)
  /\ (forall s, String.length s <= String.length (escapeHtml s))
  /\ (forall a b, escapeHtml a = escapeHtml b -> a = b).
Proof.
  split; [exact escapeHtml_clean | split; [exact escapeHtml_ampersands|]].
  split; [exact escapeHtml_length | exact escapeHtml_injective].
Qed.

Lemma X4_witness : "a<b" = "a<b".
Proof.
  apply (proj2 (proj2 (proj2 X4_escapeHtml_output)) "a<b" "a<b").
  reflexivity.
Defined.

(* ================================================================== *)
(** ** Further properties: absolute and bare URLs *)
(* ================================================================== *)

Module UrlFacts.

(** A character that a case-insensitive literal accepts has the lower
    case of the literal. *)
Lemma is_ci_lower (a c : ascii) : is_ci a c = true -> lower c = lower a.
Proof.
  assert (A : forallb (fun a => forallb (fun c =>
                implb (is_ci a c) (Ascii.eqb (lower c) (lower a)))
                all_ascii) all_ascii = true) by (vm_compute; reflexivity).
  rewrite forallb_forall in A. specialize (A a (all_ascii_complete a)).
  pose proof (forall_ascii _ A c) as H. cbv beta in H.
  intros E. rewrite E in H. now apply Ascii.eqb_eq.
Qed.

(** For an ASCII literal that is its own lower case, the converse. *)
Lemma lower_is_ci (a c : ascii) :
  (code a <? 128)%N = true -> lower a = a -> lower c = a ->
  is_ci a c = true.
Proof.
  assert (A : forallb (fun a => forallb (fun c =>
                implb ((code a <? 128)%N && Ascii.eqb (lower a) a
                       && Ascii.eqb (lower c) a) (is_ci a c))
                all_ascii) all_ascii = true) by (vm_compute; reflexivity).
  rewrite forallb_forall in A. specialize (A a (all_ascii_complete a)).
  pose proof (forall_ascii _ A c) as H. cbv beta in H.
  intros H1 H2 H3. rewrite H1, H2, H3, !Ascii.eqb_refl in H. exact H.
Qed.

Lemma Matches_lit_ci_inv m :
  forall st st1, Matches (lit_ci m) st st1 ->
    exists x, rest st = x ++ rest st1
              /\ toLowerCase x = toLowerCase m /\ caps st1 = caps st.
Proof.
  induction m as [|c m IH]; intros st st1 M.
  - apply Matches_Eps_inv in M. subst. now exists "".
  - destruct m as [|d m].
    + destruct (Matches_Chr_inv _ _ _ M) as [c' [Hc [E [P C]]]].
      exists (str1 c'). unfold toLowerCase, str1. cbn [smap append].
      rewrite (is_ci_lower _ _ Hc). auto.
    + change (lit_ci (String c (String d m)))
        with (Seq (Chr (is_ci c)) (lit_ci (String d m))) in M.
      destruct (Matches_Seq_inv _ _ _ _ M) as [sta [Ma Mb]].
      destruct (Matches_Chr_inv _ _ _ Ma) as [c' [Hc [E [P C]]]].
      destruct (IH _ _ Mb) as [x [E2 [L2 C2]]].
      exists (String c' x). unfold toLowerCase in *. cbn [smap append].
      rewrite (is_ci_lower _ _ Hc), L2, E, E2, C2, C. auto.
Qed.

Lemma Matches_lit_ci_intro m :
  asciiLower m = true ->
  forall x, toLowerCase x = m ->
  forall i t cs,
    Matches (lit_ci m) (MState i (x ++ t) cs)
            (MState (i + String.length x) t cs).
Proof.
  unfold asciiLower, toLowerCase.
  induction m as [|c m IH]; intros Hm x Hx i t cs.
  - destruct x; [|discriminate]. simpl. rewrite Nat.add_0_r. constructor.
  - destruct x as [|y x]; [discriminate|]. simpl in Hx.
    injection Hx as Hy Hx. simpl in Hm.
    apply andb_true_iff in Hm as [Hc Hm]. apply andb_true_iff in Hc as [H1 H2].
    apply Ascii.eqb_eq in H2.
    assert (Mc : Matches (Chr (is_ci c)) (MState i (String y (x ++ t)) cs)
                         (MState (S i) (x ++ t) cs)).
    { exact (M_Chr (is_ci c) y (x ++ t) (MState i (String y (x ++ t)) cs)
                   eq_refl (lower_is_ci c y H1 H2 Hy)). }
    destruct m as [|d m].
    + destruct x; [|discriminate]. simpl.
      replace (i + 1) with (S i) by lia. exact Mc.
    + change (lit_ci (String c (String d m)))
        with (Seq (Chr (is_ci c)) (lit_ci (String d m))).
      apply M_Seq with (MState (S i) (x ++ t) cs); [exact Mc|].
      replace (i + String.length (String y x))
        with (S i + String.length x) by (cbn [String.length]; lia).
      now apply IH.
Qed.

Lemma toLowerCase_app (a b : string) :
  toLowerCase (a ++ b) = toLowerCase a ++ toLowerCase b.
Proof. apply smap_app. Qed.

(** The scheme part of the absolute and bare URL patterns: [http], an
    optional [s], [://]. *)
Lemma Matches_http_inv (st st1 : mstate) :
  Matches (seqs [lit_ci "http"; Opt (Chr (is_ci "s")); lit_ci "://"])
          st st1 ->
  exists x, rest st = x ++ rest st1
            /\ (toLowerCase x = "http://" \/ toLowerCase x = "https://").
Proof.
  cbn [seqs]. intros M.
  destruct (Matches_Seq_inv _ _ _ _ M) as [s1 [M1 M2]].
  destruct (Matches_Seq_inv _ _ _ _ M2) as [s2 [Mo M3]].
  destruct (Matches_lit_ci_inv _ _ _ M1) as [x1 [E1 [L1 _]]].
  destruct (Matches_lit_ci_inv _ _ _ M3) as [x3 [E3 [L3 _]]].
  destruct (Matches_Alt_inv _ _ _ _ Mo) as [Ms|Ms].
  - destruct (Matches_Chr_inv _ _ _ Ms) as [c [Hc [Es _]]].
    exists (x1 ++ String c x3). split.
    + rewrite E1, Es, E3. now rewrite app_assoc.
    + right. rewrite toLowerCase_app, L1. unfold toLowerCase in *.
      cbn [smap]. rewrite (is_ci_lower _ _ Hc), L3. reflexivity.
  - apply Matches_Eps_inv in Ms. subst s2.
    exists (x1 ++ x3). split.
    + rewrite E1, E3. now rewrite app_assoc.
    + left. now rewrite toLowerCase_app, L1, L3.
Qed.

Lemma Matches_http_intro (x t : string) (cs : list (nat * string)) :
  toLowerCase x = "http://" \/ toLowerCase x = "https://" ->
  exists st1,
    Matches (seqs [lit_ci "http"; Opt (Chr (is_ci "s")); lit_ci "://"])
            (MState 0 (x ++ t) cs) st1.
Proof.
  cbn [seqs]. intros [H|H].
  - change "http://" with ("http" ++ "://") in H.
    destruct (smap_app_inv lower "http" "://" x H) as [x1 [x3 [-> [L1 L3]]]].
    eexists. rewrite app_assoc.
    eapply M_Seq; [apply (Matches_lit_ci_intro "http" eq_refl x1 L1)|].
    eapply M_Seq; [apply M_AltR; constructor|].
    apply (Matches_lit_ci_intro "://" eq_refl x3 L3).
  - change "https://" with ("http" ++ "s" ++ "://") in H.
    destruct (smap_app_inv lower "http" ("s" ++ "://") x H)
      as [x1 [x2 [-> [L1 L2]]]].
    destruct (smap_app_inv lower "s" "://" x2 L2) as [xs [x3 [-> [Ls L3]]]].
    destruct xs as [|c [|c2 xs]]; try discriminate.
    simpl in Ls. injection Ls as Ls.
    eexists. rewrite app_assoc. cbn [append].
    eapply M_Seq; [apply (Matches_lit_ci_intro "http" eq_refl x1 L1)|].
    eapply M_Seq.
    + apply M_AltL.
      exact (M_Chr (is_ci "s") c (x3 ++ t)
               (MState (0 + String.length x1) (String c (x3 ++ t)) cs)
               eq_refl (lower_is_ci "s" c eq_refl eq_refl Ls)).
    + apply (Matches_lit_ci_intro "://" eq_refl x3 L3).
Qed.

(** [isAbsoluteUrl] decides [absoluteScheme]. *)
Lemma isAbsoluteUrl_iff (url : string) :
  isAbsoluteUrl url = true <-> absoluteScheme url.
Proof.
  unfold isAbsoluteUrl, absoluteScheme, beginsWithCI.
  change re_absolute with
    (Seq Bol (Group 1 (Alt (seqs [lit_ci "http"; Opt (Chr (is_ci "s"));
                                  lit_ci "://"])
                           (Alt (lit_ci "mailto:") (lit_ci "tel:"))))).
  rewrite test_anchored_iff. split.
  - intros [st1 M].
    destruct (Matches_Group_inv _ _ _ _ M) as [s1 [Mg _]].
    destruct (Matches_Alt_inv _ _ _ _ Mg) as [Mh|Mo].
    + destruct (Matches_http_inv _ _ Mh) as [x [E [L|L]]];
        cbn [rest] in E; [left | right; left]; eauto.
    + destruct (Matches_Alt_inv _ _ _ _ Mo) as [Mm|Mt];
        [destruct (Matches_lit_ci_inv _ _ _ Mm) as [x [E [L _]]]
        |destruct (Matches_lit_ci_inv _ _ _ Mt) as [x [E [L _]]]];
        cbn [rest] in E; [right; right; left | right; right; right]; eauto.
  - intros [H|[H|[H|H]]]; destruct H as [x [r [-> L]]].
    + destruct (Matches_http_intro x r [] (or_introl L)) as [st1 M].
      eexists. apply M_Group. apply M_AltL. exact M.
    + destruct (Matches_http_intro x r [] (or_intror L)) as [st1 M].
      eexists. apply M_Group. apply M_AltL. exact M.
    + eexists. apply M_Group. apply M_AltR, M_AltL.
      apply (Matches_lit_ci_intro "mailto:" eq_refl x L).
    + eexists. apply M_Group. apply M_AltR, M_AltR.
      apply (Matches_lit_ci_intro "tel:" eq_refl x L).
Qed.

Lemma head_of_lower (x r : string) (c : ascii) (m : string) :
  toLowerCase x = String c m ->
  exists c0 t, x ++ r = String c0 t /\ lower c0 = c.
Proof.
  destruct x as [|c0 x]; [discriminate|]. simpl. intros H.
  injection H as H _. now exists c0, (x ++ r).
Qed.

Lemma scheme_head_ok (c0 : ascii) :
  oneof "hmt" (lower c0) = true ->
  isWs c0 = false /\ oneof "jvd" (lower c0) = false.
Proof.
  assert (A : forallb (fun c => implb (oneof "hmt" (lower c))
                (negb (isWs c) && negb (oneof "jvd" (lower c))))
                all_ascii = true) by (vm_compute; reflexivity).
  pose proof (forall_ascii _ A c0) as H. cbv beta in H.
  intros E. rewrite E in H. simpl in H.
  apply andb_true_iff in H as [H1 H2].
  now apply negb_true_iff in H1, H2.
Qed.

Lemma absoluteScheme_accepted (url : string) (a : bool) :
  absoluteScheme url ->
  safeLinkHref url a = trim url /\ truthy (safeLinkHref url a) = true.
Proof.
  intros H.
  assert (Hd : exists c0 t, url = String c0 t
                            /\ oneof "hmt" (lower c0) = true).
  { destruct H as [H|[H|[H|H]]]; destruct H as [x [r [-> L]]];
      destruct (head_of_lower x r _ _ L) as [c0 [t [E Hc]]];
      exists c0, t; rewrite Hc; split; try exact E; reflexivity. }
  destruct Hd as [c0 [t [-> Hc]]].
  destruct (scheme_head_ok c0 Hc) as [Hw Hj].
  now apply safeLinkHref_head.
Qed.

End UrlFacts.
Import UrlFacts.

(** X5: [isAbsoluteUrl] holds exactly of the texts that begin, up to case,
    with [http://], [https://], [mailto:] or [tel:]; the link policy
    accepts every such text, in both modes, and returns it trimmed. *)
Theorem X5_isAbsoluteUrl (url : string) :
  (isAbsoluteUrl url = true <-> absoluteScheme url)
  /\ (isAbsoluteUrl url = true ->
      forall a, safeLinkHref url a = trim url
                /\ truthy (safeLinkHref url a) = true).
Proof.
  split; [apply isAbsoluteUrl_iff|].
  intros H a. apply absoluteScheme_accepted. now apply isAbsoluteUrl_iff.
Qed.

Lemma X5_witness :
  safeLinkHref "HTTPS://Example.com/a " false = "HTTPS://Example.com/a".
Proof.
  exact (proj1 (proj2 (X5_isAbsoluteUrl "HTTPS://Example.com/a ")
                  eq_refl false)).
Defined.


Module BareFacts.

(** Unescaping leaves a first character other than the ampersand in
    place. *)
Lemma unescape_head (c : ascii) (t : string) :
  Ascii.eqb c "&" = false ->
  exists t', unescapeHtml (String c t) = String c t'.
Proof.
  intros H. unfold unescapeHtml, replaceAll.
  repeat (rewrite walk_lit; cbn [startsWith]; rewrite H; cbn [andb]).
  eexists. reflexivity.
Qed.

(** The url captured by a match of the bare-URL pattern begins with the
    letter h. *)
Lemma bare_url_head (p : nat) (s : string) (m : mresult) :
  matchAt re_bare p s = Some m -> exists u, grp 2 m = String "h" u.
Proof.
  unfold matchAt.
  destruct (rmatch _ _ _) as [e|] eqn:E; [|discriminate].
  intros H. injection H as <-.
  destruct (rmatch_sound _ _ _ _ E) as [e' [M He]]. injection He as ->.
  clear E. unfold re_bare in M. cbn [seqs] in M.
  destruct (Matches_Seq_inv _ _ _ _ M) as [s1 [_ M2]]. clear M.
  destruct (Matches_Group_text _ _ _ _ M2) as [s2 [u [Mi [Eu [Pu ->]]]]].
  cbv [grp cap find groups caps fst snd Nat.eqb].
  destruct (Matches_Seq_inv _ _ _ _ Mi) as [s3 [Mg Mp]].
  destruct (Matches_Group_inv _ _ _ _ Mg) as [s3' [Mh ->]].
  destruct (Matches_Seq_inv _ _ _ _ Mh) as [s4 [Ml Mr]].
  destruct (Matches_lit_inv _ _ _ Ml) as [El [Pl _]].
  pose proof (Matches_consumes _ _ _ Mr) as [v [_ Pv]].
  pose proof (Matches_consumes _ _ _ Mp) as [w [_ Pw]].
  cbn [pos set_cap] in Pw. cbn [String.length] in Pl.
  destruct u as [|c u]; [cbn [String.length] in Pu; lia|].
  rewrite Eu in El. cbn [append] in El. injection El as -> _.
  now exists u.
Qed.

End BareFacts.
Import BareFacts.

(** X6: the url of every match of the bare-URL pattern passes the link
    policy, in both modes, so the replacement always writes an anchor: its
    branch that leaves a rejected url as plain text is never taken. *)
Theorem X6_bare_url_never_rejected (o : options) (p : nat) (s : string)
        (m : mresult) :
  matchAt re_bare p s = Some m ->
  truthy (safeLinkHref (unescapeHtml (grp 2 m)) (allowUnsafeLinks o)) = true
  /\ bareUrlReplacer o (grp 1 m) (grp 2 m)
     = grp 1 m ++ "<a href=" ++ dq
       ++ escapeAttr (trim (unescapeHtml (grp 2 m))) ++ dq ++ targetAttr o
       ++ ">" ++ grp 2 m ++ "</a>".
Proof.
  intros H. destruct (bare_url_head p s m H) as [u Eu].
  destruct (unescape_head "h" u eq_refl) as [t' Et].
  pose proof (safeLinkHref_head "h" t' (allowUnsafeLinks o) eq_refl eq_refl)
    as [A B].
  unfold bareUrlReplacer. rewrite Eu, Et, B. cbn [negb].
  split; [reflexivity | now rewrite A].
Qed.

Lemma X6_witness :
  bareUrlReplacer defaultOptions " " "http://x.y/?a=1&amp;b=2"
  = " <a href=" ++ dq ++ "http://x.y/?a=1&amp;b=2" ++ dq
    ++ targetAttr defaultOptions ++ ">http://x.y/?a=1&amp;b=2</a>".
Proof.
  exact (proj2 (X6_bare_url_never_rejected defaultOptions 3
                  " http://x.y/?a=1&amp;b=2"
                  (MResult " http://x.y/?a=1&amp;b=2"
                           [(2, "http://x.y/?a=1&amp;b=2"); (3, "http://");
                            (1, " ")] 3)
                  eq_refl)).
Defined.

(* ================================================================== *)
(** ** Further properties: the block recognisers *)
(* ================================================================== *)

Module BlockFacts.

(** What a successful match at an index says of the text. *)
Lemma matchAt_whole (P : ascii -> bool) r p s m :
  matchAt r p s = Some m ->
  exists u t, s = u ++ t /\ whole m = u /\ index m = p
              /\ minCount P r <= count P u.
Proof.
  unfold matchAt.
  destruct (rmatch _ _ _) as [e|] eqn:E; [|discriminate].
  intros H. injection H as <-.
  destruct (rmatch_sound _ _ _ _ E) as [e' [M He]]. injection He as ->.
  destruct (Matches_count P _ _ _ M) as [u [Eu Cu]].
  destruct (captured _ _ _ M) as [u' [Eu' [_ Tu]]].
  cbn [rest pos] in *. rewrite Eu in Eu'. apply app_inv_tail in Eu'.
  subst u'. exists u, (rest e). cbn [whole index]. auto.
Qed.

(** The underline test of the setext recogniser. *)
Lemma underline_iff (c : ascii) (t : string) :
  test (re_underline c) t = true <-> runOf c t.
Proof.
  unfold runOf.
  change (re_underline c) with (Seq Bol (seqs [Plus true (Chr (chr c)); Eol])).
  rewrite test_anchored_iff. cbn [seqs]. split.
  - intros [e M].
    destruct (Matches_Seq_inv _ _ _ _ M) as [s1 [Mp Me]].
    destruct (Matches_Seq_inv _ _ _ _ Mp) as [s0 [Mc _]].
    destruct (Matches_Chr_inv _ _ _ Mc) as [x [_ [Ex _]]].
    destruct (Matches_plus_class_inv _ _ _ _ Mp) as [u [Hu [Eu _]]].
    apply Matches_Eol_inv in Me as [-> Ee].
    cbn [rest] in *. rewrite Ee, app_nil_r in Eu. subst u.
    split; [now rewrite Ex | exact Hu].
  - intros [Hne Hs]. destruct t as [|x t]; [contradiction|].
    simpl in Hs. apply andb_true_iff in Hs as [Hx Ht].
    exists (MState (1 + String.length t) "" []).
    apply M_Seq with (MState (1 + String.length t) "" []);
      [|now constructor].
    apply M_Seq with (MState 1 t []).
    + exact (M_Chr (chr c) x t (MState 0 (String x t) []) eq_refl Hx).
    + rewrite <- (app_nil_r t) at 1.
      now apply Matches_star_class_intro.
Qed.

End BlockFacts.
Import BlockFacts.

(** X7: when [parseSetextHeading] accepts at index [i], a next line
    exists, the result continues two lines further, the text is the
    trimmed line [i] and is not empty, and the trimmed next line is a run
    of equals signs (level 1) or of hyphens (level 2); on the last line of
    the input it accepts nothing. *)
Theorem X7_parseSetextHeading (lines : list string) (i : nat) :
  (forall level text next,
      parseSetextHeading lines i = Some (level, text, next) ->
      i + 1 < List.length lines /\ next = i + 2
      /\ text = trim (nth i lines "") /\ text <> ""
      /\ ((level = 1 /\ runOf "=" (trim (nth (i + 1) lines "")))
          \/ (level = 2 /\ runOf "-" (trim (nth (i + 1) lines "")))))
  /\ (List.length lines <= i + 1 -> parseSetextHeading lines i = None).
Proof.
  split.
  - intros level text next. unfold parseSetextHeading.
    destruct (Nat.leb (List.length lines) (i + 1)) eqn:L; [discriminate|].
    apply Nat.leb_gt in L.
    destruct (truthy (trim (nth i lines ""))) eqn:T; [|discriminate].
    cbn [negb].
    destruct (test (re_underline "=") (trim (nth (i + 1) lines ""))) eqn:E1;
      cbn [negb andb].
    + intros H. injection H as <- <- <-.
      repeat split; try lia.
      * intros E. now rewrite E in T.
      * left. split; [reflexivity | now apply underline_iff].
    + destruct (test (re_underline "-") (trim (nth (i + 1) lines ""))) eqn:E2;
        cbn [negb]; [|discriminate].
      intros H. injection H as <- <- <-.
      repeat split; try lia.
      * intros E. now rewrite E in T.
      * right. split; [reflexivity | now apply underline_iff].
  - intros H. unfold parseSetextHeading.
    apply Nat.leb_le in H. now rewrite H.
Qed.

Lemma X7_witness :
  parseSetextHeading ["only line"] 0 = None
  /\ runOf "=" (trim (nth 1 ["Title"; " === "] "")).
Proof.
  split.
  - apply (proj2 (X7_parseSetextHeading ["only line"] 0)). simpl. lia.
  - destruct (proj1 (X7_parseSetextHeading ["Title"; " === "] 0)
                1 "Title" 2 eq_refl) as (_ & _ & _ & _ & [[_ H]|[H _]]);
      [exact H | discriminate H].
Defined.

Module TableFacts.

Lemma count_trim_le (P : ascii -> bool) (s : string) :
  count P (trim s) <= count P s.
Proof.
  destruct (trim_spec s) as [a [b [E _]]].
  rewrite E at 2. rewrite !count_app. lia.
Qed.

(** An anchored pattern that accepts a text finds in it the characters
    it needs. *)
Lemma test_anchored_count (P : ascii -> bool) r s :
  test (Seq Bol r) s = true -> minCount P (Seq Bol r) <= count P s.
Proof.
  unfold test. rewrite exec_anchored.
  destruct (matchAt _ 0 s) as [m|] eqn:E; [|discriminate]. intros _.
  destruct (matchAt_whole P _ _ _ _ E) as [u [t [-> [_ [_ C]]]]].
  rewrite count_app. lia.
Qed.

Lemma table_loop_spec (ls : list string) :
  forall j rows,
    table_loop ls j rows
    = ((rows ++ map parseRow (takeWhile tableRow ls))%list,
       j + List.length (takeWhile tableRow ls)).
Proof.
  induction ls as [|l ls IH]; intros j rows; simpl.
  - now rewrite List.app_nil_r, Nat.add_0_r.
  - change (includes l "|" && truthy (trim l)) with (tableRow l).
    destruct (tableRow l); simpl.
    + rewrite IH. f_equal; [now rewrite <- List.app_assoc | lia].
    + now rewrite List.app_nil_r, Nat.add_0_r.
Qed.

Lemma takeWhile_length {A : Type} (f : A -> bool) (l : list A) :
  List.length (takeWhile f l) <= List.length l.
Proof.
  induction l as [|x l IH]; simpl; [lia|]. destruct (f x); simpl; lia.
Qed.

End TableFacts.
Import TableFacts.

(** X8: when [parseTable] accepts at index [i], the header line holds a
    bar and a separator line follows, with at least six hyphens and a bar
    (two cells or more); the rows are the longest run of following lines
    that hold a bar and are not blank, and the result continues after
    them.  A header on the last line of the input is no table.  (The
    index is that of a line: the main loop gives no other.) *)
Theorem X8_parseTable (lines : list string) (i : nat) :
  (forall b next,
      parseTable lines i = Some (b, next) ->
      i + 1 < List.length lines
      /\ includes (nth i lines "") "|" = true
      /\ 6 <= count (chr "-") (nth (i + 1) lines "")
      /\ 1 <= count (chr "|") (nth (i + 1) lines "")
      /\ b = Table (parseRow (nth i lines ""))
                   (map alignOf (parseRow (nth (i + 1) lines "")))
                   (map parseRow (takeWhile tableRow (skipn (i + 2) lines)))
      /\ next = i + 2
                + List.length (takeWhile tableRow (skipn (i + 2) lines))
      /\ next <= List.length lines)
  /\ (i + 1 = List.length lines -> parseTable lines i = None).
Proof.
  assert (Last : List.length lines <= i + 1 -> parseTable lines i = None).
  { intros H. unfold parseTable.
    replace (Nat.ltb (i + 1) (List.length lines)) with false
      by (symmetry; apply Nat.ltb_ge; exact H).
    now destruct (includes (nth i lines "") "|"). }
  split; [|intros H; apply Last; lia].
  intros b next H.
  assert (Hi : i + 1 < List.length lines).
  { destruct (Nat.lt_ge_cases (i + 1) (List.length lines)) as [L|L];
      [exact L|]. rewrite (Last L) in H. discriminate. }
  unfold parseTable in H.
  replace (Nat.ltb (i + 1) (List.length lines)) with true in H
    by (symmetry; apply Nat.ltb_lt; exact Hi).
  destruct (includes (nth i lines "") "|") eqn:Hh; [|discriminate].
  cbn [negb] in H.
  destruct (test re_table_sep (trim (nth (i + 1) lines ""))) eqn:Hs;
    [|discriminate].
  cbn [negb] in H. rewrite table_loop_spec in H. injection H as <- <-.
  pose proof (test_anchored_count (chr "-") _ _ Hs) as C1.
  pose proof (test_anchored_count (chr "|") _ _ Hs) as C2.
  pose proof (count_trim_le (chr "-") (nth (i + 1) lines "")) as T1.
  pose proof (count_trim_le (chr "|") (nth (i + 1) lines "")) as T2.
  change (minCount (chr "-") _) with 6 in C1.
  change (minCount (chr "|") _) with 1 in C2.
  pose proof (takeWhile_length tableRow (skipn (i + 2) lines)) as L.
  rewrite List.length_skipn in L.
  repeat split; try reflexivity; try lia.
Qed.

Lemma X8_witness :
  parseTable ["a | b"] 0 = None
  /\ 6 <= count (chr "-") (nth 1 ["a | b"; "---|---"; "1 | 2"; ""] "").
Proof.
  split.
  - apply (proj2 (X8_parseTable ["a | b"] 0)). reflexivity.
  - exact (proj1 (proj2 (proj2
      (proj1 (X8_parseTable ["a | b"; "---|---"; "1 | 2"; ""] 0)
         _ _ eq_refl)))).
Defined.

Module QuoteFacts.

(** Stripping the quote marker removes a non-empty prefix of a quoted
    line. *)
Lemma stripQuote_suffix (l : string) :
  test re_quote l = true ->
  exists pre, pre <> "" /\ l = pre ++ stripQuote l.
Proof.
  change re_quote with (Seq Bol (seqs [ws0; Chr (chr ">")])).
  rewrite test_anchored_iff. cbn [seqs]. intros [e M].
  destruct (Matches_Seq_inv _ _ _ _ M) as [s1 [Mw Mc]].
  assert (M' : Matches re_quote_strip (MState 0 l []) e).
  { unfold re_quote_strip. cbn [seqs].
    apply M_Seq with (MState 0 l []); [now constructor|].
    apply M_Seq with s1; [exact Mw|].
    apply M_Seq with e; [exact Mc|]. apply M_AltR. constructor. }
  destruct (proj2 (matchAt_iff re_quote_strip 0 l) (ex_intro _ e M'))
    as [m Hm].
  destruct (matchAt_whole (chr ">") _ _ _ _ Hm) as [u [t [E [W [I C]]]]].
  change (minCount (chr ">") re_quote_strip) with 1 in C.
  unfold stripQuote, replaceFirst.
  change re_quote_strip with
    (Seq Bol (seqs [ws0; Chr (chr ">"); Opt ws])) in *.
  rewrite exec_anchored, Hm, I, W, E. cbn [take Nat.add append].
  rewrite drop_app. exists u. split; [|reflexivity].
  intros ->. simpl in C. lia.
Qed.

Lemma blockquote_loop_spec (ls : list string) :
  forall j buf,
    blockquote_loop ls j buf
    = ((buf ++ map stripQuote (takeWhile (test re_quote) ls))%list,
       j + List.length (takeWhile (test re_quote) ls)).
Proof.
  induction ls as [|l ls IH]; intros j buf; simpl.
  - now rewrite List.app_nil_r, Nat.add_0_r.
  - destruct (test re_quote l); simpl.
    + rewrite IH. f_equal; [now rewrite <- List.app_assoc | lia].
    + now rewrite List.app_nil_r, Nat.add_0_r.
Qed.

Lemma join_length (l : list string) :
  String.length (join lf l) = totalLength l + (List.length l - 1).
Proof.
  induction l as [|x l IH]; [reflexivity|].
  destruct l as [|y l]; [simpl; lia|].
  change (join lf (x :: y :: l)) with (x ++ lf ++ join lf (y :: l)).
  rewrite !length_app, IH. simpl. lia.
Qed.

Lemma takeWhile_all {A : Type} (f : A -> bool) (l : list A) :
  Forall (fun x => f x = true) (takeWhile f l).
Proof.
  induction l as [|x l IH]; simpl; [constructor|].
  destruct (f x) eqn:E; [now constructor | constructor].
Qed.

Lemma takeWhile_prefix {A : Type} (f : A -> bool) (l : list A) :
  takeWhile f l = firstn (List.length (takeWhile f l)) l.
Proof.
  induction l as [|x l IH]; simpl; [reflexivity|].
  destruct (f x); simpl; [now rewrite <- IH | reflexivity].
Qed.

Lemma strip_total (run : list string) :
  Forall (fun l => test re_quote l = true) run -> run <> [] ->
  totalLength (map stripQuote run) < totalLength run.
Proof.
  induction run as [|l run IH]; [contradiction|].
  intros H _. inversion H as [|? ? Hl Hr]; subst.
  destruct (stripQuote_suffix l Hl) as [pre [Hp E]].
  assert (Sl : String.length (stripQuote l) < String.length l).
  { rewrite E at 2. rewrite length_app. destruct pre; [contradiction|].
    simpl. lia. }
  simpl. destruct run as [|l2 run]; [simpl; lia|].
  specialize (IH Hr ltac:(discriminate)). lia.
Qed.

(** What an accepted run of quoted lines looks like. *)
Lemma parseBlockquote_run (lines : list string) (i : nat) (b : block)
        (next : nat) :
  parseBlockquote lines i = Some (b, next) ->
  let run := takeWhile (test re_quote) (skipn i lines) in
  b = Blockquote (map stripQuote run)
  /\ run = firstn (next - i) (skipn i lines)
  /\ i < next <= List.length lines
  /\ (forall l, In l run -> exists pre, pre <> "" /\ l = pre ++ stripQuote l)
  /\ String.length (join lf (map stripQuote run))
     < String.length (join lf run).
Proof.
  intros H run. unfold parseBlockquote in H.
  destruct (test re_quote (nth i lines "")) eqn:T; [|discriminate].
  assert (Hi : i < List.length lines).
  { destruct (Nat.lt_ge_cases i (List.length lines)) as [L|G]; [exact L|].
    rewrite (nth_overflow lines "" G) in T. discriminate T. }
  cbn [negb] in H. rewrite blockquote_loop_spec in H.
  fold run in H. injection H as <- <-. cbn [List.app].
  assert (Hne : run <> []).
  { unfold run. rewrite (Progress.skipn_nth lines i Hi). simpl. now rewrite T. }
  pose proof (takeWhile_length (test re_quote) (skipn i lines)) as L.
  fold run in L. rewrite List.length_skipn in L.
  pose proof (takeWhile_all (test re_quote) (skipn i lines)) as A.
  fold run in A.
  assert (Hlen : 0 < List.length run) by (destruct run; [contradiction | simpl; lia]).
  split; [reflexivity|]. split.
  { replace (i + List.length run - i) with (List.length run) by lia.
    apply takeWhile_prefix. }
  split; [lia|]. split.
  - intros l Hl. rewrite Forall_forall in A. now apply stripQuote_suffix, A.
  - rewrite !join_length, length_map.
    pose proof (strip_total run A Hne). lia.
Qed.

End QuoteFacts.
Import QuoteFacts.

(** X9: when [parseBlockquote] accepts at index [i], it takes the longest
    run of quoted lines from [i] on, at least one, each stripped of a
    non-empty prefix; the quoted text handed back to the renderer is
    therefore strictly shorter than the lines taken, which bounds the
    recursion through nested quotes. *)
Theorem X9_parseBlockquote (lines : list string) (i : nat) (b : block)
        (next : nat) :
  parseBlockquote lines i = Some (b, next) ->
  let run := takeWhile (test re_quote) (skipn i lines) in
  b = Blockquote (map stripQuote run)
  /\ run = firstn (next - i) (skipn i lines)
  /\ i < next <= List.length lines
  /\ (forall l, In l run -> exists pre, pre <> "" /\ l = pre ++ stripQuote l)
  /\ String.length (join lf (map stripQuote run))
     < String.length (join lf run).
Proof. exact (parseBlockquote_run lines i b next). Qed.

Lemma X9_witness :
  String.length (join lf (map stripQuote ["> a"; ">> b"]))
  < String.length (join lf ["> a"; ">> b"]).
Proof.
  exact (proj2 (proj2 (proj2 (proj2
    (X9_parseBlockquote ["> a"; ">> b"; "c"] 0
       (Blockquote ["a"; "> b"]) 2 eq_refl))))).
Defined.

Module ListFacts.

Lemma Matches_plus_class_ne g p st st1 :
  Matches (Plus g (Chr p)) st st1 ->
  exists u, u <> "" /\ sall p u = true /\ rest st = u ++ rest st1
            /\ pos st1 = pos st + String.length u /\ caps st1 = caps st.
Proof.
  intros M. destruct (Matches_Seq_inv _ _ _ _ M) as [sta [Ma Mb]].
  destruct (Matches_Chr_inv _ _ _ Ma) as [c [Hc [E [P C]]]].
  destruct (Matches_star_class_inv _ _ _ _ Mb) as [u [Hu [E2 [P2 C2]]]].
  exists (String c u). simpl. rewrite Hc, Hu, E, E2, P2, P, C2, C.
  repeat split; [discriminate | lia].
Qed.

(** The common end of the two item patterns: whitespace, then the
    captured item text up to the end of the line. *)
Lemma item_tail st e :
  Matches (seqs [ws1; Group 3 (Plus true (Chr isDot)); Eol]) st e ->
  exists sp item,
    rest st = sp ++ item /\ whitespace sp = true /\ sp <> ""
    /\ item <> "" /\ caps e = (3, item) :: caps st.
Proof.
  cbn [seqs]. intros M.
  destruct (Matches_Seq_inv _ _ _ _ M) as [s1 [Mw M1]].
  destruct (Matches_plus_class_ne _ _ _ _ Mw) as [sp [Nsp [Wsp [Esp [_ Csp]]]]].
  destruct (Matches_Seq_inv _ _ _ _ M1) as [s2 [Mg Me]].
  apply Matches_Eol_inv in Me as [-> Ee].
  destruct (FenceFacts.Matches_Group_text _ _ _ _ Mg)
    as [s3 [item [Mi [Ei [_ ->]]]]].
  destruct (Matches_plus_class_ne _ _ _ _ Mi) as [it [Nit [_ [Eit [_ Cit]]]]].
  rewrite Ei in Eit. apply app_inv_tail in Eit. subst it.
  cbn [rest caps] in *. rewrite Ee, app_nil_r in Ei.
  exists sp, item. rewrite Cit, Csp, Esp, Ei. auto.
Qed.

Lemma bullet_shape (line : string) (m : mresult) :
  exec re_ul line = Some m ->
  bulletItem (String.length (grp 1 m)) line (grp 3 m).
Proof.
  change re_ul with
    (Seq Bol (seqs [Group 1 ws0; Group 2 (Chr (oneof "-+*")); ws1;
                    Group 3 (Plus true (Chr isDot)); Eol])).
  rewrite exec_anchored. unfold matchAt.
  destruct (rmatch _ _ _) as [e|] eqn:E; [|discriminate].
  intros H. injection H as <-.
  destruct (rmatch_sound _ _ _ _ E) as [e' [M He]]. injection He as ->.
  clear E.
  destruct (Matches_Seq_inv _ _ _ _ M) as [s0 [M0 M']]. clear M.
  apply FenceFacts.Matches_Bol_inv in M0. subst s0.
  destruct (Matches_Seq_inv _ _ _ _ M') as [s1 [M1 M2]]. clear M'.
  destruct (FenceFacts.Matches_Group_text _ _ _ _ M1)
    as [s1' [w [Mi [Ei [_ ->]]]]].
  destruct (Matches_star_class_inv _ _ _ _ Mi) as [w' [Ww [Ei' [_ Ci]]]].
  rewrite Ei in Ei'. apply app_inv_tail in Ei'. subst w'.
  cbn [rest caps] in Ei, Ci. clear M1 Mi.
  destruct (Matches_Seq_inv _ _ _ _ M2) as [s2 [Mm M3]]. clear M2.
  destruct (FenceFacts.Matches_Group_text _ _ _ _ Mm)
    as [s2' [mk [Mk [Em [_ ->]]]]].
  cbn [rest caps] in Em.
  destruct (Matches_Chr_inv _ _ _ Mk) as [b [Hb [Eb [_ Cb]]]].
  cbn [rest caps] in Eb, Cb.
  destruct (item_tail _ _ M3) as [sp [item [Et [Wsp [Nsp [Nit Ce]]]]]].
  cbn [rest caps] in Et, Ce.
  rewrite Ce, Cb, Ci.
  cbv [grp cap find groups fst snd Nat.eqb].
  exists w, b, sp. rewrite Ei, Eb, Et. auto 10.
Qed.

Lemma numbered_shape (line : string) (m : mresult) :
  exec re_ol line = Some m ->
  numberedItem (String.length (grp 1 m)) line (grp 3 m).
Proof.
  change re_ol with
    (Seq Bol (seqs [Group 1 ws0; Group 2 (Plus true (Chr isDigit));
                    Chr (oneof ".)"); ws1;
                    Group 3 (Plus true (Chr isDot)); Eol])).
  rewrite exec_anchored. unfold matchAt.
  destruct (rmatch _ _ _) as [e|] eqn:E; [|discriminate].
  intros H. injection H as <-.
  destruct (rmatch_sound _ _ _ _ E) as [e' [M He]]. injection He as ->.
  clear E.
  destruct (Matches_Seq_inv _ _ _ _ M) as [s0 [M0 M']]. clear M.
  apply FenceFacts.Matches_Bol_inv in M0. subst s0.
  destruct (Matches_Seq_inv _ _ _ _ M') as [s1 [M1 M2]]. clear M'.
  destruct (FenceFacts.Matches_Group_text _ _ _ _ M1)
    as [s1' [w [Mi [Ei [_ ->]]]]].
  destruct (Matches_star_class_inv _ _ _ _ Mi) as [w' [Ww [Ei' [_ Ci]]]].
  rewrite Ei in Ei'. apply app_inv_tail in Ei'. subst w'.
  cbn [rest caps] in Ei, Ci. clear M1 Mi.
  destruct (Matches_Seq_inv _ _ _ _ M2) as [s2 [Mm M3]]. clear M2.
  destruct (FenceFacts.Matches_Group_text _ _ _ _ Mm)
    as [s2' [ds [Mk [Em [_ ->]]]]].
  cbn [rest caps] in Em.
  destruct (Matches_plus_class_ne _ _ _ _ Mk) as [ds' [Nds [Hds [Eds [_ Cds]]]]].
  rewrite Em in Eds. apply app_inv_tail in Eds. subst ds'.
  cbn [rest caps] in Cds.
  destruct (Matches_Seq_inv _ _ _ _ M3) as [s3 [Md M4]]. clear M3.
  destruct (Matches_Chr_inv _ _ _ Md) as [d [Hd [Ed [_ Cd]]]].
  cbn [rest caps] in Ed, Cd.
  destruct (item_tail _ _ M4) as [sp [item [Et [Wsp [Nsp [Nit Ce]]]]]].
  rewrite Ce, Cd. cbn [caps]. rewrite Cds, Ci.
  cbv [grp cap find groups fst snd Nat.eqb].
  exists w, ds, d, sp. rewrite Ei, Em, Ed, Et. auto 12.
Qed.

(** A line with a character that is no whitespace is not blank. *)
Lemma nonblank (w : string) (c : ascii) (t : string) :
  isWs c = false -> truthy (trim (w ++ String c t)) = true.
Proof.
  intros Hc. destruct (trim _) eqn:T; [|reflexivity].
  apply FenceFacts.whitespace_of_trim_empty in T.
  unfold whitespace in T. rewrite sall_app in T. simpl in T.
  rewrite Hc, andb_false_r in T. discriminate.
Qed.

Lemma bullet_not_ws (c : ascii) : oneof "-+*" c = true -> isWs c = false.
Proof.
  assert (A : forallb (fun c => implb (oneof "-+*" c) (negb (isWs c)))
                      all_ascii = true) by (vm_compute; reflexivity).
  intros H. pose proof (forall_ascii _ A c) as Ac. cbv beta in Ac.
  rewrite H in Ac. now apply negb_true_iff in Ac.
Qed.

Lemma digit_not_ws (c : ascii) : isDigit c = true -> isWs c = false.
Proof.
  assert (A : forallb (fun c => implb (isDigit c) (negb (isWs c)))
                      all_ascii = true) by (vm_compute; reflexivity).
  intros H. pose proof (forall_ascii _ A c) as Ac. cbv beta in Ac.
  rewrite H in Ac. now apply negb_true_iff in Ac.
Qed.

Lemma listItem_nonblank ord ind line item :
  listItem ord ind line item -> truthy (trim line) = true.
Proof.
  destruct ord; simpl.
  - intros [w [ds [d [sp [E [_ [_ [Hd [Nd _]]]]]]]]].
    destruct ds as [|c ds]; [contradiction|]. rewrite E. simpl in Hd.
    apply andb_true_iff in Hd as [Hc _].
    apply nonblank. now apply digit_not_ws.
  - intros [w [b [sp [E [_ [_ [Hb _]]]]]]]. rewrite E.
    apply nonblank. now apply bullet_not_ws.
Qed.

Lemma list_loop_first (ord : bool) (line : string) (ls : list string)
      (m : mresult) (j : nat) :
  (if ord then exec re_ol line else exec re_ul line) = Some m ->
  j < snd (list_loop ord (String.length (grp 1 m)) (line :: ls) j []).
Proof.
  intros E. cbn [list_loop].
  assert (T : truthy (trim line) = true).
  { apply (listItem_nonblank ord (String.length (grp 1 m)) line (grp 3 m)).
    destruct ord; simpl; [now apply numbered_shape | now apply bullet_shape]. }
  rewrite T. cbn [negb]. rewrite E, Nat.eqb_refl. cbn [negb].
  pose proof (Progress.list_loop_ge ord (String.length (grp 1 m)) ls (S j)
                ([] ++ [grp 3 m])%list). lia.
Qed.

Lemma list_loop_spec (ord : bool) (ind : nat) (ls : list string) :
  forall j items its j',
    list_loop ord ind ls j items = (its, j') ->
    exists new,
      its = (items ++ new)%list /\ j' = j + List.length new
      /\ List.length new <= List.length ls
      /\ forall k, k < List.length new ->
                   listItem ord ind (nth k ls "") (nth k new "").
Proof.
  induction ls as [|l ls IH]; intros j items its j' H; cbn [list_loop] in H.
  - injection H as <- <-. exists []. rewrite List.app_nil_r. simpl.
    repeat split; lia.
  - assert (Stop : (items, j) = (its, j') ->
                   exists new,
                     its = (items ++ new)%list /\ j' = j + List.length new
                     /\ List.length new <= List.length (l :: ls)
                     /\ forall k, k < List.length new ->
                          listItem ord ind (nth k (l :: ls) "")
                                   (nth k new "")).
    { intros E. injection E as <- <-. exists [].
      rewrite List.app_nil_r. simpl. repeat split; lia. }
    destruct (negb (truthy (trim l))); [now apply Stop|].
    destruct (if ord then exec re_ol l else exec re_ul l) as [m|] eqn:Em;
      [|now apply Stop].
    destruct (Nat.eqb (String.length (grp 1 m)) ind) eqn:Ei;
      cbn [negb] in H; [|now apply Stop].
    apply Nat.eqb_eq in Ei.
    destruct (IH _ _ _ _ H) as [new [E1 [E2 [L I]]]].
    exists (grp 3 m :: new). rewrite E1, E2, <- List.app_assoc. simpl.
    repeat split; try lia.
    intros [|k] Hk.
    + rewrite <- Ei. destruct ord; simpl.
      * now apply numbered_shape.
      * now apply bullet_shape.
    + apply I. lia.
Qed.

End ListFacts.
Import ListFacts.

(** X10: when [parseList] accepts at index [i], it takes at least one
    line and one item per line taken; every line taken is an item of the
    same kind (all bullets or all numbers) and of the same indentation
    width, and its item is the non-empty text after the marker, up to the
    end of the line.  The list is ordered exactly when its first line is
    a numbered item. *)
Theorem X10_parseList (lines : list string) (i : nat) (b : block)
        (next : nat) :
  parseList lines i = Some (b, next) ->
  exists ordered indent items,
    b = ListBlock ordered items
    /\ i < next <= List.length lines
    /\ List.length items = next - i
    /\ (ordered = true <-> exists m, exec re_ol (nth i lines "") = Some m)
    /\ forall k, k < List.length items ->
                 listItem ordered indent (nth (i + k) lines "")
                          (nth k items "").
Proof.
  intros H.
  assert (Hi : i < List.length lines).
  { destruct (Nat.lt_ge_cases i (List.length lines)) as [L|G]; [exact L|].
    unfold parseList in H. rewrite (nth_overflow lines "" G) in H.
    cbv zeta in H.
    replace (exec re_ul "") with (@None mresult) in H
      by (vm_compute; reflexivity).
    replace (exec re_ol "") with (@None mresult) in H
      by (vm_compute; reflexivity).
    discriminate H. }
  assert (Main : forall (ord : bool) m,
             (if ord then exec re_ol (nth i lines "")
              else exec re_ul (nth i lines "")) = Some m ->
             forall its j,
               list_loop ord (String.length (grp 1 m)) (skipn i lines) i []
               = (its, j) ->
               i < j <= List.length lines
               /\ List.length its = j - i
               /\ forall k, k < List.length its ->
                    listItem ord (String.length (grp 1 m))
                             (nth (i + k) lines "") (nth k its "")).
  { intros ord m Em its j EL.
    pose proof (list_loop_first ord _ (skipn (S i) lines) m i Em) as F.
    rewrite <- (Progress.skipn_nth lines i Hi), EL in F. cbn [snd] in F.
    destruct (list_loop_spec _ _ _ _ _ _ _ EL) as [new [E1 [E2 [L I]]]].
    simpl in E1. subst its j. rewrite List.length_skipn in L.
    split; [lia|]. split; [lia|].
    intros k Hk. specialize (I k Hk). now rewrite nth_skipn in I. }
  unfold parseList in H.
  destruct (exec re_ul (nth i lines "")) as [mu|] eqn:Eu;
    destruct (exec re_ol (nth i lines "")) as [mo|] eqn:Eo;
    try discriminate.
  - destruct (Progress.ul_ol_exclusive _ _ _ Eu Eo).
  - destruct (list_loop _ _ _ _ _) as [its j] eqn:EL.
    injection H as <- <-.
    destruct (Main false mu eq_refl its j EL) as [A [B C]].
    exists false, (String.length (grp 1 mu)), its.
    split; [reflexivity|]. split; [exact A|]. split; [exact B|].
    split; [split|exact C].
    + discriminate.
    + intros [m Hm]. discriminate.
  - destruct (list_loop _ _ _ _ _) as [its j] eqn:EL.
    injection H as <- <-.
    destruct (Main true mo eq_refl its j EL) as [A [B C]].
    exists true, (String.length (grp 1 mo)), its.
    split; [reflexivity|]. split; [exact A|]. split; [exact B|].
    split; [split|exact C].
    + intros _. now exists mo.
    + reflexivity.
Qed.

Lemma X10_witness :
  exists ordered indent items,
    ListBlock true ["a"; "b"] = ListBlock ordered items
    /\ 0 < 2 <= 3
    /\ List.length items = 2 - 0
    /\ (ordered = true
        <-> exists m, exec re_ol (nth 0 ["1. a"; "2) b"; "- c"] "") = Some m)
    /\ forall k, k < List.length items ->
                 listItem ordered indent
                          (nth (0 + k) ["1. a"; "2) b"; "- c"] "")
                          (nth k items "").
Proof.
  exact (X10_parseList ["1. a"; "2) b"; "- c"] 0 (ListBlock true ["a"; "b"]) 2
           eq_refl).
Defined.

Module AtxFacts.

Lemma sall_chr_repeat (c : ascii) (u : string) :
  sall (chr c) u = true -> u = repeatChar c (String.length u).
Proof.
  induction u as [|x u IH]; simpl; [reflexivity|].
  intros H. apply andb_true_iff in H as [Hx Hu].
  unfold chr in Hx. apply Ascii.eqb_eq in Hx. subst x.
  now rewrite <- IH.
Qed.

Lemma sall_repeat (c : ascii) (n : nat) : sall (chr c) (repeatChar c n) = true.
Proof.
  induction n as [|n IH]; simpl; [reflexivity|].
  unfold chr at 1. now rewrite Ascii.eqb_refl.
Qed.

Lemma repeat_length (c : ascii) (n : nat) :
  String.length (repeatChar c n) = n.
Proof. induction n as [|n IH]; simpl; congruence. Qed.

(** [r{0,n}] on a character class takes at most [n] characters of the
    class, and may take any such number of them. *)
Lemma Matches_upto_class_inv p n :
  forall st st1,
    Matches (UpTo n (Chr p)) st st1 ->
    exists u, sall p u = true /\ String.length u <= n
              /\ rest st = u ++ rest st1 /\ caps st1 = caps st.
Proof.
  induction n as [|n IH]; intros st st1 M; cbn [UpTo] in M.
  - apply Matches_Eps_inv in M. subst st1. exists "". simpl. auto.
  - destruct (Matches_Alt_inv _ _ _ _ M) as [M1|M1].
    + destruct (Matches_Seq_inv _ _ _ _ M1) as [sa [Ma Mb]].
      destruct (Matches_Chr_inv _ _ _ Ma) as [c [Hc [E [_ C]]]].
      destruct (IH _ _ Mb) as [u [Hu [L [E2 C2]]]].
      exists (String c u). simpl. rewrite Hc, Hu, E, E2, C2, C.
      repeat split. lia.
    + apply Matches_Eps_inv in M1. subst st1. exists "". simpl.
      repeat split. lia.
Qed.

Lemma Matches_upto_class_intro p n :
  forall u, sall p u = true -> String.length u <= n ->
    forall i t cs,
      Matches (UpTo n (Chr p)) (MState i (u ++ t) cs)
              (MState (i + String.length u) t cs).
Proof.
  induction n as [|n IH]; intros u Hu L i t cs; cbn [UpTo].
  - destruct u; [|simpl in L; lia]. simpl. rewrite Nat.add_0_r. constructor.
  - destruct u as [|c u]; simpl.
    + rewrite Nat.add_0_r. apply M_AltR. constructor.
    + simpl in Hu, L. apply andb_true_iff in Hu as [Hc Hu].
      apply M_AltL. apply M_Seq with (MState (S i) (u ++ t) cs).
      * exact (M_Chr p c (u ++ t) (MState i (String c (u ++ t)) cs)
                     eq_refl Hc).
      * rewrite Nat.add_succ_r. apply (IH u Hu); lia.
Qed.

Lemma hash_not_ws (c : ascii) : isWs c = true -> chr "#" c = false.
Proof.
  assert (A : forallb (fun c => implb (isWs c) (negb (chr "#" c)))
                      all_ascii = true) by (vm_compute; reflexivity).
  intros H. pose proof (forall_ascii _ A c) as Ac. cbv beta in Ac.
  rewrite H in Ac. now apply negb_true_iff in Ac.
Qed.

(** Where a line of [a] leading hashes has a character other than a
    hash, it is past them. *)
Lemma hashes_then (a b : nat) (c : ascii) (x y : string) :
  repeatChar "#" a ++ x = repeatChar "#" b ++ String c y ->
  b < a -> c = "#"%char.
Proof.
  revert a. induction b as [|b IH]; intros a E L.
  - destruct a as [|a]; [lia|]. simpl in E. now injection E.
  - destruct a as [|a]; [lia|]. simpl in E. injection E as E.
    apply (IH a E). lia.
Qed.

Lemma parseAtxHeading_shape (line : string) (level : nat) (text : string) :
  parseAtxHeading line = Some (level, text) ->
  1 <= level <= 6 /\ atxLine line level text.
Proof.
  unfold parseAtxHeading.
  change re_atx with
    (Seq Bol (seqs [Group 1 (Seq (Chr (chr "#")) (UpTo 5 (Chr (chr "#"))));
                    ws1; Group 2 (Plus false (Chr isDot)); ws0;
                    Star true (Chr (chr "#")); ws0; Eol])).
  rewrite exec_anchored. unfold matchAt.
  destruct (rmatch _ _ _) as [e|] eqn:E; [|discriminate].
  intros H. injection H as <- <-.
  destruct (rmatch_sound _ _ _ _ E) as [e' [M He]]. injection He as ->.
  clear E. cbn [seqs] in M.
  destruct (Matches_Seq_inv _ _ _ _ M) as [s0 [M0 M']]. clear M.
  apply FenceFacts.Matches_Bol_inv in M0. subst s0.
  destruct (Matches_Seq_inv _ _ _ _ M') as [s1 [M1 M2]]. clear M'.
  destruct (FenceFacts.Matches_Group_text _ _ _ _ M1)
    as [s1' [h [Mh [Eh [_ ->]]]]].
  cbn [rest caps] in Eh.
  destruct (Matches_Seq_inv _ _ _ _ Mh) as [sa [Ma Mb]].
  destruct (Matches_Chr_inv _ _ _ Ma) as [c [Hc [Ec [_ Cc]]]].
  destruct (Matches_upto_class_inv _ _ _ _ Mb) as [u [Hu [Lu [Eu Cu]]]].
  cbn [rest caps] in Ec, Cc.
  assert (Hh : h = String c u).
  { rewrite Ec, Eu in Eh. change (String c (u ++ rest s1'))
      with (String c u ++ rest s1') in Eh.
    apply app_inv_tail in Eh. congruence. }
  assert (Sh : sall (chr "#") h = true) by (rewrite Hh; simpl; now rewrite Hc, Hu).
  assert (Lh : 1 <= String.length h <= 6) by (rewrite Hh; simpl; lia).
  clear M1 Mh Ma Mb.
  destruct (Matches_Seq_inv _ _ _ _ M2) as [s2 [Mw M3]]. clear M2.
  destruct (ListFacts.Matches_plus_class_ne _ _ _ _ Mw)
    as [sp [Nsp [Wsp [Esp [_ Csp]]]]].
  cbn [rest caps] in Esp, Csp. clear Mw.
  destruct (Matches_Seq_inv _ _ _ _ M3) as [s3 [Mt M4]]. clear M3.
  destruct (FenceFacts.Matches_Group_text _ _ _ _ Mt)
    as [s3' [t [Mt' [Et [_ ->]]]]].
  destruct (ListFacts.Matches_plus_class_ne _ _ _ _ Mt')
    as [t' [Nt [Dt [Et' [_ Ct]]]]].
  rewrite Et in Et'. apply app_inv_tail in Et'. subst t'.
  cbn [rest caps] in *. clear Mt Mt'.
  destruct (Matches_Seq_inv _ _ _ _ M4) as [s4 [Mw1 M5]]. clear M4.
  destruct (Matches_star_class_inv _ _ _ _ Mw1) as [w1 [Ww1 [Ew1 [_ Cw1]]]].
  cbn [rest caps] in Ew1, Cw1. clear Mw1.
  destruct (Matches_Seq_inv _ _ _ _ M5) as [s5 [Mhs M6]]. clear M5.
  destruct (Matches_star_class_inv _ _ _ _ Mhs) as [hs [Hhs [Ehs [_ Chs]]]].
  clear Mhs.
  destruct (Matches_Seq_inv _ _ _ _ M6) as [s6 [Mw2 M7]]. clear M6.
  destruct (Matches_star_class_inv _ _ _ _ Mw2) as [w2 [Ww2 [Ew2 [_ Cw2]]]].
  apply Matches_Eol_inv in M7 as [-> Ee]. clear Mw2.
  rewrite Ee, app_nil_r in Ew2.
  rewrite Cw2, Chs, Cw1. cbn [caps]. rewrite Ct, Csp. cbn [caps].
  cbv [grp cap find groups fst snd Nat.eqb].
  split; [exact Lh|].
  exists sp, w1, hs, w2.
  rewrite <- (sall_chr_repeat _ _ Sh).
  rewrite Eh, Esp, Et, Ew1, Ehs, Ew2. auto 10.
Qed.

Lemma parseAtxHeading_accepts (n : nat) (sp t : string) :
  1 <= n <= 6 -> sp <> "" -> whitespace sp = true ->
  t <> "" -> sall isDot t = true ->
  exists m, exec re_atx (repeatChar "#" n ++ sp ++ t) = Some m.
Proof.
  intros Hn Nsp Wsp Nt Dt.
  change re_atx with
    (Seq Bol (seqs [Group 1 (Seq (Chr (chr "#")) (UpTo 5 (Chr (chr "#"))));
                    ws1; Group 2 (Plus false (Chr isDot)); ws0;
                    Star true (Chr (chr "#")); ws0; Eol])).
  rewrite exec_anchored. apply matchAt_iff.
  destruct n as [|n]; [lia|].
  destruct sp as [|c sp]; [contradiction|].
  destruct t as [|d t]; [contradiction|].
  unfold whitespace in Wsp. simpl in Wsp, Dt.
  apply andb_true_iff in Wsp as [Wc Wsp], Dt as [Dd Dt].
  cbn [seqs repeatChar append]. rewrite <- (app_nil_r t).
  eexists.
  eapply M_Seq; [apply M_Bol; reflexivity|].
  eapply M_Seq.
  { apply M_Group. eapply M_Seq.
    - eapply M_Chr; [reflexivity | reflexivity].
    - apply (Matches_upto_class_intro (chr "#") 5 (repeatChar "#" n));
        [apply sall_repeat | rewrite repeat_length; lia]. }
  cbn [set_cap pos rest caps].
  eapply M_Seq.
  { eapply M_Seq.
    - eapply M_Chr; [reflexivity | exact Wc].
    - apply (Matches_star_class_intro true isWs sp Wsp). }
  eapply M_Seq.
  { apply M_Group. eapply M_Seq.
    - eapply M_Chr; [reflexivity | exact Dd].
    - apply (Matches_star_class_intro false isDot t Dt). }
  cbn [set_cap pos rest caps].
  eapply M_Seq; [apply M_Star0|].
  eapply M_Seq; [apply M_Star0|].
  eapply M_Seq; [apply M_Star0|].
  now constructor.
Qed.

End AtxFacts.
Import AtxFacts.

(** X11: a line [parseAtxHeading] accepts is one to six hashes, then
    whitespace, then the non-empty heading text, then a closing sequence
    of whitespace and hashes; the level is the number of leading hashes.
    Conversely one to six hashes, whitespace and a non-empty text without
    line terminators always make a heading of that level, and a line that
    begins with seven hashes is never a heading. *)
Theorem X11_parseAtxHeading (line : string) :
  (forall level text,
      parseAtxHeading line = Some (level, text) ->
      1 <= level <= 6 /\ atxLine line level text)
  /\ (forall n sp t,
         1 <= n <= 6 -> sp <> "" -> whitespace sp = true ->
         t <> "" -> sall isDot t = true ->
         line = repeatChar "#" n ++ sp ++ t ->
         exists text, parseAtxHeading line = Some (n, text))
  /\ (forall t, line = repeatChar "#" 7 ++ t -> parseAtxHeading line = None).
Proof.
  split; [exact (parseAtxHeading_shape line)|]. split.
  - intros n sp t Hn Nsp Wsp Nt Dt ->.
    destruct (parseAtxHeading_accepts n sp t Hn Nsp Wsp Nt Dt) as [m Hm].
    pose proof (parseAtxHeading_shape (repeatChar "#" n ++ sp ++ t)) as S.
    unfold parseAtxHeading in *. rewrite Hm in *.
    destruct (S _ _ eq_refl) as [Hl [sp' [w1 [hs [w2 [E [Nsp' [Wsp' _]]]]]]]].
    exists (grp 2 m). f_equal. f_equal.
    destruct sp as [|c sp]; [contradiction|].
    destruct sp' as [|c' sp']; [contradiction|].
    unfold whitespace in Wsp, Wsp'. simpl in Wsp, Wsp'.
    apply andb_true_iff in Wsp as [Wc _], Wsp' as [Wc' _].
    apply hash_not_ws in Wc, Wc'.
    destruct (Nat.lt_trichotomy (String.length (grp 1 m)) n) as [L|[L|L]];
      [|exact L|]; exfalso.
    + simpl in E. apply hashes_then in E; [|exact L]. subst c'.
      discriminate Wc'.
    + symmetry in E. simpl in E. apply hashes_then in E; [|exact L].
      subst c. discriminate Wc.
  - intros t ->.
    destruct (parseAtxHeading (repeatChar "#" 7 ++ t)) as [[level text]|] eqn:E;
      [exfalso|reflexivity].
    destruct (parseAtxHeading_shape _ _ _ E)
      as [Hl [sp [w1 [hs [w2 [E' [Nsp [Wsp _]]]]]]]].
    destruct sp as [|c sp]; [contradiction|].
    unfold whitespace in Wsp. simpl in Wsp.
    apply andb_true_iff in Wsp as [Wc _]. apply hash_not_ws in Wc.
    change (String c sp ++ text ++ w1 ++ hs ++ w2)
      with (String c (sp ++ text ++ w1 ++ hs ++ w2)) in E'.
    apply hashes_then in E'; [|lia]. subst c. discriminate Wc.
Qed.

Lemma X11_witness : 1 <= 2 <= 6 /\ atxLine "## Title ##" 2 "Title".
Proof.
  exact (proj1 (X11_parseAtxHeading "## Title ##") 2 "Title" eq_refl).
Defined.

Module TermFacts.

(** *** A step stays in place only on a bare list marker *)

Lemma step_progress_or_bare (lines : list string) (i : nat) :
  i < List.length lines ->
  i < snd (segment_step lines i) \/ bareMarker (nth i lines "") = true.
Proof.
  intros Hi. unfold segment_step.
  destruct (truthy (trim (nth i lines ""))) eqn:Hnb; cbn [negb];
    [|left; simpl; lia].
  destruct (parseFence (nth i lines "")) as [f|] eqn:E1.
  { left. pose proof (Progress.fence_loop_ge (marker f) (skipn (S i) lines)
                        (S i) []) as G.
    destruct (fence_loop _ _ _ _) as [buf j]. simpl in *.
    destruct (Nat.ltb j (List.length lines)); lia. }
  destruct (parseIndentedCode lines i) as [[b next]|] eqn:E2.
  { left. simpl. eapply Progress.parseIndentedCode_progress; eassumption. }
  destruct (parseSetextHeading lines i) as [[[level text] next]|] eqn:E3.
  { left. simpl. eapply Progress.parseSetextHeading_progress; eassumption. }
  destruct (parseAtxHeading (nth i lines "")) as [[level text]|] eqn:E4;
    [left; simpl; lia|].
  destruct (isThematicBreak (nth i lines "")) eqn:E5; [left; simpl; lia|].
  destruct (parseBlockquote lines i) as [[b next]|] eqn:E6.
  { left. simpl. eapply Progress.parseBlockquote_progress; eassumption. }
  destruct (parseTable lines i) as [[b next]|] eqn:E7.
  { left. simpl. eapply Progress.parseTable_progress; eassumption. }
  destruct (parseList lines i) as [[b next]|] eqn:E8.
  { left. simpl. eapply Progress.parseList_progress; eassumption. }
  assert (Q : test re_quote (nth i lines "") = false).
  { unfold parseBlockquote in E6.
    destruct (test re_quote (nth i lines "")); [|reflexivity].
    cbn [negb] in E6. destruct (blockquote_loop _ _ _) in E6. discriminate. }
  assert (I : test re_indented (nth i lines "") = false).
  { unfold parseIndentedCode in E2.
    destruct (test re_indented (nth i lines "")); [|reflexivity].
    cbn [negb] in E2. destruct (indented_loop _ _ _) in E2. discriminate. }
  assert (L : exec re_ul (nth i lines "") = None
              /\ exec re_ol (nth i lines "") = None).
  { unfold parseList in E8.
    destruct (exec re_ul (nth i lines "")), (exec re_ol (nth i lines ""));
      try (destruct (list_loop _ _ _ _ _) in E8; discriminate).
    now split. }
  destruct L as [Lu Lo].
  unfold bareMarker. rewrite Lu, Lo. cbn [isSome negb]. rewrite !andb_true_r.
  unfold parseParagraph. rewrite (Progress.skipn_nth lines i Hi).
  cbn [paragraph_loop]. rewrite Hnb, E1, E4, E5, Q, E7, I.
  cbn [negb isSome orb].
  destruct (test re_ul_start (nth i lines "")); [now right|].
  destruct (test re_ol_start (nth i lines "")); [now right|].
  left.
  destruct (Progress.paragraph_loop_cases lines (skipn (S i) lines) (S i)
              ([] ++ [nth i lines ""])%list) as [E|G].
  - rewrite E. simpl. lia.
  - destruct (paragraph_loop _ _ _ _) as [buf j]. simpl in *. lia.
Qed.

(** *** A bare marker ends in whitespace *)

Lemma lastIsWs_app (a s : string) :
  s <> "" -> lastIsWs (a ++ s) = lastIsWs s.
Proof.
  intros Hs. induction a as [|c a IH]; [reflexivity|].
  cbn [append lastIsWs]. rewrite IH.
  destruct (a ++ s) eqn:E; [|reflexivity].
  destruct a; [simpl in E; contradiction | discriminate].
Qed.

Lemma lastIsWs_ws (s : string) :
  s <> "" -> whitespace s = true -> lastIsWs s = true.
Proof.
  unfold whitespace. induction s as [|c s IH]; [contradiction|].
  intros _ H. simpl in H. apply andb_true_iff in H as [Hc Hs].
  cbn [lastIsWs]. destruct s; [exact Hc|]. apply IH; [discriminate|exact Hs].
Qed.

Lemma dots_of_free (l : string) :
  free (chr LF) l = true -> free (chr CR) l = true -> sall isDot l = true.
Proof.
  unfold free. induction l as [|c l IH]; [reflexivity|]. simpl.
  intros H1 H2. apply andb_true_iff in H1 as [A1 B1], H2 as [A2 B2].
  rewrite (IH B1 B2), andb_true_r. unfold isDot, chr in *.
  apply negb_true_iff in A1, A2. now rewrite A1, A2.
Qed.

Lemma Matches_plus_class_intro g p u :
  u <> "" -> sall p u = true ->
  forall i t cs,
    Matches (Plus g (Chr p)) (MState i (u ++ t) cs)
            (MState (i + String.length u) t cs).
Proof.
  intros Nu Hu i t cs. destruct u as [|c u]; [contradiction|].
  simpl in Hu. apply andb_true_iff in Hu as [Hc Hu].
  apply M_Seq with (MState (S i) (u ++ t) cs).
  - exact (M_Chr p c (u ++ t) (MState i (String c (u ++ t)) cs)
                 eq_refl Hc).
  - simpl. rewrite Nat.add_succ_r. exact (Matches_star_class_intro g p u Hu (S i) t cs).
Qed.

(** Where whitespace after a marker is found on a line that neither
    ends in whitespace nor holds a line terminator, an item text
    follows it. *)
Lemma tail_extend (u : string) (st st1 : mstate) :
  Matches ws1 st st1 ->
  sall isDot (u ++ rest st) = true -> lastIsWs (u ++ rest st) = false ->
  exists e,
    Matches (seqs [ws1; Group 3 (Plus true (Chr isDot)); Eol]) st e.
Proof.
  intros Mw D Lw.
  destruct (ListFacts.Matches_plus_class_ne _ _ _ _ Mw)
    as [sp [Nsp [Wsp [Esp [Psp Csp]]]]].
  destruct st1 as [p r cs]. cbn [rest pos caps] in *.
  rewrite Esp in D, Lw. rewrite !sall_app in D.
  apply andb_true_iff in D as [_ D]. apply andb_true_iff in D as [_ D].
  assert (Nr : r <> "").
  { intros ->. rewrite app_nil_r, lastIsWs_app in Lw by exact Nsp.
    now rewrite lastIsWs_ws in Lw. }
  pose proof (Matches_plus_class_intro true isDot r Nr D p "" cs) as Mr.
  rewrite app_nil_r in Mr.
  eexists. cbn [seqs].
  apply M_Seq with (MState p r cs); [exact Mw|].
  eapply M_Seq; [apply M_Group; exact Mr|].
  now constructor.
Qed.

Lemma exec_of_Matches (r : regex) (l : string) (e : mstate) :
  Matches r (MState 0 l []) e ->
  exists m, exec (Seq Bol r) l = Some m.
Proof.
  intros M. rewrite exec_anchored. apply matchAt_iff. exists e.
  apply M_Seq with (MState 0 l []); [now constructor | exact M].
Qed.

Lemma bullet_complete (l : string) :
  sall isDot l = true -> lastIsWs l = false ->
  test re_ul_start l = true -> exists m, exec re_ul l = Some m.
Proof.
  intros D Lw.
  change re_ul_start with
    (Seq Bol (seqs [Group 1 ws0; Group 2 (Chr (oneof "-+*")); ws1])).
  change re_ul with
    (Seq Bol (seqs [Group 1 ws0; Group 2 (Chr (oneof "-+*")); ws1;
                    Group 3 (Plus true (Chr isDot)); Eol])).
  rewrite test_anchored_iff. cbn [seqs]. intros [e M].
  destruct (Matches_Seq_inv _ _ _ _ M) as [s1 [M1 M']].
  destruct (Matches_Seq_inv _ _ _ _ M') as [s2 [M2 M3]].
  destruct (Matches_consumes _ _ _ (M_Seq _ _ _ _ _ M1 M2)) as [u [Eu _]].
  cbn [rest] in Eu. rewrite Eu in D, Lw.
  destruct (tail_extend u s2 e M3 D Lw) as [e' Mt].
  apply exec_of_Matches with e'.
  apply M_Seq with s1; [exact M1|]. apply M_Seq with s2; [exact M2|].
  exact Mt.
Qed.

Lemma numbered_complete (l : string) :
  sall isDot l = true -> lastIsWs l = false ->
  test re_ol_start l = true -> exists m, exec re_ol l = Some m.
Proof.
  intros D Lw.
  change re_ol_start with
    (Seq Bol (seqs [Group 1 ws0; Group 2 (Plus true (Chr isDigit));
                    Chr (oneof ".)"); ws1])).
  change re_ol with
    (Seq Bol (seqs [Group 1 ws0; Group 2 (Plus true (Chr isDigit));
                    Chr (oneof ".)"); ws1;
                    Group 3 (Plus true (Chr isDot)); Eol])).
  rewrite test_anchored_iff. cbn [seqs]. intros [e M].
  destruct (Matches_Seq_inv _ _ _ _ M) as [s1 [M1 M']].
  destruct (Matches_Seq_inv _ _ _ _ M') as [s2 [M2 M'']].
  destruct (Matches_Seq_inv _ _ _ _ M'') as [s3 [M3 M4]].
  destruct (Matches_consumes _ _ _
              (M_Seq _ _ _ _ _ M1 (M_Seq _ _ _ _ _ M2 M3))) as [u [Eu _]].
  cbn [rest] in Eu. rewrite Eu in D, Lw.
  destruct (tail_extend u s3 e M4 D Lw) as [e' Mt].
  apply exec_of_Matches with e'.
  apply M_Seq with s1; [exact M1|]. apply M_Seq with s2; [exact M2|].
  apply M_Seq with s3; [exact M3|]. exact Mt.
Qed.

Lemma bare_ends_ws (l : string) :
  sall isDot l = true -> lastIsWs l = false -> bareMarker l = false.
Proof.
  intros D Lw. unfold bareMarker.
  destruct (test re_ul_start l) eqn:Tu.
  - destruct (bullet_complete l D Lw Tu) as [m ->]. simpl.
    reflexivity.
  - destruct (test re_ol_start l) eqn:To; [|reflexivity].
    destruct (numbered_complete l D Lw To) as [m ->]. simpl.
    apply andb_false_r.
Qed.

(** *** Only [parseBlockquote] makes a blockquote *)

Lemma segment_step_quote (lines : list string) (i : nat) (b : block) :
  fst (segment_step lines i) = Some b -> quoteOf lines b.
Proof.
  unfold segment_step.
  destruct (negb (truthy (trim (nth i lines "")))); [discriminate|].
  destruct (parseFence (nth i lines "")) as [f|].
  { destruct (fence_loop _ _ _ _) as [buf j]. simpl.
    intros H. injection H as <-. exact I. }
  destruct (parseIndentedCode lines i) as [[b2 next]|] eqn:E2.
  { simpl. intros H. injection H as ->. unfold parseIndentedCode in E2.
    destruct (negb _) in E2; [discriminate|].
    destruct (indented_loop _ _ _) in E2. injection E2 as <- _. exact I. }
  destruct (parseSetextHeading lines i) as [[[level text] next]|].
  { simpl. intros H. injection H as <-. exact I. }
  destruct (parseAtxHeading (nth i lines "")) as [[level text]|].
  { simpl. intros H. injection H as <-. exact I. }
  destruct (isThematicBreak (nth i lines "")).
  { simpl. intros H. injection H as <-. exact I. }
  destruct (parseBlockquote lines i) as [[b2 next]|] eqn:E6.
  { simpl. intros H. injection H as ->.
    destruct (parseBlockquote_run _ _ _ _ E6) as [-> _].
    simpl. eauto. }
  destruct (parseTable lines i) as [[b2 next]|] eqn:E7.
  { simpl. intros H. injection H as ->. unfold parseTable in E7.
    destruct (negb _) in E7; [discriminate|].
    destruct (negb _) in E7; [discriminate|].
    destruct (table_loop _ _ _) in E7. injection E7 as <- _. exact I. }
  destruct (parseList lines i) as [[b2 next]|] eqn:E8.
  { simpl. intros H. injection H as ->. unfold parseList in E8.
    destruct (exec re_ul _), (exec re_ol _); try discriminate;
      destruct (list_loop _ _ _ _ _) in E8; injection E8 as <- _; exact I. }
  unfold parseParagraph. destruct (paragraph_loop _ _ _ _) as [buf j].
  simpl. intros H. injection H as <-. exact I.
Qed.

Lemma segment_quotes (lines : list string) :
  forall fuel i blocks bs,
    segment fuel lines i blocks = Some bs ->
    Forall (quoteOf lines) blocks -> Forall (quoteOf lines) bs.
Proof.
  induction fuel as [|fuel IH]; intros i blocks bs; simpl;
    destruct (Nat.leb (List.length lines) i);
    try discriminate; try (intros H; now injection H as <-).
  pose proof (segment_step_quote lines i) as Q.
  destruct (segment_step lines i) as [ob i']. intros H F.
  apply (IH _ _ _ H). destruct ob as [b|]; simpl; [|exact F].
  apply Forall_app. split; [exact F|]. constructor; [|constructor].
  now apply Q.
Qed.

(** *** The text of a blockquote is again a list of such lines *)

Lemma split_free_id (c : ascii) (x : string) :
  free (chr c) x = true -> split c x = [x].
Proof.
  unfold free. induction x as [|a x IH]; [reflexivity|]. simpl.
  intros H. apply andb_true_iff in H as [Ha Hx].
  unfold chr in Ha. apply negb_true_iff in Ha. rewrite Ha.
  now rewrite (IH Hx).
Qed.

Lemma split_app_free (c : ascii) (x t : string) :
  free (chr c) x = true -> split c (x ++ String c t) = x :: split c t.
Proof.
  unfold free. induction x as [|a x IH]; simpl.
  - now rewrite Ascii.eqb_refl.
  - intros H. apply andb_true_iff in H as [Ha Hx].
    unfold chr in Ha. apply negb_true_iff in Ha. rewrite Ha.
    now rewrite (IH Hx).
Qed.

Lemma split_join (c : ascii) (ls : list string) :
  ls <> [] -> Forall (fun l => free (chr c) l = true) ls ->
  split c (join (str1 c) ls) = ls.
Proof.
  induction ls as [|x ls IH]; [contradiction|]. intros _ F.
  inversion F as [|? ? Hx Hl]; subst.
  destruct ls as [|y ls].
  - simpl. now apply split_free_id.
  - rewrite join_cons by discriminate. unfold str1 at 1.
    cbn [append]. rewrite split_app_free by exact Hx.
    now rewrite IH.
Qed.

Lemma free_join (P : ascii -> bool) (sep : string) (ls : list string) :
  free P sep = true -> Forall (fun l => free P l = true) ls ->
  free P (join sep ls) = true.
Proof.
  intros Hs. induction ls as [|x ls IH]; intros F; [reflexivity|].
  inversion F as [|? ? Hx Hl]; subst.
  destruct ls as [|y ls]; [exact Hx|].
  rewrite join_cons by discriminate.
  now rewrite !free_app, Hx, Hs, IH.
Qed.

Lemma totalLength_app (a b : list string) :
  totalLength (a ++ b) = totalLength a + totalLength b.
Proof. induction a as [|x a IH]; simpl; lia. Qed.

Lemma join_sub_length (k i : nat) (lines : list string) :
  String.length (join lf (firstn k (skipn i lines)))
  <= String.length (join lf lines).
Proof.
  rewrite !join_length.
  rewrite <- (firstn_skipn i lines) at 3 4.
  rewrite <- (firstn_skipn k (skipn i lines)) at 3 4.
  rewrite !totalLength_app, !List.length_app. lia.
Qed.

(** The lines the renderer is sure to end on: no line terminator and no
    whitespace at the end. *)
Lemma tidy_suffix (pre s : string) :
  (free (chr LF) (pre ++ s) = true /\ free (chr CR) (pre ++ s) = true
   /\ lastIsWs (pre ++ s) = false) ->
  free (chr LF) s = true /\ free (chr CR) s = true /\ lastIsWs s = false.
Proof.
  rewrite !free_app. intros [A [B C]].
  apply andb_true_iff in A as [_ A], B as [_ B].
  repeat split; try assumption.
  destruct s as [|c s]; [reflexivity|].
  now rewrite lastIsWs_app in C by discriminate.
Qed.

Lemma quote_inner (lines ls : list string) :
  Forall (fun l => free (chr LF) l = true /\ free (chr CR) l = true
                   /\ lastIsWs l = false) lines ->
  quoteOf lines (Blockquote ls) ->
  splitLines (JStr (join lf ls)) = ls
  /\ Forall (fun l => lastIsWs l = false) ls
  /\ String.length (normalizeNewlines (JStr (join lf ls)))
     < String.length (join lf lines).
Proof.
  intros F [i [next Q]].
  destruct (parseBlockquote_run _ _ _ _ Q) as [E [R [N [S L]]]].
  injection E as E.
  set (run := takeWhile (test re_quote) (skipn i lines)) in *.
  assert (Fr : Forall (fun l => free (chr LF) l = true
                                /\ free (chr CR) l = true
                                /\ lastIsWs l = false) ls).
  { rewrite E. apply Forall_map. apply Forall_forall. intros l Hl.
    destruct (S l Hl) as [pre [_ El]].
    apply (tidy_suffix pre). rewrite <- El.
    rewrite Forall_forall in F. apply F.
    rewrite <- (firstn_skipn i lines). apply in_or_app. right.
    rewrite <- (firstn_skipn (next - i) (skipn i lines)).
    apply in_or_app. left. now rewrite <- R. }
  assert (Ne : ls <> []).
  { rewrite E, R. destruct (skipn i lines) eqn:Es.
    - pose proof (List.length_skipn i lines) as K. rewrite Es in K.
      simpl in K. lia.
    - destruct (next - i) eqn:En; [lia|]. discriminate. }
  assert (Id : normalizeNewlines (JStr (join lf ls)) = join lf ls).
  { apply normalize_id. apply free_join; [reflexivity|].
    eapply Forall_impl; [|exact Fr]. now intros l [_ [H _]]. }
  split; [|split].
  - unfold splitLines. rewrite Id. apply (split_join LF); [exact Ne|].
    eapply Forall_impl; [|exact Fr]. now intros l [H _].
  - eapply Forall_impl; [|exact Fr]. now intros l [_ [_ H]].
  - rewrite Id, E. eapply Nat.lt_le_trans; [exact L|].
    rewrite R. apply join_sub_length.
Qed.

Lemma mapM_total {A B : Type} (f : A -> option B) (l : list A) :
  Forall (fun x => exists y, f x = Some y) l ->
  exists ys, mapM f l = Some ys.
Proof.
  induction 1 as [|x l [y Hy] _ [ys Hys]]; simpl; [eauto|].
  rewrite Hy, Hys. eauto.
Qed.

Lemma count_le_length (P : ascii -> bool) (s : string) :
  count P s <= String.length s.
Proof. induction s as [|c s IH]; simpl; [lia|]. destruct (P c); lia. Qed.

(** *** The renderer ends on text without trailing whitespace *)

Lemma fallback_total (o : options) :
  forall n md,
    String.length (normalizeNewlines md) <= n ->
    Forall (fun l => lastIsWs l = false) (splitLines md) ->
    forall fuel, n + 2 <= fuel ->
                 exists html, fallbackMdToHtml fuel md o = Some html.
Proof.
  induction n as [n IH] using lt_wf_ind. intros md Hn Q fuel Hf.
  destruct fuel as [|f]; [lia|]. cbn [fallbackMdToHtml].
  assert (Tidy : Forall (fun l => free (chr LF) l = true
                                  /\ free (chr CR) l = true
                                  /\ lastIsWs l = false) (splitLines md)).
  { apply Forall_forall. intros l Hl. split; [|split].
    - pose proof (split_no_sep LF (normalizeNewlines md)) as K.
      rewrite Forall_forall in K. now apply K.
    - pose proof (split_free (chr CR) LF _ (normalize_no_CR md)) as K.
      rewrite Forall_forall in K. now apply K.
    - rewrite Forall_forall in Q. now apply Q. }
  assert (Len : List.length (splitLines md) <= f).
  { unfold splitLines. rewrite split_length.
    pose proof (count_le_length (chr LF) (normalizeNewlines md)). lia. }
  assert (Steps : forall i, i < List.length (splitLines md) ->
                            i < snd (segment_step (splitLines md) i)).
  { intros i Hi.
    destruct (step_progress_or_bare (splitLines md) i Hi) as [P|B];
      [exact P|].
    rewrite Forall_forall in Tidy.
    destruct (Tidy (nth i (splitLines md) "") (nth_In _ _ Hi))
      as [A1 [A2 A3]].
    now rewrite (bare_ends_ws _ (dots_of_free _ A1 A2) A3) in B. }
  destruct (Progress.segment_terminates _ Steps f 0 [] ltac:(lia))
    as [blocks Hs].
  rewrite Hs.
  pose proof (segment_quotes _ _ _ _ _ Hs (Forall_nil _)) as Qs.
  match goal with
  | |- exists html, match mapM ?g blocks with _ => _ end = _ =>
      destruct (mapM_total g blocks) as [htmls ->]; [|eauto]
  end.
  apply Forall_forall. intros b Hb.
  rewrite Forall_forall in Qs. specialize (Qs b Hb).
  destruct b as [level text| |lang content|ls|ord items|hs al rows|ls];
    try (simpl; eauto; fail).
  destruct (quote_inner _ _ Tidy Qs) as [Sp [Ql Lt]].
  assert (J : join lf (splitLines md) = normalizeNewlines md)
    by apply (join_split LF).
  rewrite J in Lt.
  cbn [renderBlock].
  destruct (IH (String.length (normalizeNewlines (JStr (join lf ls))))
               ltac:(lia) (JStr (join lf ls)) (le_n _)
               ltac:(rewrite Sp; exact Ql) f ltac:(lia)) as [inner ->].
  eauto.
Qed.

End TermFacts.

Import TermFacts.

(** X12: an iteration of the main loop of [fallbackMdToHtml] leaves the
    cursor where it is only on a bare list marker, a line that begins
    like a list item and has no item text.  On lines without such a
    marker the loop ends within as many iterations as there are lines. *)
Theorem X12_stall_only_on_bare_marker (lines : list string) :
  (forall i, i < List.length lines ->
             i < snd (segment_step lines i)
             \/ bareMarker (nth i lines "") = true)
  /\ ((forall l, In l lines -> bareMarker l = false) ->
      forall fuel, List.length lines <= fuel ->
                   exists blocks, segment fuel lines 0 [] = Some blocks).
Proof.
  split; [exact (step_progress_or_bare lines)|].
  intros H fuel Hf. apply Progress.segment_terminates; [|lia].
  intros i Hi. destruct (step_progress_or_bare lines i Hi) as [P|B];
    [exact P|].
  rewrite (H _ (nth_In _ _ Hi)) in B. discriminate.
Qed.

Lemma X12_witness :
  exists blocks, segment 3 ["# a"; "> b"; "- c"] 0 [] = Some blocks.
Proof.
  apply (proj2 (X12_stall_only_on_bare_marker ["# a"; "> b"; "- c"])).
  - intros l [<-|[<-|[<-|[]]]]; vm_compute; reflexivity.
  - simpl. lia.
Defined.

(** X13: on a text none of whose lines ends in whitespace or holds a
    character that the dot of the patterns rejects, the fallback renderer
    returns: two more units of fuel than the text has characters are
    enough for the main loop and for the recursion through nested
    blockquotes.  (Of the code units of [string] the dot rejects the line
    feed and the carriage return, which no line holds; in the alphabet of
    the source it also rejects U+2028 and U+2029, and a list item that
    holds one of them is a line on which the main loop stalls.) *)
Theorem X13_renderer_terminates (md : jsval) (o : options) (fuel : nat) :
  Forall (fun l => lastIsWs l = false /\ sall isDot l = true)
         (splitLines md) ->
  String.length (normalizeNewlines md) + 2 <= fuel ->
  (exists html, fallbackMdToHtml fuel md o = Some html)
  /\ forall engine, exists html, mdToHtml engine fuel md o = Some html.
Proof.
  intros Q' Hf.
  assert (Q : Forall (fun l => lastIsWs l = false) (splitLines md))
    by (eapply Forall_impl; [|exact Q']; now intros l [H _]).
  assert (T : exists html, fallbackMdToHtml fuel md o = Some html)
    by exact (fallback_total o _ md (le_n _) Q fuel Hf).
  split; [exact T|]. intros [render|]; simpl; [eauto | exact T].
Qed.

Lemma X13_witness :
  exists html,
    fallbackMdToHtml 20 (JStr ("> - a" ++ lf ++ "> > b" ++ lf ++ "1. c"))
                     (Options false false None) = Some html.
Proof.
  apply (X13_renderer_terminates
           (JStr ("> - a" ++ lf ++ "> > b" ++ lf ++ "1. c"))
           (Options false false None) 20).
  - vm_compute. repeat constructor.
  - vm_compute. repeat constructor.
Defined.

Module BreakFacts.

Section Marker.

Variable c : ascii.
Hypothesis c_not_ws : isWs c = false.

Let unit : regex := Group 1 (Seq (Chr (chr c)) ws0).
Let Q (x : ascii) : bool := chr c x || isWs x.

Lemma count_ws (w : string) : whitespace w = true -> count (chr c) w = 0.
Proof.
  unfold whitespace. induction w as [|x w IH]; [reflexivity|]. simpl.
  intros H. apply andb_true_iff in H as [Hx Hw]. rewrite (IH Hw).
  destruct (chr c x) eqn:E; [|reflexivity].
  unfold chr in E. apply Ascii.eqb_eq in E. subst x. congruence.
Qed.

Lemma Q_ws (w : string) : whitespace w = true -> sall Q w = true.
Proof.
  unfold whitespace, Q. induction w as [|x w IH]; [reflexivity|]. simpl.
  intros H. apply andb_true_iff in H as [Hx Hw].
  now rewrite Hx, orb_true_r, IH.
Qed.

Lemma unit_inv st st1 :
  Matches unit st st1 ->
  exists w, rest st = String c w ++ rest st1 /\ whitespace w = true
            /\ pos st < pos st1.
Proof.
  intros M. destruct (Matches_Group_inv _ _ _ _ M) as [s1 [M1 ->]].
  destruct (Matches_Seq_inv _ _ _ _ M1) as [sa [Ma Mb]].
  destruct (Matches_Chr_inv _ _ _ Ma) as [x [Hx [E [P _]]]].
  destruct (Matches_star_class_inv _ _ _ _ Mb) as [w [Hw [E2 [P2 _]]]].
  unfold chr in Hx. apply Ascii.eqb_eq in Hx. subst x.
  exists w. cbn [set_cap rest pos]. rewrite E, E2.
  repeat split; [exact Hw | lia].
Qed.

Lemma unit_intro (w t : string) (i : nat) (cs : list (nat * string)) :
  whitespace w = true ->
  exists cs',
    Matches unit (MState i (String c (w ++ t)) cs)
            (MState (i + S (String.length w)) t cs').
Proof.
  intros Hw. eexists.
  assert (M : Matches (Seq (Chr (chr c)) ws0)
                      (MState i (String c (w ++ t)) cs)
                      (MState (S i + String.length w) t cs)).
  { apply M_Seq with (MState (S i) (w ++ t) cs).
    - exact (M_Chr (chr c) c (w ++ t) (MState i (String c (w ++ t)) cs)
                   eq_refl (chr_refl c)).
    - exact (Matches_star_class_intro true isWs w Hw (S i) t cs). }
  pose proof (M_Group 1 _ _ _ M) as G. unfold set_cap in G.
  cbn [pos rest caps] in G.
  replace (i + S (String.length w)) with (S i + String.length w) by lia.
  exact G.
Qed.

Lemma star_unit_inv g st st1 :
  Matches (Star g unit) st st1 ->
  exists u, rest st = u ++ rest st1 /\ sall Q u = true.
Proof.
  intros M. remember (Star g unit) as r eqn:Er.
  induction M as [ | | | | |g' r' st|g' r' st st1 st2 M1 _ Hlt M2 IH2
                  | | | | | ];
    try discriminate; injection Er as -> ->.
  - exists "". now split.
  - destruct (IH2 eq_refl) as [u [E Hu]].
    destruct (unit_inv _ _ M1) as [w [E1 [Hw _]]].
    exists (String c w ++ u). rewrite E1, E, <- app_assoc.
    split; [reflexivity|]. rewrite sall_app, Hu, andb_true_r.
    simpl. unfold Q at 1. rewrite chr_refl. now apply Q_ws.
Qed.

Lemma atleast_inv (n : nat) :
  forall st st1,
    Matches (AtLeast n unit) st st1 ->
    exists u, rest st = u ++ rest st1 /\ sall Q u = true
              /\ n <= count (chr c) u.
Proof.
  induction n as [|n IH]; intros st st1 M; cbn [AtLeast] in M.
  - destruct (star_unit_inv _ _ _ M) as [u [E Hu]].
    exists u. repeat split; [exact E | exact Hu | lia].
  - destruct (Matches_Seq_inv _ _ _ _ M) as [s1 [M1 M2]].
    destruct (unit_inv _ _ M1) as [w [E1 [Hw _]]].
    destruct (IH _ _ M2) as [u [E Hu]]. destruct Hu as [Hu Cu].
    exists (String c w ++ u). rewrite E1, E, <- app_assoc.
    split; [reflexivity|]. split.
    + rewrite sall_app, Hu, andb_true_r. simpl. unfold Q at 1.
      rewrite chr_refl. now apply Q_ws.
    + rewrite count_app. simpl. rewrite chr_refl. lia.
Qed.

Lemma atleast_intro (u : string) :
  sall Q u = true ->
  forall n w i cs,
    whitespace w = true -> n <= 1 + count (chr c) u ->
    exists p cs',
      Matches (AtLeast n unit) (MState i (String c (w ++ u)) cs)
              (MState p "" cs').
Proof.
  induction u as [|x u IH]; intros Hu n w i cs Hw Hn.
  - destruct (unit_intro w "" i cs Hw) as [cs' G].
    simpl in Hn. destruct n as [|[|n]]; [| |lia]; cbn [AtLeast].
    + do 2 eexists. eapply M_StarS; [exact G | simpl; lia | apply M_Star0].
    + do 2 eexists. eapply M_Seq; [exact G | apply M_Star0].
  - simpl in Hu. apply andb_true_iff in Hu as [Hx Hu].
    destruct (chr c x) eqn:Ex.
    + unfold chr in Ex. apply Ascii.eqb_eq in Ex. subst x.
      destruct (unit_intro w (String c u) i cs Hw) as [cs' G].
      simpl in Hn. rewrite chr_refl in Hn.
      destruct n as [|n]; cbn [AtLeast].
      * destruct (IH Hu 0 "" (i + S (String.length w)) cs' eq_refl
                     ltac:(lia)) as [p [cs2 M]].
        do 2 eexists. eapply M_StarS; [exact G | simpl; lia | exact M].
      * destruct (IH Hu n "" (i + S (String.length w)) cs' eq_refl
                     ltac:(lia)) as [p [cs2 M]].
        do 2 eexists. eapply M_Seq; [exact G | exact M].
    + unfold Q in Hx. rewrite Ex in Hx. simpl in Hx.
      assert (Hw' : whitespace (w ++ str1 x) = true).
      { unfold whitespace in *. rewrite sall_app, Hw. simpl.
        now rewrite Hx. }
      simpl in Hn. rewrite Ex in Hn.
      destruct (IH Hu n (w ++ str1 x) i cs Hw' ltac:(simpl; lia))
        as [p [cs2 M]].
      rewrite app_assoc in M. exists p, cs2. exact M.
Qed.

(** The test of one marker on a trimmed line. *)
Lemma break_iff (t : string) :
  stops isWs t = true ->
  test (re_break c) t = breakLine c t.
Proof.
  intros St. apply eq_true_iff_eq.
  change (re_break c) with (Seq Bol (seqs [AtLeast 3 unit; Eol])).
  rewrite test_anchored_iff. cbn [seqs]. unfold breakLine.
  rewrite andb_true_iff, Nat.leb_le. split.
  - intros [e M]. destruct (Matches_Seq_inv _ _ _ _ M) as [s1 [M1 Me]].
    apply Matches_Eol_inv in Me as [-> Ee].
    destruct (atleast_inv 3 _ _ M1) as [u [E [Hu Cu]]].
    cbn [rest] in E. rewrite Ee, app_nil_r in E. subst u. now split.
  - intros [Hs Hc]. destruct t as [|x t]; [simpl in Hc; lia|].
    simpl in St, Hs, Hc. apply negb_true_iff in St.
    apply andb_true_iff in Hs as [Hx Hs]. unfold Q in Hx.
    rewrite St, orb_false_r in Hx. rewrite Hx in Hc.
    unfold chr in Hx. apply Ascii.eqb_eq in Hx. subst x.
    destruct (atleast_intro t Hs 3 "" 0 [] eq_refl ltac:(lia))
      as [p [cs M]].
    eexists. eapply M_Seq; [exact M | now constructor].
Qed.

End Marker.

End BreakFacts.
Import BreakFacts.

(** X14: a line is a thematic break exactly when, trimmed, it is made of
    one of the characters [*], [-] and [_] and of whitespace alone and
    holds that character at least three times. *)
Theorem X14_isThematicBreak (line : string) :
  isThematicBreak line
  = breakLine "*" (trim line) || breakLine "-" (trim line)
    || breakLine "_" (trim line).
Proof.
  unfold isThematicBreak.
  assert (St : stops isWs (trim line) = true)
    by (unfold trim; apply trimEnd_stops, trimStart_stops).
  now rewrite !break_iff by (reflexivity || exact St).
Qed.

Module FirstChar.

Lemma pos_le r st st1 : Matches r st st1 -> pos st <= pos st1.
Proof.
  intros M. destruct (Matches_consumes _ _ _ M) as [u [_ P]]. lia.
Qed.

Lemma rest_same r st st1 :
  Matches r st st1 -> pos st1 = pos st -> rest st1 = rest st.
Proof.
  intros M P. destruct (Matches_consumes _ _ _ M) as [u [E Q]].
  destruct u; [now rewrite E | simpl in Q; lia].
Qed.

Lemma nonempty_sound r st st1 :
  Matches r st st1 -> nonempty r = true -> pos st < pos st1.
Proof.
  induction 1 as [st|p c s' st E Hp|r1 r2 st st1 st2 M1 IH1 M2 IH2
                  |r1 r2 st st1 _ IH|r1 r2 st st1 _ IH|g r st
                  |g r st st1 st2 M1 IH1 Hlt M2 IH2|n r st st1 _ IH
                  |st E|st E|r st st1 E|r st E];
    cbn [nonempty]; intros H; try discriminate.
  - destruct st. simpl. lia.
  - pose proof (pos_le _ _ _ M1). pose proof (pos_le _ _ _ M2).
    apply orb_true_iff in H as [H|H]; [specialize (IH1 H) | specialize (IH2 H)];
      lia.
  - apply andb_true_iff in H as [H _]. auto.
  - apply andb_true_iff in H as [_ H]. auto.
  - simpl. auto.
Qed.

Lemma starts_sound P r st st1 :
  Matches r st st1 -> starts P r = true ->
  pos st1 = pos st \/ exists c s, rest st = String c s /\ P c = true.
Proof.
  induction 1 as [st|p c s' st E Hp|r1 r2 st st1 st2 M1 IH1 M2 IH2
                  |r1 r2 st st1 _ IH|r1 r2 st st1 _ IH|g r st
                  |g r st st1 st2 M1 IH1 Hlt M2 IH2|n r st st1 _ IH
                  |st E|st E|r st st1 E|r st E];
    cbn [starts]; intros H; try (now left).
  - right. exists c, s'. split; [exact E|].
    exact (subclass_sound _ _ H _ Hp).
  - apply andb_true_iff in H as [H1 H2].
    destruct (IH1 H1) as [Q|R]; [|now right].
    apply orb_true_iff in H2 as [N|H2].
    + pose proof (nonempty_sound _ _ _ M1 N). lia.
    + destruct (IH2 H2) as [Q2|[c [s [E Pc]]]]; [left; lia|].
      right. exists c, s. rewrite <- (rest_same _ _ _ M1 Q). auto.
  - apply andb_true_iff in H as [H _]. auto.
  - apply andb_true_iff in H as [_ H]. auto.
  - destruct (IH1 H) as [Q|R]; [lia | now right].
  - destruct (IH H) as [Q|R]; [now left | now right].
Qed.

(** A pattern all of whose matches begin with a character of the class
    [P] does not match a text that begins otherwise. *)
Lemma no_match_at_head P r c s p :
  nonempty r = true -> starts P r = true -> P c = false ->
  matchAt r p (String c s) = None.
Proof.
  intros N S Pc. apply matchAt_none. intros st1 M.
  pose proof (nonempty_sound _ _ _ M N) as L.
  destruct (starts_sound P _ _ _ M S) as [Q|[x [t [E Px]]]]; [lia|].
  cbn [rest] in E. injection E as <- _. congruence.
Qed.

Lemma exec_head P r c s :
  nonempty r = true -> starts P r = true -> P c = false ->
  exec (Seq Bol r) (String c s) = None.
Proof.
  intros N S Pc. rewrite exec_anchored.
  apply (no_match_at_head P); [exact N | exact S | exact Pc].
Qed.

Lemma test_head P r c s :
  nonempty r = true -> starts P r = true -> P c = false ->
  test (Seq Bol r) (String c s) = false.
Proof. intros N S Pc. unfold test. now rewrite (exec_head P). Qed.

End FirstChar.
Import FirstChar.

Module ProseFacts.

Ltac head_fails :=
  first [ apply (exec_head isOpener) | apply (test_head isOpener) ];
  [ vm_compute; reflexivity | vm_compute; reflexivity | assumption ].

(** No recogniser of a block other than the paragraph takes a line that
    begins with a character that opens no block. *)
Lemma prose_facts (l : string) :
  proseLine l = true ->
  truthy (trim l) = true
  /\ parseFence l = None
  /\ test re_indented l = false
  /\ parseAtxHeading l = None
  /\ isThematicBreak l = false
  /\ test re_quote l = false
  /\ test re_ul_start l = false /\ test re_ol_start l = false
  /\ exec re_ul l = None /\ exec re_ol l = None
  /\ test (re_underline "=") (trim l) = false
  /\ test (re_underline "-") (trim l) = false
  /\ test re_table_sep (trim l) = false.
Proof.
  destruct l as [|c r]; [discriminate|]. cbn [proseLine]. intros H.
  apply negb_true_iff in H.
  assert (W : isWs c = false).
  { unfold isOpener in H. apply orb_false_iff in H as [H _].
    now apply orb_false_iff in H as [H _]. }
  destruct (trim_head c r W) as [t' T].
  assert (F : exec re_fence (String c r) = None) by head_fails.
  assert (A : exec re_atx (String c r) = None) by head_fails.
  split; [now rewrite T|].
  split; [unfold parseFence; now rewrite F|].
  split; [head_fails|].
  split; [unfold parseAtxHeading; now rewrite A|].
  split.
  { unfold isThematicBreak. rewrite T.
    assert (B1 : test (re_break "*") (String c t') = false) by head_fails.
    assert (B2 : test (re_break "-") (String c t') = false) by head_fails.
    assert (B3 : test (re_break "_") (String c t') = false) by head_fails.
    now rewrite B1, B2, B3. }
  split; [head_fails|]. split; [head_fails|]. split; [head_fails|].
  split; [head_fails|]. split; [head_fails|].
  rewrite T.
  split; [head_fails|]. split; head_fails.
Qed.

Lemma prose_nth (lines : list string) (k : nat) :
  Forall (fun l => proseLine l = true) lines ->
  k < List.length lines -> proseLine (nth k lines "") = true.
Proof.
  intros F L. rewrite Forall_forall in F. apply F. now apply nth_In.
Qed.

Lemma parseTable_prose (lines : list string) (j : nat) :
  Forall (fun l => proseLine l = true) lines -> parseTable lines j = None.
Proof.
  intros F. unfold parseTable. cbv zeta.
  destruct (includes (nth j lines "") "|"); cbn [negb]; [|reflexivity].
  destruct (Nat.ltb (j + 1) (List.length lines)) eqn:L.
  - apply Nat.ltb_lt in L.
    destruct (prose_facts _ (prose_nth lines (j + 1) F L))
      as (_ & _ & _ & _ & _ & _ & _ & _ & _ & _ & _ & _ & T).
    now rewrite T.
  - replace (test re_table_sep (trim "")) with false
      by (vm_compute; reflexivity).
    reflexivity.
Qed.

Lemma parseSetextHeading_prose (lines : list string) :
  Forall (fun l => proseLine l = true) lines ->
  parseSetextHeading lines 0 = None.
Proof.
  intros F. unfold parseSetextHeading.
  destruct (Nat.leb (List.length lines) (0 + 1)) eqn:L; [reflexivity|].
  apply Nat.leb_gt in L.
  destruct (prose_facts _ (prose_nth lines 0 F ltac:(lia))) as (T & _).
  destruct (prose_facts _ (prose_nth lines (0 + 1) F L))
    as (_ & _ & _ & _ & _ & _ & _ & _ & _ & _ & U1 & U2 & _).
  cbv zeta. now rewrite T, U1, U2.
Qed.

Lemma paragraph_loop_prose (lines : list string) :
  Forall (fun l => proseLine l = true) lines ->
  forall ls j buf,
    Forall (fun l => proseLine l = true) ls ->
    paragraph_loop lines ls j buf
    = ((buf ++ ls)%list, j + List.length ls).
Proof.
  intros F. induction ls as [|l ls IH]; intros j buf Fl; cbn [paragraph_loop].
  - now rewrite List.app_nil_r, Nat.add_0_r.
  - inversion Fl as [|? ? Hl Hls]; subst.
    destruct (prose_facts l Hl)
      as (T & Fe & I & A & B & Q & U & O & _).
    rewrite T, Fe, A, B, Q, U, O, (parseTable_prose lines j F), I.
    cbn [negb isSome orb]. rewrite (IH _ _ Hls), <- List.app_assoc.
    simpl. f_equal. lia.
Qed.

(** On lines that all begin with a character that opens no block, the
    first iteration of the main loop takes them all as one paragraph. *)
Lemma segment_step_prose (lines : list string) :
  lines <> [] ->
  Forall (fun l => proseLine l = true) lines ->
  segment_step lines 0 = (Some (Paragraph lines), List.length lines).
Proof.
  intros Ne F.
  assert (L : 0 < List.length lines)
    by (destruct lines; [contradiction | simpl; lia]).
  unfold segment_step.
  destruct (prose_facts _ (prose_nth lines 0 F L))
    as (T & Fe & I & A & B & Q & _ & _ & Lu & Lo & _).
  rewrite T, Fe. cbn [negb].
  unfold parseIndentedCode. rewrite I. cbn [negb].
  rewrite (parseSetextHeading_prose lines F), A, B.
  unfold parseBlockquote. rewrite Q. cbn [negb].
  rewrite (parseTable_prose lines 0 F).
  unfold parseList. rewrite Lu, Lo.
  unfold parseParagraph.
  now rewrite (paragraph_loop_prose lines F (skipn 0 lines) 0 [] F).
Qed.

(** The rendering of a text of such lines. *)
Lemma prose_document (lines : list string) (o : options)
        (fuel : nat) :
  lines <> [] ->
  Forall (fun l => proseLine l = true /\ free (chr LF) l = true
                   /\ free (chr CR) l = true) lines ->
  2 <= fuel ->
  fallbackMdToHtml fuel (JStr (join lf lines)) o
  = Some ("<p>"
          ++ replaceAll (Chr (chr LF)) (const "<br/>")
               (renderInline (join lf lines) o)
          ++ "</p>").
Proof.
  intros Ne F Hf.
  assert (Sp : splitLines (JStr (join lf lines)) = lines).
  { unfold splitLines. rewrite normalize_id.
    - apply (TermFacts.split_join LF); [exact Ne|].
      eapply Forall_impl; [|exact F]. now intros l (_ & H & _).
    - apply TermFacts.free_join; [reflexivity|].
      eapply Forall_impl; [|exact F]. now intros l (_ & _ & H). }
  assert (Fp : Forall (fun l => proseLine l = true) lines)
    by (eapply Forall_impl; [|exact F]; now intros l (H & _)).
  destruct fuel as [|[|f]]; try lia.
  cbn [fallbackMdToHtml]. rewrite Sp. cbn [segment].
  destruct lines as [|l0 ls]; [contradiction|].
  cbn [List.length Nat.leb].
  rewrite (segment_step_prose (l0 :: ls) Ne Fp).
  cbn [push List.app].
  replace (segment f (l0 :: ls) (List.length (l0 :: ls)) [Paragraph (l0 :: ls)])
    with (Some [Paragraph (l0 :: ls)])
    by (destruct f; cbn [segment]; now rewrite Nat.leb_refl).
  reflexivity.
Qed.

End ProseFacts.
Import ProseFacts.

(** X16: a text whose lines all begin with a character that opens no
    block (no whitespace, marker or digit) is rendered as one paragraph:
    the inline rendering of the whole text between paragraph tags, with
    a line break element for every line feed left in it. *)
Theorem X16_prose_paragraph (lines : list string) (o : options)
        (fuel : nat) :
  lines <> [] ->
  Forall (fun l => proseLine l = true /\ free (chr LF) l = true
                   /\ free (chr CR) l = true) lines ->
  2 <= fuel ->
  fallbackMdToHtml fuel (JStr (join lf lines)) o
  = Some ("<p>"
          ++ replaceAll (Chr (chr LF)) (const "<br/>")
               (renderInline (join lf lines) o)
          ++ "</p>").
Proof. exact (prose_document lines o fuel). Qed.

Lemma X16_witness :
  fallbackMdToHtml 2 (JStr (join lf ["Tom & Jerry"; "and *friends*"]))
                   defaultOptions
  = Some ("<p>"
          ++ replaceAll (Chr (chr LF)) (const "<br/>")
               (renderInline (join lf ["Tom & Jerry"; "and *friends*"])
                             defaultOptions)
          ++ "</p>").
Proof.
  apply X16_prose_paragraph.
  - discriminate.
  - repeat constructor.
  - lia.
Defined.

Module HeadingFacts.

Lemma lastIs_app (P : ascii -> bool) (a s : string) :
  s <> "" -> lastIs P (a ++ s) = lastIs P s.
Proof.
  intros Hs. induction a as [|c a IH]; [reflexivity|].
  cbn [append lastIs]. rewrite IH.
  destruct (a ++ s) eqn:E; [|reflexivity].
  destruct a; [simpl in E; contradiction | discriminate].
Qed.

Lemma lastIs_all (P : ascii -> bool) (s : string) :
  s <> "" -> sall P s = true -> lastIs P s = true.
Proof.
  induction s as [|c s IH]; [contradiction|].
  intros _ H. simpl in H. apply andb_true_iff in H as [Hc Hs].
  cbn [lastIs]. destruct s; [exact Hc|]. apply IH; [discriminate|exact Hs].
Qed.

Lemma repeat_cancel (c : ascii) (n : nat) (x y : string) :
  repeatChar c n ++ x = repeatChar c n ++ y -> x = y.
Proof.
  induction n as [|n IH]; simpl; [auto|]. intros H. injection H as H. auto.
Qed.

Lemma app_nil_both (a b : string) : a ++ b = "" -> a = "" /\ b = "".
Proof. destruct a; simpl; [auto | discriminate]. Qed.

(** The level of an accepted line is the number of its leading hashes. *)
Lemma atx_level (n level : nat) (sp sp' x y : string) :
  sp <> "" -> whitespace sp = true ->
  sp' <> "" -> whitespace sp' = true ->
  repeatChar "#" n ++ sp ++ x = repeatChar "#" level ++ sp' ++ y ->
  level = n.
Proof.
  intros Nsp Wsp Nsp' Wsp' E.
  destruct sp as [|c sp]; [contradiction|].
  destruct sp' as [|c' sp']; [contradiction|].
  unfold whitespace in Wsp, Wsp'. simpl in Wsp, Wsp'.
  apply andb_true_iff in Wsp as [Wc _], Wsp' as [Wc' _].
  apply hash_not_ws in Wc, Wc'.
  destruct (Nat.lt_trichotomy level n) as [L|[L|L]];
    [|exact L|]; exfalso.
  - simpl in E. apply hashes_then in E; [|exact L]. subst c'.
    discriminate Wc'.
  - symmetry in E. simpl in E. apply hashes_then in E; [|exact L].
    subst c. discriminate Wc.
Qed.

(** On hashes, one space and a heading text, the recogniser returns the
    number of hashes and the text. *)
Lemma atx_exact (n : nat) (t : string) :
  1 <= n <= 6 -> headingText t = true ->
  parseAtxHeading (repeatChar "#" n ++ " " ++ t) = Some (n, t).
Proof.
  intros Hn Ht. unfold headingText in Ht.
  apply andb_true_iff in Ht as [Ht Hl]. apply andb_true_iff in Ht as [Ht Hs].
  apply andb_true_iff in Ht as [Hne Hd]. apply negb_true_iff in Hl.
  assert (Nt : t <> "") by (destruct t; [discriminate | discriminate]).
  destruct (parseAtxHeading_accepts n " " t Hn ltac:(discriminate)
              eq_refl Nt Hd) as [m Hm].
  pose proof (parseAtxHeading_shape (repeatChar "#" n ++ " " ++ t)) as S.
  unfold parseAtxHeading in *. rewrite Hm in *.
  destruct (S _ _ eq_refl)
    as [_ (sp & w1 & hs & w2 & E & Nsp & Wsp & Ntx & _ & W1 & Hh & W2)].
  assert (Lv : String.length (grp 1 m) = n)
    by (apply (atx_level n _ " " sp t _ ltac:(discriminate) eq_refl
                 Nsp Wsp E)).
  rewrite Lv in *. apply repeat_cancel in E.
  assert (Tl : w1 ++ hs ++ w2 = "").
  { destruct (w1 ++ hs ++ w2) eqn:Et; [reflexivity|]. exfalso.
    assert (A : sall (fun c => isWs c || chr "#" c)
                     (w1 ++ hs ++ w2) = true).
    { rewrite !sall_app. unfold whitespace in W1, W2.
      rewrite (sall_impl _ _ _ (fun c H => proj2 (orb_true_iff _ _)
                                             (or_introl H)) W1).
      rewrite (sall_impl _ _ _ (fun c H => proj2 (orb_true_iff _ _)
                                             (or_intror H)) Hh).
      now rewrite (sall_impl _ _ _ (fun c H => proj2 (orb_true_iff _ _)
                                             (or_introl H)) W2). }
    rewrite Et in A.
    assert (B : lastIs (fun c => isWs c || chr "#" c)
                       (" " ++ t) = false)
      by (rewrite lastIs_app by exact Nt; exact Hl).
    rewrite E, <- (app_assoc sp (grp 2 m)) in B.
    rewrite lastIs_app in B by discriminate.
    rewrite lastIs_all in B; [discriminate | discriminate | exact A]. }
  rewrite Tl, app_nil_r in E.
  destruct sp as [|c sp]; [contradiction|].
  simpl in E. injection E as _ E.
  destruct sp as [|c2 sp].
  - simpl in E. now rewrite E.
  - exfalso. unfold whitespace in Wsp. simpl in Wsp.
    apply andb_true_iff in Wsp as [_ Wsp].
    apply andb_true_iff in Wsp as [W2c _].
    rewrite E in Hs. simpl in Hs. now rewrite W2c in Hs.
Qed.

End HeadingFacts.
Import HeadingFacts.

(** X15: a text of one line made of one to six hashes, one space and a
    heading text is rendered as one heading element of that level, with
    the inline rendering of the text as its content. *)
Theorem X15_heading_document (n : nat) (t : string) (o : options)
        (fuel : nat) :
  1 <= n <= 6 -> headingText t = true -> 2 <= fuel ->
  parseAtxHeading (repeatChar "#" n ++ " " ++ t) = Some (n, t)
  /\ fallbackMdToHtml fuel (JStr (repeatChar "#" n ++ " " ++ t)) o
     = Some ("<h" ++ numToString n ++ ">" ++ renderInline t o
             ++ "</h" ++ numToString n ++ ">").
Proof.
  intros Hn Ht Hf.
  pose proof (atx_exact n t Hn Ht) as A. split; [exact A|].
  set (line := repeatChar "#" n ++ " " ++ t) in *.
  assert (D : sall isDot line = true).
  { unfold line. rewrite !sall_app, sall_impl with (p := chr "#").
    - unfold headingText in Ht.
      apply andb_true_iff in Ht as [Ht _]. apply andb_true_iff in Ht as [Ht _].
      apply andb_true_iff in Ht as [_ Hd]. now rewrite Hd.
    - intros c Hc. unfold chr in Hc. apply Ascii.eqb_eq in Hc. now subst c.
    - apply sall_repeat. }
  assert (Fr : free (chr LF) line = true /\ free (chr CR) line = true).
  { unfold free. split; (eapply sall_impl; [|exact D]); intros c Hc;
      unfold isDot in Hc; apply negb_true_iff in Hc;
      apply orb_false_iff in Hc as [H1 H2]; unfold chr; now rewrite ?H1, ?H2. }
  assert (Sp : splitLines (JStr line) = [line]).
  { unfold splitLines. rewrite normalize_id by apply Fr.
    apply TermFacts.split_free_id, Fr. }
  assert (Hd : exists r, line = String "#" r).
  { unfold line. destruct n as [|n']; [lia|]. simpl. eauto. }
  destruct Hd as [r Er].
  assert (St : segment_step [line] 0 = (Some (Heading n t), 1)).
  { unfold segment_step. cbn [nth]. rewrite A. rewrite Er.
    pose proof (ListFacts.nonblank "" "#" r eq_refl) as Nb.
    cbn [append] in Nb. rewrite Nb. cbn [negb]. unfold parseFence.
    assert (F : exec re_fence (String "#" r) = None)
      by (apply (exec_head (notc "#")); vm_compute; reflexivity).
    assert (I : test re_indented (String "#" r) = false)
      by (apply (test_head (notc "#")); vm_compute; reflexivity).
    rewrite F. unfold parseIndentedCode. cbn [nth]. rewrite I.
    reflexivity. }
  destruct fuel as [|[|f]]; try lia.
  cbn [fallbackMdToHtml]. rewrite Sp. cbn [segment List.length Nat.leb].
  rewrite St. cbn [push List.app].
  replace (segment f [line] 1 [Heading n t]) with (Some [Heading n t])
    by (destruct f; reflexivity).
  reflexivity.
Qed.

Lemma X15_witness :
  fallbackMdToHtml 2 (JStr "## Tom & Jerry") defaultOptions
  = Some "<h2>Tom &amp; Jerry</h2>".
Proof.
  exact (proj2 (X15_heading_document 2 "Tom & Jerry" defaultOptions 2
                  ltac:(lia) eq_refl ltac:(lia))).
Defined.

Module CodeFacts.

(** The main loop ends at once when the cursor is at the end. *)
Lemma segment_at_end (fuel : nat) (lines : list string)
      (blocks : list block) :
  segment fuel lines (List.length lines) blocks = Some blocks.
Proof. destruct fuel; cbn [segment]; now rewrite Nat.leb_refl. Qed.

(** The text of finitely many lines without line terminator splits into
    these lines. *)
Lemma splitLines_join (lines : list string) :
  lines <> [] ->
  Forall (fun l => free (chr LF) l = true /\ free (chr CR) l = true)
         lines ->
  splitLines (JStr (join lf lines)) = lines.
Proof.
  intros Ne F. unfold splitLines. rewrite normalize_id.
  - apply (TermFacts.split_join LF); [exact Ne|].
    eapply Forall_impl; [|exact F]. now intros l (H & _).
  - apply TermFacts.free_join; [reflexivity|].
    eapply Forall_impl; [|exact F]. now intros l (_ & H).
Qed.

(** A document that one step of the main loop takes whole. *)
Lemma one_block (lines : list string) (b : block) (o : options)
      (fuel : nat) (html : string) :
  lines <> [] ->
  Forall (fun l => free (chr LF) l = true /\ free (chr CR) l = true)
         lines ->
  segment_step lines 0 = (Some b, List.length lines) ->
  (forall recur, renderBlock recur b o = Some html) ->
  2 <= fuel ->
  fallbackMdToHtml fuel (JStr (join lf lines)) o = Some html.
Proof.
  intros Ne F St R Hf. destruct fuel as [|[|f]]; try lia.
  cbn [fallbackMdToHtml]. rewrite (splitLines_join lines Ne F).
  cbn [segment].
  replace (Nat.leb (List.length lines) 0) with false
    by (destruct lines; [contradiction | reflexivity]).
  rewrite St. cbn [push List.app]. rewrite segment_at_end.
  cbn [mapM]. now rewrite R.
Qed.

End CodeFacts.
Import CodeFacts.

(** X17: a text that is one fenced code block (an opening fence line, body
    lines of which none closes the fence, and a closing line or the end of
    the text) is rendered as one [pre] element whose content is the body,
    escaped and otherwise untouched. *)
Theorem X17_fenced_document (open close : string) (body : list string)
        (f : fence) (o : options) (fuel : nat) :
  parseFence open = Some f ->
  test (re_fence_end (marker f)) close = true ->
  (forall b, In b body -> test (re_fence_end (marker f)) b = false) ->
  Forall (fun l => free (chr LF) l = true /\ free (chr CR) l = true)
         (open :: body ++ [close]) ->
  2 <= fuel ->
  let html :=
    "<pre><code"
    ++ (if truthy (lang f)
        then " class=" ++ dq ++ "language-" ++ escapeAttr (lang f) ++ dq
        else "")
    ++ ">" ++ escapeHtml (join lf body) ++ "</code></pre>" in
  fallbackMdToHtml fuel (JStr (join lf (open :: body ++ [close]))) o
  = Some html
  /\ fallbackMdToHtml fuel (JStr (join lf (open :: body))) o = Some html.
Proof.
  intros Hf Hc Hb F Hfu html. split.
  - apply (one_block _ (Code (lang f) (join lf body))); try assumption;
      [discriminate| |reflexivity].
    rewrite (FenceFacts.segment_step_fence (open :: body ++ [close]) 0 f Hf).
    cbn [skipn].
    rewrite (FenceFacts.fence_loop_closed (marker f) body close [] Hb Hc).
    cbn [List.app List.length]. rewrite List.length_app. cbn [List.length].
    replace (Nat.ltb (1 + List.length body) (S (List.length body + 1)))
      with true by (symmetry; apply Nat.ltb_lt; lia).
    f_equal. lia.
  - apply (one_block _ (Code (lang f) (join lf body))); try assumption;
      [discriminate| | |reflexivity].
    + inversion F as [|? ? Ho Hr]; subst. constructor; [exact Ho|].
      apply Forall_app in Hr. tauto.
    + rewrite (FenceFacts.segment_step_fence (open :: body) 0 f Hf).
      cbn [skipn].
      rewrite (FenceFacts.fence_loop_open (marker f) body Hb).
      cbn [List.app List.length].
      now rewrite Nat.ltb_irrefl.
Qed.

Lemma X17_witness :
  fallbackMdToHtml 2
    (JStr (join lf ["```js"; "if (a < b) *c*"; "# no heading"; "```"]))
    defaultOptions
  = Some ("<pre><code class=" ++ dq ++ "language-js" ++ dq ++ ">"
          ++ "if (a &lt; b) *c*" ++ lf ++ "# no heading</code></pre>").
Proof.
  apply (X17_fenced_document "```js" "```"
           ["if (a < b) *c*"; "# no heading"] (Fence 0 "```" "js")
           defaultOptions 2 eq_refl eq_refl).
  - intros b [<-|[<-|[]]]; reflexivity.
  - repeat constructor.
  - lia.
Defined.

Module ListDoc.

Section Bullet.

Variable b : ascii.
Hypothesis bullet : oneof "-+*" b = true.

Let notBullet (c : ascii) : bool := negb (oneof "-+*" c).

Lemma notBullet_b : notBullet b = false.
Proof. unfold notBullet. now rewrite bullet. Qed.

Lemma b_not_ws : isWs b = false.
Proof. now apply ListFacts.bullet_not_ws. Qed.

Ltac bullet_fails :=
  first [ apply (exec_head notBullet) | apply (test_head notBullet) ];
  [ vm_compute; reflexivity | vm_compute; reflexivity
  | exact notBullet_b ].

(** A class that holds whitespace holds a trimmed text only if it
    holds the text. *)
Lemma sall_trim (Q : ascii -> bool) (l : string) :
  (forall c, isWs c = true -> Q c = true) ->
  sall Q (trim l) = true -> sall Q l = true.
Proof.
  intros HQ H. destruct (trim_spec l) as [a [e [E [Wa We]]]].
  rewrite E, !sall_app, H.
  unfold whitespace in Wa, We.
  now rewrite (sall_impl _ _ _ HQ Wa), (sall_impl _ _ _ HQ We).
Qed.

Variable t : string.
Hypothesis text : bulletText t = true.

Lemma text_parts :
  exists c t', t = String c t' /\ isOpener c = false
               /\ sall isDot t = true /\ includes t "|" = false.
Proof.
  unfold bulletText in text.
  apply andb_true_iff in text as [H Hi].
  apply andb_true_iff in H as [Hp Hd].
  apply negb_true_iff in Hi.
  destruct t as [|c t']; [discriminate|]. simpl in Hp.
  apply negb_true_iff in Hp. exists c, t'. auto.
Qed.

(** No run of one marker and whitespace holds the line. *)
Lemma not_run (m : ascii) :
  oneof "*-_=" m = true ->
  sall (fun x => chr m x || isWs x) (trim (bulletLine b t)) = false.
Proof.
  intros Hm. destruct text_parts as (c & t' & E & Oc & _).
  destruct (sall _ (trim _)) eqn:S; [exfalso|reflexivity].
  apply sall_trim in S; [|intros x Hx; now rewrite Hx, orb_true_r].
  unfold bulletLine in S. rewrite E in S. simpl in S.
  apply andb_true_iff in S as [_ S]. apply andb_true_iff in S as [_ S].
  apply andb_true_iff in S as [S _].
  assert (A : forallb (fun x =>
                implb (negb (isOpener x))
                      (forallb (fun m => implb (oneof "*-_=" m)
                                               (negb (chr m x || isWs x)))
                               all_ascii))
                all_ascii = true) by (vm_compute; reflexivity).
  pose proof (forall_ascii _ A c) as Ac. cbv beta in Ac.
  rewrite Oc in Ac. cbn [negb implb] in Ac.
  pose proof (forall_ascii _ Ac m) as Am. cbv beta in Am.
  rewrite Hm, S in Am. discriminate.
Qed.

Lemma bullet_exact :
  exists m, exec re_ul (bulletLine b t) = Some m
            /\ String.length (grp 1 m) = 0 /\ grp 3 m = t.
Proof.
  destruct text_parts as (c & t' & E & Oc & D & _).
  assert (Wc : isWs c = false).
  { unfold isOpener in Oc. apply orb_false_iff in Oc as [Oc _].
    now apply orb_false_iff in Oc as [Oc _]. }
  assert (Nt : t <> "") by (rewrite E; discriminate).
  assert (Ex : exists m, exec re_ul (bulletLine b t) = Some m).
  { change re_ul with
      (Seq Bol (seqs [Group 1 ws0; Group 2 (Chr (oneof "-+*")); ws1;
                      Group 3 (Plus true (Chr isDot)); Eol])).
    unfold bulletLine. rewrite <- (app_nil_r t).
    eapply TermFacts.exec_of_Matches. cbn [seqs].
    eapply M_Seq; [apply M_Group; apply M_Star0|].
    cbn [set_cap pos rest caps].
    eapply M_Seq; [apply M_Group; eapply M_Chr;
                   [reflexivity | exact bullet]|].
    cbn [advance set_cap pos rest caps].
    eapply M_Seq.
    { eapply M_Seq; [eapply M_Chr; [reflexivity | reflexivity]|].
      apply M_Star0. }
    cbn [advance pos rest caps].
    eapply M_Seq.
    { apply M_Group.
      apply (TermFacts.Matches_plus_class_intro true isDot t Nt D). }
    now constructor. }
  destruct Ex as [m Hm]. exists m. split; [exact Hm|].
  destruct (ListFacts.bullet_shape _ _ Hm)
    as (w & b' & sp & El & Ww & Lw & Hb' & Wsp & Nsp & Nit).
  unfold bulletLine in El.
  destruct w as [|x w].
  - simpl in El. injection El as _ El. split; [now rewrite <- Lw|].
    destruct sp as [|y sp]; [contradiction|].
    simpl in El. injection El as _ El.
    destruct sp as [|z sp]; [now simpl in El|]. exfalso.
    unfold whitespace in Wsp. simpl in Wsp.
    apply andb_true_iff in Wsp as [_ Wsp].
    apply andb_true_iff in Wsp as [Wz _].
    rewrite E in El. simpl in El. injection El as -> _. congruence.
  - exfalso. simpl in El. injection El as <- _.
    unfold whitespace in Ww. simpl in Ww.
    apply andb_true_iff in Ww as [Wb _]. rewrite b_not_ws in Wb.
    discriminate.
Qed.

(** What the recognisers say of the line of a bullet item. *)
Lemma bullet_facts :
  truthy (trim (bulletLine b t)) = true
  /\ parseFence (bulletLine b t) = None
  /\ test re_indented (bulletLine b t) = false
  /\ parseAtxHeading (bulletLine b t) = None
  /\ isThematicBreak (bulletLine b t) = false
  /\ test re_quote (bulletLine b t) = false
  /\ includes (bulletLine b t) "|" = false
  /\ exec re_ol (bulletLine b t) = None
  /\ test (re_underline "=") (trim (bulletLine b t)) = false
  /\ test (re_underline "-") (trim (bulletLine b t)) = false.
Proof.
  destruct text_parts as (c & t' & E & Oc & D & I).
  assert (F : exec re_fence (bulletLine b t) = None) by bullet_fails.
  assert (A : exec re_atx (bulletLine b t) = None) by bullet_fails.
  assert (St : stops isWs (trim (bulletLine b t)) = true)
    by (unfold trim; apply trimEnd_stops, trimStart_stops).
  assert (U : forall m, oneof "*-_=" m = true ->
                        test (re_underline m) (trim (bulletLine b t))
                        = false).
  { intros m Hm. destruct (test _ _) eqn:T; [exfalso|reflexivity].
    apply underline_iff in T. destruct T as [_ T].
    pose proof (not_run m Hm) as R.
    rewrite (sall_impl (chr m) (fun x => chr m x || isWs x)) in R;
      [discriminate| |exact T].
    intros x Hx. now rewrite Hx. }
  assert (B : forall m, oneof "*-_=" m = true -> isWs m = false ->
                        test (re_break m) (trim (bulletLine b t)) = false).
  { intros m Hm Wm. rewrite (break_iff m _ St). unfold breakLine.
    now rewrite (not_run m Hm). }
  split; [exact (ListFacts.nonblank "" b _ b_not_ws)|].
  split; [unfold parseFence; now rewrite F|].
  split; [bullet_fails|].
  split; [unfold parseAtxHeading; now rewrite A|].
  split.
  { unfold isThematicBreak.
    now rewrite !B by reflexivity. }
  split; [bullet_fails|].
  split.
  { unfold bulletLine. cbn [includes]. rewrite I.
    assert (Hb : forallb (fun x => implb (oneof "-+*" x)
                            (negb (Ascii.eqb x "|" || Ascii.eqb " " "|")))
                         all_ascii = true) by (vm_compute; reflexivity).
    pose proof (forall_ascii _ Hb b) as Hbb. cbv beta in Hbb.
    rewrite bullet in Hbb. simpl in Hbb.
    apply negb_true_iff, orb_false_iff in Hbb as [H1 _].
    now rewrite H1. }
  split; [bullet_fails|].
  split; apply U; reflexivity.
Qed.

Lemma bullet_free :
  free (chr LF) (bulletLine b t) = true
  /\ free (chr CR) (bulletLine b t) = true.
Proof.
  destruct text_parts as (c & t' & _ & _ & D & _).
  assert (Db : sall isDot (bulletLine b t) = true).
  { unfold bulletLine. cbn [sall]. rewrite D.
    assert (A : forallb (fun x => implb (oneof "-+*" x) (isDot x))
                        all_ascii = true) by (vm_compute; reflexivity).
    pose proof (forall_ascii _ A b) as Ab. cbv beta in Ab.
    rewrite bullet in Ab. simpl in Ab. now rewrite Ab. }
  unfold free. split; (eapply sall_impl; [|exact Db]); intros x Hx;
    unfold isDot in Hx; apply negb_true_iff in Hx;
    apply orb_false_iff in Hx as [H1 H2]; unfold chr;
    now rewrite ?H1, ?H2.
Qed.

End Bullet.

Lemma list_loop_bullets (b : ascii) (items : list string) :
  oneof "-+*" b = true ->
  Forall (fun t => bulletText t = true) items ->
  forall j buf,
    list_loop false 0 (map (bulletLine b) items) j buf
    = ((buf ++ items)%list, j + List.length items).
Proof.
  intros Hb. induction items as [|t items IH]; intros F j buf;
    cbn [map list_loop].
  - now rewrite List.app_nil_r, Nat.add_0_r.
  - inversion F as [|? ? Ht Hr]; subst.
    destruct (bullet_facts b Hb t Ht) as (T & _).
    destruct (bullet_exact b Hb t Ht) as (m & Hm & L & G).
    rewrite T, Hm, L, G. cbn [negb Nat.eqb].
    rewrite (IH Hr), <- List.app_assoc. simpl. f_equal. lia.
Qed.

Lemma segment_step_bullets (b : ascii) (items : list string) :
  oneof "-+*" b = true -> items <> [] ->
  Forall (fun t => bulletText t = true) items ->
  segment_step (map (bulletLine b) items) 0
  = (Some (ListBlock false items),
     List.length (map (bulletLine b) items)).
Proof.
  intros Hb Ne F. destruct items as [|t0 items]; [contradiction|].
  inversion F as [|? ? Ht Hr]; subst.
  destruct (bullet_facts b Hb t0 Ht)
    as (T & Fe & I & A & B & Q & P & O & _).
  destruct (bullet_exact b Hb t0 Ht) as (m & Hm & L & G).
  assert (S : parseSetextHeading (map (bulletLine b) (t0 :: items)) 0
              = None).
  { unfold parseSetextHeading. destruct items as [|t1 items];
      [reflexivity|].
    inversion Hr as [|? ? Ht1 _]; subst.
    destruct (bullet_facts b Hb t1 Ht1)
      as (_ & _ & _ & _ & _ & _ & _ & _ & U1 & U2).
    cbn [map List.length Nat.leb Nat.add nth]. cbv zeta.
    now rewrite T, U1, U2. }
  unfold segment_step. rewrite S. cbn [map nth].
  rewrite T, Fe, A, B. cbn [negb].
  unfold parseIndentedCode, parseBlockquote, parseTable, parseList.
  cbn [nth]. rewrite I, Q, P, Hm, O, L. cbn [negb skipn].
  pose proof (list_loop_bullets b (t0 :: items) Hb F 0 []) as LL.
  cbn [map] in LL. rewrite LL. cbn [List.app Nat.add List.length].
  now rewrite length_map.
Qed.

End ListDoc.
Import ListDoc.

(** X18: a text of bullet items, one to a line (a bullet, one space and an
    item text that begins with a character that opens no block and holds
    no bar), is rendered as one unordered list with one element per
    line, in the order of the lines. *)
Theorem X18_bullet_document (b : ascii) (items : list string)
        (o : options) (fuel : nat) :
  oneof "-+*" b = true -> items <> [] ->
  Forall (fun t => bulletText t = true) items ->
  2 <= fuel ->
  parseList (map (bulletLine b) items) 0
  = Some (ListBlock false items, List.length items)
  /\ fallbackMdToHtml fuel (JStr (join lf (map (bulletLine b) items))) o
     = Some ("<ul>" ++ join "" (map (renderItem o) items) ++ "</ul>").
Proof.
  intros Hb Ne F Hf. split.
  - destruct items as [|t0 items]; [contradiction|].
    inversion F as [|? ? Ht Hr]; subst.
    destruct (bullet_facts b Hb t0 Ht) as (_ & _ & _ & _ & _ & _ & _ & O & _).
    destruct (bullet_exact b Hb t0 Ht) as (m & Hm & L & G).
    unfold parseList. cbn [map nth]. rewrite Hm, O, L. cbn [skipn].
    pose proof (list_loop_bullets b (t0 :: items) Hb F 0 []) as LL.
    cbn [map] in LL. now rewrite LL.
  - apply (one_block _ (ListBlock false items)).
    + destruct items; [contradiction | discriminate].
    + apply Forall_map. eapply Forall_impl; [|exact F].
      intros t Ht. exact (bullet_free b Hb t Ht).
    + now apply segment_step_bullets.
    + reflexivity.
    + exact Hf.
Qed.

Lemma X18_witness :
  fallbackMdToHtml 2 (JStr ("- a < b" ++ lf ++ "- [x] done")) defaultOptions
  = Some ("<ul><li>a &lt; b</li><li class=" ++ dq ++ "task-list-item" ++ dq
          ++ "><input type=" ++ dq ++ "checkbox" ++ dq
          ++ " disabled checked/> done</li></ul>").
Proof.
  exact (proj2 (X18_bullet_document "-" ["a < b"; "[x] done"] defaultOptions 2
                  eq_refl ltac:(discriminate) ltac:(repeat constructor)
                  ltac:(lia))).
Defined.

Module QuoteDoc.

Lemma stripQuote_line (t : string) : stripQuote (quoteLine t) = t.
Proof. reflexivity. Qed.

Lemma quote_test (t : string) : test re_quote (quoteLine t) = true.
Proof. reflexivity. Qed.

Ltac quote_fails :=
  first [ apply (exec_head (notc ">")) | apply (test_head (notc ">")) ];
  vm_compute; reflexivity.

(** No recogniser that comes before the blockquote takes a quoted
    line. *)
Lemma quote_facts (t : string) :
  truthy (trim (quoteLine t)) = true
  /\ parseFence (quoteLine t) = None
  /\ test re_indented (quoteLine t) = false
  /\ parseAtxHeading (quoteLine t) = None
  /\ isThematicBreak (quoteLine t) = false
  /\ test (re_underline "=") (trim (quoteLine t)) = false
  /\ test (re_underline "-") (trim (quoteLine t)) = false.
Proof.
  destruct (trim_head ">" (String " " t) eq_refl) as [t' T].
  fold (quoteLine t) in T.
  assert (F : exec re_fence (quoteLine t) = None) by quote_fails.
  assert (A : exec re_atx (quoteLine t) = None) by quote_fails.
  split; [now rewrite T|].
  split; [unfold parseFence; now rewrite F|].
  split; [quote_fails|].
  split; [unfold parseAtxHeading; now rewrite A|].
  rewrite T. split.
  { unfold isThematicBreak. rewrite T.
    assert (B1 : test (re_break "*") (String ">" t') = false)
      by quote_fails.
    assert (B2 : test (re_break "-") (String ">" t') = false)
      by quote_fails.
    assert (B3 : test (re_break "_") (String ">" t') = false)
      by quote_fails.
    now rewrite B1, B2, B3. }
  split; quote_fails.
Qed.

Lemma blockquote_loop_lines (lines : list string) :
  forall j buf,
    blockquote_loop (map quoteLine lines) j buf
    = ((buf ++ lines)%list, j + List.length lines).
Proof.
  induction lines as [|t lines IH]; intros j buf; cbn [map blockquote_loop].
  - now rewrite List.app_nil_r, Nat.add_0_r.
  - rewrite quote_test. cbn [negb].
    change (replaceFirst re_quote_strip (const "") (quoteLine t))
      with (stripQuote (quoteLine t)).
    rewrite stripQuote_line, IH, <- List.app_assoc. simpl. f_equal. lia.
Qed.

Lemma segment_step_quote_lines (lines : list string) :
  lines <> [] ->
  segment_step (map quoteLine lines) 0
  = (Some (Blockquote lines), List.length (map quoteLine lines)).
Proof.
  intros Ne. destruct lines as [|t0 lines]; [contradiction|].
  destruct (quote_facts t0) as (T & Fe & I & A & B & _).
  assert (S : parseSetextHeading (map quoteLine (t0 :: lines)) 0 = None).
  { unfold parseSetextHeading. destruct lines as [|t1 lines];
      [reflexivity|].
    destruct (quote_facts t1) as (_ & _ & _ & _ & _ & U1 & U2).
    cbn [map List.length Nat.leb Nat.add nth]. cbv zeta.
    now rewrite T, U1, U2. }
  unfold segment_step. rewrite S. cbn [map nth].
  rewrite T, Fe, A, B. cbn [negb].
  unfold parseIndentedCode, parseBlockquote.
  cbn [nth]. rewrite I, quote_test. cbn [negb skipn].
  pose proof (blockquote_loop_lines (t0 :: lines) 0 []) as LL.
  cbn [map] in LL. rewrite LL. cbn [List.app Nat.add List.length].
  now rewrite length_map.
Qed.

Lemma quoteLine_free (t : string) :
  free (chr LF) t = true /\ free (chr CR) t = true ->
  free (chr LF) (quoteLine t) = true /\ free (chr CR) (quoteLine t) = true.
Proof. intros [A B]. unfold quoteLine, free in *. simpl. now rewrite A, B. Qed.

End QuoteDoc.
Import QuoteDoc.

(** X19: quoting a text wraps its rendering.  When every line of a text is
    given the quote marker and one space, the fallback renderer returns
    the rendering of the text itself inside one blockquote element. *)
Theorem X19_quote_composition (lines : list string) (o : options)
        (fuel : nat) (inner : string) :
  lines <> [] ->
  Forall (fun l => free (chr LF) l = true /\ free (chr CR) l = true) lines ->
  1 <= fuel ->
  fallbackMdToHtml fuel (JStr (join lf lines)) o = Some inner ->
  fallbackMdToHtml (S fuel) (JStr (join lf (map quoteLine lines))) o
  = Some ("<blockquote>" ++ inner ++ "</blockquote>").
Proof.
  intros Ne F Hf Hin. destruct fuel as [|f]; [lia|].
  cbn [fallbackMdToHtml].
  rewrite (splitLines_join (map quoteLine lines)).
  - cbn [segment].
    replace (Nat.leb (List.length (map quoteLine lines)) 0) with false
      by (destruct lines; [contradiction | reflexivity]).
    rewrite (segment_step_quote_lines lines Ne). cbn [push List.app].
    rewrite segment_at_end. cbn [mapM renderBlock].
    cbn [fallbackMdToHtml] in Hin. now rewrite Hin.
  - destruct lines; [contradiction | discriminate].
  - apply Forall_map. eapply Forall_impl; [|exact F].
    intros t Ht. now apply quoteLine_free.
Qed.

Lemma X19_witness :
  fallbackMdToHtml 5 (JStr ("> # Title" ++ lf ++ "> " ++ lf ++ "> text"))
                   defaultOptions
  = Some ("<blockquote><h1>Title</h1>" ++ lf ++ "<p>text</p></blockquote>").
Proof.
  apply (X19_quote_composition ["# Title"; ""; "text"] defaultOptions 4
           ("<h1>Title</h1>" ++ lf ++ "<p>text</p>")).
  - discriminate.
  - repeat constructor.
  - lia.
  - vm_compute. reflexivity.
Defined.

Module RuleDoc.

Lemma marker_facts (m : ascii) :
  oneof "*-_" m = true ->
  isWs m = false /\ isDot m = true
  /\ (m = "*"%char \/ m = "-"%char \/ m = "_"%char).
Proof.
  intros H.
  assert (A : forallb (fun x => implb (oneof "*-_" x)
                         (negb (isWs x) && isDot x
                          && (Ascii.eqb x "*" || Ascii.eqb x "-"
                              || Ascii.eqb x "_")))
                      all_ascii = true) by (vm_compute; reflexivity).
  pose proof (forall_ascii _ A m) as Am. cbv beta in Am.
  rewrite H in Am. cbn [implb] in Am.
  apply andb_true_iff in Am as [Am E]. apply andb_true_iff in Am as [W D].
  apply negb_true_iff in W. repeat split; try assumption.
  apply orb_true_iff in E as [E|E]; [apply orb_true_iff in E as [E|E]|];
    apply Ascii.eqb_eq in E; auto.
Qed.

(** The step of the main loop on a thematic break that begins with its
    marker and stands alone. *)
Lemma segment_step_rule (m : ascii) (r : string) :
  oneof "*-_" m = true ->
  isThematicBreak (String m r) = true ->
  segment_step [String m r] 0 = (Some Hr, 1).
Proof.
  intros Hm B. destruct (marker_facts m Hm) as (W & _ & _).
  set (P := fun c => negb (oneof "*-_" c)).
  assert (Pm : P m = false) by (unfold P; now rewrite Hm).
  assert (F : exec re_fence (String m r) = None)
    by (apply (exec_head P); [vm_compute; reflexivity
                             |vm_compute; reflexivity|exact Pm]).
  assert (I : test re_indented (String m r) = false)
    by (apply (test_head P); [vm_compute; reflexivity
                             |vm_compute; reflexivity|exact Pm]).
  assert (A : exec re_atx (String m r) = None)
    by (apply (exec_head P); [vm_compute; reflexivity
                             |vm_compute; reflexivity|exact Pm]).
  unfold segment_step. cbn [nth].
  pose proof (ListFacts.nonblank "" m r W) as Nb. cbn [append] in Nb.
  rewrite Nb. cbn [negb]. unfold parseFence. rewrite F.
  unfold parseIndentedCode. cbn [nth]. rewrite I. cbn [negb].
  unfold parseAtxHeading. rewrite A, B. reflexivity.
Qed.

End RuleDoc.
Import RuleDoc.

(** X21: a text of one line that is a thematic break and begins with its
    marker is rendered as one rule element. *)
Theorem X21_rule_document (m : ascii) (r : string) (o : options)
        (fuel : nat) :
  oneof "*-_" m = true ->
  breakLine m (trim (String m r)) = true ->
  free (chr LF) r = true -> free (chr CR) r = true ->
  2 <= fuel ->
  fallbackMdToHtml fuel (JStr (String m r)) o = Some "<hr/>".
Proof.
  intros Hm B L C Hf. destruct (marker_facts m Hm) as (_ & D & E).
  assert (Br : isThematicBreak (String m r) = true).
  { unfold isThematicBreak.
    assert (St : stops isWs (trim (String m r)) = true)
      by (unfold trim; apply trimEnd_stops, trimStart_stops).
    rewrite !break_iff by exact St.
    destruct E as [->|[->| ->]]; rewrite B; now rewrite ?orb_true_r. }
  apply (one_block [String m r] Hr o fuel "<hr/>").
  - discriminate.
  - constructor; [|constructor]. unfold free in *. simpl.
    rewrite L, C. unfold isDot in D. apply negb_true_iff in D.
    apply orb_false_iff in D as [D1 D2]. unfold chr. now rewrite D1, D2.
  - now apply segment_step_rule.
  - reflexivity.
  - exact Hf.
Qed.

Lemma X21_witness :
  fallbackMdToHtml 2 (JStr "- - -") defaultOptions = Some "<hr/>".
Proof.
  apply (X21_rule_document "-" " - -" defaultOptions 2); reflexivity.
Defined.

Module EmphasisFacts.

(** A lazy run of any characters ends at the first place where the rest
    of the pattern accepts: here, where the delimiter [d] stands. *)
Lemma star_any_lazy (d : ascii) (tail : string)
      (k : mstate -> option mstate) (cs : list (nat * string)) (x : mstate)
      (m1 : mstate -> (mstate -> option mstate) -> option mstate) :
  (forall st k', m1 st k' = rmatch (Chr any) st k') ->
  (forall j c s, notc d c = true -> k (MState j (String c s) cs) = None) ->
  forall u i n,
    sall (notc d) u = true ->
    String.length (u ++ tail) <= n ->
    k (MState (i + String.length u) tail cs) = Some x ->
    star_loop false m1 k n (MState i (u ++ tail) cs) = Some x.
Proof.
  intros Hm1 Hk. induction u as [|c u IH]; intros i n Hu Hn Hx.
  - simpl in *. rewrite Nat.add_0_r in Hx.
    destruct n as [|n]; simpl; [exact Hx|]. now rewrite Hx.
  - simpl in Hu. apply andb_true_iff in Hu as [Hc Hu].
    destruct n as [|n]; [simpl in Hn; lia|].
    cbn [star_loop append]. rewrite (Hk i c _ Hc). cbn [orElse].
    rewrite Hm1. cbn [rmatch rest any].
    unfold advance. cbn [pos caps].
    replace (Nat.leb (S i) i) with false
      by (symmetry; apply Nat.leb_gt; lia).
    apply (IH (S i) n Hu); [simpl in Hn; lia|].
    simpl in Hx. now rewrite Nat.add_succ_r in Hx.
Qed.

(** The bold pattern on a delimited text without the delimiter. *)
Lemma matchAt_bold (d : ascii) (e : string) :
  e <> "" -> sall (notc d) e = true ->
  matchAt (re_bold d) 0 (String d (String d (e ++ String d (str1 d))))
  = Some (MResult (String d (String d (e ++ String d (str1 d))))
                  [(1, e)] 0).
Proof.
  intros Ne He. destruct e as [|c e]; [contradiction|].
  unfold matchAt.
  assert (R : rmatch (re_bold d)
                (MState 0 (String d (String d (String c e
                                               ++ String d (str1 d)))) [])
                (fun x => Some x)
              = Some (MState (3 + String.length e + 2) ""
                             [(1, String c e)])).
  { unfold re_bold. cbn [seqs Plus].
    apply run_Seq, run_Chr; [apply chr_refl|].
    apply run_Seq, run_Chr; [apply chr_refl|].
    apply run_Seq, run_Group, run_Seq. cbn [append].
    apply run_Chr; [reflexivity|].
    rewrite rmatch_Star. cbn [rest].
    apply (star_any_lazy d); [reflexivity| | |lia|].
    - intros j a s Ha. unfold set_cap. cbn [pos rest caps].
      apply run_Seq_fail. intros k'. apply run_Chr_fail.
      unfold notc in Ha. unfold chr. now apply negb_true_iff in Ha.
    - simpl in He. now apply andb_true_iff in He as [_ He].
    - unfold set_cap. cbn [pos rest caps].
      apply run_Seq, run_Chr; [apply chr_refl|].
      apply run_Chr; [apply chr_refl|].
      apply f_equal, mstate_eq; [lia | reflexivity |].
      do 2 f_equal.
      change (String c (e ++ String d (str1 d)))
        with (String c e ++ String d (str1 d)).
      apply take_len_app. simpl. lia. }
  rewrite R. cbn [pos caps]. do 2 f_equal.
  apply take_len_all. simpl. rewrite length_app. simpl. lia.
Qed.

(** The strikethrough pattern on a delimited text. *)
Lemma matchAt_strike (e : string) :
  e <> "" ->
  sall (fun c => negb (Ascii.eqb c "~" || Ascii.eqb c LF)) e = true ->
  matchAt re_strike 0 ("~~" ++ e ++ "~~")
  = Some (MResult ("~~" ++ e ++ "~~") [(1, e)] 0).
Proof.
  intros Ne He. destruct e as [|c e]; [contradiction|].
  simpl in He. apply andb_true_iff in He as [Hc He].
  unfold matchAt.
  assert (R : rmatch re_strike (MState 0 ("~~" ++ String c e ++ "~~") [])
                (fun x => Some x)
              = Some (MState (3 + String.length e + 2) ""
                             [(1, String c e)])).
  { unfold re_strike. cbn [seqs lit Plus append].
    apply run_Seq, run_Seq, run_Chr; [reflexivity|].
    apply run_Chr; [reflexivity|].
    apply run_Seq, run_Group, run_Seq.
    apply run_Chr; [exact Hc|].
    apply rmatch_star_class; [reflexivity | exact He |].
    unfold set_cap. cbn [pos rest caps].
    apply run_Seq, run_Chr; [reflexivity|].
    apply run_Chr; [reflexivity|].
    apply f_equal, mstate_eq; [lia | reflexivity |].
    do 2 f_equal.
    change (String c (e ++ "~~")) with (String c e ++ "~~").
    apply take_len_app. simpl. lia. }
  rewrite R. cbn [pos caps]. do 2 f_equal.
  apply take_len_all. simpl. rewrite length_app. simpl. lia.
Qed.

(** The italic pattern on a delimited text. *)
Lemma matchAt_em (d : ascii) (e : string) :
  e <> "" ->
  sall (fun c => negb (Ascii.eqb c d || Ascii.eqb c LF)) e = true ->
  matchAt (re_em d) 0 (String d (e ++ str1 d))
  = Some (MResult (String d (e ++ str1 d)) [(2, e); (1, "")] 0).
Proof.
  intros Ne He. destruct e as [|c e]; [contradiction|].
  simpl in He. apply andb_true_iff in He as [Hc He].
  unfold matchAt.
  assert (R : rmatch (re_em d)
                (MState 0 (String d (String c e ++ str1 d)) [])
                (fun x => Some x)
              = Some (MState (2 + String.length e + 1) ""
                             [(2, String c e); (1, "")])).
  { unfold re_em. cbn [seqs Plus].
    apply run_Seq, run_Group, run_AltL, run_Bol. cbv beta.
    unfold set_cap. cbn [pos rest caps Nat.sub take].
    apply run_Seq, run_Chr; [apply chr_refl|].
    apply run_Seq, run_Group, run_Seq. cbn [append].
    apply run_Chr; [exact Hc|].
    apply rmatch_star_class;
      [simpl; now rewrite Ascii.eqb_refl | exact He |].
    unfold set_cap. cbn [pos rest caps].
    apply run_Seq, run_Chr; [apply chr_refl|].
    apply run_NotAhead; [reflexivity|].
    apply f_equal, mstate_eq; [lia | reflexivity |].
    do 2 f_equal.
    change (String c (e ++ str1 d)) with (String c e ++ str1 d).
    apply take_len_app. simpl. lia. }
  rewrite R. cbn [pos caps]. do 2 f_equal.
  apply take_len_all. simpl. rewrite length_app. simpl. lia.
Qed.

Lemma plain_free (X : ascii) (e : string) :
  isMarkup X = true -> plain e = true -> free (chr X) e = true.
Proof.
  intros HX. unfold plain, free. apply sall_impl. intros c Hc.
  destruct (chr X c) eqn:E; [|reflexivity].
  unfold chr in E. apply Ascii.eqb_eq in E. subst c.
  now rewrite HX in Hc.
Qed.

(** A stage whose pattern needs the markup character [X] leaves a text
    alone that has it neither in its plain middle nor around it. *)
Lemma stage_skip (X : ascii) (r : regex) (f : mresult -> string)
      (pre e post : string) :
  needs (chr X) r = true -> isMarkup X = true -> plain e = true ->
  free (chr X) pre = true -> free (chr X) post = true ->
  replaceAll r f (pre ++ e ++ post) = pre ++ e ++ post.
Proof.
  intros Hn HX He Hpre Hpost. apply (replaceAll_needs (chr X)); [exact Hn|].
  now rewrite !free_app, Hpre, Hpost, (plain_free X e HX He).
Qed.

(** The stages before the strikethrough stage on such a text. *)
Lemma before_strike (o : options) (pre e post : string) :
  plain e = true ->
  free (oneof "`[:") pre = true -> free (oneof "`[:") post = true ->
  stageBare o (stageAutolink o (stageLink o (stageImage o
    (stageCode (pre ++ e ++ post)))))
  = pre ++ e ++ post.
Proof.
  intros He Hpre Hpost.
  assert (S : forall X, oneof "`[:" X = true ->
                        isMarkup X = true /\ free (chr X) pre = true
                        /\ free (chr X) post = true).
  { intros X HX. split; [|split].
    - assert (A : forallb (fun c => implb (oneof "`[:" c) (isMarkup c))
                          all_ascii = true) by (vm_compute; reflexivity).
      pose proof (forall_ascii _ A X) as AX. cbv beta in AX.
      now rewrite HX in AX.
    - revert Hpre. unfold free. apply sall_impl. intros c Hc.
      destruct (chr X c) eqn:E; [|reflexivity].
      unfold chr in E. apply Ascii.eqb_eq in E. subst c.
      now rewrite HX in Hc.
    - revert Hpost. unfold free. apply sall_impl. intros c Hc.
      destruct (chr X c) eqn:E; [|reflexivity].
      unfold chr in E. apply Ascii.eqb_eq in E. subst c.
      now rewrite HX in Hc. }
  destruct (S "`"%char eq_refl) as (M1 & P1 & Q1).
  destruct (S "["%char eq_refl) as (M2 & P2 & Q2).
  destruct (S ":"%char eq_refl) as (M3 & P3 & Q3).
  unfold stageBare, stageAutolink, stageLink, stageImage, stageCode.
  rewrite (stage_skip "`" re_code) by (assumption || reflexivity).
  rewrite (stage_skip "[" re_image) by (assumption || reflexivity).
  rewrite (stage_skip "[" re_link) by (assumption || reflexivity).
  rewrite (stage_skip ":" re_autolink) by (assumption || reflexivity).
  now rewrite (stage_skip ":" re_bare) by (assumption || reflexivity).
Qed.

End EmphasisFacts.
Import EmphasisFacts.

Module EmphasisStages.

Lemma cls_of (d : ascii) (e : string) :
  isMarkup d = true -> plain e = true -> free (chr LF) e = true ->
  sall (fun c => negb (Ascii.eqb c d || Ascii.eqb c LF)) e = true
  /\ sall (notc d) e = true.
Proof.
  intros Hd. unfold plain, free. induction e as [|c e IH]; [now split|].
  simpl. intros H1 H2.
  apply andb_true_iff in H1 as [A1 B1], H2 as [A2 B2].
  destruct (IH B1 B2) as [I1 I2]. rewrite I1, I2, !andb_true_r.
  unfold chr in A2. apply negb_true_iff in A2. rewrite A2, orb_false_r.
  unfold notc. destruct (Ascii.eqb c d) eqn:E; [|now split].
  apply Ascii.eqb_eq in E. subst c. now rewrite Hd in A1.
Qed.

Lemma escaped_text (x : string) :
  emphText x = true ->
  escapeHtml x <> "" /\ plain (escapeHtml x) = true
  /\ free (chr LF) (escapeHtml x) = true.
Proof.
  unfold emphText. intros H. apply andb_true_iff in H as [H L].
  apply andb_true_iff in H as [T P].
  split; [|split].
  - apply escapeHtml_nonempty. now destruct x.
  - now apply plain_escapeHtml.
  - unfold free in *. now apply sall_escapeHtml.
Qed.

Lemma strike_span (e : string) :
  e <> "" -> plain e = true -> free (chr LF) e = true ->
  stageItalic (stageBold (stageStrike ("~~" ++ e ++ "~~")))
  = "<del>" ++ e ++ "</del>".
Proof.
  intros Ne Pe Le. destruct (cls_of "~" e eq_refl Pe Le) as [C _].
  unfold stageStrike.
  rewrite (replaceAll_whole re_strike _ _ _ eq_refl (matchAt_strike e Ne C));
    [|reflexivity|discriminate].
  change (wrap1 "<del>" "</del>" (MResult ("~~" ++ e ++ "~~") [(1, e)] 0))
    with ("<del>" ++ e ++ "</del>").
  unfold stageBold, stageItalic.
  rewrite (stage_skip "*" (re_bold "*")) by (assumption || reflexivity).
  rewrite (stage_skip "_" (re_bold "_")) by (assumption || reflexivity).
  rewrite (stage_skip "*" (re_em "*")) by (assumption || reflexivity).
  now rewrite (stage_skip "_" (re_em "_")) by (assumption || reflexivity).
Qed.

Lemma bold_star_span (e : string) :
  e <> "" -> plain e = true -> free (chr LF) e = true ->
  stageItalic (stageBold (stageStrike ("**" ++ e ++ "**")))
  = "<strong>" ++ e ++ "</strong>".
Proof.
  intros Ne Pe Le. destruct (cls_of "*" e eq_refl Pe Le) as [_ C].
  unfold stageStrike, stageBold, stageItalic.
  rewrite (stage_skip "~" re_strike) by (assumption || reflexivity).
  change ("**" ++ e ++ "**")
    with (String "*" (String "*" (e ++ String "*" (str1 "*")))).
  rewrite (replaceAll_whole (re_bold "*") _ _ _ eq_refl
             (matchAt_bold "*" e Ne C)); [|reflexivity|discriminate].
  change (wrap1 "<strong>" "</strong>"
            (MResult (String "*" (String "*" (e ++ String "*" (str1 "*"))))
                     [(1, e)] 0))
    with ("<strong>" ++ e ++ "</strong>").
  rewrite (stage_skip "_" (re_bold "_")) by (assumption || reflexivity).
  rewrite (stage_skip "*" (re_em "*")) by (assumption || reflexivity).
  now rewrite (stage_skip "_" (re_em "_")) by (assumption || reflexivity).
Qed.

Lemma bold_under_span (e : string) :
  e <> "" -> plain e = true -> free (chr LF) e = true ->
  stageItalic (stageBold (stageStrike ("__" ++ e ++ "__")))
  = "<strong>" ++ e ++ "</strong>".
Proof.
  intros Ne Pe Le. destruct (cls_of "_" e eq_refl Pe Le) as [_ C].
  unfold stageStrike, stageBold, stageItalic.
  rewrite (stage_skip "~" re_strike) by (assumption || reflexivity).
  rewrite (stage_skip "*" (re_bold "*")) by (assumption || reflexivity).
  change ("__" ++ e ++ "__")
    with (String "_" (String "_" (e ++ String "_" (str1 "_")))).
  rewrite (replaceAll_whole (re_bold "_") _ _ _ eq_refl
             (matchAt_bold "_" e Ne C)); [|reflexivity|discriminate].
  change (wrap1 "<strong>" "</strong>"
            (MResult (String "_" (String "_" (e ++ String "_" (str1 "_"))))
                     [(1, e)] 0))
    with ("<strong>" ++ e ++ "</strong>").
  rewrite (stage_skip "*" (re_em "*")) by (assumption || reflexivity).
  now rewrite (stage_skip "_" (re_em "_")) by (assumption || reflexivity).
Qed.

(** One delimiter on each side is too few for the bold pattern. *)
Lemma bold_too_few (d : ascii) (f : mresult -> string) (e : string) :
  isMarkup d = true -> plain e = true ->
  minCount (chr d) (re_bold d) = 4 ->
  replaceAll (re_bold d) f (String d (e ++ str1 d))
  = String d (e ++ str1 d).
Proof.
  intros Hd Pe Hm. apply (replaceAll_count (chr d)). rewrite Hm.
  cbn [count]. rewrite count_app, chr_refl.
  rewrite (free_count _ _ (plain_free d e Hd Pe)).
  simpl. rewrite chr_refl. lia.
Qed.

Lemma em_star_span (e : string) :
  e <> "" -> plain e = true -> free (chr LF) e = true ->
  stageItalic (stageBold (stageStrike ("*" ++ e ++ "*")))
  = "<em>" ++ e ++ "</em>".
Proof.
  intros Ne Pe Le. destruct (cls_of "*" e eq_refl Pe Le) as [C _].
  unfold stageStrike, stageBold, stageItalic.
  rewrite (stage_skip "~" re_strike) by (assumption || reflexivity).
  change ("*" ++ e ++ "*") with (String "*" (e ++ str1 "*")).
  rewrite (bold_too_few "*") by (assumption || reflexivity).
  change (String "*" (e ++ str1 "*")) with ("*" ++ e ++ "*").
  rewrite (stage_skip "_" (re_bold "_")) by (assumption || reflexivity).
  change ("*" ++ e ++ "*") with (String "*" (e ++ str1 "*")).
  rewrite (replaceAll_whole (re_em "*") _ _ _ eq_refl
             (matchAt_em "*" e Ne C)); [|reflexivity|discriminate].
  change (wrap2 "<em>" "</em>"
            (MResult (String "*" (e ++ str1 "*")) [(2, e); (1, "")] 0))
    with ("<em>" ++ e ++ "</em>").
  now rewrite (stage_skip "_" (re_em "_")) by (assumption || reflexivity).
Qed.

Lemma em_under_span (e : string) :
  e <> "" -> plain e = true -> free (chr LF) e = true ->
  stageItalic (stageBold (stageStrike ("_" ++ e ++ "_")))
  = "<em>" ++ e ++ "</em>".
Proof.
  intros Ne Pe Le. destruct (cls_of "_" e eq_refl Pe Le) as [C _].
  unfold stageStrike, stageBold, stageItalic.
  rewrite (stage_skip "~" re_strike) by (assumption || reflexivity).
  rewrite (stage_skip "*" (re_bold "*")) by (assumption || reflexivity).
  change ("_" ++ e ++ "_") with (String "_" (e ++ str1 "_")).
  rewrite (bold_too_few "_") by (assumption || reflexivity).
  change (String "_" (e ++ str1 "_")) with ("_" ++ e ++ "_").
  rewrite (stage_skip "*" (re_em "*")) by (assumption || reflexivity).
  change ("_" ++ e ++ "_") with (String "_" (e ++ str1 "_")).
  rewrite (replaceAll_whole (re_em "_") _ _ _ eq_refl
             (matchAt_em "_" e Ne C)); [reflexivity|reflexivity|discriminate].
Qed.

(** The inline renderer on a delimited text. *)
Lemma renderInline_delimited (o : options) (d x : string) (html : string) :
  emphText x = true ->
  escapeHtml d = d -> free (oneof "`[:") d = true ->
  stageItalic (stageBold (stageStrike (d ++ escapeHtml x ++ d))) = html ->
  renderInline (d ++ x ++ d) o = html.
Proof.
  intros Hx Ed Fd Hs. destruct (escaped_text x Hx) as (_ & Pe & _).
  unfold renderInline, laterStages, afterLinks.
  rewrite !escapeHtml_app, Ed.
  now rewrite (before_strike o d (escapeHtml x) d Pe Fd Fd).
Qed.

End EmphasisStages.
Import EmphasisStages.

(** X22: a text without markup characters and line feeds, put between
    strikethrough, bold or italic delimiters, is rendered as the
    corresponding element around the escaped text. *)
Theorem X22_emphasis (x : string) (o : options) :
  emphText x = true ->
  renderInline ("~~" ++ x ++ "~~") o = "<del>" ++ escapeHtml x ++ "</del>"
  /\ renderInline ("**" ++ x ++ "**") o
     = "<strong>" ++ escapeHtml x ++ "</strong>"
  /\ renderInline ("__" ++ x ++ "__") o
     = "<strong>" ++ escapeHtml x ++ "</strong>"
  /\ renderInline ("*" ++ x ++ "*") o = "<em>" ++ escapeHtml x ++ "</em>"
  /\ renderInline ("_" ++ x ++ "_") o = "<em>" ++ escapeHtml x ++ "</em>".
Proof.
  intros Hx. destruct (escaped_text x Hx) as (Ne & Pe & Le).
  repeat split; apply renderInline_delimited;
    try assumption; try reflexivity.
  - now apply strike_span.
  - now apply bold_star_span.
  - now apply bold_under_span.
  - now apply em_star_span.
  - now apply em_under_span.
Qed.

Lemma X22_witness :
  renderInline "**Tom & Jerry**" defaultOptions
  = "<strong>Tom &amp; Jerry</strong>".
Proof.
  exact (proj1 (proj2 (X22_emphasis "Tom & Jerry" defaultOptions eq_refl))).
Defined.

Module ParagraphFacts.

Lemma paragraph_loop_spec (lines : list string) :
  forall ls j buf,
    ls = skipn j lines ->
    exists n,
      n <= List.length ls
      /\ paragraph_loop lines ls j buf
         = ((buf ++ firstn n ls)%list, j + n)
      /\ (forall k, j <= k < j + n -> paragraphStop lines k = false)
      /\ (n < List.length ls -> paragraphStop lines (j + n) = true).
Proof.
  induction ls as [|l ls IH]; intros j buf E.
  - exists 0. simpl. rewrite List.app_nil_r, Nat.add_0_r.
    repeat split; try lia.
  - assert (Hj : j < List.length lines).
    { destruct (Nat.lt_ge_cases j (List.length lines)) as [L|G];
        [exact L|].
      rewrite (skipn_all2 lines G) in E. discriminate. }
    assert (El : nth j lines "" = l /\ ls = skipn (S j) lines).
    { rewrite (Progress.skipn_nth lines j Hj) in E.
      injection E as E1 E2. auto. }
    destruct El as [El Els].
    assert (Step : paragraph_loop lines (l :: ls) j buf
                   = if paragraphStop lines j then (buf, j)
                     else paragraph_loop lines ls (S j) (buf ++ [l])).
    { unfold paragraphStop, startsBlock, blank. rewrite El.
      cbn [paragraph_loop].
      destruct (truthy (trim l)), (isSome (parseFence l)),
        (isSome (parseAtxHeading l)), (isThematicBreak l),
        (test re_quote l), (test re_ul_start l), (test re_ol_start l),
        (isSome (parseTable lines j)), (test re_indented l); reflexivity. }
    rewrite Step.
    destruct (paragraphStop lines j) eqn:Sj.
    + exists 0. simpl.
      rewrite List.app_nil_r, !Nat.add_0_r.
      repeat split; try lia. intros _. exact Sj.
    + destruct (IH (S j) (buf ++ [l])%list Els) as (n & Ln & Ep & A & B).
      exists (S n). rewrite Ep. simpl.
      rewrite <- List.app_assoc. simpl.
      replace (j + S n) with (S j + n) by lia.
      repeat split; try lia.
      * intros k Hk. destruct (Nat.eq_dec k j) as [->|Nk]; [exact Sj|].
        apply A. lia.
      * intros Hn. apply B. lia.
Qed.

End ParagraphFacts.
Import ParagraphFacts.

(** X23: [parseParagraph] takes the longest run of lines from its index
    on of which none is blank, begins another block or heads a table: it
    returns these lines unchanged and in order, and where it ends before
    the end of the input, the next line is such a line. *)
Theorem X23_parseParagraph (lines : list string) (i : nat) :
  exists n,
    n <= List.length lines - i
    /\ parseParagraph lines i
       = Some (Paragraph (firstn n (skipn i lines)), i + n)
    /\ (forall k, i <= k < i + n -> paragraphStop lines k = false)
    /\ (i + n < List.length lines -> paragraphStop lines (i + n) = true).
Proof.
  destruct (paragraph_loop_spec lines (skipn i lines) i [] eq_refl)
    as (n & Ln & E & A & B).
  exists n. rewrite List.length_skipn in Ln, B. unfold parseParagraph.
  rewrite E. cbn [List.app]. repeat split; try lia; try assumption.
  intros H. apply B. lia.
Qed.

Lemma X23_witness : paragraphStop ["a"; "b"; ""; "c"] 2 = true.
Proof.
  destruct (X23_parseParagraph ["a"; "b"; ""; "c"] 0) as (n & _ & E & _ & B).
  assert (N : 2 = n) by (vm_compute in E; now injection E).
  subst n. apply B. simpl. lia.
Defined.

Module SimpleFacts.

Lemma split_walk_needs (P : ascii -> bool) (r : regex) (s : string) :
  needs P r = true -> free P s = true ->
  forall p cur, Simple.split_walk r p 0 cur s = [cur ++ s].
Proof.
  intros Hn. induction s as [|c s IH]; intros Hs p cur;
    cbn [Simple.split_walk].
  - now rewrite app_nil_r.
  - rewrite (matchAt_needs P r p _ Hn Hs).
    rewrite IH.
    + now rewrite app_assoc.
    + unfold free in *. simpl in Hs.
      now apply andb_true_iff in Hs as [_ Hs].
Qed.

Lemma splitRe_needs (P : ascii -> bool) (r : regex) (s : string) :
  needs P r = true -> free P s = true -> Simple.splitRe r s = [s].
Proof.
  intros Hn Hs. unfold Simple.splitRe. destruct s as [|c s].
  - now rewrite (matchAt_needs P r 0 "" Hn).
  - now rewrite (split_walk_needs P r _ Hn Hs).
Qed.

Lemma free_trim (P : ascii -> bool) (s : string) :
  free P s = true -> free P (trim s) = true.
Proof.
  intros H. destruct (trim_spec s) as [a [b [E _]]].
  rewrite E, !free_app in H.
  apply andb_true_iff in H as [_ H]. now apply andb_true_iff in H as [H _].
Qed.

Lemma escapeHtml_inert (s : string) :
  free isSimpleMarkup s = true -> escapeHtml s = s.
Proof.
  intros H. unfold escapeHtml.
  now rewrite !(fun r f => replaceAll_needs isSimpleMarkup r f s)
    by (reflexivity || exact H).
Qed.

End SimpleFacts.
Import SimpleFacts.

(** X24: the stand-alone renderer of [part_000] renders a text on which
    none of its stages can act (no character to escape, no marker, no
    line terminator) as one paragraph that holds the trimmed text, and
    renders a text of whitespace alone as the empty text. *)
Theorem X24_simple_plain_text (t : string) :
  free isSimpleMarkup t = true ->
  Simple.mdToHtml t
  = if truthy (trim t) then "<p>" ++ trim t ++ "</p>" else "".
Proof.
  intros H. unfold Simple.mdToHtml. cbv zeta.
  rewrite (replaceAll_needs isSimpleMarkup (lit (String CR lf))) by
    (reflexivity || exact H).
  rewrite (escapeHtml_inert t H).
  rewrite !(fun r f => replaceAll_needs isSimpleMarkup r f t)
    by (reflexivity || exact H).
  rewrite (splitRe_needs isSimpleMarkup) by (reflexivity || exact H).
  cbn [map filter]. destruct (trim t) as [|c b] eqn:T; [reflexivity|].
  cbn [truthy map join String.concat]. unfold Simple.renderPiece.
  pose proof (free_trim _ _ H) as Ht. rewrite T in Ht.
  rewrite (test_needs isSimpleMarkup) by (reflexivity || exact Ht).
  now rewrite (replaceAll_needs isSimpleMarkup) by (reflexivity || exact Ht).
Qed.

Lemma X24_witness : Simple.mdToHtml " Tom and Jerry " = "<p>Tom and Jerry</p>".
Proof. exact (X24_simple_plain_text " Tom and Jerry " eq_refl). Defined.

Module TableDoc.

Lemma takeWhile_id {A : Type} (f : A -> bool) (l : list A) :
  Forall (fun x => f x = true) l -> takeWhile f l = l.
Proof.
  induction 1 as [|x l Hx _ IH]; simpl; [reflexivity|].
  now rewrite Hx, IH.
Qed.

(** A separator line of a table is no setext underline: it holds a
    bar. *)
Lemma sep_not_underline (c : ascii) (t : string) :
  chr c "|" = false ->
  test re_table_sep t = true -> test (re_underline c) t = false.
Proof.
  intros Hc Hs. destruct (test (re_underline c) t) eqn:U; [|reflexivity].
  exfalso. apply underline_iff in U. destruct U as [_ U].
  pose proof (test_anchored_count (chr "|") _ _ Hs) as C.
  change (minCount (chr "|") _) with 1 in C.
  assert (Z : count (chr "|") t = 0).
  { apply free_count. revert U. unfold free. apply sall_impl.
    intros x Hx. unfold chr in *. apply Ascii.eqb_eq in Hx. subst x.
    destruct (Ascii.eqb c "|") eqn:E; [|reflexivity].
    apply Ascii.eqb_eq in E. subst c. now rewrite Ascii.eqb_refl in Hc. }
  lia.
Qed.

Lemma segment_step_table (header sep : string) (rows : list string) :
  proseLine header = true -> includes header "|" = true ->
  test re_table_sep (trim sep) = true ->
  Forall (fun l => tableRow l = true) rows ->
  segment_step (header :: sep :: rows) 0
  = (Some (Table (parseRow header) (map alignOf (parseRow sep))
                 (map parseRow rows)),
     List.length (header :: sep :: rows)).
Proof.
  intros Hp Hi Hs Hr.
  destruct (prose_facts header Hp) as (T & Fe & I & A & B & Q & _).
  unfold segment_step. cbn [nth]. rewrite T, Fe. cbn [negb].
  unfold parseIndentedCode. cbn [nth]. rewrite I. cbn [negb].
  unfold parseSetextHeading.
  cbn [List.length Nat.leb Nat.add nth]. cbv zeta. rewrite T. cbn [negb].
  rewrite (sep_not_underline "=" _ eq_refl Hs).
  rewrite (sep_not_underline "-" _ eq_refl Hs). cbn [negb andb].
  rewrite A, B. unfold parseBlockquote. cbn [nth]. rewrite Q. cbn [negb].
  unfold parseTable. cbn [nth List.length Nat.add Nat.ltb Nat.leb].
  rewrite Hi, Hs. cbn [negb skipn].
  rewrite table_loop_spec, (takeWhile_id _ _ Hr). cbn [List.app].
  reflexivity.
Qed.

End TableDoc.
Import TableDoc.

(** X25: a text made of a header line that begins with a character that
    opens no block and holds a bar, a separator line, and rows that hold a
    bar and are not blank, is rendered as one table: the cells of the
    header, the alignments read off the separator, and one row of cells
    for each row line. *)
Theorem X25_table_document (header sep : string) (rows : list string)
        (o : options) (fuel : nat) (html : string) :
  proseLine header = true -> includes header "|" = true ->
  test re_table_sep (trim sep) = true ->
  Forall (fun l => tableRow l = true) rows ->
  Forall (fun l => free (chr LF) l = true /\ free (chr CR) l = true)
         (header :: sep :: rows) ->
  2 <= fuel ->
  (forall recur,
      renderBlock recur
        (Table (parseRow header) (map alignOf (parseRow sep))
               (map parseRow rows)) o = Some html) ->
  fallbackMdToHtml fuel (JStr (join lf (header :: sep :: rows))) o
  = Some html.
Proof.
  intros Hp Hi Hs Hr F Hf R.
  apply (one_block _ (Table (parseRow header) (map alignOf (parseRow sep))
                            (map parseRow rows))); try assumption.
  - discriminate.
  - now apply segment_step_table.
Qed.

Lemma X25_witness :
  fallbackMdToHtml 2
    (JStr (join lf ["a | b"; ":---|---:"; "1 | *2*"])) defaultOptions
  = Some ("<table><thead><tr><th style=" ++ dq ++ "text-align:left;" ++ dq
          ++ ">a</th><th style=" ++ dq ++ "text-align:right;" ++ dq
          ++ ">b</th></tr></thead><tbody><tr><td style=" ++ dq
          ++ "text-align:left;" ++ dq ++ ">1</td><td style=" ++ dq
          ++ "text-align:right;" ++ dq
          ++ "><em>2</em></td></tr></tbody></table>").
Proof.
  apply (X25_table_document "a | b" ":---|---:" ["1 | *2*"] defaultOptions 2);
    try reflexivity.
  - repeat constructor.
  - repeat constructor.
Defined.

Module IndentDoc.

Lemma indent_test (t : string) : test re_indented (indentLine t) = true.
Proof.
  change re_indented with
    (Seq Bol (seqs [Group 1 (Alt (AtLeast 4 (Chr (chr " ")))
                                 (Chr (chr TAB)))])).
  apply test_anchored_iff. cbn [seqs AtLeast]. unfold indentLine.
  cbn [append]. eexists. apply M_Group, M_AltL.
  eapply M_Seq; [eapply M_Chr; [reflexivity | reflexivity]|].
  eapply M_Seq; [eapply M_Chr; [reflexivity | reflexivity]|].
  eapply M_Seq; [eapply M_Chr; [reflexivity | reflexivity]|].
  eapply M_Seq; [eapply M_Chr; [reflexivity | reflexivity]|].
  apply M_Star0.
Qed.

Lemma indent_strip (t : string) :
  replaceFirst re_indent_strip (const "") (indentLine t) = t.
Proof. reflexivity. Qed.

Lemma indented_loop_lines (ts : list string) :
  forall j buf,
    buf <> [] ->
    indented_loop (map indentLine ts) j buf
    = ((buf ++ ts)%list, j + List.length ts).
Proof.
  induction ts as [|t ts IH]; intros j buf Hb; cbn [map indented_loop].
  - now rewrite List.app_nil_r, Nat.add_0_r.
  - rewrite indent_test, indent_strip. cbn [negb andb].
    replace (Nat.eqb (List.length buf) 0) with false
      by (destruct buf; [contradiction | reflexivity]).
    rewrite andb_false_r, IH, <- List.app_assoc.
    + simpl. f_equal. lia.
    + destruct buf; discriminate.
Qed.

Lemma segment_step_indented (t0 : string) (ts : list string) :
  truthy (trim (indentLine t0)) = true ->
  parseFence (indentLine t0) = None ->
  segment_step (map indentLine (t0 :: ts)) 0
  = (Some (Code "" (join lf (t0 :: ts))),
     List.length (map indentLine (t0 :: ts))).
Proof.
  intros T F. unfold segment_step. cbn [map nth]. rewrite T, F.
  cbn [negb]. unfold parseIndentedCode. cbn [nth skipn].
  rewrite indent_test. cbn [negb indented_loop].
  rewrite indent_test, indent_strip, T. cbn [negb andb List.app].
  rewrite indented_loop_lines by discriminate.
  cbn [List.app List.length Nat.add]. now rewrite length_map.
Qed.

Lemma indentLine_free (t : string) :
  free (chr LF) t = true /\ free (chr CR) t = true ->
  free (chr LF) (indentLine t) = true
  /\ free (chr CR) (indentLine t) = true.
Proof.
  intros [A B]. unfold indentLine. rewrite !free_app, A, B. now split.
Qed.

End IndentDoc.
Import IndentDoc.

(** X26: a text whose lines all begin with four spaces, the first of them
    not blank and no fence, is rendered as one code block that holds the
    lines without these four spaces, escaped and otherwise untouched. *)
Theorem X26_indented_document (t0 : string) (ts : list string)
        (o : options) (fuel : nat) :
  truthy (trim (indentLine t0)) = true ->
  parseFence (indentLine t0) = None ->
  Forall (fun l => free (chr LF) l = true /\ free (chr CR) l = true)
         (t0 :: ts) ->
  2 <= fuel ->
  fallbackMdToHtml fuel (JStr (join lf (map indentLine (t0 :: ts)))) o
  = Some ("<pre><code>" ++ escapeHtml (join lf (t0 :: ts))
          ++ "</code></pre>").
Proof.
  intros T F Fr Hf.
  apply (one_block _ (Code "" (join lf (t0 :: ts)))).
  - discriminate.
  - apply Forall_map. eapply Forall_impl; [|exact Fr].
    intros t Ht. now apply indentLine_free.
  - now apply segment_step_indented.
  - reflexivity.
  - exact Hf.
Qed.

Lemma X26_witness :
  fallbackMdToHtml 2
    (JStr ("    if (a < b)" ++ lf ++ "      *c*" ++ lf ++ "    "))
    defaultOptions
  = Some ("<pre><code>if (a &lt; b)" ++ lf ++ "  *c*" ++ lf
          ++ "</code></pre>").
Proof.
  apply (X26_indented_document "if (a < b)" ["  *c*"; ""] defaultOptions 2);
    try reflexivity.
  repeat constructor.
Defined.

Module NumberDoc.

(** A run of characters of a class, ended by a character outside it, is
    determined by the text it begins. *)
Lemma run_unique (p : ascii -> bool) (a a' : string) (d d' : ascii)
      (r r' : string) :
  sall p a = true -> sall p a' = true -> p d = false -> p d' = false ->
  a ++ String d r = a' ++ String d' r' ->
  a = a' /\ d = d' /\ r = r'.
Proof.
  revert a'. induction a as [|x a IH]; intros a' Ha Ha' Hd Hd' E.
  - destruct a' as [|y a']; simpl in E.
    + injection E as -> ->. auto.
    + injection E as -> _. simpl in Ha'.
      apply andb_true_iff in Ha' as [Hy _]. congruence.
  - destruct a' as [|y a']; simpl in E.
    + injection E as -> _. simpl in Ha.
      apply andb_true_iff in Ha as [Hx _]. congruence.
    + injection E as -> E. simpl in Ha, Ha'.
      apply andb_true_iff in Ha as [_ Ha], Ha' as [_ Ha'].
      destruct (IH a' Ha Ha' Hd Hd' E) as (-> & -> & ->). auto.
Qed.

Section Entry.

Variables (ds : string) (d : ascii) (t : string).
Hypothesis entry : numberEntry (ds, d, t) = true.

Let line : string := numberLine (ds, d, t).
Let notDigit (c : ascii) : bool := negb (isDigit c).

Lemma entry_parts :
  exists c0 ds' c t',
    ds = String c0 ds' /\ isDigit c0 = true /\ sall isDigit ds = true
    /\ oneof ".)" d = true
    /\ t = String c t' /\ isWs c = false /\ sall isDot t = true.
Proof.
  unfold numberEntry in entry.
  apply andb_true_iff in entry as [H Ht].
  apply andb_true_iff in H as [H Hd].
  apply andb_true_iff in H as [Hn Hs].
  unfold itemText in Ht.
  apply andb_true_iff in Ht as [Ht Hdot].
  apply andb_true_iff in Ht as [Ht0 Hp].
  destruct ds as [|c0 ds']; [discriminate|].
  destruct t as [|c t']; [discriminate|]. simpl in Hp.
  apply negb_true_iff in Hp.
  pose proof Hs as Hs'. simpl in Hs'.
  apply andb_true_iff in Hs' as [Hc0 _].
  exists c0, ds', c, t'. auto 10.
Qed.

Lemma line_head :
  exists c0 r, line = String c0 r /\ notDigit c0 = false
               /\ isWs c0 = false.
Proof.
  destruct entry_parts as (c0 & ds' & c & t' & E & H0 & _).
  exists c0, (ds' ++ String d (String " " t)).
  unfold line, numberLine. rewrite E. split; [reflexivity|].
  unfold notDigit. rewrite H0. split; [reflexivity|].
  now apply ListFacts.digit_not_ws.
Qed.

Ltac digit_fails :=
  first [ apply (exec_head notDigit) | apply (test_head notDigit) ];
  [ vm_compute; reflexivity | vm_compute; reflexivity | assumption ].

Lemma numbered_exact :
  exists m, exec re_ol line = Some m
            /\ String.length (grp 1 m) = 0 /\ grp 3 m = t.
Proof.
  destruct entry_parts as (c0 & ds' & c & t' & E & H0 & Hs & Hd & Et & Wc
                           & D).
  assert (Nt : t <> "") by (rewrite Et; discriminate).
  assert (Nd : ds <> "") by (rewrite E; discriminate).
  assert (Dd : isDigit d = false).
  { assert (A : forallb (fun x => implb (oneof ".)" x) (negb (isDigit x)))
                        all_ascii = true) by (vm_compute; reflexivity).
    pose proof (forall_ascii _ A d) as Ad. cbv beta in Ad.
    rewrite Hd in Ad. now apply negb_true_iff in Ad. }
  assert (Ex : exists m, exec re_ol line = Some m).
  { change re_ol with
      (Seq Bol (seqs [Group 1 ws0; Group 2 (Plus true (Chr isDigit));
                      Chr (oneof ".)"); ws1;
                      Group 3 (Plus true (Chr isDot)); Eol])).
    unfold line, numberLine. rewrite <- (app_nil_r t).
    eapply TermFacts.exec_of_Matches. cbn [seqs].
    eapply M_Seq; [apply M_Group; apply M_Star0|].
    cbn [set_cap pos rest caps].
    eapply M_Seq.
    { apply M_Group.
      apply (TermFacts.Matches_plus_class_intro true isDigit ds Nd Hs). }
    cbn [set_cap pos rest caps].
    eapply M_Seq; [eapply M_Chr; [reflexivity | exact Hd]|].
    cbn [advance pos rest caps].
    eapply M_Seq.
    { eapply M_Seq; [eapply M_Chr; [reflexivity | reflexivity]|].
      apply M_Star0. }
    cbn [advance pos rest caps].
    eapply M_Seq.
    { apply M_Group.
      apply (TermFacts.Matches_plus_class_intro true isDot t Nt D). }
    now constructor. }
  destruct Ex as [m Hm]. exists m. split; [exact Hm|].
  destruct (ListFacts.numbered_shape _ _ Hm)
    as (w & ds2 & d2 & sp & El & Ww & Lw & Hs2 & Nds2 & Hd2 & Wsp & Nsp
        & Nit).
  unfold line, numberLine in El.
  destruct w as [|x w].
  - simpl in El.
    assert (Dd2 : isDigit d2 = false).
    { assert (A : forallb (fun x => implb (oneof ".)" x)
                                      (negb (isDigit x)))
                          all_ascii = true) by (vm_compute; reflexivity).
      pose proof (forall_ascii _ A d2) as Ad. cbv beta in Ad.
      rewrite Hd2 in Ad. now apply negb_true_iff in Ad. }
    destruct (run_unique isDigit _ _ _ _ _ _ Hs Hs2 Dd Dd2 El)
      as (_ & _ & El').
    split; [now rewrite <- Lw|].
    destruct sp as [|y sp]; [contradiction|].
    simpl in El'. injection El' as _ El'.
    destruct sp as [|z sp]; [now simpl in El'|]. exfalso.
    unfold whitespace in Wsp. simpl in Wsp.
    apply andb_true_iff in Wsp as [_ Wsp].
    apply andb_true_iff in Wsp as [Wz _].
    rewrite Et in El'. simpl in El'. injection El' as -> _. congruence.
  - exfalso. rewrite E in El. simpl in El. injection El as <- _.
    unfold whitespace in Ww. simpl in Ww.
    apply andb_true_iff in Ww as [Wb _].
    rewrite (ListFacts.digit_not_ws _ H0) in Wb. discriminate.
Qed.

(** What the recognisers say of the line of a numbered item. *)
Lemma number_facts :
  truthy (trim line) = true
  /\ parseFence line = None
  /\ test re_indented line = false
  /\ parseAtxHeading line = None
  /\ isThematicBreak line = false
  /\ test re_quote line = false
  /\ test re_table_sep (trim line) = false
  /\ exec re_ul line = None
  /\ test (re_underline "=") (trim line) = false
  /\ test (re_underline "-") (trim line) = false.
Proof.
  destruct line_head as (c0 & r & El & N0 & W0).
  destruct (trim_head c0 r W0) as [r' T]. rewrite <- El in T.
  assert (F : exec re_fence line = None) by (rewrite El; digit_fails).
  assert (A : exec re_atx line = None) by (rewrite El; digit_fails).
  split; [now rewrite T|].
  split; [unfold parseFence; now rewrite F|].
  split; [rewrite El; digit_fails|].
  split; [unfold parseAtxHeading; now rewrite A|].
  split.
  { unfold isThematicBreak. rewrite T.
    assert (B1 : test (re_break "*") (String c0 r') = false)
      by digit_fails.
    assert (B2 : test (re_break "-") (String c0 r') = false)
      by digit_fails.
    assert (B3 : test (re_break "_") (String c0 r') = false)
      by digit_fails.
    now rewrite B1, B2, B3. }
  split; [rewrite El; digit_fails|].
  rewrite T.
  split; [digit_fails|].
  split; [rewrite El; digit_fails|].
  split; digit_fails.
Qed.

Lemma number_free :
  free (chr LF) line = true /\ free (chr CR) line = true.
Proof.
  destruct entry_parts as (_ & _ & _ & _ & _ & _ & Hs & Hd & _ & _
                           & D).
  assert (Db : sall isDot line = true).
  { unfold line, numberLine. rewrite sall_app. cbn [sall]. rewrite D.
    assert (A : forallb (fun x => implb (oneof ".)" x || isDigit x)
                                    (isDot x))
                        all_ascii = true) by (vm_compute; reflexivity).
    rewrite (sall_impl isDigit isDot ds); [|
      intros x Hx; pose proof (forall_ascii _ A x) as Ax; cbv beta in Ax;
      now rewrite Hx, orb_true_r in Ax | exact Hs].
    pose proof (forall_ascii _ A d) as Ad. cbv beta in Ad.
    rewrite Hd in Ad. simpl in Ad. now rewrite Ad. }
  unfold free. split; (eapply sall_impl; [|exact Db]); intros x Hx;
    unfold isDot in Hx; apply negb_true_iff in Hx;
    apply orb_false_iff in Hx as [H1 H2]; unfold chr;
    now rewrite ?H1, ?H2.
Qed.

End Entry.

End NumberDoc.
Import NumberDoc.

Module NumberList.

Lemma entry_split (e : string * ascii * string) :
  exists ds d t, e = (ds, d, t).
Proof. destruct e as [[ds d] t]. eauto. Qed.

Lemma list_loop_numbers (es : list (string * ascii * string)) :
  Forall (fun e => numberEntry e = true) es ->
  forall j buf,
    list_loop true 0 (map numberLine es) j buf
    = ((buf ++ map numberText es)%list, j + List.length es).
Proof.
  induction es as [|e es IH]; intros F j buf; cbn [map list_loop].
  - now rewrite List.app_nil_r, Nat.add_0_r.
  - inversion F as [|? ? He Hr]; subst.
    destruct (entry_split e) as (ds & d & t & ->).
    destruct (number_facts ds d t He) as (T & _).
    destruct (numbered_exact ds d t He) as (m & Hm & L & G).
    rewrite T, Hm, L, G. cbn [negb Nat.eqb].
    rewrite (IH Hr), <- List.app_assoc. simpl. f_equal. lia.
Qed.

Lemma parseTable_numbers (es : list (string * ascii * string)) (j : nat) :
  Forall (fun e => numberEntry e = true) es ->
  parseTable (map numberLine es) j = None.
Proof.
  intros F. unfold parseTable. cbv zeta.
  destruct (includes (nth j (map numberLine es) "") "|"); cbn [negb];
    [|reflexivity].
  destruct (Nat.ltb (j + 1) (List.length (map numberLine es))) eqn:L.
  - apply Nat.ltb_lt in L.
    pose proof (nth_In (map numberLine es) "" L) as Hin.
    apply in_map_iff in Hin as (e & Ee & He).
    rewrite Forall_forall in F. specialize (F e He).
    destruct (entry_split e) as (ds & d & t & ->).
    destruct (number_facts ds d t F)
      as (_ & _ & _ & _ & _ & _ & S & _).
    rewrite <- Ee. now rewrite S.
  - replace (test re_table_sep (trim "")) with false
      by (vm_compute; reflexivity).
    reflexivity.
Qed.

Lemma segment_step_numbers (es : list (string * ascii * string)) :
  es <> [] -> Forall (fun e => numberEntry e = true) es ->
  segment_step (map numberLine es) 0
  = (Some (ListBlock true (map numberText es)),
     List.length (map numberLine es)).
Proof.
  intros Ne F. destruct es as [|e0 es]; [contradiction|].
  inversion F as [|? ? He Hr]; subst.
  destruct (entry_split e0) as (ds & d & t & ->).
  destruct (number_facts ds d t He)
    as (T & Fe & I & A & B & Q & P & U & _).
  destruct (numbered_exact ds d t He) as (m & Hm & L & G).
  assert (S : parseSetextHeading (map numberLine ((ds, d, t) :: es)) 0
              = None).
  { unfold parseSetextHeading. destruct es as [|e1 es];
      [reflexivity|].
    inversion Hr as [|? ? He1 _]; subst.
    destruct (entry_split e1) as (ds1 & d1 & t1 & ->).
    destruct (number_facts ds1 d1 t1 He1)
      as (_ & _ & _ & _ & _ & _ & _ & _ & U1 & U2).
    cbn [map List.length Nat.leb Nat.add nth]. cbv zeta.
    now rewrite T, U1, U2. }
  unfold segment_step. rewrite S. cbn [map nth].
  rewrite T, Fe, A, B. cbn [negb].
  pose proof (parseTable_numbers ((ds, d, t) :: es) 0 F) as PT.
  cbn [map] in PT. rewrite PT.
  unfold parseIndentedCode, parseBlockquote, parseList.
  cbn [nth]. rewrite I, Q, Hm, U, L. cbn [negb skipn].
  pose proof (list_loop_numbers ((ds, d, t) :: es) F 0 []) as LL.
  cbn [map] in LL. rewrite LL. cbn [List.app Nat.add List.length].
  now rewrite length_map.
Qed.

End NumberList.
Import NumberList.

(** X27: a text of numbered items, one to a line (digits, a full stop or
    a closing parenthesis, one space and an item text that is not empty,
    does not begin with whitespace and holds no line terminator), is
    rendered as one ordered list with one element per line; the numbers
    and the delimiters written do not reach the output. *)
Theorem X27_numbered_document (es : list (string * ascii * string))
        (o : options) (fuel : nat) :
  es <> [] -> Forall (fun e => numberEntry e = true) es -> 2 <= fuel ->
  fallbackMdToHtml fuel (JStr (join lf (map numberLine es))) o
  = Some ("<ol>" ++ join "" (map (renderItem o) (map numberText es))
          ++ "</ol>").
Proof.
  intros Ne F Hf.
  apply (one_block _ (ListBlock true (map numberText es))).
  - destruct es; [contradiction | discriminate].
  - apply Forall_map. eapply Forall_impl; [|exact F].
    intros e He. destruct (entry_split e) as (ds & d & t & ->).
    exact (number_free ds d t He).
  - now apply segment_step_numbers.
  - reflexivity.
  - exact Hf.
Qed.

Lemma X27_witness :
  fallbackMdToHtml 2 (JStr ("7. 2nd" ++ lf ++ "3) *b*|c")) defaultOptions
  = Some "<ol><li>2nd</li><li><em>b</em>|c</li></ol>".
Proof.
  exact (X27_numbered_document
           [("7", "."%char, "2nd"); ("3", ")"%char, "*b*|c")]
           defaultOptions 2 ltac:(discriminate) ltac:(repeat constructor)
           ltac:(lia)).
Defined.

Module SetextDoc.

Lemma segment_step_setext (title under : string) (c : ascii) :
  truthy (trim title) = true -> parseFence title = None ->
  test re_indented title = false ->
  (c = "="%char \/ c = "-"%char) -> runOf c (trim under) ->
  segment_step [title; under] 0
  = (Some (Heading (if Ascii.eqb c "=" then 1 else 2) (trim title)), 2).
Proof.
  intros T F I Hc R. apply underline_iff in R.
  unfold segment_step. cbn [nth]. rewrite T, F. cbn [negb].
  unfold parseIndentedCode. cbn [nth]. rewrite I. cbn [negb].
  unfold parseSetextHeading.
  cbn [List.length Nat.leb Nat.add nth]. cbv zeta. rewrite T. cbn [negb].
  destruct Hc as [-> | ->].
  - rewrite R. reflexivity.
  - rewrite R.
    destruct (test (re_underline "=") (trim under)) eqn:E; [|reflexivity].
    exfalso. apply underline_iff in E, R.
    destruct E as [N E], R as [_ R].
    destruct (trim under) as [|x u]; [contradiction|].
    simpl in E, R. apply andb_true_iff in E as [E _], R as [R _].
    unfold chr in E, R. apply Ascii.eqb_eq in E, R. congruence.
Qed.

End SetextDoc.
Import SetextDoc.

(** X28: a text of two lines, a title that is not blank, no fence and not
    indented, and an underline of equals signs or of hyphens, is rendered
    as one heading of level 1 or 2 whose content is the inline rendering
    of the trimmed title; so is a title that would by itself be a list
    item or a quote. *)
Theorem X28_setext_document (title under : string) (c : ascii)
        (o : options) (fuel : nat) :
  truthy (trim title) = true -> parseFence title = None ->
  test re_indented title = false ->
  (c = "="%char \/ c = "-"%char) -> runOf c (trim under) ->
  Forall (fun l => free (chr LF) l = true /\ free (chr CR) l = true)
         [title; under] ->
  2 <= fuel ->
  let level := numToString (if Ascii.eqb c "=" then 1 else 2) in
  fallbackMdToHtml fuel (JStr (join lf [title; under])) o
  = Some ("<h" ++ level ++ ">" ++ renderInline (trim title) o
          ++ "</h" ++ level ++ ">").
Proof.
  intros T F I Hc R Fr Hf level.
  apply (one_block [title; under]
           (Heading (if Ascii.eqb c "=" then 1 else 2) (trim title)));
    try assumption; try reflexivity.
  - discriminate.
  - now apply segment_step_setext.
Qed.

Lemma X28_witness :
  fallbackMdToHtml 2 (JStr ("- item" ++ lf ++ "---")) defaultOptions
  = Some "<h2>- item</h2>".
Proof.
  apply (X28_setext_document "- item" "---" "-" defaultOptions 2);
    try reflexivity.
  - now right.
  - split; [discriminate | reflexivity].
  - repeat constructor.
Defined.

Module FenceOpen.

(** A run of characters of a class ends at the first character outside
    it, or at the end of the text: the run is determined by the text. *)
Lemma run_stop_unique (p : ascii -> bool) (a a' r r' : string) :
  sall p a = true -> sall p a' = true ->
  stops p r = true -> stops p r' = true ->
  a ++ r = a' ++ r' -> a = a' /\ r = r'.
Proof.
  revert a'. induction a as [|x a IH]; intros a' Ha Ha' Hr Hr' E.
  - destruct a' as [|y a']; cbn [append] in E; [auto|].
    subst r. cbn [stops] in Hr. cbn [sall] in Ha'.
    apply andb_true_iff in Ha' as [Hy _]. rewrite Hy in Hr. discriminate.
  - destruct a' as [|y a']; cbn [append] in E.
    + subst r'. cbn [stops] in Hr'. cbn [sall] in Ha.
      apply andb_true_iff in Ha as [Hx _]. rewrite Hx in Hr'. discriminate.
    + injection E as -> E. cbn [sall] in Ha, Ha'.
      apply andb_true_iff in Ha as [_ Ha], Ha' as [_ Ha'].
      destruct (IH a' Ha Ha' Hr Hr' E) as [-> ->]. auto.
Qed.

Lemma lang_not_ws (c : ascii) : isLangChar c = true -> isWs c = false.
Proof.
  assert (A : forallb (fun c => implb (isLangChar c) (negb (isWs c)))
                      all_ascii = true) by (vm_compute; reflexivity).
  intros Hc. pose proof (forall_ascii _ A c) as Ac. cbv beta in Ac.
  rewrite Hc in Ac. cbn [implb] in Ac. now apply negb_true_iff in Ac.
Qed.

Lemma ws_not_lang (c : ascii) : isWs c = true -> isLangChar c = false.
Proof.
  intros W. destruct (isLangChar c) eqn:L; [|reflexivity].
  apply lang_not_ws in L. congruence.
Qed.

Lemma ws_stops_lang (w : string) :
  whitespace w = true -> stops isLangChar w = true.
Proof.
  destruct w as [|c w]; [reflexivity|]. unfold whitespace. cbn [sall stops].
  intros H. apply andb_true_iff in H as [H _].
  now rewrite (ws_not_lang c H).
Qed.

Lemma marker_stops (mk t : string) :
  (mk = "```" \/ mk = "~~~") -> stops isWs (mk ++ t) = true.
Proof. intros [->| ->]; reflexivity. Qed.

Lemma marker_unique (mk mk' t t' : string) :
  (mk = "```" \/ mk = "~~~") -> (mk' = "```" \/ mk' = "~~~") -> mk ++ t = mk' ++ t' ->
  mk = mk' /\ t = t'.
Proof.
  intros [->| ->] [->| ->] E; cbn [append] in E;
    try discriminate; injection E as ->; auto.
Qed.

(** The tag of a fence line is determined by the line. *)
Lemma tag_unique (w1 lg w2 w1' lg' w2' : string) :
  whitespace w1 = true -> whitespace w2 = true ->
  sall isLangChar lg = true ->
  whitespace w1' = true -> whitespace w2' = true ->
  sall isLangChar lg' = true ->
  w1 ++ lg ++ w2 = w1' ++ lg' ++ w2' -> lg = lg'.
Proof.
  unfold whitespace. intros W1 W2 L W1' W2' L' E.
  destruct lg as [|c lg], lg' as [|c' lg']; [reflexivity | | |].
  - exfalso. cbn [append] in E.
    assert (A : sall isWs (w1' ++ String c' (lg' ++ w2')) = true)
      by (rewrite <- E, sall_app, W1, W2; reflexivity).
    rewrite sall_app in A. apply andb_true_iff in A as [_ A].
    cbn [sall] in A, L'. apply andb_true_iff in A as [A _], L' as [L' _].
    apply lang_not_ws in L'. congruence.
  - exfalso. cbn [append] in E.
    assert (A : sall isWs (w1 ++ String c (lg ++ w2)) = true)
      by (rewrite E, sall_app, W1', W2'; reflexivity).
    rewrite sall_app in A. apply andb_true_iff in A as [_ A].
    cbn [sall] in A, L. apply andb_true_iff in A as [A _], L as [L _].
    apply lang_not_ws in L. congruence.
  - cbn [append] in E. cbn [sall] in L, L'.
    apply andb_true_iff in L as [Lc L], L' as [Lc' L'].
    destruct (NumberDoc.run_unique isWs w1 w1' c c' _ _ W1 W1'
                (lang_not_ws _ Lc) (lang_not_ws _ Lc') E) as (_ & -> & E').
    destruct (run_stop_unique isLangChar lg lg' w2 w2' L L'
                (ws_stops_lang _ W2) (ws_stops_lang _ W2') E') as [-> _].
    reflexivity.
Qed.

(** Every line of that shape is matched by the pattern. *)
Lemma fence_matches (ind mk w1 lg w2 : string) :
  whitespace ind = true -> (mk = "```" \/ mk = "~~~") -> whitespace w1 = true ->
  sall isLangChar lg = true -> whitespace w2 = true ->
  exists f, parseFence (ind ++ mk ++ w1 ++ lg ++ w2) = Some f.
Proof.
  intros Wi Hm W1 L W2. unfold parseFence.
  change re_fence with
    (Seq Bol (seqs [Group 1 ws0; Group 2 (Alt (lit "```") (lit "~~~")); ws0;
                    Opt (Group 3 (Plus true (Chr isLangChar))); ws0; Eol])).
  set (line := ind ++ mk ++ w1 ++ lg ++ w2).
  assert (M : exists e,
    Matches (seqs [Group 1 ws0; Group 2 (Alt (lit "```") (lit "~~~")); ws0;
                   Opt (Group 3 (Plus true (Chr isLangChar))); ws0; Eol])
            (MState 0 line []) e).
  { unfold line. cbn [seqs].
    assert (G : forall cs, exists cs',
      Matches (Opt (Group 3 (Plus true (Chr isLangChar))))
              (MState (0 + String.length ind + String.length mk
                       + String.length w1) (lg ++ w2) cs)
              (MState (0 + String.length ind + String.length mk
                       + String.length w1 + String.length lg) w2 cs')).
    { intros cs. destruct lg as [|c lg].
      - exists cs. apply M_AltR. cbn [append String.length].
        rewrite Nat.add_0_r. apply M_Eps.
      - eexists. apply M_AltL.
        pose proof (M_Group 3 _ _ _
          (Matches_plus_class_intro true isLangChar (String c lg)
             ltac:(discriminate) L
             (0 + String.length ind + String.length mk + String.length w1)
             w2 cs)) as G.
        unfold set_cap in G. cbn [pos rest caps] in G. exact G. }
    pose proof (M_Group 1 _ _ _
      (Matches_star_class_intro true isWs ind Wi 0
         (mk ++ w1 ++ lg ++ w2) [])) as M1.
    unfold set_cap in M1. cbn [pos rest caps] in M1.
    assert (M2 : forall cs,
      Matches (Group 2 (Alt (lit "```") (lit "~~~")))
              (MState (0 + String.length ind) (mk ++ w1 ++ lg ++ w2) cs)
              (set_cap 2
                 (MState (0 + String.length ind) (mk ++ w1 ++ lg ++ w2) cs)
                 (MState (0 + String.length ind + String.length mk)
                         (w1 ++ lg ++ w2) cs))).
    { intros cs. apply M_Group.
      destruct Hm as [->| ->]; [apply M_AltL | apply M_AltR];
        apply Matches_lit_intro. }
    unfold set_cap in M2. cbn [pos rest caps] in M2.
    destruct (G ((2, take (0 + String.length ind + String.length mk
                           - (0 + String.length ind))
                          (mk ++ w1 ++ lg ++ w2))
                 :: (1, take (0 + String.length ind - 0)
                             (ind ++ mk ++ w1 ++ lg ++ w2)) :: nil))
      as [cs' G'].
    eexists.
    eapply M_Seq; [exact M1|].
    eapply M_Seq; [apply M2|].
    eapply M_Seq; [apply (Matches_star_class_intro true isWs w1 W1)|].
    eapply M_Seq; [exact G'|].
    eapply M_Seq.
    { rewrite <- (app_nil_r w2) at 1.
      apply (Matches_star_class_intro true isWs w2 W2). }
    apply M_Eol. reflexivity. }
  destruct M as [e M].
  destruct (exec_of_Matches _ _ _ M) as [m ->]. eauto.
Qed.

(** The opening line read back: indentation, marker and tag are those of
    the line. *)
Lemma parseFence_accepts (ind mk w1 lg w2 : string) :
  whitespace ind = true -> (mk = "```" \/ mk = "~~~") -> whitespace w1 = true ->
  sall isLangChar lg = true -> whitespace w2 = true ->
  parseFence (ind ++ mk ++ w1 ++ lg ++ w2)
  = Some (Fence (String.length ind) mk lg).
Proof.
  intros Wi Hm W1 L W2.
  destruct (fence_matches ind mk w1 lg w2 Wi Hm W1 L W2) as [f Hf].
  rewrite Hf. f_equal.
  destruct (parseFence_shape _ _ Hf)
    as (ind' & w1' & w2' & E & Hm' & Wi' & W1' & W2' & L' & I).
  destruct f as [n mk' lg']. cbn [indent marker lang] in *.
  destruct (run_stop_unique isWs ind ind' _ _ Wi Wi'
              (marker_stops mk _ Hm) (marker_stops mk' _ Hm') E)
    as [<- E1].
  destruct (marker_unique mk mk' _ _ Hm Hm' E1) as [<- E2].
  rewrite (tag_unique w1 lg w2 w1' lg' w2' W1 W2 L W1' W2' L' E2).
  now rewrite I.
Qed.

End FenceOpen.
Import FenceOpen.

Module CodeSpans.

Lemma replace_walk_skip_app r f (a : string) :
  forall p t, replace_walk r f p (String.length a) (a ++ t)
              = replace_walk r f (p + String.length a) 0 t.
Proof.
  induction a as [|c a IH]; intros p t; cbn [String.length append].
  - now rewrite Nat.add_0_r.
  - cbn [replace_walk]. rewrite IH. f_equal. lia.
Qed.

Lemma not_backtick (x : ascii) : notc BT x = true -> chr BT x = false.
Proof. unfold notc, chr. apply negb_true_iff. Qed.

(** The pattern after its first group: the span, and no backtick after
    it. *)
Lemma code_tail (i : nat) (cs0 : list (nat * string)) (c : ascii)
      (e R : string) :
  notc BT c = true -> sall (notc BT) e = true ->
  stops (chr BT) R = true ->
  rmatch (seqs [Chr (chr BT); Group 2 (Plus true (Chr (notc BT)));
                Chr (chr BT); NotAhead (Chr (chr BT))])
         (MState i (String BT (String c e ++ String BT R)) cs0)
         (fun x => Some x)
  = Some (MState (i + String.length e + 3) R ((2, String c e) :: cs0)).
Proof.
  intros Hc He HR. cbn [seqs Plus].
  apply run_Seq, run_Chr; [apply chr_refl|].
  apply run_Seq, run_Group, run_Seq. cbn [append].
  apply run_Chr; [exact Hc|].
  apply rmatch_star_class; [reflexivity | exact He |].
  unfold set_cap. cbn [pos rest caps].
  apply run_Seq, run_Chr; [apply chr_refl|].
  apply run_NotAhead.
  { destruct R as [|y R]; [reflexivity|]. cbn [stops] in HR.
    apply negb_true_iff in HR. now apply run_Chr_fail. }
  apply f_equal, mstate_eq; [lia | reflexivity |].
  do 2 f_equal.
  replace (S (S i) + String.length e - S i) with (S (String.length e))
    by lia.
  change (String c (e ++ String BT R)) with (String c e ++ String BT R).
  now apply take_len_app.
Qed.

(** A span at the start of the text. *)
Lemma matchAt_code_start (c : ascii) (e R : string) :
  notc BT c = true -> sall (notc BT) e = true ->
  stops (chr BT) R = true ->
  matchAt re_code 0 (String BT (String c e ++ String BT R))
  = Some (MResult (String BT (String c e ++ str1 BT))
                  [(2, String c e); (1, "")] 0).
Proof.
  intros Hc He HR. unfold matchAt.
  assert (Q : rmatch re_code
                (MState 0 (String BT (String c e ++ String BT R)) [])
                (fun x => Some x)
              = Some (MState (0 + String.length e + 3) R
                             [(2, String c e); (1, "")])).
  { unfold re_code.
    change (seqs [Group 1 (Alt Bol (Chr (notc BT))); Chr (chr BT);
                  Group 2 (Plus true (Chr (notc BT))); Chr (chr BT);
                  NotAhead (Chr (chr BT))])
      with (Seq (Group 1 (Alt Bol (Chr (notc BT))))
                (seqs [Chr (chr BT); Group 2 (Plus true (Chr (notc BT)));
                       Chr (chr BT); NotAhead (Chr (chr BT))])).
    apply run_Seq, run_Group, run_AltL, run_Bol.
    unfold set_cap. cbn [pos rest caps Nat.sub take].
    now apply code_tail. }
  rewrite Q. cbn [pos caps]. do 2 f_equal.
  replace (0 + String.length e + 3 - 0)
    with (String.length (String BT (String c e ++ str1 BT)))
    by (cbn [String.length append]; rewrite length_app;
        unfold str1; cbn [String.length]; lia).
  change (String BT (String c e ++ String BT R))
    with (String BT (String c (e ++ String BT R))).
  replace (String BT (String c (e ++ String BT R)))
    with (String BT (String c e ++ str1 BT) ++ R).
  - apply take_app.
  - cbn [append]. do 2 f_equal. rewrite app_assoc. reflexivity.
Qed.

(** A span after a character that is no backtick. *)
Lemma matchAt_code_after (p : nat) (x c : ascii) (e R : string) :
  notc BT x = true ->
  notc BT c = true -> sall (notc BT) e = true ->
  stops (chr BT) R = true ->
  matchAt re_code p (String x (String BT (String c e ++ String BT R)))
  = Some (MResult (String x (String BT (String c e ++ str1 BT)))
                  [(2, String c e); (1, str1 x)] p).
Proof.
  intros Hx Hc He HR. unfold matchAt.
  assert (Q : rmatch re_code
                (MState p (String x (String BT (String c e ++ String BT R)))
                        [])
                (fun x => Some x)
              = Some (MState (S p + String.length e + 3) R
                             [(2, String c e); (1, str1 x)])).
  { unfold re_code.
    change (seqs [Group 1 (Alt Bol (Chr (notc BT))); Chr (chr BT);
                  Group 2 (Plus true (Chr (notc BT))); Chr (chr BT);
                  NotAhead (Chr (chr BT))])
      with (Seq (Group 1 (Alt Bol (Chr (notc BT))))
                (seqs [Chr (chr BT); Group 2 (Plus true (Chr (notc BT)));
                       Chr (chr BT); NotAhead (Chr (chr BT))])).
    apply run_Seq, run_Group, run_AltR.
    { cbn [rmatch pos]. destruct (Nat.eqb p 0); [|reflexivity].
      unfold set_cap. cbn [pos rest caps seqs].
      apply run_Seq_fail. intros k'.
      apply run_Chr_fail, not_backtick, Hx. }
    apply run_Chr; [exact Hx|].
    unfold set_cap. cbn [pos rest caps].
    replace (S p - p) with 1 by lia. cbn [take].
    now apply code_tail. }
  rewrite Q. cbn [pos caps]. do 2 f_equal.
  replace (S p + String.length e + 3 - p)
    with (String.length (String x (String BT (String c e ++ str1 BT))))
    by (cbn [String.length append]; rewrite length_app;
        unfold str1; cbn [String.length]; lia).
  replace (String x (String BT (String c e ++ String BT R)))
    with (String x (String BT (String c e ++ str1 BT)) ++ R).
  - apply take_app.
  - cbn [append]. do 3 f_equal. rewrite app_assoc. reflexivity.
Qed.

(** Between two characters that are no backticks no span begins. *)
Lemma matchAt_code_text (p : nat) (x y : ascii) (s : string) :
  notc BT x = true -> notc BT y = true ->
  matchAt re_code p (String x (String y s)) = None.
Proof.
  intros Hx Hy. unfold matchAt.
  assert (Q : rmatch re_code (MState p (String x (String y s)) [])
                     (fun x => Some x) = None).
  { unfold re_code.
    change (seqs [Group 1 (Alt Bol (Chr (notc BT))); Chr (chr BT);
                  Group 2 (Plus true (Chr (notc BT))); Chr (chr BT);
                  NotAhead (Chr (chr BT))])
      with (Seq (Group 1 (Alt Bol (Chr (notc BT))))
                (seqs [Chr (chr BT); Group 2 (Plus true (Chr (notc BT)));
                       Chr (chr BT); NotAhead (Chr (chr BT))])).
    apply run_Seq, run_Group, run_AltR.
    { cbn [rmatch pos]. destruct (Nat.eqb p 0); [|reflexivity].
      unfold set_cap. cbn [pos rest caps seqs].
      apply run_Seq_fail. intros k'.
      apply run_Chr_fail, not_backtick, Hx. }
    apply run_Chr; [exact Hx|].
    unfold set_cap. cbn [pos rest caps seqs].
    apply run_Seq_fail. intros k'.
    apply run_Chr_fail, not_backtick, Hy. }
  now rewrite Q.
Qed.

Lemma free_backtick (w : string) :
  sall (notc BT) w = true -> free (chr BT) w = true.
Proof. intros H. exact H. Qed.

Lemma needs_backtick : needs (chr BT) re_code = true.
Proof. vm_compute. reflexivity. Qed.

Lemma span_text (c R : string) :
  backticked c ++ R = String BT (c ++ String BT R).
Proof.
  unfold backticked, str1. cbn [append]. now rewrite app_assoc.
Qed.

Lemma span_skip (c R : string) : c ++ String BT R = (c ++ str1 BT) ++ R.
Proof. now rewrite app_assoc. Qed.

(** One step of the scan: at a match, and where there is none. *)
Lemma walk_hit r f (p : nat) (c : ascii) (s a t : string) (m : mresult) :
  matchAt r p (String c s) = Some m ->
  whole m = String c a -> s = a ++ t ->
  replace_walk r f p 0 (String c s)
  = f m ++ replace_walk r f (S p + String.length a) 0 t.
Proof.
  intros H W ->. cbn [replace_walk]. rewrite H, W. cbn [String.length].
  now rewrite replace_walk_skip_app.
Qed.

Lemma walk_miss r f (p : nat) (c : ascii) (s : string) :
  matchAt r p (String c s) = None ->
  replace_walk r f p 0 (String c s)
  = String c (replace_walk r f (S p) 0 s).
Proof. intros H. cbn [replace_walk]. now rewrite H. Qed.

(** The scan from the start of a text, or from inside it, up to the end
    of the first span: the text is kept and the span becomes the
    element. *)
Lemma walk_to_span (c R : string) :
  c <> "" -> sall (notc BT) c = true -> stops (chr BT) R = true ->
  forall w p,
    sall (notc BT) w = true -> p = 0 \/ w <> "" ->
    exists q,
      replace_walk re_code (fun m => codeReplacer (grp 1 m) (grp 2 m)) p 0
        (w ++ backticked c ++ R)
      = w ++ codeElement c
        ++ replace_walk re_code
             (fun m => codeReplacer (grp 1 m) (grp 2 m)) q 0 R.
Proof.
  intros Nc Hc HR. destruct c as [|c e]; [contradiction|].
  cbn [sall] in Hc. apply andb_true_iff in Hc as [Hc He].
  rewrite span_text.
  induction w as [|x w IH]; intros p Hw Hp.
  - destruct Hp as [->|Hp]; [|contradiction].
    eexists.
    change ("" ++ String BT (String c e ++ String BT R))
      with (String BT (String c e ++ String BT R)).
    rewrite (walk_hit _ _ 0 BT _ (String c e ++ str1 BT) R _
               (matchAt_code_start c e R Hc He HR) eq_refl
               (span_skip _ _)).
    unfold codeReplacer, codeElement.
    change (grp 1 (MResult (String BT (String c e ++ str1 BT))
                           [(2, String c e); (1, "")] 0)) with "".
    change (grp 2 (MResult (String BT (String c e ++ str1 BT))
                           [(2, String c e); (1, "")] 0))
      with (String c e).
    rewrite !app_assoc. reflexivity.
  - cbn [sall] in Hw. apply andb_true_iff in Hw as [Hx Hw].
    destruct w as [|y w].
    + eexists.
      change (String x "" ++ String BT (String c e ++ String BT R))
        with (String x (String BT (String c e ++ String BT R))).
      rewrite (walk_hit _ _ p x _ (String BT (String c e ++ str1 BT)) R _
                 (matchAt_code_after p x c e R Hx Hc He HR) eq_refl
                 (f_equal (String BT) (span_skip _ _))).
      unfold codeReplacer, codeElement.
      change (grp 1 (MResult (String x (String BT (String c e ++ str1 BT)))
                             [(2, String c e); (1, str1 x)] p))
        with (str1 x).
      change (grp 2 (MResult (String x (String BT (String c e ++ str1 BT)))
                             [(2, String c e); (1, str1 x)] p))
        with (String c e).
      rewrite !app_assoc. reflexivity.
    + pose proof Hw as Hw'. cbn [sall] in Hw'.
      apply andb_true_iff in Hw' as [Hy _].
      assert (Ny : String y w <> "") by discriminate.
      destruct (IH (S p) Hw (or_intror Ny)) as [q E].
      exists q.
      change (String x (String y w)
              ++ String BT (String c e ++ String BT R))
        with (String x (String y (w ++ String BT
                                        (String c e ++ String BT R)))).
      rewrite (walk_miss _ _ p x _ (matchAt_code_text p x y _ Hx Hy)).
      change (String y (w ++ String BT (String c e ++ String BT R)))
        with (String y w ++ String BT (String c e ++ String BT R)).
      rewrite E. reflexivity.
Qed.

(** The inline-code stage on a text of well-formed spans. *)
Lemma walk_spans (cs : list (string * string)) :
  codeSpans cs = true ->
  forall w p,
    sall (notc BT) w = true -> p = 0 \/ w <> "" ->
    replace_walk re_code (fun m => codeReplacer (grp 1 m) (grp 2 m)) p 0
       (w ++ spanned backticked cs)
    = w ++ spanned codeElement cs.
Proof.
  induction cs as [|[c t] cs IH]; intros H w p Hw Hp.
  - cbn [spanned]. rewrite app_nil_r.
    apply (replace_walk_needs (chr BT)); [exact needs_backtick|].
    now apply free_backtick.
  - cbn [codeSpans] in H.
    apply andb_true_iff in H as [H Hcs].
    apply andb_true_iff in H as [H Hl].
    apply andb_true_iff in H as [H Ht].
    apply andb_true_iff in H as [Nc Hc].
    assert (Nc' : c <> "") by (destruct c; [discriminate | discriminate]).
    cbn [spanned].
    assert (HR : stops (chr BT) (t ++ spanned backticked cs) = true).
    { destruct t as [|y t].
      - destruct cs; [reflexivity | discriminate].
      - cbn [sall] in Ht. apply andb_true_iff in Ht as [Hy _].
        cbn [append stops]. now rewrite (not_backtick y Hy). }
    destruct (walk_to_span c _ Nc' Hc HR w p Hw Hp) as [q E].
    rewrite E. do 2 f_equal.
    destruct t as [|y t].
    + destruct cs; [|discriminate]. cbn [spanned append].
      apply (replace_walk_needs (chr BT)); [exact needs_backtick|].
      reflexivity.
    + apply (IH Hcs); [exact Ht | right; discriminate].
Qed.

Lemma stageCode_spans (t0 : string) (cs : list (string * string)) :
  sall (notc BT) t0 = true -> codeSpans cs = true ->
  stageCode (t0 ++ spanned backticked cs)
  = t0 ++ spanned codeElement cs.
Proof.
  intros H0 Hcs. unfold stageCode, replaceAll.
  apply (walk_spans cs Hcs t0 0 H0). now left.
Qed.

(** Escaping goes through the spans. *)
Lemma escapeHtml_spanned (cs : list (string * string)) :
  escapeHtml (spanned backticked cs)
  = spanned backticked (map escapeSpan cs).
Proof.
  induction cs as [|[c t] cs IH]; [reflexivity|].
  cbn [spanned map escapeSpan fst snd].
  rewrite !escapeHtml_app, IH.
  unfold backticked at 1 3. now rewrite escapeHtml_span.
Qed.

Lemma codeSpans_escaped (cs : list (string * string)) :
  codeSpans cs = true -> codeSpans (map escapeSpan cs) = true.
Proof.
  induction cs as [|[c t] cs IH]; [reflexivity|].
  cbn [codeSpans map escapeSpan fst snd]. intros H.
  apply andb_true_iff in H as [H Hcs].
  apply andb_true_iff in H as [H Hl].
  apply andb_true_iff in H as [H Ht].
  apply andb_true_iff in H as [Nc Hc].
  rewrite (IH Hcs), (no_backtick_escapeHtml c Hc),
    (no_backtick_escapeHtml t Ht).
  assert (Nc' : truthy (escapeHtml c) = true).
  { destruct c as [|x c]; [discriminate|].
    pose proof (escapeHtml_nonempty (String x c) ltac:(discriminate)) as N.
    destruct (escapeHtml (String x c)); [contradiction | reflexivity]. }
  rewrite Nc'. cbn [andb]. rewrite andb_true_r.
  destruct t as [|y t].
  - destruct cs; [reflexivity | discriminate].
  - pose proof (escapeHtml_nonempty (String y t) ltac:(discriminate)) as N.
    destruct (escapeHtml (String y t)); [contradiction | reflexivity].
Qed.

Lemma plain_spanned (cs : list (string * string)) :
  plainSpans cs = true ->
  plain (spanned codeElement (map escapeSpan cs)) = true.
Proof.
  induction cs as [|[c t] cs IH]; [reflexivity|].
  unfold plainSpans. cbn [forallb fst snd map escapeSpan spanned].
  intros H. apply andb_true_iff in H as [H Hcs].
  apply andb_true_iff in H as [Hc Ht].
  assert (PA : forall a b, plain (a ++ b) = plain a && plain b)
    by (intros; apply sall_app).
  rewrite !PA, (IH Hcs), (plain_escapeHtml t Ht).
  rewrite (plain_code_element _ (plain_escapeHtml c Hc)
           : plain (codeElement (escapeHtml c)) = true).
  reflexivity.
Qed.

(** The renderer on a text of well-formed spans. *)
Lemma renderInline_spans (t0 : string) (cs : list (string * string))
      (o : options) :
  sall (notc BT) t0 = true -> codeSpans cs = true ->
  renderInline (t0 ++ spanned backticked cs) o
  = laterStages o
      (escapeHtml t0 ++ spanned codeElement (map escapeSpan cs)).
Proof.
  intros H0 Hcs. unfold renderInline.
  rewrite escapeHtml_app, escapeHtml_spanned.
  rewrite stageCode_spans;
    [reflexivity | now apply no_backtick_escapeHtml
     | now apply codeSpans_escaped].
Qed.

End CodeSpans.
Import CodeSpans.

Module InContext.


















End InContext.
Import InContext.

Module SchemeKept.





End SchemeKept.
Import SchemeKept.

(* ================================================================== *)
(** ** The claims *)
(* ================================================================== *)

(** C1 (amended): with the unsafe flag off, [safeLinkHref] returns the empty
    string for every candidate that, once trimmed, begins up to case with
    [javascript:], [vbscript:] or [data:]; every other candidate is
    returned with its surrounding whitespace trimmed (not verbatim): what
    is removed is whitespace, and none is left at either end. *)
Theorem C1_safeLinkHref_default (candidate : string) :
  (dangerous (trim candidate) -> safeLinkHref candidate false = "")
  /\ (~ dangerous (trim candidate) ->
      safeLinkHref candidate false = trim candidate)
  /\ (exists a b, candidate = a ++ trim candidate ++ b
                  /\ whitespace a = true /\ whitespace b = true)
  /\ trim (trim candidate) = trim candidate.
Proof.
  rewrite safeLinkHref_default. split; [|split; [|split]].
  - intros H. apply dangerous_iff in H. now rewrite H.
  - intros H. destruct (dangerousb (trim candidate)) eqn:E; [|reflexivity].
    exfalso. apply H. now apply dangerous_iff.
  - apply trim_spec.
  - apply trim_fixed.
Qed.

Lemma C1_witness :
  safeLinkHref " JavaScript:alert(1)" false = ""
  /\ safeLinkHref "mailto:a@b.c " false = "mailto:a@b.c".
Proof.
  split.
  - apply (proj1 (C1_safeLinkHref_default " JavaScript:alert(1)")).
    left. exists "JavaScript:", "alert(1)". split; reflexivity.
  - apply (proj1 (proj2 (C1_safeLinkHref_default "mailto:a@b.c "))).
    intros H. apply dangerous_iff in H. discriminate H.
Defined.

(** C1 (as stated) fails: a fragment-only href with a leading space is
    non-empty and has no rejected scheme, yet is not returned verbatim. *)
Lemma C1_counterexample :
  ~ dangerous (trim " #top")
  /\ " #top" <> ""
  /\ safeLinkHref " #top" false <> " #top".
Proof.
  split; [|split].
  - intros H. apply dangerous_iff in H. discriminate H.
  - discriminate.
  - vm_compute. discriminate.
Qed.




(** C3 (the code departs from it): on the one-line input of a hyphen and a
    space, no recogniser but the paragraph accepts the line, and the
    paragraph scan stops at once on its list-marker test: the step pushes
    an empty paragraph and leaves the cursor where it was, so the main
    loop does not end, whatever the fuel. *)
Theorem C3_cursor_stalls :
  splitLines (JStr "- ") = ["- "]
  /\ parseList ["- "] 0 = None
  /\ parseParagraph ["- "] 0 = Some (Paragraph [], 0)
  /\ segment_step ["- "] 0 = (Some (Paragraph []), 0)
  /\ (forall fuel blocks, segment fuel ["- "] 0 blocks = None)
  /\ (forall fuel o, fallbackMdToHtml fuel (JStr "- ") o = None).
Proof.
  assert (S0 : segment_step ["- "] 0 = (Some (Paragraph []), 0))
    by (vm_compute; reflexivity).
  assert (L : forall fuel blocks, segment fuel ["- "] 0 blocks = None).
  { apply (Progress.segment_stalls ["- "] 0 _ ltac:(simpl; lia) S0). }
  split; [vm_compute; reflexivity|].
  split; [vm_compute; reflexivity|].
  split; [vm_compute; reflexivity|].
  split; [exact S0|]. split; [exact L|].
  intros [|fuel] o; [reflexivity|].
  cbn [fallbackMdToHtml].
  change (splitLines (JStr "- ")) with ["- "]. now rewrite L.
Qed.

(** C4 (amended): in a text whose backticks delimit code spans (no span
    content and no text around a span holds a backtick, no content is
    empty, and two spans do not touch), the first stage of the inline
    renderer turns every span into a [<code>] element holding the escaped
    content, and the later stages then run over the whole text, the
    contents of the elements included.  If neither the contents nor the
    texts around them have any of the characters the later stages react to
    (bracket, tilde, asterisk, underscore, colon), the contents stay
    literal: that condition is sufficient. *)
Theorem C4_code_span (t0 : string) (cs : list (string * string))
        (o : options) :
  sall (notc BT) t0 = true -> codeSpans cs = true ->
  renderInline (t0 ++ spanned backticked cs) o
  = laterStages o (escapeHtml t0 ++ spanned codeElement (map escapeSpan cs))
  /\ (plain t0 = true -> plainSpans cs = true ->
      renderInline (t0 ++ spanned backticked cs) o
      = escapeHtml t0 ++ spanned codeElement (map escapeSpan cs)).
Proof.
  intros H0 Hcs.
  pose proof (renderInline_spans t0 cs o H0 Hcs) as A.
  split; [exact A|].
  intros P0 Pcs. rewrite A. apply laterStages_plain.
  unfold plain. rewrite sall_app.
  fold (plain (escapeHtml t0)).
  fold (plain (spanned codeElement (map escapeSpan cs))).
  now rewrite (plain_escapeHtml t0 P0), (plain_spanned cs Pcs).
Qed.

Lemma C4_witness :
  renderInline "see `a < b` and `x`" defaultOptions
  = "see <code>a &lt; b</code> and <code>x</code>".
Proof.
  pose proof (proj2 (C4_code_span "see " [("a < b", " and "); ("x", "")]
                       defaultOptions eq_refl eq_refl) eq_refl eq_refl) as H.
  vm_compute in H. vm_compute. exact H.
Defined.

(** C4 (as stated) fails: emphasis markers inside backticks do not stay
    literal, the bold stage rewrites them inside the [<code>] element. *)
Lemma C4_counterexample :
  renderInline (str1 BT ++ "**x**" ++ str1 BT) defaultOptions
  = "<code><strong>x</strong></code>"
  /\ renderInline (str1 BT ++ "**x**" ++ str1 BT) defaultOptions
     <> "<code>**x**</code>".
Proof. split; [vm_compute; reflexivity | vm_compute; discriminate]. Qed.




(** C6: on a line that is not blank, the main loop emits the block of the
    first recogniser that accepts, in the order fenced code, indented code,
    setext heading, ATX heading, thematic break, blockquote, table, list,
    paragraph; a fenced block whose body line looks like an ATX heading is
    one code block. *)
Theorem C6_block_priority :
  (forall lines i,
      truthy (trim (nth i lines "")) = true ->
      exists pre kd r post b next,
        priority = (pre ++ (kd, r) :: post)%list
        /\ (forall e, In e pre -> snd e lines i = None)
        /\ r lines i = Some (b, next)
        /\ firstMatch priority lines i = Some (kd, b, next)
        /\ segment_step lines i = (Some b, next))
  /\ isSome (parseAtxHeading "# not a heading") = true
  /\ fallbackMdToHtml 3
       (JStr ("```" ++ lf ++ "# not a heading" ++ lf ++ "```")) defaultOptions
     = Some "<pre><code># not a heading</code></pre>".
Proof.
  split; [|split; vm_compute; reflexivity].
  intros lines i Hnb. unfold segment_step. rewrite Hnb. cbn [negb].
  unfold priority. cbn [firstMatch].
  unfold fenceAt at 2.
  destruct (parseFence (nth i lines "")) as [f|] eqn:E1.
  { destruct (fence_loop _ _ _ _) as [buf j] eqn:EL.
    exists [], FencedCode, fenceAt, (tl priority). do 2 eexists.
    repeat split; [intros e []|]. unfold fenceAt. now rewrite E1, EL. }
  destruct (parseIndentedCode lines i) as [[b next]|] eqn:E2.
  { exists (firstn 1 priority), IndentedCode, parseIndentedCode,
      (skipn 2 priority), b, next.
    repeat split; try assumption.
    intros e [<-|[]]. cbn [snd]. unfold fenceAt. now rewrite E1. }
  unfold setextAt at 2.
  destruct (parseSetextHeading lines i) as [[[level text] next]|] eqn:E3.
  { exists (firstn 2 priority), SetextHeading, setextAt,
      (skipn 3 priority). do 2 eexists.
    repeat split; [|unfold setextAt; now rewrite E3].
    intros e [<-|[<-|[]]]; cbn [snd]; [unfold fenceAt; now rewrite E1|].
    exact E2. }
  unfold atxAt at 2.
  destruct (parseAtxHeading (nth i lines "")) as [[level text]|] eqn:E4.
  { exists (firstn 3 priority), AtxHeading, atxAt, (skipn 4 priority).
    do 2 eexists.
    repeat split; [|unfold atxAt; now rewrite E4].
    intros e [<-|[<-|[<-|[]]]]; cbn [snd];
      [unfold fenceAt; now rewrite E1 | exact E2
       | unfold setextAt; now rewrite E3]. }
  unfold breakAt at 2.
  destruct (isThematicBreak (nth i lines "")) eqn:E5.
  { exists (firstn 4 priority), ThematicBreak, breakAt, (skipn 5 priority).
    do 2 eexists.
    repeat split; [|unfold breakAt; now rewrite E5].
    intros e [<-|[<-|[<-|[<-|[]]]]]; cbn [snd];
      [unfold fenceAt; now rewrite E1 | exact E2
       | unfold setextAt; now rewrite E3 | unfold atxAt; now rewrite E4]. }
  destruct (parseBlockquote lines i) as [[b next]|] eqn:E6.
  { exists (firstn 5 priority), Quote, parseBlockquote, (skipn 6 priority),
      b, next.
    repeat split; try assumption.
    intros e [<-|[<-|[<-|[<-|[<-|[]]]]]]; cbn [snd];
      [unfold fenceAt; now rewrite E1 | exact E2
       | unfold setextAt; now rewrite E3 | unfold atxAt; now rewrite E4
       | unfold breakAt; now rewrite E5]. }
  destruct (parseTable lines i) as [[b next]|] eqn:E7.
  { exists (firstn 6 priority), PipeTable, parseTable, (skipn 7 priority),
      b, next.
    repeat split; try assumption.
    intros e [<-|[<-|[<-|[<-|[<-|[<-|[]]]]]]]; cbn [snd];
      [unfold fenceAt; now rewrite E1 | exact E2
       | unfold setextAt; now rewrite E3 | unfold atxAt; now rewrite E4
       | unfold breakAt; now rewrite E5 | exact E6]. }
  destruct (parseList lines i) as [[b next]|] eqn:E8.
  { exists (firstn 7 priority), ListKind, parseList, (skipn 8 priority),
      b, next.
    repeat split; try assumption.
    intros e [<-|[<-|[<-|[<-|[<-|[<-|[<-|[]]]]]]]]; cbn [snd];
      [unfold fenceAt; now rewrite E1 | exact E2
       | unfold setextAt; now rewrite E3 | unfold atxAt; now rewrite E4
       | unfold breakAt; now rewrite E5 | exact E6 | exact E7]. }
  destruct (parseParagraph lines i) as [[b next]|] eqn:E9.
  { exists (firstn 8 priority), ParagraphKind, parseParagraph, [], b, next.
    repeat split; try assumption.
    intros e [<-|[<-|[<-|[<-|[<-|[<-|[<-|[<-|[]]]]]]]]]; cbn [snd];
      [unfold fenceAt; now rewrite E1 | exact E2
       | unfold setextAt; now rewrite E3 | unfold atxAt; now rewrite E4
       | unfold breakAt; now rewrite E5 | exact E6 | exact E7 | exact E8]. }
  exfalso. unfold parseParagraph in E9.
  destruct (paragraph_loop _ _ _ _). discriminate.
Qed.

Lemma C6_witness :
  exists b next,
    firstMatch priority ["Title"; "---"] 0 = Some (SetextHeading, b, next)
    /\ segment_step ["Title"; "---"] 0 = (Some b, next).
Proof.
  destruct (proj1 C6_block_priority ["Title"; "---"] 0 eq_refl)
    as (pre & kd & r & post & b & next & _ & _ & _ & Hf & Hs).
  exists b, next. split; [|exact Hs].
  rewrite Hf. vm_compute in Hf. now injection Hf as <- _ _.
Defined.

(** C7 (amended): a fenced code block opens with a line of exactly three
    backticks or three tildes, and with every such line: indentation
    before the marker, whitespace and a language tag of letters, digits,
    underscores and hyphens after it, and nothing else (a longer run of the
    character is no opening).  The fence records the width of the
    indentation, the marker and the tag.  It closes at the first later line
    that holds exactly that three-character marker with whitespace only
    around it (a longer run does not close), or at the end of the input: an
    unterminated fence takes all remaining lines into one code block. *)
Theorem C7_fenced_code :
  (forall line f,
      parseFence line = Some f
      <-> exists ind w1 w2,
            line = ind ++ marker f ++ w1 ++ lang f ++ w2
            /\ (marker f = "```" \/ marker f = "~~~")
            /\ whitespace ind = true /\ whitespace w1 = true
            /\ whitespace w2 = true /\ sall isLangChar (lang f) = true
            /\ indent f = String.length ind)
  /\ forall (lines : list string) (i : nat) (f : fence),
      parseFence (nth i lines "") = Some f ->
      (forall l, test (re_fence_end (marker f)) l = true
                 <-> exists w1 w2, l = w1 ++ marker f ++ w2
                                   /\ whitespace w1 = true
                                   /\ whitespace w2 = true)
      /\ (forall body l after,
             skipn (S i) lines = (body ++ l :: after)%list ->
             (forall b, In b body ->
                        test (re_fence_end (marker f)) b = false) ->
             test (re_fence_end (marker f)) l = true ->
             segment_step lines i
             = (Some (Code (lang f) (join lf body)),
                S i + List.length body + 1))
      /\ ((forall l, In l (skipn (S i) lines) ->
                     test (re_fence_end (marker f)) l = false) ->
          segment_step lines i
          = (Some (Code (lang f) (join lf (skipn (S i) lines))),
             List.length lines)).
Proof.
  split.
  { intros line f. split.
    - apply parseFence_shape.
    - intros (ind & w1 & w2 & -> & Hm & Wi & W1 & W2 & L & I).
      rewrite (parseFence_accepts ind (marker f) w1 (lang f) w2
                 Wi Hm W1 L W2), <- I.
      now destruct f. }
  intros lines i f H. pose proof (parseFence_in_range lines i f H) as Hi.
  pose proof (List.length_skipn (S i) lines) as Hlen.
  split; [|split].
  - intros l. apply closes_iff.
  - intros body l after E Hb Hl.
    rewrite (segment_step_fence lines i f H), E.
    rewrite (fence_loop_closed (marker f) body l after Hb Hl).
    cbn [List.app]. rewrite E, List.length_app in Hlen. cbn [List.length] in Hlen.
    replace (Nat.ltb (S i + List.length body) (List.length lines)) with true
      by (symmetry; apply Nat.ltb_lt; lia).
    f_equal. lia.
  - intros Hopen.
    rewrite (segment_step_fence lines i f H).
    rewrite (fence_loop_open (marker f) _ Hopen). cbn [List.app].
    replace (S i + List.length (skipn (S i) lines)) with (List.length lines)
      by lia.
    now rewrite Nat.ltb_irrefl.
Qed.

Lemma C7_witness :
  parseFence ("  ~~~ js-2 ") = Some (Fence 2 "~~~" "js-2")
  /\ segment_step ["```js"; "a = 1"; "```"; "b"] 0
     = (Some (Code "js" "a = 1"), 3)
  /\ segment_step ["~~~"; "a"; "b"] 0
     = (Some (Code "" ("a" ++ lf ++ "b")), 3).
Proof.
  split; [|split].
  - apply (proj2 (proj1 C7_fenced_code "  ~~~ js-2 " (Fence 2 "~~~" "js-2"))).
    exists "  ", " ", " ". repeat split; try reflexivity. now right.
  - apply (proj1 (proj2
      (proj2 C7_fenced_code ["```js"; "a = 1"; "```"; "b"] 0
             (Fence 0 "```" "js") eq_refl)) ["a = 1"] "```" ["b"] eq_refl).
    + intros b [<-|[]]. reflexivity.
    + reflexivity.
  - apply (proj2 (proj2
      (proj2 C7_fenced_code ["~~~"; "a"; "b"] 0 (Fence 0 "~~~" "") eq_refl))).
    intros l [<-|[<-|[]]]; reflexivity.
Defined.

(** C7 (as stated) fails: a line of four backticks or tildes opens no
    fence, and a line of four backticks does not close a fence opened by
    three. *)
Lemma C7_counterexample :
  parseFence "````" = None
  /\ parseFence "~~~~" = None
  /\ fallbackMdToHtml 5 (JStr ("````" ++ lf ++ "code" ++ lf ++ "````"))
                      defaultOptions
     = Some "<p>````<br/>code<br/>````</p>"
  /\ segment_step ["```"; "a"; "````"; "b"] 0
     = (Some (Code "" ("a" ++ lf ++ "````" ++ lf ++ "b")), 4).
Proof. repeat split; vm_compute; reflexivity. Qed.

(** C8 (amended): with the unsafe flag on, [safeLinkHref] makes no scheme
    check and returns the candidate with its surrounding whitespace
    trimmed; a candidate that trimming leaves alone is returned unchanged,
    as is ["javascript:x"]. *)
Theorem C8_safeLinkHref_unsafe :
  (forall candidate, safeLinkHref candidate true = trim candidate)
  /\ (forall candidate, trim candidate = candidate ->
                        safeLinkHref candidate true = candidate)
  /\ safeLinkHref "javascript:x" true = "javascript:x".
Proof.
  split; [|split].
  - apply safeLinkHref_unsafe.
  - intros c H. now rewrite safeLinkHref_unsafe.
  - reflexivity.
Qed.

Lemma C8_witness : safeLinkHref "data:text/html,x" true = "data:text/html,x".
Proof.
  apply (proj1 (proj2 C8_safeLinkHref_unsafe)). reflexivity.
Defined.

(** C8 (as stated) fails: a candidate with a leading space does not pass
    through unchanged. *)
Lemma C8_counterexample : safeLinkHref " javascript:x" true <> " javascript:x".
Proof. vm_compute. discriminate. Qed.

(** C9 (amended): [escapeHtml] is not idempotent: it escapes every
    character of its input once, the ampersand of an entity included, so
    escaping ["&amp;"] yields ["&amp;amp;"].  Within one application no
    character is escaped twice, one [unescapeHtml] undoes it, and the
    inline renderer applies it to its input once: a text without markup
    characters renders as its escaped form. *)
Theorem C9_escape_once :
  (forall s, escapeHtml s = escapeChars s)
  /\ escapeHtml "&amp;" = "&amp;amp;"
  /\ (forall s, unescapeHtml (escapeHtml s) = s)
  /\ (forall text o, plain text = true ->
                     renderInline text o = escapeHtml text).
Proof.
  split; [exact escapeHtml_chars | split; [reflexivity|]].
  split; [exact unescape_escape|].
  intros text o H. now apply renderInline_plain.
Qed.

Lemma C9_witness :
  renderInline "Tom & Jerry" defaultOptions = "Tom &amp; Jerry".
Proof.
  apply (proj2 (proj2 (proj2 C9_escape_once)) "Tom & Jerry" defaultOptions).
  reflexivity.
Defined.

(** C9 (as stated) fails: escaping the already-escaped ["&amp;"] yields
    ["&amp;amp;"], in the escape function and through the inline renderer. *)
Lemma C9_counterexample :
  escapeHtml (escapeHtml "&") = "&amp;amp;"
  /\ escapeHtml (escapeHtml "&") <> escapeHtml "&"
  /\ renderInline "&amp;" defaultOptions = "&amp;amp;".
Proof.
  split; [reflexivity | split; [vm_compute; discriminate | reflexivity]].
Qed.

(** C10: without an external engine, the entry point returns the empty
    string for a [null] or [undefined] source, given fuel for the two
    steps it takes: normalization maps the source to the empty text, whose
    single empty line yields no block. *)
Theorem C10_null_source (fuel : nat) (o : options) :
  2 <= fuel ->
  normalizeNewlines JNull = "" /\ normalizeNewlines JUndefined = ""
  /\ segment (fuel - 1) (splitLines JNull) 0 [] = Some []
  /\ segment (fuel - 1) (splitLines JUndefined) 0 [] = Some []
  /\ mdToHtml None fuel JNull o = Some ""
  /\ mdToHtml None fuel JUndefined o = Some "".
Proof.
  intros H. destruct fuel as [|[|fuel]]; try lia.
  repeat split; destruct fuel; reflexivity.
Qed.

Lemma C10_witness :
  mdToHtml None 2 JNull defaultOptions = Some ""
  /\ mdToHtml None 2 JUndefined defaultOptions = Some "".
Proof.
  pose proof (C10_null_source 2 defaultOptions ltac:(lia)) as H.
  split; [exact (proj1 (proj2 (proj2 (proj2 (proj2 H)))))
         | exact (proj2 (proj2 (proj2 (proj2 (proj2 H)))))].
Defined.

